(* ===== verification/_CoqProject ===== *)
-Q . S2P
Prelude.v
Protocol.v
Bodies.v
Fields.v
BodySpec.v
Body34.v
Extra34.v
Body50.v
Registry.v
Pdu.v
Framer.v
StateMachine.v
Pending.v
Slots.v
Encoding.v
Message.v
Receipt.v
Deadline.v
Host.v
Throttle.v
Receive.v
Panics.v
Metrics.v
Deferred.v
Dispatch.v
Server.v
Buffers.v
Transmit.v
WriteTimeout.v
Liveness.v
Requests.v
Exchange.v
Handshake.v
Callbacks.v
Events.v
Shutdown.v
Operations.v
Backoff.v
Client.v
Connections.v
Facade.v
Errors.v
Programs.v
