(* ===== verification/Prelude.v ===== *)
(** * A verification of go-smpp

    go-smpp is a Go library for the Short Message Peer-to-Peer protocol, versions
    3.4 and 5.0.  This development models its codec, its session layer, its message
    layer, its server and its client as executable definitions and proves the
    properties that make them correct.

    ** The program and its parts

    A [session.Session] owns one TCP connection.  Its receive loop reads octets
    and feeds them to a [codec.Framer], which cuts the stream into PDUs by their
    command_length; [codec.DecodePDU] decodes each with the decoders of a
    [codec.Registry].  A response completes the request in the pending table that
    has its sequence number; a request is checked against the state machine,
    handed to the application and answered with [codec.EncodePDU] through the
    transmit queue.  Requests of the application take a slot of the window, a
    sequence number and an entry of the pending table; deadlines are kept in a
    heap.  The message package splits long texts into segments and puts them
    together again, on top of the character encodings.  The server accepts
    connections, caps the sessions that do not bind and refuses hosts that fail too
    many binds.  The client owns one session at a time, and dials and binds again
    when it is lost.

    ** Which file models what

    - [Prelude]: results of Go code (value, error, panic), machine integers,
      slices, big-endian integers, and the lemmas on them that everything uses.
    - [Protocol], [Bodies]: the protocol package: constants, errors, states,
      versions, the bodies of PDUs, negotiated capabilities.
    - [Fields]: codec/fields.go, header.go, tlv.go: the reader with its position,
      the append functions, the header, TLVs; [wspec] and the reader
      specifications that the body codecs are proved with.
    - [BodySpec]: the class [BodyCodec], the contract between a command's codec and
      its users: soundness and completeness of the decoder with respect to a wire
      format, and what the encoder writes.
    - [Body34], [Extra34], [Body50]: smpp34.go, smpp34_extra.go, smpp50.go; one
      instance of [BodyCodec] per body.
    - [Registry]: registry.go and the standard tables; the class [StandardRegistry].
    - [Pdu]: pdu.go, recover.go, error_response.go, size_hint.go.
    - [Framer]: framer.go, and [deframe], what a stream means.
    - [StateMachine]: session/state.go, state_cancel.go.
    - [Pending]: modules [Sequence] (sequence.go), [Window] (window.go), [Table]
      (pending.go and its use by the session's goroutines) and [RTT].
    - [Slots]: window.go again, between its atomic operations.
    - [Encoding]: encoding/gsm7.go and unicode.go, with the parts of Go's utf8 and
      utf16 they use.
    - [Message]: message/message.go and udh16_unpacked.go.
    - [Receipt]: message/delivery_receipt.go.
    - [Deadline]: session/deadline.go with container/heap.
    - [Receive]: session/rx.go, negotiate.go, own.go, the answers of tx.go and
      inbound_reply.go, and [terminate].
    - [Deferred]: the interleavings of inbound_reply.go.
    - [Panics], [Metrics]: session/panic.go and observability.go: how a panic of a
      callback is reported, and the counters.
    - [Callbacks]: session/flow.go, and every place where a session calls the
      application: window observer, tracer, flow controller, loggers, connection, and
      the loops that recover from a panic.
    - [Events]: what the session counts and what it tells its observer, from rx.go,
      tx.go, liveness.go and [terminate], and the snapshot of the metrics.
    - [Buffers]: session/pool.go, and everybody who holds a buffer of the pool.
    - [Transmit]: txLoop of session/tx.go, [WriteFull] and [WriteBuffers] of
      transport/transport.go.
    - [WriteTimeout]: when txLoop sets the deadline of its writes again.
    - [Liveness]: session/liveness.go, with the interleavings of a session's life.
    - [Requests]: [New], [Request], [TryRequest] and [SendOneWay] of
      session/session.go, with the steps of the other goroutines ([task]).
    - [Exchange]: two sessions on one connection: the transmit loop of each, the
      connection and the receive loop of the other, composed from the files above.
    - [Handshake]: the same for the bind, with the versions the two ends negotiate and
      what the transmit loop commits to the state machine, and for the unbind.
    - [Shutdown]: the three goroutines of a session by the places where they block, the
      functions of the application included, with [Wait]; and [terminate] under its
      [sync.Once], when a function that it calls calls [Close].
    - [Operations]: session/operations.go; the functions are in module [Operation].
    - [Host], [Throttle]: server/unbound.go and ratelimit.go.
    - [Dispatch]: the request handler of server/server.go.
    - [Server]: the accept loop, the tables and [Close] of server/server.go.
    - [Backoff]: the reconnect policy of client/client.go, on float64 values.
    - [Client]: the rest of client/client.go; the sessions are those of [Requests],
      the binds those of [Operations].
    - [Connections]: dialling, listening and TLS of transport/transport.go, [Dial] and a
      whole reconnection attempt of the client, [Listen] and the accepted connections of the server,
      with the open descriptors as state.
    - [Facade]: the exported methods of sessions, clients and servers on pointers that
      may be nil or zero values, and the methods of the server that send on a session.
    - [Errors]: error values with their texts and causes (protocol/errors.go, panic.go,
      session/errors.go), [errors.Is] and [errors.As], and [erase], which turns them
      into the [GoError] of the other files.
    - [Programs]: cmd/smpp-sim, examples/smsc and examples/esme.

    ** How Go is modelled

    An octet is a [Z] from 0 to 255 and a []byte a list of them; integers are [Z],
    with the wrap-around written out where the code converts.  A nil slice is the
    empty list, as the code does not tell them apart.  Indexing or slicing out of
    range is [Panic], so a statement that excludes [Panic] shows that the code
    stays in bounds.  Interface values are [any], with typed nil pointers.
    Sentinel errors and error structs are [GoError], without their texts, which [Errors]
    adds.
    A method under a mutex is one function from state to state; what runs
    concurrently is a step relation between such functions ([Table.wstep],
    [Deferred.dstep], [Deadline.rstep], [Liveness.lstep], [Requests.task],
    [Dispatch.bstep], [Server.sstep], [Client.cstep], [Buffers.bufstep],
    [Shutdown.step]), at the grain
    of single atomic operations where the code is lock-free ([Sequence.seq_step],
    [Slots.gstep], [RTT.rtt_step], [Metrics.rtt_step]).  [Table] and the files on top of
    it take [acquire] and [release] of the window in one go: what they say of the window
    is its state when no call is in the middle of one, and [Slots] has the rest.  Shared heap objects are maps from addresses
    ([Table.reqs], the items of [Deadline], the sessions of [Client], the buffers of
    [Buffers]).  A float64 is
    a [spec_float] of the Standard Library, with 53 bits of precision.

    Parameters stand for what is not in the repository or not determined by it:
    the growth of [append], the order of map iteration, the callback of [Feed], the
    application's handler, authenticator and limiter, the connection, the net and tls
    packages, Go's [select], random numbers and the clock.  Their assumptions are hypotheses of the theorems
    ([handler_ok], [select_ok], [writes_ok], [interleaved]), shown satisfiable by a
    witness.

    ** What the theorems show

    - Codec: encoding then decoding gives back the PDU the sender meant, if it is one a
      receiver may get ([deliverable]; the encoder does not refuse the others), and the
      converse up to the octet; the decoder accepts exactly the wire format; it
      never panics on any octets, whatever the registered decoders do; its errors
      are ones the session can act on; a failed encode leaves the buffer alone;
      size hints are exact.
    - Framer: any chunking of a stream gives the PDUs of the stream; memory is
      bounded; a fatal error is final; truncation is detected.
    - Receive path: every frame gets exactly the answer it should; the stream, not
      its reads, decides; deferred replies are sent at most once and not lost.
    - Session state: the SMPP lifecycle, agreement of the two peers, rollback.
    - Requests: each is settled exactly once by its own response; the window is
      never overrun, its [InUse] is exact between calls and its [HighWater] is what the
      acquisitions found, which may exceed the capacity ([high_water_overshoots]); sequence numbers are unique within a cycle and found when
      there is room; round-trip times are recorded once.  A caller gets the answer
      to its own request and nothing else, whatever runs beside it (other callers
      included, [request_tasks]), and the body
      type its operation promises; a request that is not sent leaves nothing behind.
    - Transmit loop: the octets on the wire do not depend on the batches; writing
      terminates; every write has between half and all of its timeout.
    - Two sessions: the receive loop of one processes exactly what the transmit loop of
      the other took off its queue, however it is batched, written and cut; over the
      whole path every request gets the answer of the serving application to it.  A bind
      leaves both bound alike and agreeing on the version, or both as they were; an
      unbind ends both in good order.
    - Shutdown: once a session is over its goroutines return, and [Wait] with them, if
      the functions of the application that they are in return; [terminate] returns unless
      one of the functions it calls from its body calls [Close], and then it never does.
    - Buffers: none is in two hands, so what is written is what was encoded.
    - Panics and metrics: reporting a panic returns unless logger and observer both
      panic, in which case it does not ([report_never_returns]); a panic in any
      callback costs one call, and one in a loop ends its session in an orderly way; the
      statistics of round-trip times are exact without a lock; counters and events
      agree, and the counters of two peers with each other; a snapshot shows counts that
      were reached while it was taken.
    - Connections: none is leaked on any path of failure, but by a panic in a function of
      the TLS configuration.
    - Methods on nil, zero and closed sessions and clients do not panic and say so.
    - Errors: the predicates on [GoError] are what [errors.Is] and [errors.As] find, and
      the text of an error tells which error it is.
    - Timers: they behave as a set and none is missed; silence of the peer is
      noticed in time and nobody is cut off early; a request without an answer fails
      with a timeout.
    - Messages: texts and binaries survive splitting, carrying and reassembly in
      any order; characters are not cut; the encodings are exact inverses.
    - Delivery receipts: what is returned stands in the message; the conventional
      text is read back.
    - Server: a bind is accepted only if granted; nobody is refused without cause,
      and those who should be are; the tables agree with the sessions, the caps hold
      and [Close] ends everything.
    - Client: one live session at a time; a new one is bound, with the profile read when
      its bind began, before it is used; no
      waiter is forgotten; the delays are bounded and grow.  A panic of the application's
      code while dialling strands it ([panicked_dial_strands]).
    - Programs: the example SMSC answers as it should and gives no message_id twice; the
      lines of the simulator's report account for every submit.

    ** Fuel

    Loops that are not structural carry a fuel argument that starts at a bound on
    the rounds: the length of the data for the readers of TLVs and destinations,
    [WriteFull] and the splits (each round consumes an octet), two more than the length of
    the read for [Feed] (one round may emit a buffered PDU without consuming),
    the number of items for the heap operations.  The fuel of [reportPanic] is the
    depth of the stack, and two is enough; so it is for [terminate_run], whose [NoFuel] is
    told apart from a call that blocks.  The theorems state the results
    without a fuel argument, so they would fail if it ran out.

    ** What is not modelled

    The [Reason] of events and of decoding errors, which only repeats the error in
    words; how net, tls, flag, slog and os/signal work.  In [Shutdown] what a frame or an item does to the
    session is left to the other files: there it counts only whether the loop goes on,
    blocks or returns. *)

From stdpp Require Export base tactics list numbers strings gmap.
From Stdlib Require Export ZArith Lia.

#[global] Open Scope Z_scope.

(** * Results of Go code

    A Go function that may fail returns [(value, error)]; a function that
    indexes or slices out of range panics.  [outcome E A] has the three cases:
    a value, an error of type [E], or a run-time panic. *)

Inductive outcome (E A : Type) : Type :=
| Ok (a : A)
| Err (e : E)
| Panic.
Arguments Ok {E A} a.
Arguments Err {E A} e.
Arguments Panic {E A}.

#[export] Instance outcome_ret {E} : MRet (outcome E) := fun A a => Ok a.
#[export] Instance outcome_bind {E} : MBind (outcome E) :=
  fun A B f m => match m with Ok a => f a | Err e => Err e | Panic => Panic end.

Definition is_ok {E A} (m : outcome E A) : bool :=
  match m with Ok _ => true | _ => false end.

Definition not_panic {E A} (m : outcome E A) : Prop := m <> Panic.

Lemma bind_ok_inv {E A B} (m : outcome E A) (f : A -> outcome E B) b :
  (m ≫= f) = Ok b -> exists a, m = Ok a /\ f a = Ok b.
Proof. destruct m; cbn; intros H; try discriminate. eauto. Qed.

(** * Machine integers

    Unsigned integers are [Z] with the wrap-around of the conversion written
    out. *)

Definition u8 (z : Z) : Z := z mod 2 ^ 8.
Definition u16 (z : Z) : Z := z mod 2 ^ 16.
Definition u32 (z : Z) : Z := z mod 2 ^ 32.
Definition u64 (z : Z) : Z := z mod 2 ^ 64.

Abbreviation is_u8 z := (0 <= z < 256).
Abbreviation is_u16 z := (0 <= z < 65536).
Abbreviation is_u32 z := (0 <= z < 4294967296).

(** Signed ones wrap around to the other end. *)
Definition min_int64 : Z := - 2 ^ 63.
Definition max_int64 : Z := 2 ^ 63 - 1.
Definition is_i64 (z : Z) : Prop := min_int64 <= z <= max_int64.
Definition i64 (z : Z) : Z := (z + 2 ^ 63) mod 2 ^ 64 - 2 ^ 63.

Lemma i64_small z : is_i64 z -> i64 z = z.
Proof. unfold is_i64, min_int64, max_int64, i64. intros. rewrite Z.mod_small; lia. Qed.

Lemma u8_small z : is_u8 z -> u8 z = z.
Proof. intros. unfold u8. apply Z.mod_small. lia. Qed.
Lemma u16_small z : is_u16 z -> u16 z = z.
Proof. intros. unfold u16. apply Z.mod_small. lia. Qed.
Lemma u32_small z : is_u32 z -> u32 z = z.
Proof. intros. unfold u32. apply Z.mod_small. lia. Qed.
Lemma u32_range z : is_u32 (u32 z).
Proof. unfold u32. pose proof (Z.mod_pos_bound z (2 ^ 32)). lia. Qed.

(** * Octet strings *)

Abbreviation bytes := (list Z).
Abbreviation zlen l := (Z.of_nat (length l)).

Definition bytes_ok (l : bytes) : Prop := Forall (fun b => is_u8 b) l.

#[export] Instance bytes_ok_dec l : Decision (bytes_ok l).
Proof. unfold bytes_ok. apply _. Defined.

Lemma bytes_ok_app l1 l2 : bytes_ok (l1 ++ l2) <-> bytes_ok l1 /\ bytes_ok l2.
Proof. apply Forall_app. Qed.
Lemma bytes_ok_cons b l : bytes_ok (b :: l) <-> is_u8 b /\ bytes_ok l.
Proof. unfold bytes_ok. by rewrite Forall_cons. Qed.
Lemma bytes_ok_nil : bytes_ok [].
Proof. constructor. Qed.

(** ** Slicing

    [src[n:]], [src[:n]] and [src[i]] panic outside the bounds of [src]. *)

Definition slice_from {E} (src : bytes) (n : nat) : outcome E bytes :=
  if decide (n <= length src)%nat then Ok (drop n src) else Panic.
Definition slice_to {E} (src : bytes) (n : nat) : outcome E bytes :=
  if decide (n <= length src)%nat then Ok (take n src) else Panic.
Definition index {E} (src : bytes) (i : nat) : outcome E Z :=
  match src !! i with Some b => Ok b | None => Panic end.

(** ** Big-endian integers (encoding/binary) *)

Definition be16_get (b0 b1 : Z) : Z := 256 * b0 + b1.
Definition be32_get (b0 b1 b2 b3 : Z) : Z :=
  16777216 * b0 + 65536 * b1 + 256 * b2 + b3.
Definition be16_put (v : Z) : bytes := [u8 (v / 256); u8 v].
Definition be32_put (v : Z) : bytes :=
  [u8 (v / 16777216); u8 (v / 65536); u8 (v / 256); u8 v].

(** [binary.BigEndian.Uint16(src)] and [Uint32(src)]: they index the first two
    (four) octets and panic when [src] is shorter. *)
Definition Uint16 {E} (src : bytes) : outcome E Z :=
  match src with b0 :: b1 :: _ => Ok (be16_get b0 b1) | _ => Panic end.
Definition Uint32 {E} (src : bytes) : outcome E Z :=
  match src with
  | b0 :: b1 :: b2 :: b3 :: _ => Ok (be32_get b0 b1 b2 b3)
  | _ => Panic
  end.

Ltac zdiv := Z.div_mod_to_equations; lia.

Lemma be16_get_put v : is_u16 v -> be16_get (u8 (v / 256)) (u8 v) = v.
Proof. intros. unfold be16_get, u8. zdiv. Qed.
Lemma be32_get_put v : is_u32 v ->
  be32_get (u8 (v / 16777216)) (u8 (v / 65536)) (u8 (v / 256)) (u8 v) = v.
Proof. intros. unfold be32_get, u8. zdiv. Qed.
Lemma be16_get_range b0 b1 : is_u8 b0 -> is_u8 b1 -> is_u16 (be16_get b0 b1).
Proof. unfold be16_get. lia. Qed.
Lemma be32_get_range b0 b1 b2 b3 :
  is_u8 b0 -> is_u8 b1 -> is_u8 b2 -> is_u8 b3 -> is_u32 (be32_get b0 b1 b2 b3).
Proof. unfold be32_get. lia. Qed.
Lemma be16_put_get b0 b1 : is_u8 b0 -> is_u8 b1 ->
  be16_put (be16_get b0 b1) = [b0; b1].
Proof. intros. unfold be16_put, be16_get, u8. repeat f_equal; zdiv. Qed.
Lemma be32_put_get b0 b1 b2 b3 :
  is_u8 b0 -> is_u8 b1 -> is_u8 b2 -> is_u8 b3 ->
  be32_put (be32_get b0 b1 b2 b3) = [b0; b1; b2; b3].
Proof. intros. unfold be32_put, be32_get, u8. repeat f_equal; zdiv. Qed.
Lemma u8_range v : is_u8 (u8 v).
Proof. unfold u8. pose proof (Z.mod_pos_bound v (2 ^ 8)). lia. Qed.
Lemma be16_put_ok v : bytes_ok (be16_put v).
Proof. repeat constructor; apply u8_range. Qed.
Lemma be32_put_ok v : bytes_ok (be32_put v).
Proof. repeat constructor; apply u8_range. Qed.
Lemma be16_put_length v : length (be16_put v) = 2%nat.
Proof. reflexivity. Qed.
Lemma be32_put_length v : length (be32_put v) = 4%nat.
Proof. reflexivity. Qed.

(** Lengths of concatenations. *)
Create Rewrite HintDb len.
#[export] Hint Rewrite @length_app @length_cons @length_nil @length_take @length_drop
  be16_put_length be32_put_length : len.
Ltac len := autorewrite with len in *; lia.
