(* ===== verification/Protocol.v ===== *)
(** * The protocol package (src/protocol)

    Identifiers, status codes, sequence numbers, session states, versions,
    error values, capability negotiation and the big-endian helpers of
    [wire.go].  PDU bodies are in [Bodies]. *)

From S2P Require Import Prelude.

(** ** Constants *)

(* command.go: CommandID *)
Definition CommandGenericNACK : Z := 0x80000000.
Definition CommandBindReceiver : Z := 0x00000001.
Definition CommandBindReceiverResp : Z := 0x80000001.
Definition CommandBindTransmitter : Z := 0x00000002.
Definition CommandBindTransmitterResp : Z := 0x80000002.
Definition CommandQuerySM : Z := 0x00000003.
Definition CommandQuerySMResp : Z := 0x80000003.
Definition CommandSubmitSM : Z := 0x00000004.
Definition CommandSubmitSMResp : Z := 0x80000004.
Definition CommandDeliverSM : Z := 0x00000005.
Definition CommandDeliverSMResp : Z := 0x80000005.
Definition CommandUnbind : Z := 0x00000006.
Definition CommandUnbindResp : Z := 0x80000006.
Definition CommandReplaceSM : Z := 0x00000007.
Definition CommandReplaceSMResp : Z := 0x80000007.
Definition CommandCancelSM : Z := 0x00000008.
Definition CommandCancelSMResp : Z := 0x80000008.
Definition CommandBindTransceiver : Z := 0x00000009.
Definition CommandBindTransceiverResp : Z := 0x80000009.
Definition CommandOutbind : Z := 0x0000000B.
Definition CommandEnquireLink : Z := 0x00000015.
Definition CommandEnquireLinkResp : Z := 0x80000015.
Definition CommandSubmitMulti : Z := 0x00000021.
Definition CommandSubmitMultiResp : Z := 0x80000021.
Definition CommandAlertNotification : Z := 0x00000102.
Definition CommandDataSM : Z := 0x00000103.
Definition CommandDataSMResp : Z := 0x80000103.
Definition CommandBroadcastSM : Z := 0x00000111.
Definition CommandBroadcastSMResp : Z := 0x80000111.
Definition CommandQueryBroadcastSM : Z := 0x00000112.
Definition CommandQueryBroadcastSMResp : Z := 0x80000112.
Definition CommandCancelBroadcastSM : Z := 0x00000113.
Definition CommandCancelBroadcastSMResp : Z := 0x80000113.

(* status.go: CommandStatus *)
Definition StatusOK : Z := 0x00000000.
Definition StatusInvalidMessageLength : Z := 0x00000001.
Definition StatusInvalidCommandLength : Z := 0x00000002.
Definition StatusInvalidCommandID : Z := 0x00000003.
Definition StatusInvalidBindState : Z := 0x00000004.
Definition StatusAlreadyBound : Z := 0x00000005.
Definition StatusInvalidPriorityFlag : Z := 0x00000006.
Definition StatusInvalidRegisteredDeliveryFlag : Z := 0x00000007.
Definition StatusSystemError : Z := 0x00000008.
Definition StatusInvalidSourceAddress : Z := 0x0000000A.
Definition StatusInvalidDestinationAddress : Z := 0x0000000B.
Definition StatusInvalidMessageID : Z := 0x0000000C.
Definition StatusBindFailed : Z := 0x0000000D.
Definition StatusInvalidPassword : Z := 0x0000000E.
Definition StatusInvalidSystemID : Z := 0x0000000F.
Definition StatusCancelFailed : Z := 0x00000011.
Definition StatusReplaceFailed : Z := 0x00000013.
Definition StatusMessageQueueFull : Z := 0x00000014.
Definition StatusInvalidServiceType : Z := 0x00000015.
Definition StatusInvalidNumberOfDestinations : Z := 0x00000033.
Definition StatusInvalidDistributionListName : Z := 0x00000034.
Definition StatusInvalidDestinationFlag : Z := 0x00000040.
Definition StatusInvalidSubmitWithReplace : Z := 0x00000042.
Definition StatusInvalidESMClass : Z := 0x00000043.
Definition StatusCannotSubmitToDistributionList : Z := 0x00000044.
Definition StatusSubmitFailed : Z := 0x00000045.
Definition StatusInvalidSourceTON : Z := 0x00000048.
Definition StatusInvalidSourceNPI : Z := 0x00000049.
Definition StatusInvalidDestinationTON : Z := 0x00000050.
Definition StatusInvalidDestinationNPI : Z := 0x00000051.
Definition StatusInvalidSystemType : Z := 0x00000053.
Definition StatusInvalidReplaceFlag : Z := 0x00000054.
Definition StatusInvalidNumberOfMessages : Z := 0x00000055.
Definition StatusThrottled : Z := 0x00000058.
Definition StatusInvalidScheduledDeliveryTime : Z := 0x00000061.
Definition StatusInvalidValidityPeriod : Z := 0x00000062.
Definition StatusInvalidDefaultMessageID : Z := 0x00000063.
Definition StatusReceiverTemporaryAppError : Z := 0x00000064.
Definition StatusReceiverPermanentAppError : Z := 0x00000065.
Definition StatusReceiverRejectMessage : Z := 0x00000066.
Definition StatusQueryFailed : Z := 0x00000067.
Definition StatusInvalidOptionalParameterStream : Z := 0x000000C0.
Definition StatusOptionalParameterNotAllowed : Z := 0x000000C1.
Definition StatusInvalidParameterLength : Z := 0x000000C2.
Definition StatusMissingOptionalParameter : Z := 0x000000C3.
Definition StatusInvalidOptionalParameterValue : Z := 0x000000C4.
Definition StatusDeliveryFailure : Z := 0x000000FE.
Definition StatusUnknownError : Z := 0x000000FF.
Definition StatusServiceTypeUnauthorized : Z := 0x00000100.
Definition StatusProhibited : Z := 0x00000101.
Definition StatusServiceTypeUnavailable : Z := 0x00000102.
Definition StatusServiceTypeDenied : Z := 0x00000103.
Definition StatusInvalidDataCodingScheme : Z := 0x00000104.
Definition StatusInvalidSourceAddrSubunit : Z := 0x00000105.
Definition StatusInvalidDestAddrSubunit : Z := 0x00000106.
Definition StatusInvalidBroadcastFrequency : Z := 0x00000107.
Definition StatusInvalidBroadcastAliasName : Z := 0x00000108.
Definition StatusInvalidBroadcastAreaFormat : Z := 0x00000109.
Definition StatusInvalidNumberOfBroadcastAreas : Z := 0x0000010A.
Definition StatusInvalidBroadcastContentType : Z := 0x0000010B.
Definition StatusInvalidBroadcastMessageClass : Z := 0x0000010C.
Definition StatusBroadcastFailed : Z := 0x0000010D.
Definition StatusBroadcastQueryFailed : Z := 0x0000010E.
Definition StatusBroadcastCancelFailed : Z := 0x0000010F.
Definition StatusInvalidBroadcastRepetition : Z := 0x00000110.
Definition StatusInvalidBroadcastServiceGroup : Z := 0x00000111.
Definition StatusInvalidBroadcastChannel : Z := 0x00000112.

(* pdu.go: uint16 *)
Definition TLVTagDestAddrSubunit : Z := 0x0005.
Definition TLVTagDestNetworkType : Z := 0x0006.
Definition TLVTagDestBearerType : Z := 0x0007.
Definition TLVTagDestTelematicsID : Z := 0x0008.
Definition TLVTagSourceAddrSubunit : Z := 0x000D.
Definition TLVTagSourceNetworkType : Z := 0x000E.
Definition TLVTagSourceBearerType : Z := 0x000F.
Definition TLVTagSourceTelematicsID : Z := 0x0010.
Definition TLVTagQOSTimeToLive : Z := 0x0017.
Definition TLVTagPayloadType : Z := 0x0019.
Definition TLVTagAdditionalStatusInfoText : Z := 0x001D.
Definition TLVTagReceiptedMessageID : Z := 0x001E.
Definition TLVTagMSMsgWaitFacilities : Z := 0x0030.
Definition TLVTagPrivacyIndicator : Z := 0x0201.
Definition TLVTagSourceSubaddress : Z := 0x0202.
Definition TLVTagDestSubaddress : Z := 0x0203.
Definition TLVTagUserMessageReference : Z := 0x0204.
Definition TLVTagUserResponseCode : Z := 0x0205.
Definition TLVTagSourcePort : Z := 0x020A.
Definition TLVTagDestinationPort : Z := 0x020B.
Definition TLVTagSARMsgRefNum : Z := 0x020C.
Definition TLVTagLanguageIndicator : Z := 0x020D.
Definition TLVTagSARTotalSegments : Z := 0x020E.
Definition TLVTagSARSegmentSeqnum : Z := 0x020F.
Definition TLVTagSCInterfaceVersion : Z := 0x0210.
Definition TLVTagCallbackNumPresInd : Z := 0x0302.
Definition TLVTagCallbackNumAtag : Z := 0x0303.
Definition TLVTagNumberOfMessages : Z := 0x0304.
Definition TLVTagCallbackNum : Z := 0x0381.
Definition TLVTagDPFResult : Z := 0x0420.
Definition TLVTagSetDPF : Z := 0x0421.
Definition TLVTagMSAvailabilityStatus : Z := 0x0422.
Definition TLVTagNetworkErrorCode : Z := 0x0423.
Definition TLVTagMessagePayload : Z := 0x0424.
Definition TLVTagDeliveryFailureReason : Z := 0x0425.
Definition TLVTagMoreMessagesToSend : Z := 0x0426.
Definition TLVTagMessageState : Z := 0x0427.
Definition TLVTagCongestionState : Z := 0x0428.
Definition TLVTagUSSDServiceOp : Z := 0x0501.
Definition TLVTagBroadcastChannelIndicator : Z := 0x0600.
Definition TLVTagBroadcastContentType : Z := 0x0601.
Definition TLVTagBroadcastContentTypeInfo : Z := 0x0602.
Definition TLVTagBroadcastMessageClass : Z := 0x0603.
Definition TLVTagBroadcastRepNum : Z := 0x0604.
Definition TLVTagBroadcastFrequencyInterval : Z := 0x0605.
Definition TLVTagBroadcastAreaIdentifier : Z := 0x0606.
Definition TLVTagBroadcastErrorStatus : Z := 0x0607.
Definition TLVTagBroadcastAreaSuccess : Z := 0x0608.
Definition TLVTagBroadcastEndTime : Z := 0x0609.
Definition TLVTagBroadcastServiceGroup : Z := 0x060A.
Definition TLVTagBillingIdentification : Z := 0x060B.
Definition TLVTagSourceNetworkID : Z := 0x060D.
Definition TLVTagDestNetworkID : Z := 0x060E.
Definition TLVTagSourceNodeID : Z := 0x060F.
Definition TLVTagDestNodeID : Z := 0x0610.
Definition TLVTagDestAddrNPResolution : Z := 0x0611.
Definition TLVTagDestAddrNPInformation : Z := 0x0612.
Definition TLVTagDestAddrNPCountry : Z := 0x0613.
Definition TLVTagDisplayTime : Z := 0x1201.
Definition TLVTagSMSSignal : Z := 0x1203.
Definition TLVTagMSValidity : Z := 0x1204.
Definition TLVTagAlertOnMessageDelivery : Z := 0x130C.
Definition TLVTagITSReplyType : Z := 0x1380.
Definition TLVTagITSSessionInfo : Z := 0x1383.

(* address.go: TON *)
Definition TONUnknown : Z := 0x00.
Definition TONInternational : Z := 0x01.
Definition TONNational : Z := 0x02.
Definition TONNetworkSpecific : Z := 0x03.
Definition TONSubscriberNumber : Z := 0x04.
Definition TONAlphanumeric : Z := 0x05.
Definition TONAbbreviated : Z := 0x06.

(* address.go: NPI *)
Definition NPIUnknown : Z := 0x00.
Definition NPIISDN : Z := 0x01.
Definition NPIData : Z := 0x03.
Definition NPITelex : Z := 0x04.
Definition NPILandMobile : Z := 0x06.
Definition NPINational : Z := 0x08.
Definition NPIPrivate : Z := 0x09.
Definition NPIERMES : Z := 0x0A.
Definition NPIInternet : Z := 0x0E.
Definition NPIWAPClientID : Z := 0x12.

(* data_coding.go: DataCoding *)
Definition DataCodingSMSCDefault : Z := 0x00.
Definition DataCodingIA5 : Z := 0x01.
Definition DataCodingOctetBinary1 : Z := 0x02.
Definition DataCodingLatin1 : Z := 0x03.
Definition DataCodingOctetBinary2 : Z := 0x04.
Definition DataCodingJIS : Z := 0x05.
Definition DataCodingCyrillic : Z := 0x06.
Definition DataCodingLatinHebrew : Z := 0x07.
Definition DataCodingUCS2 : Z := 0x08.
Definition DataCodingPictogram : Z := 0x09.
Definition DataCodingISO2022JP : Z := 0x0A.
Definition DataCodingExtendedKanji : Z := 0x0D.
Definition DataCodingKSC5601 : Z := 0x0E.

(* pdu34_extra.go: MessageState *)
Definition MessageStateEnroute : Z := 1.
Definition MessageStateDelivered : Z := 2.
Definition MessageStateExpired : Z := 3.
Definition MessageStateDeleted : Z := 4.
Definition MessageStateUndeliverable : Z := 5.
Definition MessageStateAccepted : Z := 6.
Definition MessageStateUnknown : Z := 7.
Definition MessageStateRejected : Z := 8.

(* pdu34_extra.go: DestinationFlag *)
Definition DestinationSME : Z := 1.
Definition DestinationDistributionList : Z := 2.

(* sequence.go: SequenceNumber *)
Definition SequenceMin : Z := 0x00000001.
Definition SequenceOutboundMax : Z := 0x7FFFFFFF.
Definition SequenceInboundMax : Z := 0xFFFFFFFF.

(* version.go: InterfaceVersion *)
Definition InterfaceVersion34 : Z := 0x34.
Definition InterfaceVersion50 : Z := 0x50.

Definition TLVTagFailedBroadcastAreaIdentifier : Z := TLVTagBroadcastAreaIdentifier.

(** ** command.go: the response bit *)

Definition responseMask : Z := 0x80000000.

Definition IsResponse (c : Z) : bool := negb (Z.land c responseMask =? 0).
Definition RequestID (c : Z) : Z := Z.ldiff c responseMask.
Definition ResponseID (c : Z) : Z := Z.lor c responseMask.

(** ** status.go *)

Definition OK (s : Z) : bool := s =? StatusOK.

(** ** sequence.go *)

Definition ValidInbound (s : Z) : bool := (SequenceMin <=? s) && (s <=? SequenceInboundMax).
Definition SequenceValid (s : Z) : bool := ValidInbound s.
Definition ValidOutbound (s : Z) : bool := (SequenceMin <=? s) && (s <=? SequenceOutboundMax).

(** ** session_state.go *)

Inductive SessionState : Set :=
| StateClosed | StateOpen | StateOutbound | StateBoundTX | StateBoundRX
| StateBoundTRX | StateUnbound.

#[export] Instance SessionState_eq_dec : EqDecision SessionState.
Proof. solve_decision. Defined.

Definition SessionState_String (s : SessionState) : string :=
  match s with
  | StateClosed => "Closed"
  | StateOpen => "Open"
  | StateOutbound => "Outbound"
  | StateBoundTX => "Bound_TX"
  | StateBoundRX => "Bound_RX"
  | StateBoundTRX => "Bound_TRX"
  | StateUnbound => "Unbound"
  end.

(** ** version.go *)

Record Profile := MkProfile { InterfaceVersion : Z }.

Definition SMPP34Profile : Profile := MkProfile InterfaceVersion34.
Definition SMPP50Profile : Profile := MkProfile InterfaceVersion50.
Definition ProfileValid (p : Profile) : bool :=
  (InterfaceVersion p =? InterfaceVersion34) || (InterfaceVersion p =? InterfaceVersion50).
Definition SupportsOptionalParameters (p : Profile) : bool := ProfileValid p.
Definition IsSMPP50 (p : Profile) : bool := InterfaceVersion p =? InterfaceVersion50.

(** ** pdu50.go *)

Definition CongestionStateValid (c : Z) : bool := c <=? 100.

(** ** errors.go, panic.go and the sentinel errors

    The text of an error ([Reason], [fmt.Errorf] formats) is diagnostic only
    and left to Errors.v; a sentinel wrapped by [fmt.Errorf("%w ...")] is that
    sentinel, as [errors.Is] sees it.  No code of the repository sets
    [FatalError.Cause]. *)

Inductive FatalErrorKind : Set :=
| FatalUnknown | FatalInvalidCommandLength | FatalPDUTooLarge | FatalTruncatedFrame
| FatalInvalidFieldLength | FatalInvalidCString | FatalInvalidTLVLength
| FatalFrameBoundaryLost.

#[export] Instance FatalErrorKind_eq_dec : EqDecision FatalErrorKind.
Proof. solve_decision. Defined.

Definition FatalErrorKind_String (k : FatalErrorKind) : string :=
  match k with
  | FatalInvalidCommandLength => "invalid_command_length"
  | FatalPDUTooLarge => "pdu_too_large"
  | FatalTruncatedFrame => "truncated_frame"
  | FatalInvalidFieldLength => "invalid_field_length"
  | FatalInvalidCString => "invalid_c_octet_string"
  | FatalInvalidTLVLength => "invalid_tlv_length"
  | FatalFrameBoundaryLost => "frame_boundary_lost"
  | FatalUnknown => "unknown_fatal_protocol_error"
  end.

Record FatalError := MkFatalError {
  fe_Kind : FatalErrorKind;
  fe_DeclaredLength : Z;
  fe_Command : Z;
  fe_Sequence : Z
}.

Inductive sentinel : Set :=
| ErrInvalidCongestionState
| ErrShortBuffer | ErrInvalidCommandLength | ErrInvalidMaxPDUSize | ErrFieldTooLong
| ErrEmbeddedNUL | ErrTLVValueTooLong | ErrCodecNotInitialized
| ErrRegistryFrozen | ErrDuplicateCommand | ErrDuplicateTLV | ErrUnknownCommand
| ErrUnknownTLV | ErrInvalidRegistryMode | ErrInvalidRegistryDefinition
| ErrInvalidPDUValue | ErrPDUFrameLengthMismatch | ErrConflictingMessageData
| ErrUnrepresentableRune | ErrInvalidGSM7 | ErrInvalidUnicode
| ErrInvalidSegments | ErrInvalidUDH | ErrInvalidSAR
| ErrNotDeliveryReceipt | ErrInvalidDeliveryReceipt
| ErrSessionClosed | ErrInvalidConfig | ErrPendingLimit | ErrWindowFull
| ErrSequenceInUse | ErrSequenceExhausted | ErrBindInProgress | ErrUnexpectedPDU
| ErrUnsupportedCapability | ErrNotInitialized
| ErrDeferredResponseLimit | ErrDeferredResponseUnknown | ErrDeferredResponseBusy
| ErrInvalidResponseAction.

#[export] Instance sentinel_eq_dec : EqDecision sentinel.
Proof. solve_decision. Defined.

(** [EOther id inner] is an error value of caller-supplied code that may wrap
    another error; [ELoss cause] is a [*LossError], [EResponse] a
    [*ResponseError], [ETimeout] a [*TimeoutError] with the number of its kind;
    [EPanic source] is a [*PanicError].  The panic value itself is not kept, so code that panics with an error value is seen like code that
    panics with any other value. *)
Inductive GoError : Type :=
| EFatal (f : FatalError)
| ESemantic (status command sequence : Z) (cause : option GoError)
| ESentinel (s : sentinel)
| EPanic (source : string)
| EResponse (command status sequence : Z)
| ETimeout (kind command sequence after : Z)
| ELoss (cause : GoError)
| EOther (id : Z) (inner : option GoError).

Abbreviation res := (outcome GoError).

(** [errors.As(err, &fatal)]: the first [*FatalError] on the unwrap chain. *)
Fixpoint as_fatal (e : GoError) : option FatalError :=
  match e with
  | EFatal f => Some f
  | ESemantic _ _ _ (Some e') => as_fatal e'
  | ELoss e' => as_fatal e'
  | EOther _ (Some e') => as_fatal e'
  | _ => None
  end.

(** [errors.As(err, &semantic)], as its [Status]. *)
Fixpoint as_semantic (e : GoError) : option Z :=
  match e with
  | ESemantic st _ _ _ => Some st
  | ELoss e' => as_semantic e'
  | EOther _ (Some e') => as_semantic e'
  | _ => None
  end.

Definition is_fatal (e : GoError) : bool :=
  match as_fatal e with Some _ => true | None => false end.

(** [errors.As(err, &panicErr)]. *)
Fixpoint is_panic (e : GoError) : bool :=
  match e with
  | EPanic _ => true
  | ESemantic _ _ _ (Some e') => is_panic e'
  | ELoss e' => is_panic e'
  | EOther _ (Some e') => is_panic e'
  | _ => false
  end.

(** [errors.Is(err, s)] for a sentinel [s]. *)
Fixpoint is_sentinel (s : sentinel) (e : GoError) : bool :=
  match e with
  | ESentinel s' => bool_decide (s = s')
  | ESemantic _ _ _ (Some e') => is_sentinel s e'
  | ELoss e' => is_sentinel s e'
  | EOther _ (Some e') => is_sentinel s e'
  | _ => false
  end.

(** A [*FatalError] with only its [Kind] set. *)
Definition fatal (k : FatalErrorKind) : GoError := EFatal (MkFatalError k 0 0 0).

(** ** wire.go *)

Definition Uint32Size : nat := 4.

(** [PutUint32] returns the updated destination, [None] for [false]. *)
Definition wire_PutUint32 (dst : bytes) (value : Z) : option bytes :=
  if decide (length dst < Uint32Size)%nat then None
  else Some (be32_put value ++ drop Uint32Size dst).

Definition wire_ReadUint32 (src : bytes) : option Z :=
  match src with
  | b0 :: b1 :: b2 :: b3 :: _ => Some (be32_get b0 b1 b2 b3)
  | _ => None
  end.
