(* ===== verification/Bodies.v ===== *)
(** * PDU bodies and capabilities (src/protocol)

    One record per body struct, with the source's fields in the source's
    order.  [any] is the dynamic type of a body in the codec's interfaces: nil,
    a value, a non-nil pointer to a value, or a typed nil pointer.  Byte slices
    are lists, so a nil and an empty slice are the same value. *)

From S2P Require Import Prelude Protocol.

Record OptionalParameter := MkOptionalParameter {
  op_Tag : Z;
  op_Value : bytes
}.

Record OptionalResponse := MkOptionalResponse {
  or_Optional : list OptionalParameter
}.

Record BindRequest := MkBindRequest {
  brq_SystemID : bytes;
  brq_Password : bytes;
  brq_SystemType : bytes;
  brq_InterfaceVersion : Z;
  brq_AddressTON : Z;
  brq_AddressNPI : Z;
  brq_AddressRange : bytes
}.

Record BindResponse := MkBindResponse {
  brs_SystemID : bytes;
  brs_Optional : list OptionalParameter
}.

Record SubmitSM := MkSubmitSM {
  ssm_ServiceType : bytes;
  ssm_SourceAddrTON : Z;
  ssm_SourceAddrNPI : Z;
  ssm_SourceAddr : bytes;
  ssm_DestAddrTON : Z;
  ssm_DestAddrNPI : Z;
  ssm_DestinationAddr : bytes;
  ssm_ESMClass : Z;
  ssm_ProtocolID : Z;
  ssm_PriorityFlag : Z;
  ssm_ScheduleDeliveryTime : bytes;
  ssm_ValidityPeriod : bytes;
  ssm_RegisteredDelivery : Z;
  ssm_ReplaceIfPresentFlag : Z;
  ssm_DataCoding : Z;
  ssm_SMDefaultMsgID : Z;
  ssm_ShortMessage : bytes;
  ssm_Optional : list OptionalParameter
}.

Record SubmitSMResp := MkSubmitSMResp {
  ssr_MessageID : bytes;
  ssr_Optional : list OptionalParameter
}.

Record DeliverSM := MkDeliverSM {
  dsm_ServiceType : bytes;
  dsm_SourceAddrTON : Z;
  dsm_SourceAddrNPI : Z;
  dsm_SourceAddr : bytes;
  dsm_DestAddrTON : Z;
  dsm_DestAddrNPI : Z;
  dsm_DestinationAddr : bytes;
  dsm_ESMClass : Z;
  dsm_ProtocolID : Z;
  dsm_PriorityFlag : Z;
  dsm_ScheduleDeliveryTime : bytes;
  dsm_ValidityPeriod : bytes;
  dsm_RegisteredDelivery : Z;
  dsm_ReplaceIfPresentFlag : Z;
  dsm_DataCoding : Z;
  dsm_SMDefaultMsgID : Z;
  dsm_ShortMessage : bytes;
  dsm_Optional : list OptionalParameter
}.

Record DeliverSMResp := MkDeliverSMResp {
  dsr_MessageID : bytes;
  dsr_Optional : list OptionalParameter
}.

Record SubmitMultiDestination := MkSubmitMultiDestination {
  smd_Flag : Z;
  smd_TON : Z;
  smd_NPI : Z;
  smd_Address : bytes
}.

Record UnsuccessfulSME := MkUnsuccessfulSME {
  use_DestAddrTON : Z;
  use_DestAddrNPI : Z;
  use_DestinationAddr : bytes;
  use_ErrorStatusCode : Z
}.

Record SubmitMulti := MkSubmitMulti {
  smu_ServiceType : bytes;
  smu_SourceAddrTON : Z;
  smu_SourceAddrNPI : Z;
  smu_SourceAddr : bytes;
  smu_Destinations : list SubmitMultiDestination;
  smu_ESMClass : Z;
  smu_ProtocolID : Z;
  smu_PriorityFlag : Z;
  smu_ScheduleDeliveryTime : bytes;
  smu_ValidityPeriod : bytes;
  smu_RegisteredDelivery : Z;
  smu_ReplaceIfPresentFlag : Z;
  smu_DataCoding : Z;
  smu_SMDefaultMsgID : Z;
  smu_ShortMessage : bytes;
  smu_Optional : list OptionalParameter
}.

Record SubmitMultiResp := MkSubmitMultiResp {
  smr_MessageID : bytes;
  smr_Unsuccessful : list UnsuccessfulSME;
  smr_Optional : list OptionalParameter
}.

Record DataSM := MkDataSM {
  dat_ServiceType : bytes;
  dat_SourceAddrTON : Z;
  dat_SourceAddrNPI : Z;
  dat_SourceAddr : bytes;
  dat_DestAddrTON : Z;
  dat_DestAddrNPI : Z;
  dat_DestinationAddr : bytes;
  dat_ESMClass : Z;
  dat_RegisteredDelivery : Z;
  dat_DataCoding : Z;
  dat_Optional : list OptionalParameter
}.

Record DataSMResp := MkDataSMResp {
  dar_MessageID : bytes;
  dar_Optional : list OptionalParameter
}.

Record QuerySM := MkQuerySM {
  qsm_MessageID : bytes;
  qsm_SourceAddrTON : Z;
  qsm_SourceAddrNPI : Z;
  qsm_SourceAddr : bytes
}.

Record QuerySMResp := MkQuerySMResp {
  qsr_MessageID : bytes;
  qsr_FinalDate : bytes;
  qsr_MessageState : Z;
  qsr_ErrorCode : Z;
  qsr_Optional : list OptionalParameter
}.

Record CancelSM := MkCancelSM {
  csm_ServiceType : bytes;
  csm_MessageID : bytes;
  csm_SourceAddrTON : Z;
  csm_SourceAddrNPI : Z;
  csm_SourceAddr : bytes;
  csm_DestAddrTON : Z;
  csm_DestAddrNPI : Z;
  csm_DestinationAddr : bytes
}.

Record ReplaceSM := MkReplaceSM {
  rsm_MessageID : bytes;
  rsm_SourceAddrTON : Z;
  rsm_SourceAddrNPI : Z;
  rsm_SourceAddr : bytes;
  rsm_ScheduleDeliveryTime : bytes;
  rsm_ValidityPeriod : bytes;
  rsm_RegisteredDelivery : Z;
  rsm_SMDefaultMsgID : Z;
  rsm_ShortMessage : bytes
}.

Record AlertNotification := MkAlertNotification {
  aln_SourceAddrTON : Z;
  aln_SourceAddrNPI : Z;
  aln_SourceAddr : bytes;
  aln_ESMEAddrTON : Z;
  aln_ESMEAddrNPI : Z;
  aln_ESMEAddr : bytes;
  aln_Optional : list OptionalParameter
}.

Record Outbind := MkOutbind {
  obd_SystemID : bytes;
  obd_Password : bytes
}.

Record BroadcastSM := MkBroadcastSM {
  bsm_ServiceType : bytes;
  bsm_SourceAddrTON : Z;
  bsm_SourceAddrNPI : Z;
  bsm_SourceAddr : bytes;
  bsm_MessageID : bytes;
  bsm_PriorityFlag : Z;
  bsm_ScheduleDeliveryTime : bytes;
  bsm_ValidityPeriod : bytes;
  bsm_ReplaceIfPresentFlag : Z;
  bsm_DataCoding : Z;
  bsm_SMDefaultMsgID : Z;
  bsm_Optional : list OptionalParameter
}.

Record BroadcastSMResp := MkBroadcastSMResp {
  bsr_MessageID : bytes;
  bsr_Optional : list OptionalParameter
}.

Record QueryBroadcastSM := MkQueryBroadcastSM {
  qbs_MessageID : bytes;
  qbs_SourceAddrTON : Z;
  qbs_SourceAddrNPI : Z;
  qbs_SourceAddr : bytes;
  qbs_Optional : list OptionalParameter
}.

Record QueryBroadcastSMResp := MkQueryBroadcastSMResp {
  qbr_MessageID : bytes;
  qbr_Optional : list OptionalParameter
}.

Record CancelBroadcastSM := MkCancelBroadcastSM {
  cbs_ServiceType : bytes;
  cbs_MessageID : bytes;
  cbs_SourceAddrTON : Z;
  cbs_SourceAddrNPI : Z;
  cbs_SourceAddr : bytes;
  cbs_Optional : list OptionalParameter
}.

(** ** Dynamic values

    [VRawBody] is [codec.RawBody].  [VOther optional] is a value of any other
    Go type; [optional] is what the reflection in [optionalParametersOf] finds
    in it ([[]] when it has no [Optional] field). *)

Inductive pdu_value : Type :=
| VEmptyBody
| VOptionalResponse (v : OptionalResponse)
| VBindRequest (v : BindRequest)
| VBindResponse (v : BindResponse)
| VSubmitSM (v : SubmitSM)
| VSubmitSMResp (v : SubmitSMResp)
| VDeliverSM (v : DeliverSM)
| VDeliverSMResp (v : DeliverSMResp)
| VSubmitMulti (v : SubmitMulti)
| VSubmitMultiResp (v : SubmitMultiResp)
| VDataSM (v : DataSM)
| VDataSMResp (v : DataSMResp)
| VQuerySM (v : QuerySM)
| VQuerySMResp (v : QuerySMResp)
| VCancelSM (v : CancelSM)
| VReplaceSM (v : ReplaceSM)
| VAlertNotification (v : AlertNotification)
| VOutbind (v : Outbind)
| VBroadcastSM (v : BroadcastSM)
| VBroadcastSMResp (v : BroadcastSMResp)
| VQueryBroadcastSM (v : QueryBroadcastSM)
| VQueryBroadcastSMResp (v : QueryBroadcastSMResp)
| VCancelBroadcastSM (v : CancelBroadcastSM)
| VRawBody (v : bytes)
| VOther (optional : list OptionalParameter).

(** The pointee type of a typed nil pointer, as far as the codec tells types
    apart there: a nil [*EmptyBody] is accepted where an empty body is, a nil
    pointer to any other type is [ErrInvalidPDUValue]. *)
Inductive pdu_kind : Set :=
| KEmptyBody | KOtherType.

Inductive any : Type :=
| ANil
| AVal (v : pdu_value)
| APtr (v : pdu_value)
| ANilPtr (k : pdu_kind).

(** ** capabilities.go *)

Record PeerCapabilities := MkPeerCapabilities {
  PeerVersion : Z;
  NegotiatedVersion : Z;
  VersionAdvertised : bool;
  SupportsTLV : bool;
  SupportsSMPP50 : bool
}.

Definition zeroCapabilities : PeerCapabilities := MkPeerCapabilities 0 0 false false false.

Definition NegotiatePeerCapabilities (local : Profile) (peer : Z) (advertised : bool)
    : PeerCapabilities :=
  if negb (ProfileValid local) || negb advertised
  then MkPeerCapabilities peer 0 advertised false false
  else if peer =? InterfaceVersion34
  then MkPeerCapabilities peer InterfaceVersion34 advertised true false
  else if peer =? InterfaceVersion50
  then if InterfaceVersion local =? InterfaceVersion50
       then MkPeerCapabilities peer InterfaceVersion50 advertised true true
       else MkPeerCapabilities peer InterfaceVersion34 advertised true false
  else MkPeerCapabilities peer 0 advertised false false.

(** [None] is the source's [(0, false)]. *)
Fixpoint SCInterfaceVersion (optional : list OptionalParameter) : option Z :=
  match optional with
  | [] => None
  | p :: rest =>
      if op_Tag p =? TLVTagSCInterfaceVersion
      then match op_Value p with [v] => Some v | _ => SCInterfaceVersion rest end
      else SCInterfaceVersion rest
  end.

(** The triple [(state, present, err)]. *)
Fixpoint CongestionStateFromOptional (optional : list OptionalParameter)
    : Z * bool * option GoError :=
  match optional with
  | [] => (0, false, None)
  | p :: rest =>
      if negb (op_Tag p =? TLVTagCongestionState) then CongestionStateFromOptional rest
      else match op_Value p with
           | [state] =>
               if CongestionStateValid state then (state, true, None)
               else (state, true, Some (ESentinel ErrInvalidCongestionState))
           | _ => (0, true, Some (ESentinel ErrInvalidCongestionState))
           end
  end.
