(* ===== verification/Fields.v ===== *)
(** * Field, header and TLV primitives (src/codec: fields.go, header.go, tlv.go)

    Readers take the remaining input and return the value with the number of
    octets consumed; writers append to a destination.  The second half has the
    [bodyReader] of smpp34.go as a state monad over checked slices, and the
    specification of every primitive in terms of the octets it stands for. *)

From S2P Require Import Prelude Protocol Bodies.

(** ** fields.go *)

Definition ReadUint8 (src : bytes) : res (Z * nat) :=
  match src with
  | [] => Err (fatal FatalInvalidFieldLength)
  | b :: _ => Ok (b, 1%nat)
  end.

Definition ReadUint16 (src : bytes) : res (Z * nat) :=
  if decide (length src < 2)%nat then Err (fatal FatalInvalidFieldLength)
  else v ← Uint16 src; Ok (v, 2%nat).

Definition ReadUint32 (src : bytes) : res (Z * nat) :=
  if decide (length src < 4)%nat then Err (fatal FatalInvalidFieldLength)
  else v ← Uint32 src; Ok (v, 4%nat).

Definition PutUint8 (dst : bytes) (value : Z) : res bytes :=
  match dst with
  | [] => Err (ESentinel ErrShortBuffer)
  | _ :: rest => Ok (value :: rest)
  end.

Definition PutUint16 (dst : bytes) (value : Z) : res bytes :=
  if decide (length dst < 2)%nat then Err (ESentinel ErrShortBuffer)
  else Ok (be16_put value ++ drop 2 dst).

Definition PutUint32 (dst : bytes) (value : Z) : res bytes :=
  if decide (length dst < 4)%nat then Err (ESentinel ErrShortBuffer)
  else Ok (be32_put value ++ drop 4 dst).

(** [bytes.IndexByte(s, c)], [None] for -1. *)
Fixpoint IndexByte (s : bytes) (c : Z) : option nat :=
  match s with
  | [] => None
  | b :: s' => if b =? c then Some 0%nat else S <$> IndexByte s' c
  end.

Definition ReadCString (src : bytes) (maxEncodedLen : Z) : res (bytes * nat) :=
  let limit := length src in
  let limit := if (0 <? maxEncodedLen) && (maxEncodedLen <? Z.of_nat limit)
               then Z.to_nat maxEncodedLen else limit in
  if decide (limit = 0)%nat then Err (fatal FatalInvalidCString) else
  window ← slice_to src limit;
  match IndexByte window 0 with
  | None => Err (fatal FatalInvalidCString)
  | Some idx => value ← slice_to src idx; Ok (value, S idx)
  end.

Definition ReadOctets (src : bytes) (n : Z) : res (bytes * nat) :=
  if (n <? 0) || (zlen src <? n) then Err (fatal FatalInvalidFieldLength)
  else value ← slice_to src (Z.to_nat n); Ok (value, Z.to_nat n).

(** A writer appends to its destination; on an error it also returns the
    destination it had built so far. *)
Abbreviation wres := (outcome (bytes * GoError) bytes).
Definition W : Type := bytes -> wres.

Definition wseq (w1 w2 : W) : W := fun dst => d ← w1 dst; w2 d.
Infix ">>>" := wseq (at level 61, left associativity).

Definition wfail (s : sentinel) : W := fun dst => Err (dst, ESentinel s).
Definition wnil : W := fun dst => Ok dst.

(** [append(dst, b...)], and [AppendOctets]. *)
Definition AppendOctets (value : bytes) : W := fun dst => Ok (dst ++ value).

Definition AppendCString (value : bytes) (maxEncodedLen : Z) : W := fun dst =>
  match IndexByte value 0 with
  | Some _ => Err (dst, ESentinel ErrEmbeddedNUL)
  | None =>
      if (0 <? maxEncodedLen) && (maxEncodedLen <? zlen value + 1)
      then Err (dst, ESentinel ErrFieldTooLong)
      else Ok ((dst ++ value) ++ [0])
  end.

(** ** header.go *)

Definition HeaderSize : nat := 16.

Record Header := MkHeader {
  CommandLength : Z;
  CommandID : Z;
  CommandStatus : Z;
  SequenceNumber : Z
}.

Definition DecodeHeader (src : bytes) : res Header :=
  if decide (length src < HeaderSize)%nat then Err (fatal FatalTruncatedFrame) else
  length ← Uint32 src;
  id ← slice_from src 4 ≫= Uint32;
  status ← slice_from src 8 ≫= Uint32;
  sequence ← slice_from src 12 ≫= Uint32;
  if length <? Z.of_nat HeaderSize
  then Err (EFatal (MkFatalError FatalInvalidCommandLength length id sequence))
  else Ok (MkHeader length id status sequence).

(** The destination after the write; only its first 16 octets change. *)
Definition EncodeHeader (dst : bytes) (h : Header) : res bytes :=
  if decide (length dst < HeaderSize)%nat then Err (ESentinel ErrShortBuffer)
  else if CommandLength h <? Z.of_nat HeaderSize then Err (ESentinel ErrInvalidCommandLength)
  else Ok (be32_put (CommandLength h) ++ be32_put (CommandID h) ++
           be32_put (CommandStatus h) ++ be32_put (SequenceNumber h) ++
           drop HeaderSize dst).

(** ** tlv.go *)

Definition TLVHeaderSize : nat := 4.

(** [codec.TLV] has the fields of [protocol.OptionalParameter], and its values
    are always converted to it. *)
Abbreviation TLV := OptionalParameter.

(** The body of the loop of [ScanTLVs] at [src[offset:]]: an error, or the TLV
    and what follows it. *)
Definition scan_one (src : bytes) : res (TLV * bytes) :=
  if decide (length src < TLVHeaderSize)%nat then Err (fatal FatalInvalidTLVLength) else
  tag ← Uint16 src;
  len ← slice_from src 2 ≫= Uint16;
  if zlen src - Z.of_nat TLVHeaderSize <? len then Err (fatal FatalInvalidTLVLength) else
  rest ← slice_from src TLVHeaderSize;
  value ← slice_to rest (Z.to_nat len);
  rest ← slice_from rest (Z.to_nat len);
  Ok (MkOptionalParameter tag value, rest).

(** [ScanTLVs] with a stateful visitor: [visit s tlv] returns the new state and
    whether to go on.  Every iteration consumes at least four octets, so
    [length src] iterations are enough ([ScanTLVs_step]). *)
Fixpoint ScanTLVs_loop {S} (fuel : nat) (src : bytes) (visit : S -> TLV -> S * bool) (s : S)
    : res S :=
  match src with
  | [] => Ok s
  | _ :: _ =>
      match fuel with
      | O => Panic
      | S fuel =>
          '(tlv, rest) ← scan_one src;
          let (s', continue) := visit s tlv in
          if continue then ScanTLVs_loop fuel rest visit s' else Ok s'
      end
  end.

Definition ScanTLVs {S} (src : bytes) (visit : S -> TLV -> S * bool) (s : S) : res S :=
  ScanTLVs_loop (length src) src visit s.

(** The visitor of [ParseTLVs] and [bodyReader.optional]: append and go on. *)
Definition collect (out : list TLV) (tlv : TLV) : list TLV * bool := (out ++ [tlv], true).

Definition ParseTLVs (src : bytes) : res (list TLV) := ScanTLVs src collect [].

Definition AppendTLV (tag : Z) (value : bytes) : W := fun dst =>
  if 65535 <? zlen value then Err (dst, ESentinel ErrTLVValueTooLong)
  else Ok (((dst ++ be16_put tag) ++ be16_put (u16 (zlen value))) ++ value).

(** [appendOptional] of smpp34.go. *)
Fixpoint appendOptional (optional : list OptionalParameter) : W :=
  match optional with
  | [] => wnil
  | p :: rest => AppendTLV (op_Tag p) (op_Value p) >>> appendOptional rest
  end.

(** ** bodyReader (smpp34.go, smpp34_extra.go) *)

Record bodyReader := MkReader { src : bytes; off : nat }.

Definition R (A : Type) : Type := bodyReader -> res (A * bodyReader).

#[export] Instance R_ret : MRet R := fun A a r => Ok (a, r).
#[export] Instance R_bind : MBind R := fun A B f m r => '(a, r') ← m r; f a r'.

Definition R_fail {A} (e : GoError) : R A := fun _ => Err e.

(** [value, n, err := f(r.src[r.off:]); r.off += n]. *)
Definition R_prim {A} (f : bytes -> res (A * nat)) : R A := fun r =>
  rest ← slice_from (src r) (off r);
  '(v, n) ← f rest;
  Ok (v, MkReader (src r) (off r + n)).

Definition cString (maxEncodedLen : Z) : R bytes := R_prim (fun s => ReadCString s maxEncodedLen).
Definition uint8 : R Z := R_prim ReadUint8.
Definition uint32 : R Z := R_prim ReadUint32.
Definition octets (n : Z) : R bytes := R_prim (fun s => ReadOctets s n).

Definition optional : R (list OptionalParameter) := fun r =>
  if decide (off r = length (src r)) then Ok ([], r) else
  remaining ← slice_from (src r) (off r);
  parameters ← ScanTLVs remaining collect [];
  Ok (parameters, MkReader (src r) (length (src r))).

Definition semantic (status : Z) (s : sentinel) : GoError :=
  ESemantic status 0 0 (Some (ESentinel s)).

Definition requireDone : R unit := fun r =>
  if decide (off r = length (src r)) then Ok (tt, r)
  else Err (semantic StatusInvalidCommandLength ErrInvalidPDUValue).

(** A fresh reader on [body], run to its value. *)
Definition R_run {A} (m : R A) (body : bytes) : res A :=
  '(a, _) ← m (MkReader body 0); Ok a.

(** ** Wire formats

    What the octets of each field are, independently of how they are read or
    written. *)

Definition cstr (v : bytes) : bytes := v ++ [0].
Definition no_nul (v : bytes) : Prop := Forall (fun b => b <> 0) v.
Definition valid_cstr (max : Z) (v : bytes) : Prop := no_nul v /\ zlen v + 1 <= max.

Definition wire_tlv (p : TLV) : bytes :=
  be16_put (op_Tag p) ++ be16_put (zlen (op_Value p)) ++ op_Value p.
Definition wire_tlvs (o : list TLV) : bytes := concat (map wire_tlv o).
Definition valid_tlv (p : TLV) : Prop := is_u16 (op_Tag p) /\ zlen (op_Value p) <= 65535.
Definition valid_tlvs (o : list TLV) : Prop := Forall valid_tlv o.

Definition wire_header (h : Header) : bytes :=
  be32_put (CommandLength h) ++ be32_put (CommandID h) ++
  be32_put (CommandStatus h) ++ be32_put (SequenceNumber h).
Definition header_ok (h : Header) : Prop :=
  is_u32 (CommandLength h) /\ is_u32 (CommandID h) /\
  is_u32 (CommandStatus h) /\ is_u32 (SequenceNumber h).

#[export] Instance no_nul_dec v : Decision (no_nul v).
Proof. unfold no_nul. apply _. Defined.
#[export] Instance valid_cstr_dec m v : Decision (valid_cstr m v).
Proof. unfold valid_cstr. apply _. Defined.
#[export] Instance valid_tlv_dec p : Decision (valid_tlv p).
Proof. unfold valid_tlv. apply _. Defined.
#[export] Instance valid_tlvs_dec o : Decision (valid_tlvs o).
Proof. unfold valid_tlvs. apply _. Defined.

(** ** Primitives against their formats *)

Lemma IndexByte_none s c : IndexByte s c = None <-> Forall (fun b => b <> c) s.
Proof.
  induction s as [|b s IH]; cbn; [split; [constructor|done]|].
  rewrite Forall_cons. destruct (Z.eqb_spec b c).
  - naive_solver.
  - rewrite <- IH. destruct (IndexByte s c); cbn; naive_solver.
Qed.

Lemma IndexByte_some s c i :
  IndexByte s c = Some i ->
  exists v rest, s = v ++ c :: rest /\ length v = i /\ Forall (fun b => b <> c) v.
Proof.
  revert i. induction s as [|b s IH]; cbn; [done|]. intros i.
  destruct (Z.eqb_spec b c) as [->|Hne].
  - intros [= <-]. exists [], s. repeat split; constructor.
  - destruct (IndexByte s c) as [j|]; cbn; intros [= <-].
    destruct (IH j eq_refl) as (v & rest & -> & <- & Hv).
    exists (b :: v), rest. repeat split. by constructor.
Qed.

Lemma IndexByte_app v c rest :
  Forall (fun b => b <> c) v -> IndexByte (v ++ c :: rest) c = Some (length v).
Proof.
  induction 1 as [|b v Hb _ IH]; cbn.
  - by rewrite Z.eqb_refl.
  - rewrite IH. by destruct (Z.eqb_spec b c).
Qed.

Lemma slice_to_ok {E} src n :
  (n <= length src)%nat -> slice_to (E:=E) src n = Ok (take n src).
Proof. intros. unfold slice_to. by rewrite decide_True. Qed.
Lemma slice_from_ok {E} src n :
  (n <= length src)%nat -> slice_from (E:=E) src n = Ok (drop n src).
Proof. intros. unfold slice_from. by rewrite decide_True. Qed.

(** [ReadCString] with a positive maximum accepts exactly the inputs that start
    with a terminated string of that size, and never panics. *)
Lemma ReadCString_complete v rest m :
  valid_cstr m v -> ReadCString (cstr v ++ rest) m = Ok (v, S (length v)).
Proof.
  intros [Hnul Hlen]. unfold ReadCString, cstr.
  set (s := (v ++ [0]) ++ rest).
  assert (Hs : (length s = length v + 1 + length rest)%nat)
    by (unfold s; rewrite !length_app; cbn; lia).
  set (limit := if _ && _ then _ else _).
  assert (Hl : (length v < limit <= length s)%nat).
  { unfold limit. destruct (Z.ltb_spec 0 m), (Z.ltb_spec m (zlen s)); cbn; lia. }
  rewrite decide_False by lia. rewrite slice_to_ok by lia. cbn.
  assert (Ht : take limit s = v ++ 0 :: take (limit - length v - 1) rest).
  { unfold s. rewrite <- app_assoc. rewrite take_app_ge by lia. f_equal.
    destruct (limit - length v)%nat eqn:Hd; [lia|]. cbn. by rewrite Nat.sub_0_r. }
  rewrite Ht, IndexByte_app by done. cbn. rewrite slice_to_ok by lia. cbn.
  unfold s. by rewrite <- app_assoc, take_app_length.
Qed.

Lemma ReadCString_sound s m :
  0 < m ->
  match ReadCString s m with
  | Ok (v, n) => valid_cstr m v /\ n = S (length v) /\ exists rest, s = cstr v ++ rest
  | Err e => e = fatal FatalInvalidCString
  | Panic => False
  end.
Proof.
  intros Hm. unfold ReadCString.
  set (limit := if _ && _ then _ else _).
  assert (Hl : (limit <= length s)%nat /\ Z.of_nat limit <= m).
  { unfold limit. destruct (Z.ltb_spec 0 m), (Z.ltb_spec m (zlen s)); cbn; lia. }
  destruct (decide (limit = 0)%nat); [done|].
  rewrite slice_to_ok by lia. cbn.
  destruct (IndexByte (take limit s) 0) as [i|] eqn:Hi; [|done].
  apply IndexByte_some in Hi as (v & rest & Hs & <- & Hv).
  assert (Hlv : (length v < limit)%nat).
  { assert (length (take limit s) <= limit)%nat by (rewrite length_take; lia).
    rewrite Hs, length_app in H. cbn in H. lia. }
  rewrite slice_to_ok by lia. cbn.
  rewrite <- (take_drop limit s), Hs, <- app_assoc, take_app_length.
  repeat split; [done|lia|]. exists (rest ++ drop limit s).
  unfold cstr. by rewrite <- !app_assoc.
Qed.

Lemma AppendCString_spec v m dst :
  0 < m ->
  match AppendCString v m dst with
  | Ok d => valid_cstr m v /\ d = dst ++ cstr v
  | Err (d, e) => d = dst /\ ~ valid_cstr m v /\
      (e = ESentinel ErrEmbeddedNUL \/ e = ESentinel ErrFieldTooLong)
  | Panic => False
  end.
Proof.
  intros Hm. unfold AppendCString, cstr.
  destruct (IndexByte v 0) eqn:Hi.
  - repeat split; [|by left]. intros [Hn _]. apply IndexByte_none in Hn. congruence.
  - apply IndexByte_none in Hi. destruct (Z.ltb_spec 0 m); [|lia]. cbn.
    destruct (Z.ltb_spec m (zlen v + 1)).
    + repeat split; [|by right]. intros [_ ?]. lia.
    + split; [split; [done|lia]|]. by rewrite <- app_assoc.
Qed.

Lemma Uint16_put {E} v rest : is_u16 v -> Uint16 (E:=E) (be16_put v ++ rest) = Ok v.
Proof. intros. cbn. by rewrite be16_get_put. Qed.
Lemma Uint32_put {E} v rest : is_u32 v -> Uint32 (E:=E) (be32_put v ++ rest) = Ok v.
Proof. intros. cbn. by rewrite be32_get_put. Qed.

(** ** TLV scanning *)

Lemma wire_tlv_length p : (length (wire_tlv p) = 4 + length (op_Value p))%nat.
Proof. unfold wire_tlv. rewrite !length_app. cbn. lia. Qed.

Lemma scan_one_complete p rest :
  valid_tlv p -> scan_one (wire_tlv p ++ rest) = Ok (p, rest).
Proof.
  intros [Ht Hl]. destruct p as [tag v]; cbn [op_Tag op_Value] in Ht, Hl. unfold scan_one.
  rewrite decide_False by (rewrite length_app, wire_tlv_length; unfold TLVHeaderSize; lia).
  unfold wire_tlv. cbn [op_Tag op_Value]. rewrite <- !app_assoc.
  rewrite Uint16_put by done. cbn [mbind outcome_bind].
  rewrite (slice_from_ok _ 2) by len. cbn [mbind outcome_bind].
  change (drop 2 (be16_put tag ++ be16_put (zlen v) ++ v ++ rest))
    with (be16_put (zlen v) ++ v ++ rest).
  rewrite Uint16_put by lia. cbn [mbind outcome_bind].
  destruct (Z.ltb_spec (zlen (be16_put tag ++ be16_put (zlen v) ++ v ++ rest)
                        - Z.of_nat TLVHeaderSize) (zlen v)) as [Hlt|_].
  { unfold TLVHeaderSize in Hlt. len. }
  rewrite slice_from_ok by (unfold TLVHeaderSize; len).
  cbn [mbind outcome_bind].
  change (drop TLVHeaderSize (be16_put tag ++ be16_put (zlen v) ++ v ++ rest))
    with (v ++ rest).
  rewrite Nat2Z.id, slice_to_ok, slice_from_ok by len.
  cbn. by rewrite take_app_length, drop_app_length.
Qed.

(** What the scanner accepts is the wire form of the TLV it returns. *)
Lemma scan_one_sound s :
  bytes_ok s ->
  match scan_one s with
  | Ok (p, rest) => valid_tlv p /\ s = wire_tlv p ++ rest
  | Err e => e = fatal FatalInvalidTLVLength
  | Panic => False
  end.
Proof.
  intros Hok. unfold scan_one, TLVHeaderSize.
  destruct (decide _) as [|Hn]; [done|].
  destruct s as [|t0 [|t1 [|l0 [|l1 s]]]]; try (cbn in Hn; lia).
  repeat apply bytes_ok_cons in Hok as [? Hok].
  cbn [Uint16 mbind outcome_bind].
  rewrite (slice_from_ok _ 2) by (cbn; lia). cbn [drop skipn Uint16 mbind outcome_bind].
  pose proof (be16_get_range l0 l1 H1 H2). set (len := be16_get l0 l1) in *.
  destruct (_ <? len) eqn:Hlen; [done|]. apply Z.ltb_ge in Hlen. cbn [length] in Hlen.
  rewrite slice_from_ok by (cbn; lia). cbn [drop skipn mbind outcome_bind]. rewrite drop_0.
  rewrite slice_to_ok, slice_from_ok by lia. cbn [mbind outcome_bind].
  unfold valid_tlv, wire_tlv; cbn [op_Tag op_Value].
  rewrite length_take.
  replace (Z.of_nat (Z.to_nat len `min` length s)) with len by lia.
  assert (Hput : be16_put len = [l0; l1]) by (unfold len; by apply be16_put_get).
  rewrite Hput, be16_put_get by done. cbn -[len]. rewrite take_drop. pose proof (be16_get_range t0 t1 H H0). split; [lia|done].
Qed.

Lemma scan_one_consumes s p rest :
  scan_one s = Ok (p, rest) -> (length rest < length s)%nat.
Proof.
  unfold scan_one. destruct (decide _) as [|Hn]; [done|]. intros H.
  apply bind_ok_inv in H as (tag & _ & H). apply bind_ok_inv in H as (len & _ & H).
  case_match; [done|].
  apply bind_ok_inv in H as (r1 & H1 & H). apply bind_ok_inv in H as (v & _ & H).
  apply bind_ok_inv in H as (r2 & H2 & [= _ <-]).
  unfold slice_from, TLVHeaderSize in *. repeat case_decide; simplify_eq.
  rewrite !length_drop. lia.
Qed.

Lemma scan_one_not_panic s : not_panic (scan_one s).
Proof.
  unfold not_panic, scan_one, TLVHeaderSize. destruct (decide _) as [|Hn]; [done|].
  destruct s as [|t0 [|t1 [|l0 [|l1 s]]]]; try (cbn in Hn; lia).
  cbn [Uint16 mbind outcome_bind].
  rewrite (slice_from_ok _ 2) by (cbn; lia). cbn [drop skipn Uint16 mbind outcome_bind].
  set (len := be16_get l0 l1).
  destruct (_ <? len) eqn:Hlen; [done|]. apply Z.ltb_ge in Hlen. cbn [length] in Hlen.
  rewrite slice_from_ok by (cbn; lia). cbn [drop skipn mbind outcome_bind]. rewrite drop_0.
  by rewrite slice_to_ok, slice_from_ok by lia.
Qed.

(** More fuel than [length src] changes nothing. *)
Lemma ScanTLVs_loop_fuel {S} fuel1 fuel2 src visit (s : S) :
  (length src <= fuel1)%nat -> (length src <= fuel2)%nat ->
  ScanTLVs_loop fuel1 src visit s = ScanTLVs_loop fuel2 src visit s.
Proof.
  revert fuel2 src s. induction fuel1 as [|f1 IH]; intros f2 src s H1 H2.
  - destruct src; cbn in *; [by destruct f2|lia].
  - destruct f2 as [|f2]; [destruct src; cbn in *; [done|lia]|].
    destruct src as [|b src]; [done|]. cbn -[scan_one].
    destruct (scan_one (b :: src)) as [[tlv rest]| |] eqn:Hs; [|done|done].
    apply scan_one_consumes in Hs. cbn -[scan_one] in *.
    destruct (visit s tlv) as [s' []]; [|done]. apply IH; lia.
Qed.

(** The loop of [ScanTLVs], one iteration unfolded, without fuel. *)
Lemma ScanTLVs_step {S} src visit (s : S) :
  ScanTLVs src visit s =
  match src with
  | [] => Ok s
  | _ :: _ =>
      '(tlv, rest) ← scan_one src;
      let (s', continue) := visit s tlv in
      if continue then ScanTLVs rest visit s' else Ok s'
  end.
Proof.
  unfold ScanTLVs. destruct src as [|b src]; [done|]. cbn -[scan_one].
  destruct (scan_one (b :: src)) as [[tlv rest]| |] eqn:Hs; [|done|done]. cbn -[scan_one].
  apply scan_one_consumes in Hs. destruct (visit s tlv) as [s' []]; [|done].
  apply ScanTLVs_loop_fuel; cbn in Hs; lia.
Qed.

Lemma ScanTLVs_collect_complete o acc :
  valid_tlvs o -> ScanTLVs (wire_tlvs o) collect acc = Ok (acc ++ o).
Proof.
  intros Hv. revert acc. induction Hv as [|p o Hp Hv IH]; intros acc.
  - rewrite ScanTLVs_step. by rewrite app_nil_r.
  - unfold wire_tlvs. cbn [map concat]. fold (wire_tlvs o). rewrite ScanTLVs_step.
    rewrite scan_one_complete by done.
    destruct (wire_tlv p ++ wire_tlvs o) eqn:He.
    { apply app_eq_nil in He as [He _]. apply (f_equal length) in He.
      rewrite wire_tlv_length in He. cbn in He. lia. }
    cbn. rewrite IH. by rewrite <- app_assoc.
Qed.

Lemma ScanTLVs_collect_sound n src acc :
  (length src <= n)%nat -> bytes_ok src ->
  match ScanTLVs src collect acc with
  | Ok out => exists o, out = acc ++ o /\ valid_tlvs o /\ src = wire_tlvs o
  | Err e => e = fatal FatalInvalidTLVLength
  | Panic => False
  end.
Proof.
  revert src acc. induction n as [|n IH]; intros src acc Hn Hok; rewrite ScanTLVs_step;
    (destruct src as [|b src];
     [by exists []; rewrite app_nil_r; repeat split; constructor|]); cbn in Hn; [lia|].
  pose proof (scan_one_sound _ Hok) as Hs.
  destruct (scan_one (b :: src)) as [[p rest]| |] eqn:Hone; [|done|done].
  destruct Hs as [Hp Hsrc]. apply scan_one_consumes in Hone. cbn [mbind outcome_bind collect].
  rewrite Hsrc in Hok. apply bytes_ok_app in Hok as [_ Hok].
  cbn in Hone. specialize (IH rest (acc ++ [p]) ltac:(lia) Hok).
  destruct (ScanTLVs rest collect (acc ++ [p])); [|done..].
  destruct IH as (o & -> & Hv & ->).
  exists (p :: o). rewrite Hsrc, <- app_assoc. repeat split. by constructor.
Qed.

Lemma AppendTLV_spec tag v dst :
  match AppendTLV tag v dst with
  | Ok d => zlen v <= 65535 /\ d = dst ++ wire_tlv (MkOptionalParameter tag v)
  | Err (d, e) => d = dst /\ 65535 < zlen v /\ e = ESentinel ErrTLVValueTooLong
  | Panic => False
  end.
Proof.
  unfold AppendTLV. destruct (Z.ltb_spec 65535 (zlen v)); [done|].
  split; [lia|]. unfold wire_tlv; cbn [op_Tag op_Value].
  rewrite u16_small by lia. by rewrite <- !app_assoc.
Qed.

Lemma appendOptional_spec o dst :
  Forall (fun p => is_u16 (op_Tag p)) o ->
  match appendOptional o dst with
  | Ok d => valid_tlvs o /\ d = dst ++ wire_tlvs o
  | Err (d, e) => (exists junk, d = dst ++ junk) /\ ~ valid_tlvs o /\
                  e = ESentinel ErrTLVValueTooLong
  | Panic => False
  end.
Proof.
  intros Ht. revert dst. induction Ht as [|p o Hp _ IH]; intros dst.
  - cbn. split; [constructor|]. by rewrite app_nil_r.
  - cbn -[AppendTLV]. unfold wseq. pose proof (AppendTLV_spec (op_Tag p) (op_Value p) dst) as Hs.
    destruct p as [tag v]. cbn [op_Tag op_Value] in *.
    destruct (AppendTLV tag v dst) as [d|[d e]|]; cbn [mbind outcome_bind]; [| |done].
    + destruct Hs as [Hl ->]. specialize (IH (dst ++ wire_tlv (MkOptionalParameter tag v))).
      destruct (appendOptional o _) as [d|[d e]|]; [| |done].
      * destruct IH as [Hv ->]. split; [constructor; [split; cbn; lia|done]|].
        by rewrite <- app_assoc.
      * destruct IH as ((junk & ->) & Hn & ->). repeat split.
        { eexists. by rewrite <- app_assoc. }
        intros Hv. by inversion Hv.
    + destruct Hs as (-> & Hl & ->). repeat split.
      * exists []. by rewrite app_nil_r.
      * intros Hv. inversion Hv as [|? ? [_ Hb]]. cbn in Hb. lia.
Qed.

(** ** The bodyReader as a program logic

    [at_ r s]: the reader is inside its source and [s] is what is left.
    [wp m r Q]: [m] does not panic at [r]; if it succeeds, [Q] holds of its
    value and of the reader it leaves; if it fails, the error is one the session
    can act on.  [ex m r Q]: [m] succeeds at [r] with [Q]. *)

Definition at_ (r : bodyReader) (s : bytes) : Prop :=
  (off r <= length (src r))%nat /\ drop (off r) (src r) = s.

(** A decode error: fatal, or semantic with a status to answer with. *)
Definition decode_error (e : GoError) : Prop :=
  is_fatal e = true \/ exists st, as_semantic e = Some st /\ st <> 0.

Definition wp {A} (m : R A) (r : bodyReader) (Q : A -> bodyReader -> Prop) : Prop :=
  match m r with Ok (a, r') => Q a r' | Err e => decode_error e | Panic => False end.

Definition ex {A} (m : R A) (r : bodyReader) (Q : A -> bodyReader -> Prop) : Prop :=
  match m r with Ok (a, r') => Q a r' | Err _ => False | Panic => False end.

Section reader_logic.
Context {A B : Type}.
Implicit Types (r : bodyReader) (s : bytes).

Lemma wp_bind (m : R A) (f : A -> R B) r Q :
  wp m r (fun a r' => wp (f a) r' Q) -> wp (m ≫= f) r Q.
Proof. unfold wp, mbind, R_bind. by destruct (m r) as [[a r']| |]. Qed.
Lemma ex_bind (m : R A) (f : A -> R B) r Q :
  ex m r (fun a r' => ex (f a) r' Q) -> ex (m ≫= f) r Q.
Proof. unfold ex, mbind, R_bind. by destruct (m r) as [[a r']| |]. Qed.
Lemma wp_ret (a : A) r (Q : A -> bodyReader -> Prop) : Q a r -> wp (mret a) r Q.
Proof. done. Qed.
Lemma ex_ret (a : A) r (Q : A -> bodyReader -> Prop) : Q a r -> ex (mret a) r Q.
Proof. done. Qed.
Lemma wp_fail e r (Q : A -> bodyReader -> Prop) : decode_error e -> wp (R_fail e) r Q.
Proof. done. Qed.

Lemma at_prim (f : bytes -> res (A * nat)) r s :
  at_ r s ->
  R_prim f r = ('(v, n) ← f s; Ok (v, MkReader (src r) (off r + n))).
Proof. intros [Hle <-]. unfold R_prim. by rewrite slice_from_ok by lia. Qed.

Lemma at_advance r s x rest n :
  at_ r s -> s = x ++ rest -> n = length x -> at_ (MkReader (src r) (off r + n)) rest.
Proof.
  intros [Hle Hd] -> ->. split; cbn.
  - assert (length (drop (off r) (src r)) = length (x ++ rest)) by congruence. len.
  - rewrite <- drop_drop, Hd. by rewrite drop_app_length.
Qed.

Lemma at_start body : at_ (MkReader body 0) body.
Proof. split; [cbn; lia|done]. Qed.

Lemma at_end r s : at_ r s -> (off r = length (src r))%nat <-> s = [].
Proof.
  intros [Hle <-]. split.
  - intros ->. by rewrite drop_all.
  - intros Hd. apply (f_equal length) in Hd. len.
Qed.

Lemma fatal_decode_error k : decode_error (fatal k).
Proof. by left. Qed.
Lemma semantic_decode_error st c : st <> 0 -> decode_error (semantic st c).
Proof. right. by exists st. Qed.
End reader_logic.

Section reader_specs.
Implicit Types (r : bodyReader) (s : bytes).

Lemma wp_uint8 r s Q :
  at_ r s -> (forall b s' r', s = b :: s' -> at_ r' s' -> Q b r') -> wp uint8 r Q.
Proof.
  intros Hat HQ. unfold wp, uint8. rewrite (at_prim _ _ _ Hat).
  destruct s as [|b s]; [by left|]. cbn. eapply HQ; [done|].
  by apply (at_advance _ _ [b] _ _ Hat).
Qed.
Lemma ex_uint8 r b s Q :
  at_ r (b :: s) -> (forall r', at_ r' s -> Q b r') -> ex uint8 r Q.
Proof.
  intros Hat HQ. unfold ex, uint8. rewrite (at_prim _ _ _ Hat). cbn. apply HQ.
  by apply (at_advance _ _ [b] _ _ Hat).
Qed.

Lemma wp_uint32 r s Q :
  at_ r s -> bytes_ok s ->
  (forall v s' r', is_u32 v -> s = be32_put v ++ s' -> at_ r' s' -> Q v r') -> wp uint32 r Q.
Proof.
  intros Hat Hok HQ. unfold wp, uint32. rewrite (at_prim _ _ _ Hat). unfold ReadUint32.
  destruct (decide _) as [|Hn]; [by left|].
  destruct s as [|b0 [|b1 [|b2 [|b3 s]]]]; try (cbn in Hn; lia).
  repeat apply bytes_ok_cons in Hok as [? Hok]. cbn [Uint32 mbind outcome_bind].
  apply (HQ _ s).
  - by apply be32_get_range.
  - by rewrite be32_put_get.
  - by apply (at_advance _ _ [b0; b1; b2; b3] _ _ Hat).
Qed.
Lemma ex_uint32 r v s Q :
  is_u32 v -> at_ r (be32_put v ++ s) -> (forall r', at_ r' s -> Q v r') -> ex uint32 r Q.
Proof.
  intros Hv Hat HQ. unfold ex, uint32. rewrite (at_prim _ _ _ Hat). unfold ReadUint32.
  rewrite decide_False by len. rewrite Uint32_put by done. cbn. apply HQ.
  by eapply (at_advance _ _ _ _ _ Hat).
Qed.

Lemma wp_cString m r s Q :
  0 < m -> at_ r s ->
  (forall v s' r', valid_cstr m v -> s = cstr v ++ s' -> at_ r' s' -> Q v r') ->
  wp (cString m) r Q.
Proof.
  intros Hm Hat HQ. unfold wp, cString. rewrite (at_prim _ _ _ Hat).
  pose proof (ReadCString_sound s m Hm) as Hs.
  destruct (ReadCString s m) as [[v n]|e|]; [|subst; by left|done].
  destruct Hs as (Hv & -> & rest & ->). cbn. apply (HQ _ rest); [done..|].
  eapply (at_advance _ _ _ _ _ Hat); [done|]. unfold cstr. len.
Qed.
Lemma ex_cString m r v s Q :
  valid_cstr m v -> at_ r (cstr v ++ s) -> (forall r', at_ r' s -> Q v r') ->
  ex (cString m) r Q.
Proof.
  intros Hv Hat HQ. unfold ex, cString. rewrite (at_prim _ _ _ Hat).
  rewrite ReadCString_complete by done. cbn. apply HQ.
  eapply (at_advance _ _ _ _ _ Hat); [done|]. unfold cstr. len.
Qed.

Lemma wp_octets n r s Q :
  0 <= n -> at_ r s ->
  (forall v s' r', zlen v = n -> s = v ++ s' -> at_ r' s' -> Q v r') -> wp (octets n) r Q.
Proof.
  intros Hn Hat HQ. unfold wp, octets. rewrite (at_prim _ _ _ Hat). unfold ReadOctets.
  destruct (_ || _) eqn:Hb; [by left|].
  apply orb_false_iff in Hb as [_ Hb%Z.ltb_ge].
  rewrite slice_to_ok by lia. cbn. apply (HQ _ (drop (Z.to_nat n) s)).
  - len.
  - by rewrite take_drop.
  - eapply (at_advance _ _ (take (Z.to_nat n) s) _ _ Hat); [by rewrite take_drop|len].
Qed.
Lemma ex_octets n r v s Q :
  n = zlen v -> at_ r (v ++ s) -> (forall r', at_ r' s -> Q v r') -> ex (octets n) r Q.
Proof.
  intros -> Hat HQ. unfold ex, octets. rewrite (at_prim _ _ _ Hat). unfold ReadOctets.
  destruct (_ || _) eqn:Hb.
  { apply orb_true_iff in Hb as [Hb%Z.ltb_lt|Hb%Z.ltb_lt]; len. }
  rewrite Nat2Z.id, slice_to_ok by len. cbn. rewrite take_app_length. apply HQ.
  by eapply (at_advance _ _ _ _ _ Hat).
Qed.

Lemma wp_optional r s Q :
  at_ r s -> bytes_ok s ->
  (forall o r', valid_tlvs o -> s = wire_tlvs o -> at_ r' [] -> Q o r') -> wp optional r Q.
Proof.
  intros Hat Hok HQ. unfold wp, optional.
  destruct (decide _) as [He|He].
  - apply (at_end _ _ Hat) in He as ->. apply HQ; [constructor|done|done].
  - destruct (Hat) as [Hle Hd]. rewrite slice_from_ok, Hd by lia. cbn [mbind outcome_bind].
    pose proof (ScanTLVs_collect_sound (length s) s [] ltac:(done) Hok) as Hs.
    destruct (ScanTLVs s collect []) as [out|e|]; [|subst; by left|done].
    destruct Hs as (o & -> & Hv & ->). apply HQ; [done..|].
    split; cbn; [lia|apply drop_all].
Qed.
Lemma ex_optional r o Q :
  valid_tlvs o -> at_ r (wire_tlvs o) -> (forall r', at_ r' [] -> Q o r') -> ex optional r Q.
Proof.
  intros Hv Hat HQ. unfold ex, optional.
  destruct (decide _) as [He|He].
  - apply (at_end _ _ Hat) in He.
    destruct Hv as [|p o Hp Hv].
    + apply HQ. by rewrite He in Hat.
    + apply (f_equal length) in He. unfold wire_tlvs in He. cbn [map concat] in He.
      rewrite length_app, wire_tlv_length in He. cbn in He. lia.
  - destruct (Hat) as [Hle Hd]. rewrite slice_from_ok, Hd by lia. cbn [mbind outcome_bind].
    rewrite ScanTLVs_collect_complete by done. cbn. apply HQ.
    split; cbn; [lia|apply drop_all].
Qed.

Lemma wp_requireDone r s Q :
  at_ r s -> (s = [] -> Q tt r) -> wp requireDone r Q.
Proof.
  intros Hat HQ. unfold wp, requireDone. destruct (decide _) as [He|He].
  - apply HQ. by apply (at_end _ _ Hat).
  - by apply semantic_decode_error.
Qed.
Lemma ex_requireDone r Q : at_ r [] -> Q tt r -> ex requireDone r Q.
Proof.
  intros Hat HQ. unfold ex, requireDone.
  rewrite decide_True; [done|by apply (at_end _ _ Hat)].
Qed.
End reader_specs.

Lemma wp_run {A} (m : R A) body (Q : A -> Prop) :
  wp m (MkReader body 0) (fun a _ => Q a) ->
  match R_run m body with Ok a => Q a | Err e => decode_error e | Panic => False end.
Proof. unfold wp, R_run. by destruct (m _) as [[a r]| |]. Qed.
Lemma ex_run {A} (m : R A) body a :
  ex m (MkReader body 0) (fun a' _ => a' = a) -> R_run m body = Ok a.
Proof. unfold ex, R_run. destruct (m _) as [[a' r]| |]; [by intros ->|done|done]. Qed.

(** ** The header *)

Lemma wire_header_length h : length (wire_header h) = 16%nat.
Proof. reflexivity. Qed.

Lemma DecodeHeader_complete h rest :
  header_ok h -> 16 <= CommandLength h -> DecodeHeader (wire_header h ++ rest) = Ok h.
Proof.
  intros (H1 & H2 & H3 & H4) Hl. destruct h as [len id st sq]; cbn in H1, H2, H3, H4, Hl.
  unfold DecodeHeader. rewrite decide_False by (rewrite length_app, wire_header_length; unfold HeaderSize; lia).
  unfold wire_header; cbn [CommandLength CommandID CommandStatus SequenceNumber].
  rewrite <- !app_assoc, Uint32_put by done. cbn [mbind outcome_bind].
  rewrite (slice_from_ok _ 4), (slice_from_ok _ 8), (slice_from_ok _ 12) by len.
  cbn [mbind outcome_bind].
  change (drop 4 _) with (be32_put id ++ be32_put st ++ be32_put sq ++ rest).
  change (drop 8 _) with (be32_put st ++ be32_put sq ++ rest).
  change (drop 12 _) with (be32_put sq ++ rest).
  rewrite !Uint32_put by done. cbn [mbind outcome_bind].
  by destruct (Z.ltb_spec len (Z.of_nat HeaderSize)); [unfold HeaderSize in *; lia|].
Qed.

Lemma DecodeHeader_sound s :
  bytes_ok s ->
  match DecodeHeader s with
  | Ok h => header_ok h /\ 16 <= CommandLength h /\ exists rest, s = wire_header h ++ rest
  | Err e => is_fatal e = true
  | Panic => False
  end.
Proof.
  intros Hok. unfold DecodeHeader, HeaderSize. destruct (decide _) as [|Hn]; [done|].
  do 16 (destruct s as [|? s]; [cbn in Hn; lia|]).
  repeat apply bytes_ok_cons in Hok as [? Hok].
  cbn [Uint32 mbind outcome_bind].
  rewrite (slice_from_ok _ 4), (slice_from_ok _ 8), (slice_from_ok _ 12) by (cbn; lia).
  cbn [drop skipn Uint32 mbind outcome_bind].
  destruct (_ <? _) eqn:Hl; [done|]. apply Z.ltb_ge in Hl.
  unfold header_ok, wire_header; cbn [CommandLength CommandID CommandStatus SequenceNumber].
  split; [auto using be32_get_range|]. split; [lia|]. exists s.
  by rewrite !be32_put_get.
Qed.

Lemma EncodeHeader_spec dst h :
  (HeaderSize <= length dst)%nat -> 16 <= CommandLength h ->
  EncodeHeader dst h = Ok (wire_header h ++ drop HeaderSize dst).
Proof.
  intros Hd Hl. unfold EncodeHeader. rewrite decide_False by lia.
  destruct (Z.ltb_spec (CommandLength h) (Z.of_nat HeaderSize)); [unfold HeaderSize in *; lia|].
  unfold wire_header. by rewrite <- !app_assoc.
Qed.

(** ** Tactics for decoders *)

(** The octets of the input are octets: its parts, its suffixes. *)
Ltac split_bytes :=
  repeat match goal with
  | H : bytes_ok (_ ++ _) |- _ => apply bytes_ok_app in H as [? ?]
  | H : bytes_ok (_ :: _) |- _ => apply bytes_ok_cons in H as [? ?]
  end.
Ltac suffix_ok := split_bytes; assumption.

(** One step of a decoder in the soundness direction: run the next primitive on
    the remaining input and learn what that input starts with. *)
Ltac wp_next :=
  match goal with
  | |- wp (_ ≫= _) _ _ => apply wp_bind
  | |- wp (mret _) _ _ => apply wp_ret
  | |- wp (R_fail _) _ _ =>
      apply wp_fail; first [by apply semantic_decode_error | by left]
  | H : at_ ?r ?s |- wp uint8 ?r _ =>
      apply (wp_uint8 r s _ H); clear H; intros ? ? ? -> H
  | H : at_ ?r ?s |- wp (cString ?m) ?r _ =>
      apply (wp_cString m r s _ eq_refl H); clear H; intros ? ? ? ? -> H
  | H : at_ ?r ?s |- wp requireDone ?r _ =>
      apply (wp_requireDone r s _ H); intros ->
  | H : at_ ?r ?s |- wp optional ?r _ =>
      apply (wp_optional r s _ H); [suffix_ok|]; clear H; intros ? ? ? -> H
  | H : at_ ?r ?s |- wp uint32 ?r _ =>
      apply (wp_uint32 r s _ H); [suffix_ok|]; clear H; intros ? ? ? ? -> H
  | H : at_ ?r ?s |- wp (octets ?n) ?r _ =>
      apply (wp_octets n r s _); [split_bytes; lia|exact H|]; clear H; intros ? ? ? ? -> H
  | |- wp (if ?b then _ else _) _ _ => destruct b eqn:?
  end.

(** Prove a conjunction of facts all learnt from the input. *)
Ltac conj_hyps := repeat (split; [assumption|]); assumption.

(** The completeness direction: the input is known and each primitive consumes
    its part of it. *)
Ltac norm_at H := rewrite <- ?app_assoc in H; cbn [app] in H.
Ltac ex_next :=
  match goal with
  | |- ex (_ ≫= _) _ _ => apply ex_bind
  | |- ex (mret _) _ _ => apply ex_ret
  | H : at_ ?r _ |- ex uint8 ?r _ =>
      norm_at H; eapply (ex_uint8 _ _ _ _ H); clear H; intros ? H
  | H : at_ ?r _ |- ex (cString _) ?r _ =>
      norm_at H; eapply ex_cString; [|exact H|]; [eassumption|]; clear H; intros ? H
  | H : at_ ?r _ |- ex optional ?r _ =>
      norm_at H; rewrite ?app_nil_r in H; eapply ex_optional; [|exact H|]; [eassumption|]; clear H; intros ? H
  | H : at_ ?r _ |- ex requireDone ?r _ =>
      norm_at H; apply (ex_requireDone _ _ H)
  | H : at_ ?r _ |- ex uint32 ?r _ =>
      norm_at H; eapply ex_uint32; [|exact H|]; [eassumption|]; clear H; intros ? H
  | H : at_ ?r _ |- ex (octets _) ?r _ =>
      norm_at H; eapply ex_octets; [|exact H|]; [reflexivity|]; clear H; intros ? H
  end.

(** ** Writers against their formats

    [wspec w P out]: [w] never panics; it succeeds exactly when [P] holds, and
    then appends exactly [out]; otherwise it fails with a sentinel error, having
    only appended to its destination. *)

Definition wspec (w : W) (P : Prop) (out : bytes) : Prop :=
  forall dst,
    match w dst with
    | Ok d => P /\ d = dst ++ out
    | Err (d, e) => ~ P /\ (exists junk, d = dst ++ junk) /\ exists s, e = ESentinel s
    | Panic => False
    end.

Section writer_specs.
Implicit Types (w : W) (P : Prop) (out : bytes).

Lemma wspec_seq w1 w2 P1 P2 o1 o2 :
  wspec w1 P1 o1 -> wspec w2 P2 o2 -> wspec (w1 >>> w2) (P1 /\ P2) (o1 ++ o2).
Proof.
  intros H1 H2 dst. unfold wseq. specialize (H1 dst).
  destruct (w1 dst) as [d|[d e]|]; cbn; [| |done].
  - destruct H1 as [HP1 ->]. specialize (H2 (dst ++ o1)).
    destruct (w2 (dst ++ o1)) as [d|[d e]|]; [| |done].
    + destruct H2 as [HP2 ->]. by rewrite <- app_assoc.
    + destruct H2 as (HP2 & (junk & ->) & He). split; [tauto|]. split; [|done].
      eexists. by rewrite <- app_assoc.
  - destruct H1 as (HP1 & Hj & He). split; [tauto|done].
Qed.

Lemma wspec_iff w P P' out out' :
  wspec w P out -> (P <-> P') -> (P' -> out = out') -> wspec w P' out'.
Proof.
  intros H HP Ho dst. specialize (H dst). destruct (w dst) as [d|[d e]|]; [|tauto|done].
  destruct H as [H ->]. apply HP in H. by rewrite Ho.
Qed.

Lemma wspec_octets v : wspec (AppendOctets v) True v.
Proof. intros dst. done. Qed.
Lemma wspec_nil : wspec wnil True [].
Proof. intros dst. cbn. by rewrite app_nil_r. Qed.
Lemma wspec_fail s out : wspec (wfail s) False out.
Proof. intros dst. cbn. repeat split; eauto. exists []. by rewrite app_nil_r. Qed.
Lemma wspec_cstring v m : 0 < m -> wspec (AppendCString v m) (valid_cstr m v) (cstr v).
Proof.
  intros Hm dst. pose proof (AppendCString_spec v m dst Hm) as H.
  destruct (AppendCString v m dst) as [d|[d e]|]; [done| |done].
  destruct H as (-> & Hn & He). split; [done|]. split.
  - exists []. by rewrite app_nil_r.
  - destruct He as [-> | ->]; eauto.
Qed.
Lemma wspec_optional o :
  Forall (fun p => is_u16 (op_Tag p)) o -> wspec (appendOptional o) (valid_tlvs o) (wire_tlvs o).
Proof.
  intros Ht dst. pose proof (appendOptional_spec o dst Ht) as H.
  destruct (appendOptional o dst) as [d|[d e]|]; [done| |done].
  destruct H as (Hj & Hn & ->). eauto.
Qed.
Lemma wspec_guard (b : bool) s w P out :
  wspec w P out -> wspec (if b then wfail s else w) (b = false /\ P) out.
Proof.
  intros H. destruct b.
  - eapply wspec_iff; [apply (wspec_fail s out)|naive_solver|done].
  - eapply wspec_iff; [exact H|tauto|done].
Qed.
End writer_specs.

(** Success and failure read off a specification. *)
Lemma wspec_ok w P out dst d : wspec w P out -> w dst = Ok d -> P /\ d = dst ++ out.
Proof. intros H Hw. specialize (H dst). by rewrite Hw in H. Qed.
Lemma wspec_run (w : W) (P : Prop) out dst : wspec w P out -> P -> w dst = Ok (dst ++ out).
Proof.
  intros H HP. specialize (H dst). destruct (w dst) as [d|[d e]|]; [|tauto|done].
  by destruct H as [_ ->].
Qed.

(** Compose the specifications of a sequence of writers. *)
Ltac wspec_step :=
  first [ apply wspec_octets | apply wspec_nil | (apply wspec_cstring; exact eq_refl)
        | (apply wspec_optional; done) | (eapply wspec_seq; [wspec_step|wspec_step]) ].
Ltac wspec_auto := eapply wspec_iff; [wspec_step| |].
