(* ===== verification/BodySpec.v ===== *)
(** * What a body codec promises to the PDU layer

    The PDU layer (pdu.go) calls the decoder and the encoder that a registry
    holds for a command.  [BodyCodec] is the contract between the two: a
    [body_spec] says which values a command carries, which octets stand for
    each, and what the encoder and the decoder make of values outside that
    format.  The theorems on PDUs (Pdu.v) are proved against this interface;
    Body34.v, Extra34.v and Body50.v discharge it for every command. *)

From S2P Require Import Prelude Protocol Bodies Fields.

(** ** Decoder results *)

(** [sound d F]: [d] does not panic, fails only with an error the session can
    act on, and what it returns satisfies [F]. *)
Definition sound {A} (d : res A) (F : A -> Prop) : Prop :=
  match d with Ok a => F a | Err e => decode_error e | Panic => False end.

Lemma sound_mono {A} (d : res A) (F G : A -> Prop) :
  sound d F -> (forall a, F a -> G a) -> sound d G.
Proof. unfold sound. destruct d; auto. Qed.
Lemma sound_bind {A B} (d : res A) (f : A -> res B) F G :
  sound d F -> (forall a, F a -> sound (f a) G) -> sound (d ≫= f) G.
Proof. unfold sound, mbind, outcome_bind. destruct d; naive_solver. Qed.
Lemma sound_run {A} (m : R A) body (F : A -> Prop) :
  wp m (MkReader body 0) (fun a _ => F a) -> sound (R_run m body) F.
Proof. apply wp_run. Qed.

(** ** Optional parameters of a body (error_response.go)

    [optionalParametersOf] reads the field [Optional] by reflection: of a
    struct, or of the struct behind a non-nil pointer. *)
Definition value_optional (v : pdu_value) : list OptionalParameter :=
  match v with
  | VOptionalResponse v => or_Optional v
  | VBindResponse v => brs_Optional v
  | VSubmitSM v => ssm_Optional v
  | VSubmitSMResp v => ssr_Optional v
  | VDeliverSM v => dsm_Optional v
  | VDeliverSMResp v => dsr_Optional v
  | VSubmitMulti v => smu_Optional v
  | VSubmitMultiResp v => smr_Optional v
  | VDataSM v => dat_Optional v
  | VDataSMResp v => dar_Optional v
  | VQuerySMResp v => qsr_Optional v
  | VAlertNotification v => aln_Optional v
  | VBroadcastSM v => bsm_Optional v
  | VBroadcastSMResp v => bsr_Optional v
  | VQueryBroadcastSM v => qbs_Optional v
  | VQueryBroadcastSMResp v => qbr_Optional v
  | VCancelBroadcastSM v => cbs_Optional v
  | VOther o => o
  | VEmptyBody | VBindRequest _ | VQuerySM _ | VCancelSM _ | VReplaceSM _ | VOutbind _
  | VRawBody _ => []
  end.

Definition optionalParametersOf (body : any) : list OptionalParameter :=
  match body with
  | AVal v | APtr v => value_optional v
  | ANil | ANilPtr _ => []
  end.

(** A Go value keeps its integers at their width; here only the widths the
    encoders depend on matter: the tags of optional parameters and the status
    codes of a submit_multi_resp. *)
Definition typed_value (v : pdu_value) : Prop :=
  Forall (fun p => is_u16 (op_Tag p)) (value_optional v) /\
  match v with
  | VSubmitMultiResp v => Forall (fun u => is_u32 (use_ErrorStatusCode u)) (smr_Unsuccessful v)
  | _ => True
  end.
Definition typed (a : any) : Prop :=
  match a with AVal v | APtr v => typed_value v | ANil | ANilPtr _ => True end.

#[export] Instance typed_value_dec v : Decision (typed_value v).
Proof. unfold typed_value. destruct v; apply _. Defined.
#[export] Instance typed_dec a : Decision (typed a).
Proof. unfold typed. destruct a; apply _. Defined.

Lemma valid_tlvs_typed o : valid_tlvs o -> Forall (fun p => is_u16 (op_Tag p)) o.
Proof. intros H. eapply Forall_impl; [exact H|]. by intros p [? _]. Qed.

(** ** The contract *)

(** [zero] is the value an unsuccessful header-only response decodes to;
    [view a] is the value the encoder takes [a] for; [valid] is what the encoder
    demands of it, [accept] what the decoder demands on top, and [lax] the
    non-canonical bodies the decoder also takes. *)
Record body_spec := MkSpec {
  carrier : Type;
  inj : carrier -> pdu_value;
  view : any -> option carrier;
  valid : carrier -> Prop;
  accept : carrier -> Prop;
  wire : carrier -> bytes;
  lax : carrier -> bytes -> Prop;
  zero : pdu_value
}.

(** What an unsuccessful response with optional parameters [o] decodes to. *)
Definition error_view (zero : pdu_value) (o : list OptionalParameter) : any :=
  match o with
  | [] => AVal zero
  | _ => AVal (VOptionalResponse (MkOptionalResponse o))
  end.

(** [body] is a successful body that stands for [a], canonically or not. *)
Definition ok_format (S : body_spec) (a : any) (body : bytes) : Prop :=
  exists v, a = AVal (inj S v) /\
    ((valid S v /\ accept S v /\ body = wire S v) \/ lax S v body).
(** [body] is the body of an unsuccessful response that stands for [a]. *)
Definition error_format (S : body_spec) (a : any) (body : bytes) : Prop :=
  exists o, valid_tlvs o /\ body = wire_tlvs o /\ a = error_view (zero S) o.
Definition body_format (S : body_spec) (resp : bool) (st : Z) (a : any) (body : bytes) : Prop :=
  (st = 0 /\ ok_format S a body) \/ (resp = true /\ st <> 0 /\ error_format S a body).

Class BodyCodec (S : body_spec) (resp : bool) (dec : Header -> bytes -> res any)
    (enc : any -> W) : Prop := {
  bc_sound h body : bytes_ok body ->
    sound (dec h body) (fun a => body_format S resp (CommandStatus h) a body);
  bc_complete h a body : body_format S resp (CommandStatus h) a body -> dec h body = Ok a;
  bc_encode a v : typed a -> view S a = Some v -> wspec (enc a) (valid S v) (wire S v);
  bc_other a : typed a -> view S a = None ->
    wspec (enc a) False [] \/
    (resp = true /\
     wspec (enc a) (valid_tlvs (optionalParametersOf a)) (wire_tlvs (optionalParametersOf a)));
  bc_view v : view S (AVal (inj S v)) = Some v;
  bc_optional a v : resp = true -> view S a = Some v -> valid S v ->
    valid_tlvs (optionalParametersOf a);
  bc_error o : resp = true -> valid_tlvs o ->
    exists P out, wspec (enc (error_view (zero S) o)) P out /\ P /\
      optionalParametersOf (error_view (zero S) o) = o /\ typed (error_view (zero S) o);
  bc_typed v : valid S v -> typed (AVal (inj S v))
}.

(** An encoder under the contract never panics, and only appends. *)
Lemma bc_writes S resp dec enc `{BodyCodec S resp dec enc} a :
  typed a -> exists P out, wspec (enc a) P out /\
    (resp = true -> P -> valid_tlvs (optionalParametersOf a)).
Proof.
  intros Ht. destruct (view S a) as [v|] eqn:Hv.
  - exists (valid S v), (wire S v). split; [by apply bc_encode|]. intros. by eapply bc_optional.
  - destruct (bc_other (S:=S) a Ht Hv) as [Hw|[Hr Hw]].
    + exists False, []. done.
    + do 2 eexists. split; [exact Hw|]. done.
Qed.

(** ** Building the contract for a request and for a response *)

Section request.
Context (S : body_spec) (dec : Header -> bytes -> res any) (enc : any -> W).
Context (app : carrier S -> W).
Hypothesis Hsound : forall h body, bytes_ok body -> sound (dec h body) (fun a =>
  CommandStatus h = 0 /\ exists v, a = AVal (inj S v) /\ (valid S v /\ accept S v) /\
    body = wire S v).
Hypothesis Hcomplete : forall h v, CommandStatus h = 0 -> valid S v -> accept S v ->
  dec h (wire S v) = Ok (AVal (inj S v)).
Hypothesis Happ : forall a v, typed a -> view S a = Some v ->
  wspec (app v) (valid S v) (wire S v).
Hypothesis Henc : forall a, enc a =
  match view S a with Some v => app v | None => wfail ErrInvalidPDUValue end.
Hypothesis Hview : forall v, view S (AVal (inj S v)) = Some v.
Hypothesis Hlax : forall v body, ~ lax S v body.
Hypothesis Htyped : forall v, valid S v -> typed (AVal (inj S v)).

Lemma request_codec : BodyCodec S false dec enc.
Proof using All.
  split; try done.
  - intros h body Hok. eapply sound_mono; [by apply Hsound|].
    intros a (H0 & v & Ha & [Hv Hacc] & Hb). left. split; [done|]. exists v. tauto.
  - intros h a body [[H0 (v & -> & [(Hv & Ha & ->)|Hl])]|[? _]]; [auto| |done].
    by apply Hlax in Hl.
  - intros a v Ht Hv. rewrite Henc, Hv. by apply (Happ a).
  - intros a _ Hn. left. rewrite Henc, Hn. apply wspec_fail.
Qed.
End request.

(** The encoder's view of a body of a command's own type, by value or by
    pointer. *)
Definition view_of {T} (proj : pdu_value -> option T) (a : any) : option T :=
  match a with AVal v | APtr v => proj v | ANil | ANilPtr _ => None end.

(** The other bodies a response encoder takes: an empty body and an
    [OptionalResponse]. *)
Definition encode_other_response (a : any) : W :=
  match a with
  | ANil | AVal VEmptyBody | APtr VEmptyBody | ANilPtr KEmptyBody => wnil
  | AVal (VOptionalResponse v) | APtr (VOptionalResponse v) => appendOptional (or_Optional v)
  | _ => wfail ErrInvalidPDUValue
  end.

Lemma encode_other_response_spec a :
  typed a ->
  wspec (encode_other_response a) False [] \/
  wspec (encode_other_response a) (valid_tlvs (optionalParametersOf a))
    (wire_tlvs (optionalParametersOf a)).
Proof.
  assert (Hnil : wspec wnil (valid_tlvs []) (wire_tlvs [])).
  { eapply wspec_iff; [apply wspec_nil| |done]. split; [constructor|done]. }
  intros Ht. destruct a as [|[]|[]|[]]; cbn [encode_other_response];
    try (left; apply wspec_fail); right;
    first [exact Hnil | apply wspec_optional; apply Ht].
Qed.

Section response.
Context (S : body_spec) (dec : Header -> bytes -> res any) (enc : any -> W).
Context (app : carrier S -> W) (v0 : carrier S).
Hypothesis Hsound : forall h body, bytes_ok body -> sound (dec h body) (fun a =>
  (CommandStatus h = 0 /\ ok_format S a body) \/
  (CommandStatus h <> 0 /\ error_format S a body)).
Hypothesis Hcomplete : forall h a body, CommandStatus h = 0 -> ok_format S a body ->
  dec h body = Ok a.
Hypothesis Herror : forall h o, CommandStatus h <> 0 -> valid_tlvs o ->
  dec h (wire_tlvs o) = Ok (error_view (zero S) o).
Hypothesis Happ : forall a v, typed a -> view S a = Some v ->
  wspec (app v) (valid S v) (wire S v).
Hypothesis Henc : forall a, enc a =
  match view S a with Some v => app v | None => encode_other_response a end.
Hypothesis Hview : forall v, view S (AVal (inj S v)) = Some v.
Hypothesis Hopt : forall a v, view S a = Some v -> valid S v ->
  valid_tlvs (optionalParametersOf a).
Hypothesis Hviewopt : forall o, view S (AVal (VOptionalResponse o)) = None.
Hypothesis Hzero : inj S v0 = zero S /\ valid S v0 /\ value_optional (zero S) = [] /\
  typed_value (zero S).
Hypothesis Htyped : forall v, valid S v -> typed (AVal (inj S v)).

Lemma response_codec : BodyCodec S true dec enc.
Proof using All.
  destruct Hzero as (Hz & Hv0 & Ho & Ht).
  split; try done.
  - intros h body Hok. eapply sound_mono; [by apply Hsound|].
    intros a [[H0 Ha]|[H0 Ha]]; [left|right]; done.
  - intros h a body [[H0 Ha]|[_ [H0 (o & Hv & -> & ->)]]]; auto.
  - intros a v Hta Hv. rewrite Henc, Hv. by apply (Happ a).
  - intros a Hta Hn. rewrite Henc, Hn.
    destruct (encode_other_response_spec a Hta); [by left|by right].
  - intros a v _. apply Hopt.
  - intros o _ Hv. destruct o as [|p o]; cbn [error_view].
    + exists (valid S v0), (wire S v0). rewrite Henc, <- Hz, Hview.
      split; [|split; [done|]].
      * apply (Happ (AVal (inj S v0))); [|apply Hview]. by rewrite Hz.
      * rewrite Hz. done.
    + exists (valid_tlvs (p :: o)), (wire_tlvs (p :: o)). rewrite Henc, Hviewopt.
      pose proof (valid_tlvs_typed _ Hv). split; [by apply wspec_optional|].
      split; [done|]. split; [done|]. by split.
Qed.
End response.
