(* ===== verification/Body34.v ===== *)
(** * SMPP 3.4 bodies (src/codec/smpp34.go)

    The decoders and encoders of the bind, submit/deliver and header-only
    commands.  A decoder has type [Header -> bytes -> res any], an encoder
    [any -> W].  Each body has its wire format [wire_*] and the constraint
    [valid_*] the protocol puts on its fields; the lemmas show that the decoder
    accepts exactly the wire formats of valid bodies and that the encoder
    produces exactly those. *)

From S2P Require Import Prelude Protocol Bodies Fields BodySpec.

Definition maxSystemIDLen : Z := 16.
Definition maxPasswordLen : Z := 9.
Definition maxSystemTypeLen : Z := 13.
Definition maxAddressRangeLen : Z := 41.
Definition maxServiceTypeLen : Z := 6.
Definition maxAddressLen : Z := 21.
Definition maxTimeFieldLen : Z := 17.
Definition maxMessageIDLen : Z := 65.
Definition maxShortMessageLength : Z := 254.

Definition requestStatusMustBeZero (header : Header) : res unit :=
  if negb (OK (CommandStatus header))
  then Err (semantic StatusInvalidMessageLength ErrInvalidPDUValue)
  else Ok tt.

Definition hasNonEmptyMessagePayload (o : list OptionalParameter) : bool :=
  existsb (fun p => (op_Tag p =? TLVTagMessagePayload) && negb (zlen (op_Value p) =? 0)) o.

(** ** Bind *)

Definition decodeBindRequest (header : Header) (body : bytes) : res any :=
  _ ← requestStatusMustBeZero header;
  R_run (
    systemID ← cString maxSystemIDLen;
    password ← cString maxPasswordLen;
    systemType ← cString maxSystemTypeLen;
    interfaceVersion ← uint8;
    ton ← uint8;
    npi ← uint8;
    addressRange ← cString maxAddressRangeLen;
    _ ← requireDone;
    mret (AVal (VBindRequest
      (MkBindRequest systemID password systemType interfaceVersion ton npi addressRange)))
  ) body.

Definition appendBindRequest (v : BindRequest) : W :=
  AppendCString (brq_SystemID v) maxSystemIDLen >>>
  AppendCString (brq_Password v) maxPasswordLen >>>
  AppendCString (brq_SystemType v) maxSystemTypeLen >>>
  AppendOctets [brq_InterfaceVersion v; brq_AddressTON v; brq_AddressNPI v] >>>
  AppendCString (brq_AddressRange v) maxAddressRangeLen.

Definition encodeBindRequest (value : any) : W :=
  match value with
  | AVal (VBindRequest v) | APtr (VBindRequest v) => appendBindRequest v
  | _ => wfail ErrInvalidPDUValue
  end.

(** [None] is [handled = false].  The optional parameters of an unsuccessful
    response are nil exactly when its body is empty. *)
Definition decodeErrorResponseOptional (header : Header) (body : bytes)
    : res (option (list OptionalParameter)) :=
  if OK (CommandStatus header) then Ok None
  else if decide (length body = 0)%nat then Ok (Some [])
  else o ← R_run optional body; Ok (Some o).

(** The common shape of the response decoders: an unsuccessful response is the
    zero value of the response type or an [OptionalResponse]; a successful one
    is decoded by [decode]. *)
Definition decodeResponseWith (zero : pdu_value) (decode : bytes -> res any)
    (header : Header) (body : bytes) : res any :=
  handled ← decodeErrorResponseOptional header body;
  match handled with
  | Some [] => Ok (AVal zero)
  | Some o => Ok (AVal (VOptionalResponse (MkOptionalResponse o)))
  | None => decode body
  end.

Definition badSCInterfaceVersion (o : list OptionalParameter) : bool :=
  existsb (fun p => (op_Tag p =? TLVTagSCInterfaceVersion) && negb (zlen (op_Value p) =? 1)) o.

Definition decodeBindResponse : Header -> bytes -> res any :=
  decodeResponseWith (VBindResponse (MkBindResponse [] [])) (R_run (
    systemID ← cString maxSystemIDLen;
    o ← optional;
    if badSCInterfaceVersion o
    then R_fail (semantic StatusInvalidParameterLength ErrInvalidPDUValue)
    else mret (AVal (VBindResponse (MkBindResponse systemID o))))).

Definition appendBindResponse (v : BindResponse) : W :=
  AppendCString (brs_SystemID v) maxSystemIDLen >>> appendOptional (brs_Optional v).

Definition encodeBindResponse (value : any) : W :=
  match value with
  | ANil | AVal VEmptyBody | APtr VEmptyBody | ANilPtr KEmptyBody => wnil
  | AVal (VBindResponse v) | APtr (VBindResponse v) => appendBindResponse v
  | AVal (VOptionalResponse v) | APtr (VOptionalResponse v) => appendOptional (or_Optional v)
  | _ => wfail ErrInvalidPDUValue
  end.

(** ** Header-only commands *)

Definition decodeEmpty (body : bytes) : res any :=
  if negb (zlen body =? 0) then Err (semantic StatusInvalidCommandLength ErrInvalidPDUValue)
  else Ok (AVal VEmptyBody).

Definition decodeRequestEmpty (header : Header) (body : bytes) : res any :=
  _ ← requestStatusMustBeZero header; decodeEmpty body.

Definition decodeResponseEmpty (header : Header) (body : bytes) : res any :=
  if decide (length body = 0)%nat then Ok (AVal VEmptyBody) else
  o ← R_run optional body;
  Ok (AVal (VOptionalResponse (MkOptionalResponse o))).

Definition encodeEmpty (value : any) : W :=
  match value with
  | ANil | AVal VEmptyBody | APtr VEmptyBody | ANilPtr KEmptyBody => wnil
  | _ => wfail ErrInvalidPDUValue
  end.

Definition encodeResponseEmpty (value : any) : W :=
  match value with
  | ANil | AVal VEmptyBody | APtr VEmptyBody | ANilPtr KEmptyBody => wnil
  | AVal (VOptionalResponse v) | APtr (VOptionalResponse v) => appendOptional (or_Optional v)
  | _ => wfail ErrInvalidPDUValue
  end.

(** ** submit_sm and deliver_sm *)

Record shortMessageBody := MkShortMessageBody {
  smb_ServiceType : bytes;
  smb_SourceAddrTON : Z;
  smb_SourceAddrNPI : Z;
  smb_SourceAddr : bytes;
  smb_DestAddrTON : Z;
  smb_DestAddrNPI : Z;
  smb_DestinationAddr : bytes;
  smb_ESMClass : Z;
  smb_ProtocolID : Z;
  smb_PriorityFlag : Z;
  smb_ScheduleDeliveryTime : bytes;
  smb_ValidityPeriod : bytes;
  smb_RegisteredDelivery : Z;
  smb_ReplaceIfPresentFlag : Z;
  smb_DataCoding : Z;
  smb_SMDefaultMsgID : Z;
  smb_ShortMessage : bytes;
  smb_Optional : list OptionalParameter
}.

Definition decodeShortMessageBody (header : Header) (body : bytes) : res shortMessageBody :=
  _ ← requestStatusMustBeZero header;
  R_run (
    serviceType ← cString maxServiceTypeLen;
    sourceTON ← uint8;
    sourceNPI ← uint8;
    sourceAddr ← cString maxAddressLen;
    destTON ← uint8;
    destNPI ← uint8;
    destinationAddr ← cString maxAddressLen;
    esmClass ← uint8;
    protocolID ← uint8;
    priorityFlag ← uint8;
    scheduleDeliveryTime ← cString maxTimeFieldLen;
    validityPeriod ← cString maxTimeFieldLen;
    registeredDelivery ← uint8;
    replaceIfPresentFlag ← uint8;
    coding ← uint8;
    smDefaultMsgID ← uint8;
    smLength ← uint8;
    if smLength =? 255
    then R_fail (semantic StatusInvalidMessageLength ErrInvalidPDUValue) else
    shortMessage ← octets smLength;
    o ← optional;
    if hasNonEmptyMessagePayload o && negb (zlen shortMessage =? 0)
    then R_fail (semantic StatusInvalidOptionalParameterValue ErrConflictingMessageData)
    else mret (MkShortMessageBody serviceType sourceTON sourceNPI sourceAddr destTON destNPI
      destinationAddr esmClass protocolID priorityFlag scheduleDeliveryTime validityPeriod
      registeredDelivery replaceIfPresentFlag coding smDefaultMsgID shortMessage o)
  ) body.

Definition appendShortMessageBody (v : shortMessageBody) : W :=
  if maxShortMessageLength <? zlen (smb_ShortMessage v) then wfail ErrFieldTooLong
  else if hasNonEmptyMessagePayload (smb_Optional v) && negb (zlen (smb_ShortMessage v) =? 0)
  then wfail ErrConflictingMessageData
  else
    AppendCString (smb_ServiceType v) maxServiceTypeLen >>>
    AppendOctets [smb_SourceAddrTON v; smb_SourceAddrNPI v] >>>
    AppendCString (smb_SourceAddr v) maxAddressLen >>>
    AppendOctets [smb_DestAddrTON v; smb_DestAddrNPI v] >>>
    AppendCString (smb_DestinationAddr v) maxAddressLen >>>
    AppendOctets [smb_ESMClass v; smb_ProtocolID v; smb_PriorityFlag v] >>>
    AppendCString (smb_ScheduleDeliveryTime v) maxTimeFieldLen >>>
    AppendCString (smb_ValidityPeriod v) maxTimeFieldLen >>>
    AppendOctets [smb_RegisteredDelivery v; smb_ReplaceIfPresentFlag v; smb_DataCoding v;
                  smb_SMDefaultMsgID v; u8 (zlen (smb_ShortMessage v))] >>>
    AppendOctets (smb_ShortMessage v) >>>
    appendOptional (smb_Optional v).

(** The field-by-field copies of [decodeSubmitSM], [encodeSubmitSM] and their
    deliver_sm twins. *)
Definition SubmitSM_of (d : shortMessageBody) : SubmitSM :=
  match d with
  | MkShortMessageBody a b c d e f g h i j k l m n o p q r =>
      MkSubmitSM a b c d e f g h i j k l m n o p q r
  end.
Definition of_SubmitSM (v : SubmitSM) : shortMessageBody :=
  match v with
  | MkSubmitSM a b c d e f g h i j k l m n o p q r =>
      MkShortMessageBody a b c d e f g h i j k l m n o p q r
  end.
Definition DeliverSM_of (d : shortMessageBody) : DeliverSM :=
  match d with
  | MkShortMessageBody a b c d e f g h i j k l m n o p q r =>
      MkDeliverSM a b c d e f g h i j k l m n o p q r
  end.
Definition of_DeliverSM (v : DeliverSM) : shortMessageBody :=
  match v with
  | MkDeliverSM a b c d e f g h i j k l m n o p q r =>
      MkShortMessageBody a b c d e f g h i j k l m n o p q r
  end.

Definition decodeSubmitSM (header : Header) (body : bytes) : res any :=
  decoded ← decodeShortMessageBody header body; Ok (AVal (VSubmitSM (SubmitSM_of decoded))).
Definition encodeSubmitSM (value : any) : W :=
  match value with
  | AVal (VSubmitSM v) | APtr (VSubmitSM v) => appendShortMessageBody (of_SubmitSM v)
  | _ => wfail ErrInvalidPDUValue
  end.

Definition decodeDeliverSM (header : Header) (body : bytes) : res any :=
  decoded ← decodeShortMessageBody header body; Ok (AVal (VDeliverSM (DeliverSM_of decoded))).
Definition encodeDeliverSM (value : any) : W :=
  match value with
  | AVal (VDeliverSM v) | APtr (VDeliverSM v) => appendShortMessageBody (of_DeliverSM v)
  | _ => wfail ErrInvalidPDUValue
  end.

Definition decodeSubmitSMResp : Header -> bytes -> res any :=
  decodeResponseWith (VSubmitSMResp (MkSubmitSMResp [] [])) (R_run (
    messageID ← cString maxMessageIDLen;
    o ← optional;
    mret (AVal (VSubmitSMResp (MkSubmitSMResp messageID o))))).

Definition appendSubmitSMResp (v : SubmitSMResp) : W :=
  AppendCString (ssr_MessageID v) maxMessageIDLen >>> appendOptional (ssr_Optional v).

Definition encodeSubmitSMResp (value : any) : W :=
  match value with
  | ANil | AVal VEmptyBody | APtr VEmptyBody | ANilPtr KEmptyBody => wnil
  | AVal (VSubmitSMResp v) | APtr (VSubmitSMResp v) => appendSubmitSMResp v
  | AVal (VOptionalResponse v) | APtr (VOptionalResponse v) => appendOptional (or_Optional v)
  | _ => wfail ErrInvalidPDUValue
  end.

Definition decodeDeliverSMResp : Header -> bytes -> res any :=
  decodeResponseWith (VDeliverSMResp (MkDeliverSMResp [] [])) (fun body =>
    if decide (length body = 0)%nat then Ok (AVal (VDeliverSMResp (MkDeliverSMResp [] [])))
    else R_run (
      messageID ← cString maxMessageIDLen;
      o ← optional;
      mret (AVal (VDeliverSMResp (MkDeliverSMResp messageID o)))) body).

Definition appendDeliverSMResp (v : DeliverSMResp) : W :=
  AppendCString (dsr_MessageID v) maxMessageIDLen >>> appendOptional (dsr_Optional v).

(** Unlike the other responses an empty body is written as an empty message_id. *)
Definition encodeDeliverSMResp (value : any) : W :=
  match value with
  | ANil | AVal VEmptyBody | APtr VEmptyBody | ANilPtr KEmptyBody =>
      appendDeliverSMResp (MkDeliverSMResp [] [])
  | AVal (VDeliverSMResp v) | APtr (VDeliverSMResp v) => appendDeliverSMResp v
  | AVal (VOptionalResponse v) | APtr (VOptionalResponse v) => appendOptional (or_Optional v)
  | _ => wfail ErrInvalidPDUValue
  end.

(** ** Wire formats *)

Definition wire_BindRequest (v : BindRequest) : bytes :=
  cstr (brq_SystemID v) ++ cstr (brq_Password v) ++ cstr (brq_SystemType v) ++
  [brq_InterfaceVersion v; brq_AddressTON v; brq_AddressNPI v] ++ cstr (brq_AddressRange v).
Definition valid_BindRequest (v : BindRequest) : Prop :=
  valid_cstr maxSystemIDLen (brq_SystemID v) /\ valid_cstr maxPasswordLen (brq_Password v) /\
  valid_cstr maxSystemTypeLen (brq_SystemType v) /\
  valid_cstr maxAddressRangeLen (brq_AddressRange v).

(** A C-Octet String followed by TLVs: the successful responses that carry a
    system_id or a message_id. *)
Definition wire_id_tlvs (id : bytes) (o : list OptionalParameter) : bytes :=
  cstr id ++ wire_tlvs o.
Definition valid_id_tlvs (max : Z) (id : bytes) (o : list OptionalParameter) : Prop :=
  valid_cstr max id /\ valid_tlvs o.

Definition wire_smb (v : shortMessageBody) : bytes :=
  cstr (smb_ServiceType v) ++ [smb_SourceAddrTON v; smb_SourceAddrNPI v] ++
  cstr (smb_SourceAddr v) ++ [smb_DestAddrTON v; smb_DestAddrNPI v] ++
  cstr (smb_DestinationAddr v) ++ [smb_ESMClass v; smb_ProtocolID v; smb_PriorityFlag v] ++
  cstr (smb_ScheduleDeliveryTime v) ++ cstr (smb_ValidityPeriod v) ++
  [smb_RegisteredDelivery v; smb_ReplaceIfPresentFlag v; smb_DataCoding v;
   smb_SMDefaultMsgID v; zlen (smb_ShortMessage v)] ++
  smb_ShortMessage v ++ wire_tlvs (smb_Optional v).
(** [short_message] and [message_payload] do not both carry data. *)
Definition no_conflict (o : list OptionalParameter) (sm : bytes) : Prop :=
  hasNonEmptyMessagePayload o && negb (zlen sm =? 0) = false.
Definition valid_smb (v : shortMessageBody) : Prop :=
  zlen (smb_ShortMessage v) <= maxShortMessageLength /\
  no_conflict (smb_Optional v) (smb_ShortMessage v) /\
  valid_cstr maxServiceTypeLen (smb_ServiceType v) /\
  valid_cstr maxAddressLen (smb_SourceAddr v) /\
  valid_cstr maxAddressLen (smb_DestinationAddr v) /\
  valid_cstr maxTimeFieldLen (smb_ScheduleDeliveryTime v) /\
  valid_cstr maxTimeFieldLen (smb_ValidityPeriod v) /\
  valid_tlvs (smb_Optional v).

(** ** Decoders accept exactly the wire formats *)

Lemma requestStatusMustBeZero_sound h :
  sound (requestStatusMustBeZero h) (fun _ => CommandStatus h = 0).
Proof.
  unfold requestStatusMustBeZero, OK, StatusOK.
  destruct (Z.eqb_spec (CommandStatus h) 0); [done|by apply semantic_decode_error].
Qed.
Lemma requestStatusMustBeZero_ok h :
  CommandStatus h = 0 -> requestStatusMustBeZero h = Ok tt.
Proof. intros H. unfold requestStatusMustBeZero. by rewrite H. Qed.

(** A request decoder that first checks the status. *)
Ltac request_sound body :=
  eapply sound_bind; [apply requestStatusMustBeZero_sound|]; intros [] ?;
  apply sound_run; pose proof (at_start body); repeat wp_next.

Lemma decodeBindRequest_sound h body :
  sound (decodeBindRequest h body) (fun a => CommandStatus h = 0 /\
    exists v, a = AVal (VBindRequest v) /\ valid_BindRequest v /\ body = wire_BindRequest v).
Proof.
  request_sound body. split; [done|]. eexists. split; [reflexivity|].
  split; [conj_hyps|]. unfold wire_BindRequest; cbn. by rewrite app_nil_r.
Qed.

Lemma decodeBindRequest_complete h v :
  CommandStatus h = 0 -> valid_BindRequest v ->
  decodeBindRequest h (wire_BindRequest v) = Ok (AVal (VBindRequest v)).
Proof.
  intros Hs (H1 & H2 & H3 & H4). unfold decodeBindRequest.
  rewrite requestStatusMustBeZero_ok by done. cbn [mbind outcome_bind]. apply ex_run.
  pose proof (at_start (wire_BindRequest v)) as Hat.
  unfold wire_BindRequest at 2 in Hat. rewrite <- (app_nil_r (cstr (brq_AddressRange v))) in Hat.
  repeat ex_next. by destruct v.
Qed.

(** ** Unsuccessful and header-only responses *)

Lemma optional_run_sound body :
  bytes_ok body ->
  sound (R_run optional body) (fun o => valid_tlvs o /\ body = wire_tlvs o).
Proof.
  intros Hok. apply sound_run. pose proof (at_start body). by wp_next.
Qed.
Lemma optional_run_complete o :
  valid_tlvs o -> R_run optional (wire_tlvs o) = Ok o.
Proof.
  intros Hv. apply ex_run. pose proof (at_start (wire_tlvs o)) as Hat. by ex_next.
Qed.
Lemma wire_tlvs_nil o : wire_tlvs o = [] <-> o = [].
Proof.
  split; [|by intros ->]. destruct o as [|p o]; [done|]. intros H.
  apply (f_equal length) in H. unfold wire_tlvs in H. cbn [map concat] in H.
  rewrite length_app, wire_tlv_length in H. cbn in H. lia.
Qed.

Lemma OK_spec st : OK st = true <-> st = 0.
Proof. unfold OK, StatusOK. lia. Qed.

Lemma decodeErrorResponseOptional_sound h body :
  bytes_ok body ->
  sound (decodeErrorResponseOptional h body) (fun handled =>
    match handled with
    | None => CommandStatus h = 0
    | Some o => CommandStatus h <> 0 /\ valid_tlvs o /\ body = wire_tlvs o
    end).
Proof.
  intros Hok. unfold decodeErrorResponseOptional, OK, StatusOK.
  destruct (Z.eqb_spec (CommandStatus h) 0) as [H0|H0]; [done|].
  destruct (decide _) as [Hl|Hl].
  - destruct body; [|done]. repeat split; [done|constructor].
  - eapply sound_bind; [by apply optional_run_sound|]. cbn. tauto.
Qed.

Lemma decodeResponseWith_sound zero dec h body F :
  bytes_ok body ->
  sound (dec body) F ->
  sound (decodeResponseWith zero dec h body) (fun a =>
    (CommandStatus h = 0 /\ F a) \/
    (CommandStatus h <> 0 /\ exists o, valid_tlvs o /\ body = wire_tlvs o /\
      a = error_view zero o)).
Proof.
  intros Hok Hdec. eapply sound_bind; [by apply decodeErrorResponseOptional_sound|].
  intros [o|] Ho.
  - destruct o as [|p o]; cbn; right; naive_solver.
  - eapply sound_mono; [exact Hdec|]. cbn. tauto.
Qed.

Lemma decodeResponseWith_ok zero dec h body :
  CommandStatus h = 0 -> decodeResponseWith zero dec h body = dec body.
Proof.
  intros H. unfold decodeResponseWith, decodeErrorResponseOptional. by rewrite H.
Qed.
Lemma decodeResponseWith_error zero dec h o :
  CommandStatus h <> 0 -> valid_tlvs o ->
  decodeResponseWith zero dec h (wire_tlvs o) = Ok (error_view zero o).
Proof.
  intros H Hv. unfold decodeResponseWith, decodeErrorResponseOptional, OK, StatusOK.
  destruct (Z.eqb_spec (CommandStatus h) 0); [done|].
  destruct (decide _) as [Hl|Hl].
  - apply length_zero_iff_nil, wire_tlvs_nil in Hl as ->. done.
  - rewrite optional_run_complete by done. cbn. by destruct o.
Qed.

Lemma decodeResponseEmpty_sound h body :
  bytes_ok body ->
  sound (decodeResponseEmpty h body) (fun a => exists o, valid_tlvs o /\
    body = wire_tlvs o /\ a = error_view VEmptyBody o).
Proof.
  intros Hok. unfold decodeResponseEmpty. destruct (decide _) as [Hl|Hl].
  - destruct body; [|done]. exists []. repeat split. constructor.
  - eapply sound_bind; [by apply optional_run_sound|]. intros o [Hv ->].
    exists o. repeat split; [done|]. by destruct o.
Qed.
Lemma decodeResponseEmpty_complete h o :
  valid_tlvs o -> decodeResponseEmpty h (wire_tlvs o) = Ok (error_view VEmptyBody o).
Proof.
  intros Hv. unfold decodeResponseEmpty. destruct (decide _) as [Hl|Hl].
  - apply length_zero_iff_nil, wire_tlvs_nil in Hl as ->. done.
  - rewrite optional_run_complete by done. cbn. by destruct o.
Qed.

Lemma decodeRequestEmpty_sound h body :
  sound (decodeRequestEmpty h body) (fun a =>
    CommandStatus h = 0 /\ body = [] /\ a = AVal VEmptyBody).
Proof.
  eapply sound_bind; [apply requestStatusMustBeZero_sound|]. intros [] H0. unfold decodeEmpty.
  destruct (Z.eqb_spec (zlen body) 0); [|by apply semantic_decode_error].
  destruct body; [done|cbn in *; lia].
Qed.
Lemma decodeRequestEmpty_complete h :
  CommandStatus h = 0 -> decodeRequestEmpty h [] = Ok (AVal VEmptyBody).
Proof. intros H. unfold decodeRequestEmpty. by rewrite requestStatusMustBeZero_ok. Qed.

(** ** Responses that are an identifier and TLVs *)

Section id_response.
Variables (max : Z) (Hmax : 0 < max) (mk : bytes -> list OptionalParameter -> any).

Let rd : R any := id ← cString max; o ← optional; mret (mk id o).

Lemma id_response_sound body :
  bytes_ok body ->
  sound (R_run rd body) (fun a => exists id o,
    a = mk id o /\ valid_id_tlvs max id o /\ body = wire_id_tlvs id o).
Proof.
  intros Hok. apply sound_run. pose proof (at_start body) as Hat.
  apply wp_bind, (wp_cString max _ body _ Hmax Hat). clear Hat.
  intros id s r Hid -> Hat. repeat wp_next.
  do 2 eexists. split; [reflexivity|]. by split.
Qed.
Lemma id_response_complete id o :
  valid_id_tlvs max id o -> R_run rd (wire_id_tlvs id o) = Ok (mk id o).
Proof.
  intros [Hid Ho]. apply ex_run. pose proof (at_start (wire_id_tlvs id o)) as Hat.
  unfold wire_id_tlvs at 2 in Hat. unfold rd. by repeat ex_next.
Qed.
End id_response.

(** ** The contracts *)

Lemma wspec_id_tlvs max id o :
  0 < max -> Forall (fun p => is_u16 (op_Tag p)) o ->
  wspec (AppendCString id max >>> appendOptional o) (valid_id_tlvs max id o) (wire_id_tlvs id o).
Proof. intros. apply wspec_seq; [by apply wspec_cstring|by apply wspec_optional]. Qed.

(** The response decoders share [decodeResponseWith]. *)
Lemma decodeResponseWith_formats (S : body_spec) dec h body :
  bytes_ok body -> sound (dec body) (fun a => ok_format S a body) ->
  sound (decodeResponseWith (zero S) dec h body) (fun a =>
    (CommandStatus h = 0 /\ ok_format S a body) \/
    (CommandStatus h <> 0 /\ error_format S a body)).
Proof. apply decodeResponseWith_sound. Qed.

(** A response that is an identifier and TLVs, for any such response type [T]
    and any view [vw] of the encoder's argument that takes an empty body, if at
    all, for an empty identifier. *)
Section id_codec.
Context {T : Type} (max : Z) (V : T -> pdu_value) (mk : bytes -> list OptionalParameter -> T)
  (id_of : T -> bytes) (opt_of : T -> list OptionalParameter) (vw : any -> option T).
Hypothesis Hmax : 0 < max.
Hypothesis Hid : forall i o, id_of (mk i o) = i.
Hypothesis Hopt : forall i o, opt_of (mk i o) = o.
Hypothesis Hmk : forall v, mk (id_of v) (opt_of v) = v.
Hypothesis HV : forall v, value_optional (V v) = opt_of v.
Hypothesis HVt : forall v, typed_value (V v) <-> Forall (fun p => is_u16 (op_Tag p)) (opt_of v).
Hypothesis Hvw : forall a v, vw a = Some v ->
  a = AVal (V v) \/ a = APtr (V v) \/ (v = mk [] [] /\ optionalParametersOf a = []).
Hypothesis HvwV : forall v, vw (AVal (V v)) = Some v.
Hypothesis Hnot : forall o, vw (AVal (VOptionalResponse o)) = None.

Definition id_spec (acc : T -> Prop) (lax : T -> bytes -> Prop) : body_spec :=
  MkSpec T V vw (fun v => valid_id_tlvs max (id_of v) (opt_of v)) acc
    (fun v => wire_id_tlvs (id_of v) (opt_of v)) lax (V (mk [] [])).

Context (enc : any -> W).
Hypothesis Henc : forall a, enc a =
  match vw a with
  | Some v => AppendCString (id_of v) max >>> appendOptional (opt_of v)
  | None => encode_other_response a
  end.

Lemma id_view a v : vw a = Some v -> typed a ->
  Forall (fun p => is_u16 (op_Tag p)) (opt_of v).
Proof using Hvw HVt Hopt.
  intros [-> | [-> | [-> Ho]]]%Hvw Ht; [by apply HVt in Ht..|]. rewrite Hopt. constructor.
Qed.

Lemma id_codec acc lax dec :
  (forall body, bytes_ok body -> sound (dec body) (fun a => ok_format (id_spec acc lax) a body)) ->
  (forall a body, ok_format (id_spec acc lax) a body -> dec body = Ok a) ->
  BodyCodec (id_spec acc lax) true (decodeResponseWith (V (mk [] [])) dec) enc.
Proof using All.
  intros Hs Hc.
  apply (response_codec (id_spec acc lax) _ _
    (fun v => AppendCString (id_of v) max >>> appendOptional (opt_of v)) (mk [] []));
    cbn [carrier inj view valid accept wire BodySpec.lax zero id_spec]; try done.
  - intros h body Hok. by apply (decodeResponseWith_formats (id_spec acc lax)); auto.
  - intros h a body H0 Ha. rewrite decodeResponseWith_ok by done. by apply Hc.
  - intros h o H0 Ho. by apply decodeResponseWith_error.
  - intros a v Ht Hv. apply wspec_id_tlvs; [done|]. by eapply id_view.
  - intros a v [-> | [-> | [-> ->]]]%Hvw [_ Ho]; cbn; [by rewrite HV..|constructor].
  - rewrite HV, HVt, Hid, Hopt. repeat split; try done; cbn; try lia; constructor.
  - intros v [_ Ho]. apply HVt. by apply valid_tlvs_typed.
Qed.

(** The decoder without a further condition. *)
Lemma id_codec_plain :
  BodyCodec (id_spec (fun _ => True) (fun _ _ => False)) true
    (decodeResponseWith (V (mk [] [])) (R_run (
      id ← cString max; o ← optional; mret (AVal (V (mk id o)))))) enc.
Proof using All.
  apply id_codec.
  - intros body Hok. eapply sound_mono; [by apply (id_response_sound max Hmax)|].
    intros a (id & o & -> & Hv & ->). exists (mk id o). cbn. rewrite Hid, Hopt. auto.
  - intros a body (v & -> & [(Hv & _ & ->)|[]]). cbn in *.
    rewrite (id_response_complete max (fun i o => AVal (V (mk i o)))) by done.
    by rewrite Hmk.
Qed.
End id_codec.

Definition proj_BindRequest v := match v with VBindRequest v => Some v | _ => None end.
Definition proj_BindResponse v := match v with VBindResponse v => Some v | _ => None end.
Definition proj_SubmitSM v := match v with VSubmitSM v => Some v | _ => None end.
Definition proj_SubmitSMResp v := match v with VSubmitSMResp v => Some v | _ => None end.
Definition proj_DeliverSM v := match v with VDeliverSM v => Some v | _ => None end.
Definition proj_DeliverSMResp v := match v with VDeliverSMResp v => Some v | _ => None end.

Ltac any_cases a := destruct a as [|[]|[]|[]]; reflexivity.

(** Discharge the hypotheses of the [id_codec] lemmas, which hold by the shape
    of the record and of its constructor. *)
Ltac id_side :=
  try done;
  match goal with
  | |- forall v, _ (_ v) (_ v) = v => by intros []
  | |- forall a v, _ a = Some v -> _ =>
      intros [|[]|[]|[]] ?; cbn; intros; simplify_eq; auto 10
  | |- forall v, typed_value _ <-> _ => intros v; unfold typed_value; cbn; tauto
  | |- forall a : any, _ a = _ => intros a; any_cases a
  | _ => idtac
  end.

Definition spec_SubmitSMResp : body_spec :=
  id_spec maxMessageIDLen VSubmitSMResp MkSubmitSMResp ssr_MessageID ssr_Optional
    (view_of proj_SubmitSMResp) (fun _ => True) (fun _ _ => False).

#[export] Instance SubmitSMResp_codec :
  BodyCodec spec_SubmitSMResp true decodeSubmitSMResp encodeSubmitSMResp.
Proof. apply id_codec_plain; id_side. Qed.

Definition spec_BindResponse : body_spec :=
  id_spec maxSystemIDLen VBindResponse MkBindResponse brs_SystemID brs_Optional
    (view_of proj_BindResponse)
    (fun v => badSCInterfaceVersion (brs_Optional v) = false) (fun _ _ => False).

#[export] Instance BindResponse_codec :
  BodyCodec spec_BindResponse true decodeBindResponse encodeBindResponse.
Proof.
  apply id_codec; id_side.
  - intros body Hok. apply sound_run. pose proof (at_start body). repeat wp_next.
    eexists. split; [reflexivity|]. left. split; [by split|]. by split.
  - intros a body ([id o] & -> & [([Hi Ho] & Ha & ->)|[]]). cbn in Hi, Ho.
    change (badSCInterfaceVersion o = false) in Ha. apply ex_run.
    pose proof (at_start (wire_id_tlvs id o)) as Hat. unfold wire_id_tlvs at 2 in Hat.
    repeat ex_next. rewrite Ha. by ex_next.
Qed.

(** The encoder takes an empty body as an empty message_id, and the decoder a
    header-only successful response. *)
Definition view_DeliverSMResp (a : any) : option DeliverSMResp :=
  match a with
  | ANil | AVal VEmptyBody | APtr VEmptyBody | ANilPtr KEmptyBody => Some (MkDeliverSMResp [] [])
  | _ => view_of proj_DeliverSMResp a
  end.
Definition spec_DeliverSMResp : body_spec :=
  id_spec maxMessageIDLen VDeliverSMResp MkDeliverSMResp dsr_MessageID dsr_Optional
    view_DeliverSMResp (fun _ => True) (fun v body => v = MkDeliverSMResp [] [] /\ body = []).

#[export] Instance DeliverSMResp_codec :
  BodyCodec spec_DeliverSMResp true decodeDeliverSMResp encodeDeliverSMResp.
Proof.
  apply id_codec; id_side.
  - intros body Hok. destruct (decide _) as [Hl|Hl].
    + destruct body; [|done]. eexists. split; [reflexivity|]. by right.
    + eapply sound_mono; [by apply (id_response_sound maxMessageIDLen eq_refl)|].
      intros a (id & o & -> & Hv & ->). eexists. split; [reflexivity|]. by left.
  - intros a body ([id o] & -> & [(Hv & _ & ->)|[[= -> ->] ->]]); [|done].
    cbn in *. rewrite decide_False by (unfold wire_id_tlvs, cstr; len).
    by apply (id_response_complete maxMessageIDLen (fun i o => AVal (VDeliverSMResp (MkDeliverSMResp i o)))).
Qed.

(** ** Header-only commands *)

Definition spec_RequestEmpty : body_spec :=
  MkSpec unit (fun _ => VEmptyBody)
    (fun a => match a with
              | ANil | AVal VEmptyBody | APtr VEmptyBody | ANilPtr KEmptyBody => Some tt
              | _ => None end)
    (fun _ => True) (fun _ => True) (fun _ => []) (fun _ _ => False) VEmptyBody.

#[export] Instance RequestEmpty_codec :
  BodyCodec spec_RequestEmpty false decodeRequestEmpty encodeEmpty.
Proof.
  apply (request_codec spec_RequestEmpty _ _ (fun _ => wnil)); try done.
  - intros h body _. eapply sound_mono; [apply decodeRequestEmpty_sound|].
    intros a (H0 & -> & ->). split; [done|]. exists tt. done.
  - intros h v H0 _ _. by apply decodeRequestEmpty_complete.
  - intros. apply wspec_nil.
  - intros a. any_cases a.
  - by intros [].
  - by intros ? ? [].
Qed.

(** The value of a header-only response with optional parameters [o]. *)
Definition inj_ResponseEmpty (o : list OptionalParameter) : pdu_value :=
  match o with [] => VEmptyBody | _ => VOptionalResponse (MkOptionalResponse o) end.
Definition view_ResponseEmpty (a : any) : option (list OptionalParameter) :=
  match a with
  | ANil | AVal VEmptyBody | APtr VEmptyBody | ANilPtr KEmptyBody => Some []
  | AVal (VOptionalResponse v) | APtr (VOptionalResponse v) => Some (or_Optional v)
  | _ => None
  end.
Definition spec_ResponseEmpty : body_spec :=
  MkSpec (list OptionalParameter) inj_ResponseEmpty view_ResponseEmpty valid_tlvs
    (fun _ => True) wire_tlvs (fun _ _ => False) VEmptyBody.

Lemma inj_ResponseEmpty_error_view o : AVal (inj_ResponseEmpty o) = error_view VEmptyBody o.
Proof. by destruct o. Qed.

Lemma view_ResponseEmpty_optional a o :
  view_ResponseEmpty a = Some o -> optionalParametersOf a = o /\
    encodeResponseEmpty a = appendOptional o.
Proof. destruct a as [|[]|[]|[]]; cbn; intros [= <-]; done. Qed.
Lemma view_ResponseEmpty_none a :
  view_ResponseEmpty a = None -> encodeResponseEmpty a = wfail ErrInvalidPDUValue.
Proof. destruct a as [|[]|[]|[]]; done. Qed.

Lemma inj_ResponseEmpty_typed o : valid_tlvs o -> typed (AVal (inj_ResponseEmpty o)).
Proof. intros Hv. pose proof (valid_tlvs_typed o Hv). by destruct o. Qed.

Lemma encodeResponseEmpty_spec a o :
  typed a -> view_ResponseEmpty a = Some o ->
  wspec (encodeResponseEmpty a) (valid_tlvs o) (wire_tlvs o).
Proof.
  intros Ht Hv. destruct (view_ResponseEmpty_optional _ _ Hv) as [Ho ->].
  apply wspec_optional. rewrite <- Ho.
  destruct a; try apply Ht; constructor.
Qed.

#[export] Instance ResponseEmpty_codec :
  BodyCodec spec_ResponseEmpty true decodeResponseEmpty encodeResponseEmpty.
Proof.
  split; cbn [inj view valid zero spec_ResponseEmpty].
  - intros h body Hok. eapply sound_mono; [by apply decodeResponseEmpty_sound|].
    intros a (o & Hv & -> & ->). destruct (decide (CommandStatus h = 0)) as [H0|H0].
    + left. split; [done|]. exists o. split; [by destruct o|]. by left.
    + right. split; [done|]. split; [done|]. by exists o.
  - intros h a body [[H0 (o & -> & [(Hv & _ & ->)|[]])]|[_ [H0 (o & Hv & -> & ->)]]].
    + rewrite decodeResponseEmpty_complete by done. by destruct o.
    + by apply decodeResponseEmpty_complete.
  - apply encodeResponseEmpty_spec.
  - intros a _ Hn. left. rewrite view_ResponseEmpty_none by done. apply wspec_fail.
  - by intros [].
  - intros a o _ Hv Ho. by destruct (view_ResponseEmpty_optional _ _ Hv) as [-> _].
  - intros o _ Ho. rewrite <- inj_ResponseEmpty_error_view.
    pose proof (inj_ResponseEmpty_typed o Ho).
    exists (valid_tlvs o), (wire_tlvs o).
    assert (Hv : view_ResponseEmpty (AVal (inj_ResponseEmpty o)) = Some o) by by destruct o.
    split; [by apply encodeResponseEmpty_spec|].
    by destruct (view_ResponseEmpty_optional _ _ Hv).
  - apply inj_ResponseEmpty_typed.
Qed.

(** ** Bind requests, submit_sm and deliver_sm *)

Definition spec_BindRequest : body_spec :=
  MkSpec BindRequest VBindRequest (view_of proj_BindRequest) valid_BindRequest (fun _ => True)
    wire_BindRequest (fun _ _ => False) VEmptyBody.

#[export] Instance BindRequest_codec :
  BodyCodec spec_BindRequest false decodeBindRequest encodeBindRequest.
Proof.
  apply (request_codec spec_BindRequest _ _ appendBindRequest); try done.
  - intros h body _. eapply sound_mono; [apply decodeBindRequest_sound|]. naive_solver.
  - intros h v H0 Hv _. by apply decodeBindRequest_complete.
  - intros a v _ _. unfold appendBindRequest. wspec_auto; cbn [valid wire spec_BindRequest].
    + unfold valid_BindRequest. tauto.
    + intros _. unfold wire_BindRequest. by rewrite <- !app_assoc.
  - intros a. any_cases a.
  - by intros ? ? [].
Qed.

Lemma decodeShortMessageBody_sound h body :
  bytes_ok body ->
  sound (decodeShortMessageBody h body) (fun v =>
    CommandStatus h = 0 /\ valid_smb v /\ body = wire_smb v).
Proof.
  intros Hok. request_sound body. split; [done|].
  match goal with H : zlen _ = _ |- _ => rename H into Hlen end.
  split.
  - split; [cbn; unfold maxShortMessageLength; split_bytes; lia|]. cbn. conj_hyps.
  - unfold wire_smb; cbn. by rewrite Hlen.
Qed.

Lemma decodeShortMessageBody_complete h v :
  CommandStatus h = 0 -> valid_smb v -> decodeShortMessageBody h (wire_smb v) = Ok v.
Proof.
  intros Hs (Hl & Hc & H1 & H2 & H3 & H4 & H5 & H6). unfold decodeShortMessageBody.
  rewrite requestStatusMustBeZero_ok by done. cbn [mbind outcome_bind]. apply ex_run.
  pose proof (at_start (wire_smb v)) as Hat. unfold wire_smb at 2 in Hat.
  repeat ex_next.
  unfold maxShortMessageLength in Hl.
  destruct (Z.eqb_spec (zlen (smb_ShortMessage v)) 255); [lia|].
  repeat ex_next. unfold no_conflict in Hc. rewrite Hc. ex_next. by destruct v.
Qed.

Lemma appendShortMessageBody_spec v :
  Forall (fun p => is_u16 (op_Tag p)) (smb_Optional v) ->
  wspec (appendShortMessageBody v) (valid_smb v) (wire_smb v).
Proof.
  intros Ht. unfold appendShortMessageBody.
  eapply wspec_iff; [do 2 apply wspec_guard; wspec_step| |].
  - unfold valid_smb, no_conflict. rewrite Z.ltb_ge. tauto.
  - intros (Hl & _). unfold maxShortMessageLength in Hl. unfold wire_smb.
    rewrite u8_small by lia. by rewrite <- !app_assoc.
Qed.

(** submit_sm and deliver_sm, each a renaming of [shortMessageBody]. *)
Section short_message_codec.
Context {T : Type} (V : T -> pdu_value) (of_T : T -> shortMessageBody)
  (T_of : shortMessageBody -> T) (proj : pdu_value -> option T) (enc : any -> W).
Hypothesis Hof : forall d, of_T (T_of d) = d.
Hypothesis Hto : forall v, T_of (of_T v) = v.
Hypothesis Hproj : forall w v, proj w = Some v <-> w = V v.
Hypothesis HVt : forall v,
  typed_value (V v) <-> Forall (fun p => is_u16 (op_Tag p)) (smb_Optional (of_T v)).
Hypothesis Henc : forall a, enc a =
  match view_of proj a with
  | Some v => appendShortMessageBody (of_T v)
  | None => wfail ErrInvalidPDUValue
  end.

Definition smb_spec : body_spec :=
  MkSpec T V (view_of proj) (fun v => valid_smb (of_T v)) (fun _ => True)
    (fun v => wire_smb (of_T v)) (fun _ _ => False) VEmptyBody.

Lemma smb_codec :
  BodyCodec smb_spec false
    (fun h body => decoded ← decodeShortMessageBody h body; Ok (AVal (V (T_of decoded)))) enc.
Proof using All.
  apply (request_codec smb_spec _ _ (fun v => appendShortMessageBody (of_T v)));
    cbn [carrier inj view valid accept wire lax zero smb_spec]; try done.
  - intros h body Hok. eapply sound_bind; [by apply decodeShortMessageBody_sound|].
    intros d (H0 & Hv & ->). split; [done|]. exists (T_of d). by rewrite Hof.
  - intros h v H0 Hv _. rewrite decodeShortMessageBody_complete by done. cbn. by rewrite Hto.
  - intros a v Ht Hv. apply appendShortMessageBody_spec, HVt.
    destruct a as [|w|w|]; cbn in Hv; try done; apply Hproj in Hv as ->; done.
  - intros v. by apply Hproj.
  - by intros ? ? [].
  - intros v (_ & _ & _ & _ & _ & _ & _ & Ho). by apply HVt, valid_tlvs_typed.
Qed.
End short_message_codec.

Ltac smb_side :=
  match goal with
  | |- forall w v, _ w = Some v <-> w = _ => intros [] ?; cbn; split; congruence
  | |- forall v, typed_value _ <-> _ => intros []; unfold typed_value; cbn; tauto
  | |- forall a : any, _ a = _ => intros a; any_cases a
  | |- forall d, _ (_ d) = d => by intros []
  end.

Definition spec_SubmitSM : body_spec := smb_spec VSubmitSM of_SubmitSM proj_SubmitSM.
#[export] Instance SubmitSM_codec : BodyCodec spec_SubmitSM false decodeSubmitSM encodeSubmitSM.
Proof. apply smb_codec; smb_side. Qed.

Definition spec_DeliverSM : body_spec := smb_spec VDeliverSM of_DeliverSM proj_DeliverSM.
#[export] Instance DeliverSM_codec :
  BodyCodec spec_DeliverSM false decodeDeliverSM encodeDeliverSM.
Proof. apply smb_codec; smb_side. Qed.
