(* ===== verification/Extra34.v ===== *)
(** * The rest of the SMPP 3.4 bodies (src/codec/smpp34_extra.go)

    data_sm, query_sm, cancel_sm, replace_sm, alert_notification, outbind and
    submit_multi, with the same organisation as Body34.v. *)

From S2P Require Import Prelude Protocol Bodies Fields BodySpec Body34.

Definition maxDataAddressLen : Z := 65.
Definition maxDLNameLen : Z := 21.

(** ** data_sm *)

Definition decodeDataSM (header : Header) (body : bytes) : res any :=
  _ ← requestStatusMustBeZero header;
  R_run (
    serviceType ← cString maxServiceTypeLen;
    sourceTON ← uint8;
    sourceNPI ← uint8;
    sourceAddr ← cString maxDataAddressLen;
    destTON ← uint8;
    destNPI ← uint8;
    destinationAddr ← cString maxDataAddressLen;
    esmClass ← uint8;
    registeredDelivery ← uint8;
    coding ← uint8;
    o ← optional;
    mret (AVal (VDataSM (MkDataSM serviceType sourceTON sourceNPI sourceAddr destTON destNPI
      destinationAddr esmClass registeredDelivery coding o)))
  ) body.

Definition appendDataSM (v : DataSM) : W :=
  AppendCString (dat_ServiceType v) maxServiceTypeLen >>>
  AppendOctets [dat_SourceAddrTON v; dat_SourceAddrNPI v] >>>
  AppendCString (dat_SourceAddr v) maxDataAddressLen >>>
  AppendOctets [dat_DestAddrTON v; dat_DestAddrNPI v] >>>
  AppendCString (dat_DestinationAddr v) maxDataAddressLen >>>
  AppendOctets [dat_ESMClass v; dat_RegisteredDelivery v; dat_DataCoding v] >>>
  appendOptional (dat_Optional v).

Definition encodeDataSM (value : any) : W :=
  match value with
  | AVal (VDataSM v) | APtr (VDataSM v) => appendDataSM v
  | _ => wfail ErrInvalidPDUValue
  end.

Definition decodeDataSMResp : Header -> bytes -> res any :=
  decodeResponseWith (VDataSMResp (MkDataSMResp [] [])) (R_run (
    messageID ← cString maxMessageIDLen;
    o ← optional;
    mret (AVal (VDataSMResp (MkDataSMResp messageID o))))).

Definition appendDataSMResp (v : DataSMResp) : W :=
  AppendCString (dar_MessageID v) maxMessageIDLen >>> appendOptional (dar_Optional v).

Definition encodeDataSMResp (value : any) : W :=
  match value with
  | ANil | AVal VEmptyBody | APtr VEmptyBody | ANilPtr KEmptyBody => wnil
  | AVal (VDataSMResp v) | APtr (VDataSMResp v) => appendDataSMResp v
  | AVal (VOptionalResponse v) | APtr (VOptionalResponse v) => appendOptional (or_Optional v)
  | _ => wfail ErrInvalidPDUValue
  end.

(** ** query_sm *)

Definition decodeQuerySM (header : Header) (body : bytes) : res any :=
  _ ← requestStatusMustBeZero header;
  R_run (
    messageID ← cString maxMessageIDLen;
    ton ← uint8;
    npi ← uint8;
    sourceAddr ← cString maxAddressLen;
    _ ← requireDone;
    mret (AVal (VQuerySM (MkQuerySM messageID ton npi sourceAddr)))
  ) body.

Definition appendQuerySM (v : QuerySM) : W :=
  AppendCString (qsm_MessageID v) maxMessageIDLen >>>
  AppendOctets [qsm_SourceAddrTON v; qsm_SourceAddrNPI v] >>>
  AppendCString (qsm_SourceAddr v) maxAddressLen.

Definition encodeQuerySM (value : any) : W :=
  match value with
  | AVal (VQuerySM v) | APtr (VQuerySM v) => appendQuerySM v
  | _ => wfail ErrInvalidPDUValue
  end.

Definition decodeQuerySMResp : Header -> bytes -> res any :=
  decodeResponseWith (VQuerySMResp (MkQuerySMResp [] [] 0 0 [])) (R_run (
    messageID ← cString maxMessageIDLen;
    finalDate ← cString maxTimeFieldLen;
    state ← uint8;
    errorCode ← uint8;
    o ← optional;
    mret (AVal (VQuerySMResp (MkQuerySMResp messageID finalDate state errorCode o))))).

Definition appendQuerySMResp (v : QuerySMResp) : W :=
  AppendCString (qsr_MessageID v) maxMessageIDLen >>>
  AppendCString (qsr_FinalDate v) maxTimeFieldLen >>>
  AppendOctets [qsr_MessageState v; qsr_ErrorCode v] >>>
  appendOptional (qsr_Optional v).

Definition encodeQuerySMResp (value : any) : W :=
  match value with
  | ANil | AVal VEmptyBody | APtr VEmptyBody | ANilPtr KEmptyBody => wnil
  | AVal (VQuerySMResp v) | APtr (VQuerySMResp v) => appendQuerySMResp v
  | AVal (VOptionalResponse v) | APtr (VOptionalResponse v) => appendOptional (or_Optional v)
  | _ => wfail ErrInvalidPDUValue
  end.

(** ** cancel_sm and replace_sm *)

Definition decodeCancelSM (header : Header) (body : bytes) : res any :=
  _ ← requestStatusMustBeZero header;
  R_run (
    serviceType ← cString maxServiceTypeLen;
    messageID ← cString maxMessageIDLen;
    sourceTON ← uint8;
    sourceNPI ← uint8;
    sourceAddr ← cString maxAddressLen;
    destTON ← uint8;
    destNPI ← uint8;
    destinationAddr ← cString maxAddressLen;
    _ ← requireDone;
    mret (AVal (VCancelSM (MkCancelSM serviceType messageID sourceTON sourceNPI sourceAddr
      destTON destNPI destinationAddr)))
  ) body.

Definition appendCancelSM (v : CancelSM) : W :=
  AppendCString (csm_ServiceType v) maxServiceTypeLen >>>
  AppendCString (csm_MessageID v) maxMessageIDLen >>>
  AppendOctets [csm_SourceAddrTON v; csm_SourceAddrNPI v] >>>
  AppendCString (csm_SourceAddr v) maxAddressLen >>>
  AppendOctets [csm_DestAddrTON v; csm_DestAddrNPI v] >>>
  AppendCString (csm_DestinationAddr v) maxAddressLen.

Definition encodeCancelSM (value : any) : W :=
  match value with
  | AVal (VCancelSM v) | APtr (VCancelSM v) => appendCancelSM v
  | _ => wfail ErrInvalidPDUValue
  end.

Definition decodeReplaceSM (header : Header) (body : bytes) : res any :=
  _ ← requestStatusMustBeZero header;
  R_run (
    messageID ← cString maxMessageIDLen;
    sourceTON ← uint8;
    sourceNPI ← uint8;
    sourceAddr ← cString maxAddressLen;
    scheduleDeliveryTime ← cString maxTimeFieldLen;
    validityPeriod ← cString maxTimeFieldLen;
    registeredDelivery ← uint8;
    smDefaultMsgID ← uint8;
    smLength ← uint8;
    if smLength =? 255
    then R_fail (semantic StatusInvalidMessageLength ErrInvalidPDUValue) else
    shortMessage ← octets smLength;
    _ ← requireDone;
    mret (AVal (VReplaceSM (MkReplaceSM messageID sourceTON sourceNPI sourceAddr
      scheduleDeliveryTime validityPeriod registeredDelivery smDefaultMsgID shortMessage)))
  ) body.

Definition appendReplaceSM (v : ReplaceSM) : W :=
  if maxShortMessageLength <? zlen (rsm_ShortMessage v) then wfail ErrFieldTooLong else
  AppendCString (rsm_MessageID v) maxMessageIDLen >>>
  AppendOctets [rsm_SourceAddrTON v; rsm_SourceAddrNPI v] >>>
  AppendCString (rsm_SourceAddr v) maxAddressLen >>>
  AppendCString (rsm_ScheduleDeliveryTime v) maxTimeFieldLen >>>
  AppendCString (rsm_ValidityPeriod v) maxTimeFieldLen >>>
  AppendOctets [rsm_RegisteredDelivery v; rsm_SMDefaultMsgID v; u8 (zlen (rsm_ShortMessage v))] >>>
  AppendOctets (rsm_ShortMessage v).

Definition encodeReplaceSM (value : any) : W :=
  match value with
  | AVal (VReplaceSM v) | APtr (VReplaceSM v) => appendReplaceSM v
  | _ => wfail ErrInvalidPDUValue
  end.

(** ** alert_notification and outbind *)

Definition decodeAlertNotification (header : Header) (body : bytes) : res any :=
  _ ← requestStatusMustBeZero header;
  R_run (
    sourceTON ← uint8;
    sourceNPI ← uint8;
    sourceAddr ← cString maxDataAddressLen;
    esmeTON ← uint8;
    esmeNPI ← uint8;
    esmeAddr ← cString maxDataAddressLen;
    o ← optional;
    mret (AVal (VAlertNotification
      (MkAlertNotification sourceTON sourceNPI sourceAddr esmeTON esmeNPI esmeAddr o)))
  ) body.

Definition appendAlertNotification (v : AlertNotification) : W :=
  AppendOctets [aln_SourceAddrTON v; aln_SourceAddrNPI v] >>>
  AppendCString (aln_SourceAddr v) maxDataAddressLen >>>
  AppendOctets [aln_ESMEAddrTON v; aln_ESMEAddrNPI v] >>>
  AppendCString (aln_ESMEAddr v) maxDataAddressLen >>>
  appendOptional (aln_Optional v).

Definition encodeAlertNotification (value : any) : W :=
  match value with
  | AVal (VAlertNotification v) | APtr (VAlertNotification v) => appendAlertNotification v
  | _ => wfail ErrInvalidPDUValue
  end.

Definition decodeOutbind (header : Header) (body : bytes) : res any :=
  _ ← requestStatusMustBeZero header;
  R_run (
    systemID ← cString maxSystemIDLen;
    password ← cString maxPasswordLen;
    _ ← requireDone;
    mret (AVal (VOutbind (MkOutbind systemID password)))
  ) body.

Definition appendOutbind (v : Outbind) : W :=
  AppendCString (obd_SystemID v) maxSystemIDLen >>>
  AppendCString (obd_Password v) maxPasswordLen.

Definition encodeOutbind (value : any) : W :=
  match value with
  | AVal (VOutbind v) | APtr (VOutbind v) => appendOutbind v
  | _ => wfail ErrInvalidPDUValue
  end.

(** ** submit_multi *)

(** [for i := 0; i < n; i++ { x, err := m; out = append(out, x) }]. *)
Fixpoint R_repeat {A} (n : nat) (m : R A) : R (list A) :=
  match n with
  | O => mret []
  | S n => x ← m; rest ← R_repeat n m; mret (x :: rest)
  end.

(** The body of the destination loop. *)
Definition decodeDestination (header : Header) : R SubmitMultiDestination :=
  flag ← uint8;
  if flag =? DestinationSME then
    ton ← uint8;
    npi ← uint8;
    address ← cString maxAddressLen;
    mret (MkSubmitMultiDestination flag ton npi address)
  else if flag =? DestinationDistributionList then
    address ← cString maxDLNameLen;
    mret (MkSubmitMultiDestination flag 0 0 address)
  else R_fail (EFatal (MkFatalError FatalFrameBoundaryLost (CommandLength header)
                         (CommandID header) (SequenceNumber header))).

Definition decodeSubmitMulti (header : Header) (body : bytes) : res any :=
  _ ← requestStatusMustBeZero header;
  R_run (
    serviceType ← cString maxServiceTypeLen;
    sourceTON ← uint8;
    sourceNPI ← uint8;
    sourceAddr ← cString maxAddressLen;
    count ← uint8;
    if (count =? 0) || (count =? 255)
    then R_fail (semantic StatusInvalidNumberOfDestinations ErrInvalidPDUValue) else
    destinations ← R_repeat (Z.to_nat count) (decodeDestination header);
    esmClass ← uint8;
    protocolID ← uint8;
    priorityFlag ← uint8;
    scheduleDeliveryTime ← cString maxTimeFieldLen;
    validityPeriod ← cString maxTimeFieldLen;
    registeredDelivery ← uint8;
    replaceIfPresentFlag ← uint8;
    coding ← uint8;
    smDefaultMsgID ← uint8;
    smLength ← uint8;
    if smLength =? 255
    then R_fail (semantic StatusInvalidMessageLength ErrInvalidPDUValue) else
    shortMessage ← octets smLength;
    o ← optional;
    if hasNonEmptyMessagePayload o && negb (zlen shortMessage =? 0)
    then R_fail (semantic StatusInvalidOptionalParameterValue ErrConflictingMessageData)
    else mret (AVal (VSubmitMulti (MkSubmitMulti serviceType sourceTON sourceNPI sourceAddr
      destinations esmClass protocolID priorityFlag scheduleDeliveryTime validityPeriod
      registeredDelivery replaceIfPresentFlag coding smDefaultMsgID shortMessage o)))
  ) body.

(** [for _, x := range l { dst, err = f(dst, x) }]. *)
Fixpoint W_each {A} (f : A -> W) (l : list A) : W :=
  match l with [] => wnil | x :: l => f x >>> W_each f l end.

Definition appendDestination (d : SubmitMultiDestination) : W :=
  AppendOctets [smd_Flag d] >>>
  (if smd_Flag d =? DestinationSME then
     AppendOctets [smd_TON d; smd_NPI d] >>> AppendCString (smd_Address d) maxAddressLen
   else if smd_Flag d =? DestinationDistributionList then
     AppendCString (smd_Address d) maxDLNameLen
   else wfail ErrInvalidPDUValue).

Definition appendSubmitMulti (v : SubmitMulti) : W :=
  if (zlen (smu_Destinations v) =? 0) || (254 <? zlen (smu_Destinations v))
  then wfail ErrInvalidPDUValue
  else if maxShortMessageLength <? zlen (smu_ShortMessage v) then wfail ErrFieldTooLong
  else if hasNonEmptyMessagePayload (smu_Optional v) && negb (zlen (smu_ShortMessage v) =? 0)
  then wfail ErrConflictingMessageData
  else
    AppendCString (smu_ServiceType v) maxServiceTypeLen >>>
    AppendOctets [smu_SourceAddrTON v; smu_SourceAddrNPI v] >>>
    AppendCString (smu_SourceAddr v) maxAddressLen >>>
    AppendOctets [u8 (zlen (smu_Destinations v))] >>>
    W_each appendDestination (smu_Destinations v) >>>
    AppendOctets [smu_ESMClass v; smu_ProtocolID v; smu_PriorityFlag v] >>>
    AppendCString (smu_ScheduleDeliveryTime v) maxTimeFieldLen >>>
    AppendCString (smu_ValidityPeriod v) maxTimeFieldLen >>>
    AppendOctets [smu_RegisteredDelivery v; smu_ReplaceIfPresentFlag v; smu_DataCoding v;
                  smu_SMDefaultMsgID v; u8 (zlen (smu_ShortMessage v))] >>>
    AppendOctets (smu_ShortMessage v) >>>
    appendOptional (smu_Optional v).

Definition encodeSubmitMulti (value : any) : W :=
  match value with
  | AVal (VSubmitMulti v) | APtr (VSubmitMulti v) => appendSubmitMulti v
  | _ => wfail ErrInvalidPDUValue
  end.

(** The body of the loop over the unsuccessful destinations. *)
Definition decodeUnsuccessfulSME : R UnsuccessfulSME :=
  ton ← uint8;
  npi ← uint8;
  address ← cString maxAddressLen;
  status ← uint32;
  mret (MkUnsuccessfulSME ton npi address status).

Definition decodeSubmitMultiResp : Header -> bytes -> res any :=
  decodeResponseWith (VSubmitMultiResp (MkSubmitMultiResp [] [] [])) (R_run (
    messageID ← cString maxMessageIDLen;
    count ← uint8;
    unsuccessful ← R_repeat (Z.to_nat count) decodeUnsuccessfulSME;
    o ← optional;
    mret (AVal (VSubmitMultiResp (MkSubmitMultiResp messageID unsuccessful o))))).

Definition appendUnsuccessfulSME (u : UnsuccessfulSME) : W :=
  AppendOctets [use_DestAddrTON u; use_DestAddrNPI u] >>>
  AppendCString (use_DestinationAddr u) maxAddressLen >>>
  AppendOctets (be32_put (use_ErrorStatusCode u)).

Definition appendSubmitMultiResp (v : SubmitMultiResp) : W :=
  if 255 <? zlen (smr_Unsuccessful v) then wfail ErrInvalidPDUValue else
  AppendCString (smr_MessageID v) maxMessageIDLen >>>
  AppendOctets [u8 (zlen (smr_Unsuccessful v))] >>>
  W_each appendUnsuccessfulSME (smr_Unsuccessful v) >>>
  appendOptional (smr_Optional v).

Definition encodeSubmitMultiResp (value : any) : W :=
  match value with
  | ANil | AVal VEmptyBody | APtr VEmptyBody | ANilPtr KEmptyBody => wnil
  | AVal (VSubmitMultiResp v) | APtr (VSubmitMultiResp v) => appendSubmitMultiResp v
  | AVal (VOptionalResponse v) | APtr (VOptionalResponse v) => appendOptional (or_Optional v)
  | _ => wfail ErrInvalidPDUValue
  end.

(** ** Wire formats *)

Definition wire_DataSM (v : DataSM) : bytes :=
  cstr (dat_ServiceType v) ++ [dat_SourceAddrTON v; dat_SourceAddrNPI v] ++
  cstr (dat_SourceAddr v) ++ [dat_DestAddrTON v; dat_DestAddrNPI v] ++
  cstr (dat_DestinationAddr v) ++
  [dat_ESMClass v; dat_RegisteredDelivery v; dat_DataCoding v] ++ wire_tlvs (dat_Optional v).
Definition valid_DataSM (v : DataSM) : Prop :=
  valid_cstr maxServiceTypeLen (dat_ServiceType v) /\
  valid_cstr maxDataAddressLen (dat_SourceAddr v) /\
  valid_cstr maxDataAddressLen (dat_DestinationAddr v) /\ valid_tlvs (dat_Optional v).

Definition wire_QuerySM (v : QuerySM) : bytes :=
  cstr (qsm_MessageID v) ++ [qsm_SourceAddrTON v; qsm_SourceAddrNPI v] ++
  cstr (qsm_SourceAddr v).
Definition valid_QuerySM (v : QuerySM) : Prop :=
  valid_cstr maxMessageIDLen (qsm_MessageID v) /\ valid_cstr maxAddressLen (qsm_SourceAddr v).

Definition wire_QuerySMResp (v : QuerySMResp) : bytes :=
  cstr (qsr_MessageID v) ++ cstr (qsr_FinalDate v) ++
  [qsr_MessageState v; qsr_ErrorCode v] ++ wire_tlvs (qsr_Optional v).
Definition valid_QuerySMResp (v : QuerySMResp) : Prop :=
  valid_cstr maxMessageIDLen (qsr_MessageID v) /\
  valid_cstr maxTimeFieldLen (qsr_FinalDate v) /\ valid_tlvs (qsr_Optional v).

Definition wire_CancelSM (v : CancelSM) : bytes :=
  cstr (csm_ServiceType v) ++ cstr (csm_MessageID v) ++
  [csm_SourceAddrTON v; csm_SourceAddrNPI v] ++ cstr (csm_SourceAddr v) ++
  [csm_DestAddrTON v; csm_DestAddrNPI v] ++ cstr (csm_DestinationAddr v).
Definition valid_CancelSM (v : CancelSM) : Prop :=
  valid_cstr maxServiceTypeLen (csm_ServiceType v) /\
  valid_cstr maxMessageIDLen (csm_MessageID v) /\ valid_cstr maxAddressLen (csm_SourceAddr v) /\
  valid_cstr maxAddressLen (csm_DestinationAddr v).

Definition wire_ReplaceSM (v : ReplaceSM) : bytes :=
  cstr (rsm_MessageID v) ++ [rsm_SourceAddrTON v; rsm_SourceAddrNPI v] ++
  cstr (rsm_SourceAddr v) ++ cstr (rsm_ScheduleDeliveryTime v) ++
  cstr (rsm_ValidityPeriod v) ++
  [rsm_RegisteredDelivery v; rsm_SMDefaultMsgID v; zlen (rsm_ShortMessage v)] ++
  rsm_ShortMessage v.
Definition valid_ReplaceSM (v : ReplaceSM) : Prop :=
  zlen (rsm_ShortMessage v) <= maxShortMessageLength /\
  valid_cstr maxMessageIDLen (rsm_MessageID v) /\ valid_cstr maxAddressLen (rsm_SourceAddr v) /\
  valid_cstr maxTimeFieldLen (rsm_ScheduleDeliveryTime v) /\
  valid_cstr maxTimeFieldLen (rsm_ValidityPeriod v).

Definition wire_AlertNotification (v : AlertNotification) : bytes :=
  [aln_SourceAddrTON v; aln_SourceAddrNPI v] ++ cstr (aln_SourceAddr v) ++
  [aln_ESMEAddrTON v; aln_ESMEAddrNPI v] ++ cstr (aln_ESMEAddr v) ++ wire_tlvs (aln_Optional v).
Definition valid_AlertNotification (v : AlertNotification) : Prop :=
  valid_cstr maxDataAddressLen (aln_SourceAddr v) /\
  valid_cstr maxDataAddressLen (aln_ESMEAddr v) /\ valid_tlvs (aln_Optional v).

Definition wire_Outbind (v : Outbind) : bytes := cstr (obd_SystemID v) ++ cstr (obd_Password v).
Definition valid_Outbind (v : Outbind) : Prop :=
  valid_cstr maxSystemIDLen (obd_SystemID v) /\ valid_cstr maxPasswordLen (obd_Password v).

(** A destination is an address with its type and plan, or a list name. *)
Definition wire_destination (d : SubmitMultiDestination) : bytes :=
  smd_Flag d :: (if smd_Flag d =? DestinationSME then [smd_TON d; smd_NPI d] else []) ++
  cstr (smd_Address d).
Definition valid_destination (d : SubmitMultiDestination) : Prop :=
  (smd_Flag d = DestinationSME /\ valid_cstr maxAddressLen (smd_Address d)) \/
  (smd_Flag d = DestinationDistributionList /\ valid_cstr maxDLNameLen (smd_Address d)).
(** A list name has no type and plan on the wire. *)
Definition plain_destination (d : SubmitMultiDestination) : Prop :=
  smd_Flag d = DestinationDistributionList -> smd_TON d = 0 /\ smd_NPI d = 0.

Definition wire_SubmitMulti (v : SubmitMulti) : bytes :=
  cstr (smu_ServiceType v) ++ [smu_SourceAddrTON v; smu_SourceAddrNPI v] ++
  cstr (smu_SourceAddr v) ++ [zlen (smu_Destinations v)] ++
  concat (map wire_destination (smu_Destinations v)) ++
  [smu_ESMClass v; smu_ProtocolID v; smu_PriorityFlag v] ++
  cstr (smu_ScheduleDeliveryTime v) ++ cstr (smu_ValidityPeriod v) ++
  [smu_RegisteredDelivery v; smu_ReplaceIfPresentFlag v; smu_DataCoding v;
   smu_SMDefaultMsgID v; zlen (smu_ShortMessage v)] ++
  smu_ShortMessage v ++ wire_tlvs (smu_Optional v).
Definition valid_SubmitMulti (v : SubmitMulti) : Prop :=
  1 <= zlen (smu_Destinations v) <= 254 /\
  zlen (smu_ShortMessage v) <= maxShortMessageLength /\
  no_conflict (smu_Optional v) (smu_ShortMessage v) /\
  valid_cstr maxServiceTypeLen (smu_ServiceType v) /\
  valid_cstr maxAddressLen (smu_SourceAddr v) /\
  Forall valid_destination (smu_Destinations v) /\
  valid_cstr maxTimeFieldLen (smu_ScheduleDeliveryTime v) /\
  valid_cstr maxTimeFieldLen (smu_ValidityPeriod v) /\ valid_tlvs (smu_Optional v).

Definition wire_unsuccessful (u : UnsuccessfulSME) : bytes :=
  [use_DestAddrTON u; use_DestAddrNPI u] ++ cstr (use_DestinationAddr u) ++
  be32_put (use_ErrorStatusCode u).
Definition valid_unsuccessful (u : UnsuccessfulSME) : Prop :=
  valid_cstr maxAddressLen (use_DestinationAddr u) /\ is_u32 (use_ErrorStatusCode u).

Definition wire_SubmitMultiResp (v : SubmitMultiResp) : bytes :=
  cstr (smr_MessageID v) ++ [zlen (smr_Unsuccessful v)] ++
  concat (map wire_unsuccessful (smr_Unsuccessful v)) ++ wire_tlvs (smr_Optional v).
Definition valid_SubmitMultiResp (v : SubmitMultiResp) : Prop :=
  zlen (smr_Unsuccessful v) <= 255 /\ valid_cstr maxMessageIDLen (smr_MessageID v) /\
  Forall valid_unsuccessful (smr_Unsuccessful v) /\ valid_tlvs (smr_Optional v).

(** ** The contracts of the plain requests *)

Definition proj_DataSM v := match v with VDataSM v => Some v | _ => None end.
Definition proj_DataSMResp v := match v with VDataSMResp v => Some v | _ => None end.
Definition proj_QuerySM v := match v with VQuerySM v => Some v | _ => None end.
Definition proj_QuerySMResp v := match v with VQuerySMResp v => Some v | _ => None end.
Definition proj_CancelSM v := match v with VCancelSM v => Some v | _ => None end.
Definition proj_ReplaceSM v := match v with VReplaceSM v => Some v | _ => None end.
Definition proj_AlertNotification v := match v with VAlertNotification v => Some v | _ => None end.
Definition proj_Outbind v := match v with VOutbind v => Some v | _ => None end.
Definition proj_SubmitMulti v := match v with VSubmitMulti v => Some v | _ => None end.
Definition proj_SubmitMultiResp v := match v with VSubmitMultiResp v => Some v | _ => None end.

Definition plain_spec {T} (V : T -> pdu_value) (proj : pdu_value -> option T)
    (valid acc : T -> Prop) (wire : T -> bytes) (zero : pdu_value) : body_spec :=
  MkSpec T V (view_of proj) valid acc wire (fun _ _ => False) zero.

Section plain_request.
Context {T : Type} (V : T -> pdu_value) (proj : pdu_value -> option T)
  (valid acc : T -> Prop) (wire : T -> bytes) (app : T -> W)
  (dec : Header -> bytes -> res any) (enc : any -> W).
Hypothesis Hproj : forall w v, proj w = Some v <-> w = V v.
Hypothesis Henc : forall a, enc a =
  match view_of proj a with Some v => app v | None => wfail ErrInvalidPDUValue end.
Hypothesis Htyped : forall v, valid v -> typed_value (V v).
Hypothesis Happ : forall v, typed_value (V v) -> wspec (app v) (valid v) (wire v).

Lemma plain_request_codec :
  (forall h body, bytes_ok body -> sound (dec h body) (fun a => CommandStatus h = 0 /\
    exists v, a = AVal (V v) /\ (valid v /\ acc v) /\ body = wire v)) ->
  (forall h v, CommandStatus h = 0 -> valid v -> acc v -> dec h (wire v) = Ok (AVal (V v))) ->
  BodyCodec (plain_spec V proj valid acc wire VEmptyBody) false dec enc.
Proof using All.
  intros Hs Hc. apply (request_codec (plain_spec V proj valid acc wire VEmptyBody) _ _ app);
    cbn [carrier inj view BodySpec.valid accept BodySpec.wire lax zero plain_spec]; try done.
  - intros a v Ht Hv. apply Happ.
    destruct a as [|w|w|]; cbn in Hv; try done; apply Hproj in Hv as ->; done.
  - intros v. by apply Hproj.
  - by intros ? ? [].
Qed.
End plain_request.

(** The hypotheses of [plain_request_codec]: the shape of the value, then the
    encoder, the decoder's soundness and its completeness. *)
Ltac shape :=
  try match goal with
  | |- forall w v, _ w = Some v <-> w = _ => intros [] ?; cbn; split; congruence
  | |- forall a : any, _ a = _ => intros a; any_cases a
  end.
Ltac tlv_typed := split; [apply valid_tlvs_typed; cbn; tauto|done].
Ltac app_spec valid wire :=
  intros v [? _]; eapply wspec_iff; [wspec_step| |]; [unfold valid; tauto|];
  intros _; unfold wire; by rewrite <- ?app_assoc.
Ltac dec_sound :=
  let h := fresh "h" in let body := fresh "body" in
  intros h body ?; request_sound body; split; [done|];
  eexists; split; [reflexivity|]; split; [split; [conj_hyps|done]|];
  rewrite ?app_nil_r; reflexivity.
(** Run a decoder on the octets of [v]. *)
Ltac run_on v wire :=
  apply ex_run;
  let Hat := fresh "Hat" in
  pose proof (at_start (wire v)) as Hat; revert Hat; generalize (MkReader (wire v) 0);
  intros ? Hat; rewrite <- (app_nil_r (wire v)) in Hat; unfold wire in Hat; repeat ex_next.
Ltac dec_complete dec wire :=
  let v := fresh "v" in
  intros ? v ? Hv ?; unfold dec; rewrite requestStatusMustBeZero_ok by done;
  cbn [mbind outcome_bind]; hnf in Hv; destruct_and? Hv; run_on v wire.

Definition spec_DataSM :=
  plain_spec VDataSM proj_DataSM valid_DataSM (fun _ => True) wire_DataSM VEmptyBody.
#[export] Instance DataSM_codec : BodyCodec spec_DataSM false decodeDataSM encodeDataSM.
Proof.
  apply (plain_request_codec _ _ _ _ _ appendDataSM); shape.
  - intros v (_ & _ & _ & Ho). tlv_typed.
  - app_spec valid_DataSM wire_DataSM.
  - dec_sound.
  - dec_complete decodeDataSM wire_DataSM. by destruct v.
Qed.

Definition spec_DataSMResp : body_spec :=
  id_spec maxMessageIDLen VDataSMResp MkDataSMResp dar_MessageID dar_Optional
    (view_of proj_DataSMResp) (fun _ => True) (fun _ _ => False).
#[export] Instance DataSMResp_codec :
  BodyCodec spec_DataSMResp true decodeDataSMResp encodeDataSMResp.
Proof. apply id_codec_plain; id_side. Qed.

Definition spec_QuerySM :=
  plain_spec VQuerySM proj_QuerySM valid_QuerySM (fun _ => True) wire_QuerySM VEmptyBody.
#[export] Instance QuerySM_codec : BodyCodec spec_QuerySM false decodeQuerySM encodeQuerySM.
Proof.
  apply (plain_request_codec _ _ _ _ _ appendQuerySM); shape.
  - done.
  - app_spec valid_QuerySM wire_QuerySM.
  - dec_sound.
  - dec_complete decodeQuerySM wire_QuerySM. by destruct v.
Qed.

Definition spec_CancelSM :=
  plain_spec VCancelSM proj_CancelSM valid_CancelSM (fun _ => True) wire_CancelSM VEmptyBody.
#[export] Instance CancelSM_codec : BodyCodec spec_CancelSM false decodeCancelSM encodeCancelSM.
Proof.
  apply (plain_request_codec _ _ _ _ _ appendCancelSM); shape.
  - done.
  - app_spec valid_CancelSM wire_CancelSM.
  - dec_sound.
  - dec_complete decodeCancelSM wire_CancelSM. by destruct v.
Qed.

Definition spec_AlertNotification :=
  plain_spec VAlertNotification proj_AlertNotification valid_AlertNotification (fun _ => True)
    wire_AlertNotification VEmptyBody.
#[export] Instance AlertNotification_codec :
  BodyCodec spec_AlertNotification false decodeAlertNotification encodeAlertNotification.
Proof.
  apply (plain_request_codec _ _ _ _ _ appendAlertNotification); shape.
  - intros v (_ & _ & Ho). tlv_typed.
  - app_spec valid_AlertNotification wire_AlertNotification.
  - dec_sound.
  - dec_complete decodeAlertNotification wire_AlertNotification. by destruct v.
Qed.

Definition spec_Outbind :=
  plain_spec VOutbind proj_Outbind valid_Outbind (fun _ => True) wire_Outbind VEmptyBody.
#[export] Instance Outbind_codec : BodyCodec spec_Outbind false decodeOutbind encodeOutbind.
Proof.
  apply (plain_request_codec _ _ _ _ _ appendOutbind); shape.
  - done.
  - app_spec valid_Outbind wire_Outbind.
  - dec_sound.
  - dec_complete decodeOutbind wire_Outbind. by destruct v.
Qed.

Definition spec_ReplaceSM :=
  plain_spec VReplaceSM proj_ReplaceSM valid_ReplaceSM (fun _ => True) wire_ReplaceSM VEmptyBody.
#[export] Instance ReplaceSM_codec :
  BodyCodec spec_ReplaceSM false decodeReplaceSM encodeReplaceSM.
Proof.
  apply (plain_request_codec _ _ _ _ _ appendReplaceSM); shape.
  - done.
  - intros v _. eapply wspec_iff; [apply wspec_guard; wspec_step| |].
    + unfold valid_ReplaceSM. rewrite Z.ltb_ge. tauto.
    + intros (Hl & _). unfold maxShortMessageLength in Hl. unfold wire_ReplaceSM.
      rewrite u8_small by lia. by rewrite <- !app_assoc.
  - intros h body Hok. request_sound body. split; [done|]. eexists. split; [reflexivity|].
    match goal with H : zlen _ = _ |- _ => rename H into Hlen end.
    split; [split; [|done]|].
    + split; [cbn; unfold maxShortMessageLength; split_bytes; lia|conj_hyps].
    + rewrite app_nil_r. unfold wire_ReplaceSM. cbn. by rewrite Hlen.
  - dec_complete decodeReplaceSM wire_ReplaceSM. unfold maxShortMessageLength in *.
    destruct (Z.eqb_spec (zlen (rsm_ShortMessage v)) 255); [lia|]. repeat ex_next.
    by destruct v.
Qed.

(** ** Responses with more fields than an identifier *)

Section plain_response.
Context {T : Type} (V : T -> pdu_value) (proj : pdu_value -> option T)
  (valid : T -> Prop) (wire : T -> bytes) (app : T -> W) (v0 : T)
  (dec : bytes -> res any) (enc : any -> W).
Hypothesis Hproj : forall w v, proj w = Some v <-> w = V v.
Hypothesis Henc : forall a, enc a =
  match view_of proj a with Some v => app v | None => encode_other_response a end.
Hypothesis Hopt : forall v, valid v -> valid_tlvs (value_optional (V v)).
Hypothesis Hnot : forall v o, V v <> VOptionalResponse o.
Hypothesis Hzero : valid v0 /\ value_optional (V v0) = [].
Hypothesis Htyped : forall v, valid v -> typed_value (V v).
Hypothesis Happ : forall v, typed_value (V v) -> wspec (app v) (valid v) (wire v).

Lemma plain_response_codec :
  (forall body, bytes_ok body -> sound (dec body) (fun a =>
    exists v, a = AVal (V v) /\ valid v /\ body = wire v)) ->
  (forall v, valid v -> dec (wire v) = Ok (AVal (V v))) ->
  BodyCodec (plain_spec V proj valid (fun _ => True) wire (V v0)) true
    (decodeResponseWith (V v0) dec) enc.
Proof using All.
  intros Hs Hc. set (S := plain_spec V proj valid (fun _ => True) wire (V v0)).
  assert (HS : forall a v, view_of proj a = Some v -> a = AVal (V v) \/ a = APtr (V v)).
  { intros [|w|w|] v; cbn; try done; intros ->%Hproj; auto. }
  destruct Hzero as [Hv0 Ho0].
  apply (response_codec S _ _ app v0); subst S;
    cbn [carrier inj view BodySpec.valid accept BodySpec.wire lax zero plain_spec]; try done.
  - intros h body Hok.
    apply (decodeResponseWith_formats (plain_spec V proj valid (fun _ => True) wire (V v0)));
      [done|].
    eapply sound_mono; [by apply Hs|]. intros a (v & -> & Hv & ->). exists v. cbn. tauto.
  - intros h a body H0 (v & -> & [(Hv & _ & ->)|[]]).
    rewrite decodeResponseWith_ok by done. by apply Hc.
  - intros h o H0 Ho. by apply decodeResponseWith_error.
  - intros a v Ht Hv. apply Happ. by destruct (HS _ _ Hv) as [-> | ->].
  - intros v. by apply Hproj.
  - intros a v Hv Hvv. by destruct (HS _ _ Hv) as [-> | ->]; apply Hopt.
  - intros o. destruct (view_of proj _) as [v|] eqn:Hv; [|done].
    destruct (HS _ _ Hv) as [[= Heq]|?]; [|done]. by apply eq_sym, Hnot in Heq.
  - split; [done|]. split; [done|]. split; [done|]. by apply Htyped.
Qed.
End plain_response.

Definition spec_QuerySMResp :=
  plain_spec VQuerySMResp proj_QuerySMResp valid_QuerySMResp (fun _ => True) wire_QuerySMResp
    (VQuerySMResp (MkQuerySMResp [] [] 0 0 [])).
#[export] Instance QuerySMResp_codec :
  BodyCodec spec_QuerySMResp true decodeQuerySMResp encodeQuerySMResp.
Proof.
  apply (plain_response_codec _ _ _ _ appendQuerySMResp); shape; try done.
  - by intros v (_ & _ & Ho).
  - split; [|done]. by repeat split; try constructor.
  - intros v (_ & _ & Ho). tlv_typed.
  - app_spec valid_QuerySMResp wire_QuerySMResp.
  - intros body Hok. apply sound_run. pose proof (at_start body). repeat wp_next.
    eexists. split; [reflexivity|]. split; [conj_hyps|reflexivity].
  - intros v Hv. hnf in Hv; destruct_and? Hv. run_on v wire_QuerySMResp. by destruct v.
Qed.

(** ** Loops over repeated groups *)

Section groups.
Context {A : Type} (m : R A) (f : A -> W) (valid ok : A -> Prop) (wire : A -> bytes).

Lemma wp_repeat n :
  (forall r s, at_ r s -> bytes_ok s -> wp m r (fun a r' =>
    exists s', valid a /\ s = wire a ++ s' /\ at_ r' s')) ->
  forall r s Q, at_ r s -> bytes_ok s ->
  (forall l s' r', length l = n -> Forall valid l -> s = concat (map wire l) ++ s' ->
    at_ r' s' -> Q l r') ->
  wp (R_repeat n m) r Q.
Proof.
  intros Hm. induction n as [|n IH]; intros r s Q Hat Hok HQ; cbn [R_repeat].
  - apply wp_ret. by apply (HQ [] s).
  - apply wp_bind. specialize (Hm r s Hat Hok). unfold wp in *.
    destruct (m r) as [[a r']|e|]; [|done|done].
    destruct Hm as (s' & Ha & -> & Hat'). apply bytes_ok_app in Hok as [_ Hok].
    apply wp_bind, (IH r' s'); [done..|]. intros l s2 r2 Hl Hv -> Hat2. apply wp_ret.
    apply (HQ (a :: l) s2); [cbn; lia|by constructor| |done].
    cbn. by rewrite <- app_assoc.
Qed.

Lemma ex_repeat l :
  (forall a r s Q, In a l -> at_ r (wire a ++ s) -> (forall r', at_ r' s -> Q a r') -> ex m r Q) ->
  forall r s (Q : list A -> bodyReader -> Prop), at_ r (concat (map wire l) ++ s) ->
  (forall r', at_ r' s -> Q l r') -> ex (R_repeat (length l) m) r Q.
Proof.
  intros Hm. induction l as [|a l IH]; intros r s Q Hat HQ; cbn [R_repeat length].
  - apply ex_ret. by apply HQ.
  - cbn [map concat] in Hat. rewrite <- app_assoc in Hat. apply ex_bind.
    apply (Hm a r (concat (map wire l) ++ s)); [by left|done|]. intros r' Hat'. apply ex_bind.
    apply (IH ltac:(intros; eapply Hm; [by right|done..]) r' s); [done|].
    intros r2 Hat2. apply ex_ret. by apply HQ.
Qed.

Lemma wspec_each l :
  Forall ok l -> (forall a, ok a -> wspec (f a) (valid a) (wire a)) ->
  wspec (W_each f l) (Forall valid l) (concat (map wire l)).
Proof.
  intros Hl Hf. induction Hl as [|a l Ha Hl IH]; cbn [W_each map concat].
  - eapply wspec_iff; [apply wspec_nil|by rewrite Forall_nil|done].
  - eapply wspec_iff; [by apply wspec_seq; [apply Hf|apply IH]|by rewrite Forall_cons|done].
Qed.
End groups.

Lemma decodeDestination_sound h r s :
  at_ r s -> bytes_ok s ->
  wp (decodeDestination h) r (fun d r' => exists s',
    (valid_destination d /\ plain_destination d) /\ s = wire_destination d ++ s' /\ at_ r' s').
Proof.
  intros Hat Hok. unfold decodeDestination. do 2 wp_next.
  destruct (Z.eqb_spec b DestinationSME) as [-> |Hn].
  - repeat wp_next. eexists. split; [split; [left; by split|by intros ?]|].
    unfold wire_destination. cbn [smd_Flag smd_Address smd_TON smd_NPI].
    rewrite Z.eqb_refl. cbn [app]. by rewrite <- ?app_assoc.
  - destruct (Z.eqb_spec b DestinationDistributionList) as [-> |Hn2].
    + repeat wp_next. eexists. split; [split; [right; by split|done]|].
      split; [|eassumption]. reflexivity.
    + wp_next.
Qed.

Lemma decodeDestination_complete h d r s Q :
  valid_destination d -> plain_destination d -> at_ r (wire_destination d ++ s) ->
  (forall r', at_ r' s -> Q d r') -> ex (decodeDestination h) r Q.
Proof.
  intros Hv Hp Hat HQ. unfold decodeDestination, wire_destination, valid_destination in *.
  destruct d as [flag ton npi addr]; cbn [smd_Flag smd_TON smd_NPI smd_Address] in *.
  destruct Hv as [[-> Ha]|[-> Ha]]; cbn [smd_Address smd_Flag] in *.
  - rewrite Z.eqb_refl in Hat. repeat ex_next. cbn. repeat ex_next. auto.
  - repeat ex_next. cbn. rewrite app_nil_l in Hat. repeat ex_next.
    destruct (Hp eq_refl) as [Ht Hn]; cbn in Ht, Hn; subst. auto.
Qed.

Lemma appendDestination_spec d :
  wspec (appendDestination d) (valid_destination d) (wire_destination d).
Proof.
  unfold appendDestination, valid_destination, wire_destination.
  destruct (Z.eqb_spec (smd_Flag d) DestinationSME) as [He|Hn].
  - eapply wspec_iff; [wspec_step| |by intros _].
    split; [tauto|]. intros [[_ ?]|[? _]]; [tauto|]. unfold DestinationSME, DestinationDistributionList in *. lia.
  - destruct (Z.eqb_spec (smd_Flag d) DestinationDistributionList) as [He|Hn2].
    + eapply wspec_iff; [wspec_step| |by intros _]. tauto.
    + eapply wspec_iff; [apply wspec_seq; [apply wspec_octets|apply (wspec_fail _ [])]|tauto|tauto].
Qed.

Lemma decodeSubmitMulti_sound h body :
  bytes_ok body -> sound (decodeSubmitMulti h body) (fun a => CommandStatus h = 0 /\
    exists v, a = AVal (VSubmitMulti v) /\
      (valid_SubmitMulti v /\ Forall plain_destination (smu_Destinations v)) /\
      body = wire_SubmitMulti v).
Proof.
  intros Hok. request_sound body.
  match goal with H : at_ ?r ?s |- _ =>
    eapply (wp_repeat _ _ wire_destination _ (decodeDestination_sound h) r s _ H); [suffix_ok|];
    clear H; intros l ? ? Hl Hv -> Hat
  end.
  repeat wp_next. split; [done|]. eexists. split; [reflexivity|].
  match goal with H : zlen _ = _ |- _ => rename H into Hlen end.
  assert (Hc : zlen l = b1) by (split_bytes; lia).
  apply Forall_and in Hv as [Hv Hp].
  split; [split; [|exact Hp]|].
  - split; [cbn; split_bytes; lia|].
    split; [cbn; unfold maxShortMessageLength; split_bytes; lia|conj_hyps].
  - unfold wire_SubmitMulti. cbn. by rewrite Hlen, Hc.
Qed.

Lemma decodeSubmitMulti_complete h v :
  CommandStatus h = 0 -> valid_SubmitMulti v ->
  Forall plain_destination (smu_Destinations v) ->
  decodeSubmitMulti h (wire_SubmitMulti v) = Ok (AVal (VSubmitMulti v)).
Proof.
  intros H0 (Hd & Hl & Hc & H1 & H2 & Hv & H3 & H4 & H5) Hp.
  unfold decodeSubmitMulti. rewrite requestStatusMustBeZero_ok by done.
  cbn [mbind outcome_bind]. run_on v wire_SubmitMulti.
  destruct (Z.eqb_spec (zlen (smu_Destinations v)) 0),
    (Z.eqb_spec (zlen (smu_Destinations v)) 255); try lia; cbn [orb].
  rewrite Nat2Z.id. apply ex_bind.
  match goal with H : at_ ?r _ |- _ =>
    norm_at H; eapply (ex_repeat _ wire_destination _ ltac:(shelve) r); [exact H|]; clear H;
    intros ? H
  end.
  Unshelve.
  2: { intros d r0 s0 Q0 Hin Hat0 HQ0. eapply decodeDestination_complete; [| |exact Hat0|exact HQ0].
       - by eapply Forall_forall; [exact Hv|apply list_elem_of_In].
       - by eapply Forall_forall; [exact Hp|apply list_elem_of_In]. }
  repeat ex_next. unfold maxShortMessageLength in Hl.
  destruct (Z.eqb_spec (zlen (smu_ShortMessage v)) 255); [lia|].
  repeat ex_next. unfold no_conflict in Hc. rewrite Hc. ex_next. by destruct v.
Qed.

Lemma appendSubmitMulti_spec v :
  Forall (fun p => is_u16 (op_Tag p)) (smu_Optional v) ->
  wspec (appendSubmitMulti v) (valid_SubmitMulti v) (wire_SubmitMulti v).
Proof.
  intros Ht. unfold appendSubmitMulti.
  assert (Hd : wspec (W_each appendDestination (smu_Destinations v))
    (Forall valid_destination (smu_Destinations v))
    (concat (map wire_destination (smu_Destinations v)))).
  { apply (wspec_each _ _ (fun _ => True)); [by apply Forall_true|].
    intros. apply appendDestination_spec. }
  eapply wspec_iff.
  - do 3 apply wspec_guard. do 6 (eapply wspec_seq; [|wspec_step]).
    eapply wspec_seq; [wspec_step|exact Hd].
  - unfold valid_SubmitMulti, no_conflict. rewrite orb_false_iff, Z.eqb_neq, !Z.ltb_ge.
    assert (zlen (smu_Destinations v) <> 0 /\ zlen (smu_Destinations v) <= 254 <->
            1 <= zlen (smu_Destinations v) <= 254) by lia. tauto.
  - intros (Hc & Hl & _). unfold maxShortMessageLength in Hl. unfold wire_SubmitMulti.
    rewrite !u8_small by lia. by rewrite <- !app_assoc.
Qed.

(** The TON and NPI of a distribution list are not on the wire, so a body that
    sets them is decoded with zeros. *)
Definition spec_SubmitMulti :=
  plain_spec VSubmitMulti proj_SubmitMulti valid_SubmitMulti
    (fun v => Forall plain_destination (smu_Destinations v)) wire_SubmitMulti VEmptyBody.
#[export] Instance SubmitMulti_codec :
  BodyCodec spec_SubmitMulti false decodeSubmitMulti encodeSubmitMulti.
Proof.
  apply (plain_request_codec _ _ _ _ _ appendSubmitMulti); shape.
  - intros v (_ & _ & _ & _ & _ & _ & _ & _ & Ho). tlv_typed.
  - intros v [Ht _]. by apply appendSubmitMulti_spec.
  - apply decodeSubmitMulti_sound.
  - apply decodeSubmitMulti_complete.
Qed.

Lemma decodeUnsuccessfulSME_sound r s :
  at_ r s -> bytes_ok s ->
  wp decodeUnsuccessfulSME r (fun u r' => exists s',
    valid_unsuccessful u /\ s = wire_unsuccessful u ++ s' /\ at_ r' s').
Proof.
  intros Hat Hok. unfold decodeUnsuccessfulSME. repeat wp_next.
  eexists. split; [split; eassumption|]. split; [|eassumption].
  unfold wire_unsuccessful. cbn [use_DestAddrTON use_DestAddrNPI use_DestinationAddr
    use_ErrorStatusCode]. by rewrite <- !app_assoc.
Qed.

Lemma decodeUnsuccessfulSME_complete u r s Q :
  valid_unsuccessful u -> at_ r (wire_unsuccessful u ++ s) ->
  (forall r', at_ r' s -> Q u r') -> ex decodeUnsuccessfulSME r Q.
Proof.
  intros [Ha Hu] Hat HQ. unfold decodeUnsuccessfulSME, wire_unsuccessful in *.
  repeat ex_next. destruct u. by apply HQ.
Qed.

Lemma appendSubmitMultiResp_spec v :
  typed_value (VSubmitMultiResp v) ->
  wspec (appendSubmitMultiResp v) (valid_SubmitMultiResp v) (wire_SubmitMultiResp v).
Proof.
  intros [Ht Hu]. unfold appendSubmitMultiResp.
  assert (Hd : wspec (W_each appendUnsuccessfulSME (smr_Unsuccessful v))
    (Forall valid_unsuccessful (smr_Unsuccessful v))
    (concat (map wire_unsuccessful (smr_Unsuccessful v)))).
  { eapply wspec_each; [exact Hu|]. intros u Hru. eapply wspec_iff; [wspec_step| |].
    - unfold valid_unsuccessful. cbv beta in Hru. tauto.
    - intros _. unfold wire_unsuccessful. by rewrite <- !app_assoc. }
  eapply wspec_iff.
  - apply wspec_guard. eapply wspec_seq; [|wspec_step].
    eapply wspec_seq; [wspec_step|exact Hd].
  - unfold valid_SubmitMultiResp. rewrite Z.ltb_ge. tauto.
  - intros (Hc & _). unfold wire_SubmitMultiResp.
    rewrite !u8_small by lia. by rewrite <- !app_assoc.
Qed.

Lemma SubmitMultiResp_typed v : valid_SubmitMultiResp v -> typed_value (VSubmitMultiResp v).
Proof.
  intros (_ & _ & Hu & Ho). split; [by apply valid_tlvs_typed|]. cbn.
  eapply Forall_impl; [exact Hu|]. by intros u [_ ?].
Qed.

Definition spec_SubmitMultiResp :=
  plain_spec VSubmitMultiResp proj_SubmitMultiResp valid_SubmitMultiResp (fun _ => True)
    wire_SubmitMultiResp (VSubmitMultiResp (MkSubmitMultiResp [] [] [])).
#[export] Instance SubmitMultiResp_codec :
  BodyCodec spec_SubmitMultiResp true decodeSubmitMultiResp encodeSubmitMultiResp.
Proof.
  apply (plain_response_codec _ _ _ _ appendSubmitMultiResp); shape; try done.
  - by intros v (_ & _ & _ & Ho).
  - split; [|done]. split; [cbn; lia|]. by repeat split; try constructor.
  - apply SubmitMultiResp_typed.
  - apply appendSubmitMultiResp_spec.
  - intros body Hok. apply sound_run. pose proof (at_start body). repeat wp_next.
    match goal with H : at_ ?r ?s |- _ =>
      eapply (wp_repeat _ _ wire_unsuccessful _ decodeUnsuccessfulSME_sound r s _ H);
      [suffix_ok|]; clear H; intros l ? ? Hl Hv -> Hat
    end.
    repeat wp_next. eexists. split; [reflexivity|].
    assert (Hc : zlen l = b) by (split_bytes; lia).
    split; [split; [cbn; split_bytes; lia|conj_hyps]|].
    unfold wire_SubmitMultiResp. cbn. by rewrite Hc.
  - intros v (Hl & Hi & Hu & Ho). run_on v wire_SubmitMultiResp. rewrite Nat2Z.id.
    eapply (ex_repeat _ wire_unsuccessful); [|eassumption|].
    + intros u r0 s0 Q0 Hin Hat0 HQ0.
      eapply decodeUnsuccessfulSME_complete; [|exact Hat0|exact HQ0].
      by eapply Forall_forall; [exact Hu|apply list_elem_of_In].
    + intros ? ?. repeat ex_next. by destruct v.
Qed.
