(* ===== verification/Body50.v ===== *)
(** * SMPP 5.0 bodies (src/codec/smpp50.go)

    The broadcast commands, with the same organisation as Body34.v. *)

From S2P Require Import Prelude Protocol Bodies Fields BodySpec Body34 Extra34.

Definition decodeBroadcastSM (header : Header) (body : bytes) : res any :=
  _ ← requestStatusMustBeZero header;
  R_run (
    serviceType ← cString maxServiceTypeLen;
    sourceTON ← uint8;
    sourceNPI ← uint8;
    sourceAddr ← cString maxAddressLen;
    messageID ← cString maxMessageIDLen;
    priorityFlag ← uint8;
    scheduleDeliveryTime ← cString maxTimeFieldLen;
    validityPeriod ← cString maxTimeFieldLen;
    replaceIfPresentFlag ← uint8;
    coding ← uint8;
    smDefaultMsgID ← uint8;
    o ← optional;
    mret (AVal (VBroadcastSM (MkBroadcastSM serviceType sourceTON sourceNPI sourceAddr messageID
      priorityFlag scheduleDeliveryTime validityPeriod replaceIfPresentFlag coding
      smDefaultMsgID o)))
  ) body.

Definition appendBroadcastSM (v : BroadcastSM) : W :=
  AppendCString (bsm_ServiceType v) maxServiceTypeLen >>>
  AppendOctets [bsm_SourceAddrTON v; bsm_SourceAddrNPI v] >>>
  AppendCString (bsm_SourceAddr v) maxAddressLen >>>
  AppendCString (bsm_MessageID v) maxMessageIDLen >>>
  AppendOctets [bsm_PriorityFlag v] >>>
  AppendCString (bsm_ScheduleDeliveryTime v) maxTimeFieldLen >>>
  AppendCString (bsm_ValidityPeriod v) maxTimeFieldLen >>>
  AppendOctets [bsm_ReplaceIfPresentFlag v; bsm_DataCoding v; bsm_SMDefaultMsgID v] >>>
  appendOptional (bsm_Optional v).

Definition encodeBroadcastSM (value : any) : W :=
  match value with
  | AVal (VBroadcastSM v) | APtr (VBroadcastSM v) => appendBroadcastSM v
  | _ => wfail ErrInvalidPDUValue
  end.

Definition decodeBroadcastSMResp : Header -> bytes -> res any :=
  decodeResponseWith (VBroadcastSMResp (MkBroadcastSMResp [] [])) (R_run (
    messageID ← cString maxMessageIDLen;
    o ← optional;
    mret (AVal (VBroadcastSMResp (MkBroadcastSMResp messageID o))))).

Definition encodeBroadcastSMResp (value : any) : W :=
  match value with
  | ANil | AVal VEmptyBody | APtr VEmptyBody | ANilPtr KEmptyBody => wnil
  | AVal (VBroadcastSMResp v) | APtr (VBroadcastSMResp v) =>
      AppendCString (bsr_MessageID v) maxMessageIDLen >>> appendOptional (bsr_Optional v)
  | AVal (VOptionalResponse v) | APtr (VOptionalResponse v) => appendOptional (or_Optional v)
  | _ => wfail ErrInvalidPDUValue
  end.

Definition decodeQueryBroadcastSM (header : Header) (body : bytes) : res any :=
  _ ← requestStatusMustBeZero header;
  R_run (
    messageID ← cString maxMessageIDLen;
    ton ← uint8;
    npi ← uint8;
    sourceAddr ← cString maxAddressLen;
    o ← optional;
    mret (AVal (VQueryBroadcastSM (MkQueryBroadcastSM messageID ton npi sourceAddr o)))
  ) body.

Definition appendQueryBroadcastSM (v : QueryBroadcastSM) : W :=
  AppendCString (qbs_MessageID v) maxMessageIDLen >>>
  AppendOctets [qbs_SourceAddrTON v; qbs_SourceAddrNPI v] >>>
  AppendCString (qbs_SourceAddr v) maxAddressLen >>>
  appendOptional (qbs_Optional v).

Definition encodeQueryBroadcastSM (value : any) : W :=
  match value with
  | AVal (VQueryBroadcastSM v) | APtr (VQueryBroadcastSM v) => appendQueryBroadcastSM v
  | _ => wfail ErrInvalidPDUValue
  end.

Definition decodeQueryBroadcastSMResp : Header -> bytes -> res any :=
  decodeResponseWith (VQueryBroadcastSMResp (MkQueryBroadcastSMResp [] [])) (R_run (
    messageID ← cString maxMessageIDLen;
    o ← optional;
    mret (AVal (VQueryBroadcastSMResp (MkQueryBroadcastSMResp messageID o))))).

Definition encodeQueryBroadcastSMResp (value : any) : W :=
  match value with
  | ANil | AVal VEmptyBody | APtr VEmptyBody | ANilPtr KEmptyBody => wnil
  | AVal (VQueryBroadcastSMResp v) | APtr (VQueryBroadcastSMResp v) =>
      AppendCString (qbr_MessageID v) maxMessageIDLen >>> appendOptional (qbr_Optional v)
  | AVal (VOptionalResponse v) | APtr (VOptionalResponse v) => appendOptional (or_Optional v)
  | _ => wfail ErrInvalidPDUValue
  end.

Definition decodeCancelBroadcastSM (header : Header) (body : bytes) : res any :=
  _ ← requestStatusMustBeZero header;
  R_run (
    serviceType ← cString maxServiceTypeLen;
    messageID ← cString maxMessageIDLen;
    ton ← uint8;
    npi ← uint8;
    sourceAddr ← cString maxAddressLen;
    o ← optional;
    mret (AVal (VCancelBroadcastSM
      (MkCancelBroadcastSM serviceType messageID ton npi sourceAddr o)))
  ) body.

Definition appendCancelBroadcastSM (v : CancelBroadcastSM) : W :=
  AppendCString (cbs_ServiceType v) maxServiceTypeLen >>>
  AppendCString (cbs_MessageID v) maxMessageIDLen >>>
  AppendOctets [cbs_SourceAddrTON v; cbs_SourceAddrNPI v] >>>
  AppendCString (cbs_SourceAddr v) maxAddressLen >>>
  appendOptional (cbs_Optional v).

Definition encodeCancelBroadcastSM (value : any) : W :=
  match value with
  | AVal (VCancelBroadcastSM v) | APtr (VCancelBroadcastSM v) => appendCancelBroadcastSM v
  | _ => wfail ErrInvalidPDUValue
  end.

(** ** Wire formats *)

Definition wire_BroadcastSM (v : BroadcastSM) : bytes :=
  cstr (bsm_ServiceType v) ++ [bsm_SourceAddrTON v; bsm_SourceAddrNPI v] ++
  cstr (bsm_SourceAddr v) ++ cstr (bsm_MessageID v) ++ [bsm_PriorityFlag v] ++
  cstr (bsm_ScheduleDeliveryTime v) ++ cstr (bsm_ValidityPeriod v) ++
  [bsm_ReplaceIfPresentFlag v; bsm_DataCoding v; bsm_SMDefaultMsgID v] ++
  wire_tlvs (bsm_Optional v).
Definition valid_BroadcastSM (v : BroadcastSM) : Prop :=
  valid_cstr maxServiceTypeLen (bsm_ServiceType v) /\
  valid_cstr maxAddressLen (bsm_SourceAddr v) /\ valid_cstr maxMessageIDLen (bsm_MessageID v) /\
  valid_cstr maxTimeFieldLen (bsm_ScheduleDeliveryTime v) /\
  valid_cstr maxTimeFieldLen (bsm_ValidityPeriod v) /\ valid_tlvs (bsm_Optional v).

Definition wire_QueryBroadcastSM (v : QueryBroadcastSM) : bytes :=
  cstr (qbs_MessageID v) ++ [qbs_SourceAddrTON v; qbs_SourceAddrNPI v] ++
  cstr (qbs_SourceAddr v) ++ wire_tlvs (qbs_Optional v).
Definition valid_QueryBroadcastSM (v : QueryBroadcastSM) : Prop :=
  valid_cstr maxMessageIDLen (qbs_MessageID v) /\
  valid_cstr maxAddressLen (qbs_SourceAddr v) /\ valid_tlvs (qbs_Optional v).

Definition wire_CancelBroadcastSM (v : CancelBroadcastSM) : bytes :=
  cstr (cbs_ServiceType v) ++ cstr (cbs_MessageID v) ++
  [cbs_SourceAddrTON v; cbs_SourceAddrNPI v] ++ cstr (cbs_SourceAddr v) ++
  wire_tlvs (cbs_Optional v).
Definition valid_CancelBroadcastSM (v : CancelBroadcastSM) : Prop :=
  valid_cstr maxServiceTypeLen (cbs_ServiceType v) /\
  valid_cstr maxMessageIDLen (cbs_MessageID v) /\
  valid_cstr maxAddressLen (cbs_SourceAddr v) /\ valid_tlvs (cbs_Optional v).

(** ** The contracts *)

Definition proj_BroadcastSM v := match v with VBroadcastSM v => Some v | _ => None end.
Definition proj_BroadcastSMResp v := match v with VBroadcastSMResp v => Some v | _ => None end.
Definition proj_QueryBroadcastSM v := match v with VQueryBroadcastSM v => Some v | _ => None end.
Definition proj_QueryBroadcastSMResp v :=
  match v with VQueryBroadcastSMResp v => Some v | _ => None end.
Definition proj_CancelBroadcastSM v := match v with VCancelBroadcastSM v => Some v | _ => None end.

Definition spec_BroadcastSM :=
  plain_spec VBroadcastSM proj_BroadcastSM valid_BroadcastSM (fun _ => True) wire_BroadcastSM
    VEmptyBody.
#[export] Instance BroadcastSM_codec :
  BodyCodec spec_BroadcastSM false decodeBroadcastSM encodeBroadcastSM.
Proof.
  apply (plain_request_codec _ _ _ _ _ appendBroadcastSM); shape.
  - intros v (_ & _ & _ & _ & _ & Ho). tlv_typed.
  - app_spec valid_BroadcastSM wire_BroadcastSM.
  - dec_sound.
  - dec_complete decodeBroadcastSM wire_BroadcastSM. by destruct v.
Qed.

Definition spec_BroadcastSMResp : body_spec :=
  id_spec maxMessageIDLen VBroadcastSMResp MkBroadcastSMResp bsr_MessageID bsr_Optional
    (view_of proj_BroadcastSMResp) (fun _ => True) (fun _ _ => False).
#[export] Instance BroadcastSMResp_codec :
  BodyCodec spec_BroadcastSMResp true decodeBroadcastSMResp encodeBroadcastSMResp.
Proof. apply id_codec_plain; id_side. Qed.

Definition spec_QueryBroadcastSM :=
  plain_spec VQueryBroadcastSM proj_QueryBroadcastSM valid_QueryBroadcastSM (fun _ => True)
    wire_QueryBroadcastSM VEmptyBody.
#[export] Instance QueryBroadcastSM_codec :
  BodyCodec spec_QueryBroadcastSM false decodeQueryBroadcastSM encodeQueryBroadcastSM.
Proof.
  apply (plain_request_codec _ _ _ _ _ appendQueryBroadcastSM); shape.
  - intros v (_ & _ & Ho). tlv_typed.
  - app_spec valid_QueryBroadcastSM wire_QueryBroadcastSM.
  - dec_sound.
  - dec_complete decodeQueryBroadcastSM wire_QueryBroadcastSM. by destruct v.
Qed.

Definition spec_QueryBroadcastSMResp : body_spec :=
  id_spec maxMessageIDLen VQueryBroadcastSMResp MkQueryBroadcastSMResp qbr_MessageID
    qbr_Optional (view_of proj_QueryBroadcastSMResp) (fun _ => True) (fun _ _ => False).
#[export] Instance QueryBroadcastSMResp_codec :
  BodyCodec spec_QueryBroadcastSMResp true decodeQueryBroadcastSMResp encodeQueryBroadcastSMResp.
Proof. apply id_codec_plain; id_side. Qed.

Definition spec_CancelBroadcastSM :=
  plain_spec VCancelBroadcastSM proj_CancelBroadcastSM valid_CancelBroadcastSM (fun _ => True)
    wire_CancelBroadcastSM VEmptyBody.
#[export] Instance CancelBroadcastSM_codec :
  BodyCodec spec_CancelBroadcastSM false decodeCancelBroadcastSM encodeCancelBroadcastSM.
Proof.
  apply (plain_request_codec _ _ _ _ _ appendCancelBroadcastSM); shape.
  - intros v (_ & _ & _ & Ho). tlv_typed.
  - app_spec valid_CancelBroadcastSM wire_CancelBroadcastSM.
  - dec_sound.
  - dec_complete decodeCancelBroadcastSM wire_CancelBroadcastSM. by destruct v.
Qed.
