(* ===== verification/Registry.v ===== *)
(** * Command and TLV registry (src/codec/registry.go, and the tables of
    smpp34.go and smpp50.go)

    A builder collects definitions under a mutex; [Freeze] makes an immutable
    snapshot.  Every method is one critical section, so a builder shared by
    goroutines goes through a sequence of the operations below. *)

From S2P Require Import Prelude Protocol Bodies Fields BodySpec Body34 Extra34 Body50.

(** ** registry.go *)

(** A [RegistryMode] is an octet; only two values are valid. *)
Definition RegistryCompatible : Z := 0.
Definition RegistryStrict : Z := 1.
Definition RegistryModeValid (m : Z) : bool :=
  (m =? RegistryCompatible) || (m =? RegistryStrict).

Definition CommandDecoder : Type := Header -> bytes -> res any.
Definition CommandEncoder : Type := any -> W.
Definition TLVDecoder : Type := bytes -> res any.
Definition TLVEncoder : Type := any -> W.

(** A [CommandActor] is an octet; other values print as "Any" and are treated
    by the session as their own case. *)
Definition ActorAny : Z := 0.
Definition ActorESME : Z := 1.
Definition ActorSMSC : Z := 2.
Definition CommandActor_String (a : Z) : string :=
  if a =? ActorESME then "ESME" else if a =? ActorSMSC then "SMSC" else "Any".

Record CommandDefinition := MkCommandDefinition {
  cd_ID : Z;
  cd_Name : string;
  cd_Decode : option CommandDecoder;
  cd_Encode : option CommandEncoder;
  cd_Actor : Z;
  cd_AllowedStates : list SessionState
}.

Record TLVDefinition := MkTLVDefinition {
  td_Tag : Z;
  td_Name : string;
  td_Decode : option TLVDecoder;
  td_Encode : option TLVEncoder
}.

Record Registry := MkRegistry {
  r_mode : Z;
  r_commands : gmap Z CommandDefinition;
  r_tlvs : gmap Z TLVDefinition
}.

Record RegistryBuilder := MkRegistryBuilder {
  b_mode : Z;
  b_frozen : bool;
  b_snapshot : option Registry;
  b_commands : gmap Z CommandDefinition;
  b_tlvs : gmap Z TLVDefinition
}.

Definition NewRegistryBuilder (mode : Z) : RegistryBuilder :=
  MkRegistryBuilder mode false None ∅ ∅.

(** The receiver is a pointer, [None] when nil.  On an error the builder is
    left as it was. *)
Definition RegisterCommand (b : option RegistryBuilder) (def : CommandDefinition)
    : res RegistryBuilder :=
  match b with
  | None => Err (ESentinel ErrInvalidRegistryDefinition)
  | Some b =>
      if String.eqb (cd_Name def) "" then Err (ESentinel ErrInvalidRegistryDefinition)
      else if b_frozen b then Err (ESentinel ErrRegistryFrozen)
      else match b_commands b !! cd_ID def with
           | Some _ => Err (ESentinel ErrDuplicateCommand)
           | None => Ok (MkRegistryBuilder (b_mode b) (b_frozen b) (b_snapshot b)
                           (<[cd_ID def := def]> (b_commands b)) (b_tlvs b))
           end
  end.

Definition RegisterTLV (b : option RegistryBuilder) (def : TLVDefinition)
    : res RegistryBuilder :=
  match b with
  | None => Err (ESentinel ErrInvalidRegistryDefinition)
  | Some b =>
      if String.eqb (td_Name def) "" then Err (ESentinel ErrInvalidRegistryDefinition)
      else if b_frozen b then Err (ESentinel ErrRegistryFrozen)
      else match b_tlvs b !! td_Tag def with
           | Some _ => Err (ESentinel ErrDuplicateTLV)
           | None => Ok (MkRegistryBuilder (b_mode b) (b_frozen b) (b_snapshot b)
                           (b_commands b) (<[td_Tag def := def]> (b_tlvs b)))
           end
  end.

Definition Freeze (b : option RegistryBuilder) : res (Registry * RegistryBuilder) :=
  match b with
  | None => Err (ESentinel ErrInvalidRegistryDefinition)
  | Some b =>
      if negb (RegistryModeValid (b_mode b)) then Err (ESentinel ErrInvalidRegistryMode)
      else match b_snapshot b with
           | Some r => Ok (r, b)
           | None =>
               let r := MkRegistry (b_mode b) (b_commands b) (b_tlvs b) in
               Ok (r, MkRegistryBuilder (b_mode b) true (Some r) (b_commands b) (b_tlvs b))
           end
  end.

Definition Mode (r : option Registry) : Z :=
  match r with None => RegistryCompatible | Some r => r_mode r end.
Definition CommandCount (r : option Registry) : nat :=
  match r with None => 0%nat | Some r => size (r_commands r) end.
Definition TLVCount (r : option Registry) : nat :=
  match r with None => 0%nat | Some r => size (r_tlvs r) end.

Definition AllowsState (def : CommandDefinition) (state : SessionState) : bool :=
  existsb (fun s => bool_decide (s = state)) (cd_AllowedStates def).

Definition Command (r : option Registry) (id : Z) : option CommandDefinition :=
  r ← r; r_commands r !! id.
Definition RegistryTLV (r : option Registry) (tag : Z) : option TLVDefinition :=
  r ← r; r_tlvs r !! tag.

(** [Ok (Some def)] is known; [Ok None] is unknown and tolerated. *)
Definition ResolveCommand (r : option Registry) (id : Z) : res (option CommandDefinition) :=
  match Command r id with
  | Some def => Ok (Some def)
  | None =>
      if match r with Some r => r_mode r =? RegistryStrict | None => false end
      then Err (ESentinel ErrUnknownCommand) else Ok None
  end.
Definition ResolveTLV (r : option Registry) (tag : Z) : res (option TLVDefinition) :=
  match RegistryTLV r tag with
  | Some def => Ok (Some def)
  | None =>
      if match r with Some r => r_mode r =? RegistryStrict | None => false end
      then Err (ESentinel ErrUnknownTLV) else Ok None
  end.

(** ** The standard definitions *)

Definition command_def (id : Z) (name : string) (dec : CommandDecoder) (enc : CommandEncoder)
    : CommandDefinition := MkCommandDefinition id name (Some dec) (Some enc) ActorAny [].
Definition tlv_def (tag : Z) (name : string) : TLVDefinition :=
  MkTLVDefinition tag name None None.

Definition smpp34_commands : list CommandDefinition :=
  [command_def CommandGenericNACK "generic_nack" decodeResponseEmpty encodeResponseEmpty;
   command_def CommandBindReceiver "bind_receiver" decodeBindRequest encodeBindRequest;
   command_def CommandBindReceiverResp "bind_receiver_resp" decodeBindResponse encodeBindResponse;
   command_def CommandBindTransmitter "bind_transmitter" decodeBindRequest encodeBindRequest;
   command_def CommandBindTransmitterResp "bind_transmitter_resp" decodeBindResponse encodeBindResponse;
   command_def CommandQuerySM "query_sm" decodeQuerySM encodeQuerySM;
   command_def CommandQuerySMResp "query_sm_resp" decodeQuerySMResp encodeQuerySMResp;
   command_def CommandSubmitSM "submit_sm" decodeSubmitSM encodeSubmitSM;
   command_def CommandSubmitSMResp "submit_sm_resp" decodeSubmitSMResp encodeSubmitSMResp;
   command_def CommandDeliverSM "deliver_sm" decodeDeliverSM encodeDeliverSM;
   command_def CommandDeliverSMResp "deliver_sm_resp" decodeDeliverSMResp encodeDeliverSMResp;
   command_def CommandUnbind "unbind" decodeRequestEmpty encodeEmpty;
   command_def CommandUnbindResp "unbind_resp" decodeResponseEmpty encodeResponseEmpty;
   command_def CommandReplaceSM "replace_sm" decodeReplaceSM encodeReplaceSM;
   command_def CommandReplaceSMResp "replace_sm_resp" decodeResponseEmpty encodeResponseEmpty;
   command_def CommandCancelSM "cancel_sm" decodeCancelSM encodeCancelSM;
   command_def CommandCancelSMResp "cancel_sm_resp" decodeResponseEmpty encodeResponseEmpty;
   command_def CommandBindTransceiver "bind_transceiver" decodeBindRequest encodeBindRequest;
   command_def CommandBindTransceiverResp "bind_transceiver_resp" decodeBindResponse encodeBindResponse;
   command_def CommandOutbind "outbind" decodeOutbind encodeOutbind;
   command_def CommandEnquireLink "enquire_link" decodeRequestEmpty encodeEmpty;
   command_def CommandEnquireLinkResp "enquire_link_resp" decodeResponseEmpty encodeResponseEmpty;
   command_def CommandSubmitMulti "submit_multi" decodeSubmitMulti encodeSubmitMulti;
   command_def CommandSubmitMultiResp "submit_multi_resp" decodeSubmitMultiResp encodeSubmitMultiResp;
   command_def CommandAlertNotification "alert_notification" decodeAlertNotification encodeAlertNotification;
   command_def CommandDataSM "data_sm" decodeDataSM encodeDataSM;
   command_def CommandDataSMResp "data_sm_resp" decodeDataSMResp encodeDataSMResp].

Definition smpp34_tlvs : list TLVDefinition :=
  [tlv_def TLVTagDestAddrSubunit "dest_addr_subunit";
   tlv_def TLVTagDestNetworkType "dest_network_type";
   tlv_def TLVTagDestBearerType "dest_bearer_type";
   tlv_def TLVTagDestTelematicsID "dest_telematics_id";
   tlv_def TLVTagSourceAddrSubunit "source_addr_subunit";
   tlv_def TLVTagSourceNetworkType "source_network_type";
   tlv_def TLVTagSourceBearerType "source_bearer_type";
   tlv_def TLVTagSourceTelematicsID "source_telematics_id";
   tlv_def TLVTagQOSTimeToLive "qos_time_to_live";
   tlv_def TLVTagPayloadType "payload_type";
   tlv_def TLVTagAdditionalStatusInfoText "additional_status_info_text";
   tlv_def TLVTagReceiptedMessageID "receipted_message_id";
   tlv_def TLVTagMSMsgWaitFacilities "ms_msg_wait_facilities";
   tlv_def TLVTagPrivacyIndicator "privacy_indicator";
   tlv_def TLVTagSourceSubaddress "source_subaddress";
   tlv_def TLVTagDestSubaddress "dest_subaddress";
   tlv_def TLVTagUserMessageReference "user_message_reference";
   tlv_def TLVTagUserResponseCode "user_response_code";
   tlv_def TLVTagSourcePort "source_port";
   tlv_def TLVTagDestinationPort "destination_port";
   tlv_def TLVTagSARMsgRefNum "sar_msg_ref_num";
   tlv_def TLVTagLanguageIndicator "language_indicator";
   tlv_def TLVTagSARTotalSegments "sar_total_segments";
   tlv_def TLVTagSARSegmentSeqnum "sar_segment_seqnum";
   tlv_def TLVTagSCInterfaceVersion "sc_interface_version";
   tlv_def TLVTagCallbackNumPresInd "callback_num_pres_ind";
   tlv_def TLVTagCallbackNumAtag "callback_num_atag";
   tlv_def TLVTagNumberOfMessages "number_of_messages";
   tlv_def TLVTagCallbackNum "callback_num";
   tlv_def TLVTagDPFResult "dpf_result";
   tlv_def TLVTagSetDPF "set_dpf";
   tlv_def TLVTagMSAvailabilityStatus "ms_availability_status";
   tlv_def TLVTagNetworkErrorCode "network_error_code";
   tlv_def TLVTagMessagePayload "message_payload";
   tlv_def TLVTagDeliveryFailureReason "delivery_failure_reason";
   tlv_def TLVTagMoreMessagesToSend "more_messages_to_send";
   tlv_def TLVTagMessageState "message_state";
   tlv_def TLVTagUSSDServiceOp "ussd_service_op";
   tlv_def TLVTagDisplayTime "display_time";
   tlv_def TLVTagSMSSignal "sms_signal";
   tlv_def TLVTagMSValidity "ms_validity";
   tlv_def TLVTagAlertOnMessageDelivery "alert_on_message_delivery";
   tlv_def TLVTagITSReplyType "its_reply_type";
   tlv_def TLVTagITSSessionInfo "its_session_info"].

Definition smpp50_commands : list CommandDefinition :=
  [command_def CommandBroadcastSM "broadcast_sm" decodeBroadcastSM encodeBroadcastSM;
   command_def CommandBroadcastSMResp "broadcast_sm_resp" decodeBroadcastSMResp encodeBroadcastSMResp;
   command_def CommandQueryBroadcastSM "query_broadcast_sm" decodeQueryBroadcastSM encodeQueryBroadcastSM;
   command_def CommandQueryBroadcastSMResp "query_broadcast_sm_resp" decodeQueryBroadcastSMResp encodeQueryBroadcastSMResp;
   command_def CommandCancelBroadcastSM "cancel_broadcast_sm" decodeCancelBroadcastSM encodeCancelBroadcastSM;
   command_def CommandCancelBroadcastSMResp "cancel_broadcast_sm_resp" decodeResponseEmpty encodeResponseEmpty].

Definition smpp50_tlvs : list TLVDefinition :=
  [tlv_def TLVTagCongestionState "congestion_state";
   tlv_def TLVTagBroadcastChannelIndicator "broadcast_channel_indicator";
   tlv_def TLVTagBroadcastContentType "broadcast_content_type";
   tlv_def TLVTagBroadcastContentTypeInfo "broadcast_content_type_info";
   tlv_def TLVTagBroadcastMessageClass "broadcast_message_class";
   tlv_def TLVTagBroadcastRepNum "broadcast_rep_num";
   tlv_def TLVTagBroadcastFrequencyInterval "broadcast_frequency_interval";
   tlv_def TLVTagBroadcastAreaIdentifier "broadcast_area_identifier";
   tlv_def TLVTagBroadcastErrorStatus "broadcast_error_status";
   tlv_def TLVTagBroadcastAreaSuccess "broadcast_area_success";
   tlv_def TLVTagBroadcastEndTime "broadcast_end_time";
   tlv_def TLVTagBroadcastServiceGroup "broadcast_service_group";
   tlv_def TLVTagBillingIdentification "billing_identification";
   tlv_def TLVTagSourceNetworkID "source_network_id";
   tlv_def TLVTagDestNetworkID "dest_network_id";
   tlv_def TLVTagSourceNodeID "source_node_id";
   tlv_def TLVTagDestNodeID "dest_node_id";
   tlv_def TLVTagDestAddrNPResolution "dest_addr_np_resolution";
   tlv_def TLVTagDestAddrNPInformation "dest_addr_np_information";
   tlv_def TLVTagDestAddrNPCountry "dest_addr_np_country"].

(** [for _, def := range definitions { if err := register(def); err != nil ...]. *)
Fixpoint register_all {D} (register : option RegistryBuilder -> D -> res RegistryBuilder)
    (b : RegistryBuilder) (definitions : list D) : res RegistryBuilder :=
  match definitions with
  | [] => Ok b
  | def :: rest => b ← register (Some b) def; register_all register b rest
  end.

Definition registerSMPP34Commands b := register_all RegisterCommand b smpp34_commands.
Definition registerSMPP34TLVs b := register_all RegisterTLV b smpp34_tlvs.
Definition registerSMPP50Commands b := register_all RegisterCommand b smpp50_commands.
Definition registerSMPP50TLVs b := register_all RegisterTLV b smpp50_tlvs.

Definition NewSMPP34RegistryBuilder (mode : Z) : res RegistryBuilder :=
  b ← registerSMPP34Commands (NewRegistryBuilder mode); registerSMPP34TLVs b.
Definition NewSMPP34Registry (mode : Z) : res Registry :=
  b ← NewSMPP34RegistryBuilder mode; '(r, _) ← Freeze (Some b); Ok r.
Definition NewSMPP50RegistryBuilder (mode : Z) : res RegistryBuilder :=
  b ← NewSMPP34RegistryBuilder mode; b ← registerSMPP50Commands b; registerSMPP50TLVs b.
Definition NewSMPP50Registry (mode : Z) : res Registry :=
  b ← NewSMPP50RegistryBuilder mode; '(r, _) ← Freeze (Some b); Ok r.

(** ** A frozen builder stays frozen *)

Inductive builder_op :=
| OpCommand (def : CommandDefinition)
| OpTLV (def : TLVDefinition)
| OpFreeze.

Definition builder_step (b : RegistryBuilder) (op : builder_op) : RegistryBuilder :=
  match op with
  | OpCommand def => match RegisterCommand (Some b) def with Ok b' => b' | _ => b end
  | OpTLV def => match RegisterTLV (Some b) def with Ok b' => b' | _ => b end
  | OpFreeze => match Freeze (Some b) with Ok (_, b') => b' | _ => b end
  end.

(** Invariant of every builder a program can have: frozen exactly when it has a
    snapshot, and then the snapshot is what the maps hold. *)
Definition builder_inv (b : RegistryBuilder) : Prop :=
  match b_snapshot b with
  | None => b_frozen b = false
  | Some r => b_frozen b = true /\ r = MkRegistry (b_mode b) (b_commands b) (b_tlvs b) /\
      RegistryModeValid (b_mode b) = true
  end.

Lemma builder_step_inv b op : builder_inv b -> builder_inv (builder_step b op).
Proof.
  unfold builder_inv. intros Hb.
  destruct op; cbn in *; repeat (case_match; cbn in *; simplify_eq; try done).
  all: try by destruct Hb.
  simpl in *. simplify_eq. by apply negb_false_iff in H2.
Qed.

Lemma builder_frozen_step b op : b_frozen b = true -> builder_inv b -> builder_step b op = b.
Proof.
  unfold builder_inv. intros Hf Hb. destruct op; cbn; rewrite ?Hf.
  - by destruct (String.eqb _ _).
  - by destruct (String.eqb _ _).
  - destruct (RegistryModeValid _); [|done]. cbn. destruct (b_snapshot b); [done|congruence].
Qed.

Lemma builder_run_inv b ops : builder_inv b -> builder_inv (foldl builder_step b ops).
Proof. revert b. induction ops; cbn; [done|]. auto using builder_step_inv. Qed.

Lemma builder_frozen_run b ops :
  b_frozen b = true -> builder_inv b -> foldl builder_step b ops = b.
Proof. intros Hf Hb. induction ops as [|op ops IH]; cbn; [done|]. by rewrite builder_frozen_step. Qed.

Lemma Freeze_frozen b r b' :
  builder_inv b -> Freeze (Some b) = Ok (r, b') ->
  b_frozen b' = true /\ builder_inv b' /\ Freeze (Some b') = Ok (r, b').
Proof.
  unfold builder_inv. cbn. intros Hb.
  destruct (RegistryModeValid (b_mode b)) eqn:Hm; cbn; [|done].
  destruct (b_snapshot b) eqn:Hs; intros [= <- <-]; cbn; rewrite ?Hs, ?Hm; cbn; tauto.
Qed.

(** ** What a registry promises to the PDU layer *)

(** The body format of each standard command. *)
Definition command_specs : list (Z * body_spec) :=
  [(CommandGenericNACK, spec_ResponseEmpty);
   (CommandBindReceiver, spec_BindRequest);
   (CommandBindReceiverResp, spec_BindResponse);
   (CommandBindTransmitter, spec_BindRequest);
   (CommandBindTransmitterResp, spec_BindResponse);
   (CommandQuerySM, spec_QuerySM);
   (CommandQuerySMResp, spec_QuerySMResp);
   (CommandSubmitSM, spec_SubmitSM);
   (CommandSubmitSMResp, spec_SubmitSMResp);
   (CommandDeliverSM, spec_DeliverSM);
   (CommandDeliverSMResp, spec_DeliverSMResp);
   (CommandUnbind, spec_RequestEmpty);
   (CommandUnbindResp, spec_ResponseEmpty);
   (CommandReplaceSM, spec_ReplaceSM);
   (CommandReplaceSMResp, spec_ResponseEmpty);
   (CommandCancelSM, spec_CancelSM);
   (CommandCancelSMResp, spec_ResponseEmpty);
   (CommandBindTransceiver, spec_BindRequest);
   (CommandBindTransceiverResp, spec_BindResponse);
   (CommandOutbind, spec_Outbind);
   (CommandEnquireLink, spec_RequestEmpty);
   (CommandEnquireLinkResp, spec_ResponseEmpty);
   (CommandSubmitMulti, spec_SubmitMulti);
   (CommandSubmitMultiResp, spec_SubmitMultiResp);
   (CommandAlertNotification, spec_AlertNotification);
   (CommandDataSM, spec_DataSM);
   (CommandDataSMResp, spec_DataSMResp);
   (CommandBroadcastSM, spec_BroadcastSM);
   (CommandBroadcastSMResp, spec_BroadcastSMResp);
   (CommandQueryBroadcastSM, spec_QueryBroadcastSM);
   (CommandQueryBroadcastSMResp, spec_QueryBroadcastSMResp);
   (CommandCancelBroadcastSM, spec_CancelBroadcastSM);
   (CommandCancelBroadcastSMResp, spec_ResponseEmpty)].

Definition command_spec (id : Z) : option body_spec :=
  snd <$> List.find (fun p => fst p =? id) command_specs.

(** The codec of [def] follows the format of its command. *)
Definition definition_ok (def : CommandDefinition) : Prop :=
  exists S dec enc, command_spec (cd_ID def) = Some S /\
    cd_Decode def = Some dec /\ cd_Encode def = Some enc /\
    BodyCodec S (IsResponse (cd_ID def)) dec enc.

(** A registry whose every definition follows the standard format, and is filed
    under its own command_id.  Definitions may be missing, not different. *)
Class StandardRegistry (r : Registry) : Prop := {
  standard_def id def : r_commands r !! id = Some def -> cd_ID def = id /\ definition_ok def;
  standard_mode : RegistryModeValid (r_mode r) = true
}.

Lemma command_def_ok id name dec enc S :
  command_spec id = Some S -> BodyCodec S (IsResponse id) dec enc ->
  definition_ok (command_def id name dec enc).
Proof. intros HS Hc. exists S, dec, enc. done. Qed.

Ltac defs_ok := repeat (constructor; [eapply command_def_ok; [reflexivity|apply _]|]); constructor.

Lemma smpp34_commands_ok : Forall definition_ok smpp34_commands.
Proof. unfold smpp34_commands. defs_ok. Qed.
Lemma smpp50_commands_ok : Forall definition_ok smpp50_commands.
Proof. unfold smpp50_commands. defs_ok. Qed.

(** *** Registration keeps the promise *)

Definition commands_ok (m : gmap Z CommandDefinition) : Prop :=
  forall id def, m !! id = Some def -> cd_ID def = id /\ definition_ok def.

Lemma RegisterCommand_ok b def b' :
  RegisterCommand (Some b) def = Ok b' ->
  b_mode b' = b_mode b /\ b_commands b' = <[cd_ID def := def]> (b_commands b) /\
  b_commands b !! cd_ID def = None /\ b_tlvs b' = b_tlvs b /\ b_snapshot b' = b_snapshot b.
Proof. cbn. intros H. repeat case_match; simplify_eq. done. Qed.
Lemma RegisterTLV_ok b def b' :
  RegisterTLV (Some b) def = Ok b' ->
  b_mode b' = b_mode b /\ b_commands b' = b_commands b /\
  b_tlvs b' = <[td_Tag def := def]> (b_tlvs b) /\ b_snapshot b' = b_snapshot b.
Proof. cbn. intros H. repeat case_match; simplify_eq. done. Qed.

Lemma register_all_commands_ok defs b b' :
  register_all RegisterCommand b defs = Ok b' ->
  Forall definition_ok defs -> commands_ok (b_commands b) ->
  b_mode b' = b_mode b /\ b_snapshot b' = b_snapshot b /\ commands_ok (b_commands b') /\
  (forall def, In def defs -> b_commands b' !! cd_ID def = Some def) /\
  (forall id def, b_commands b !! id = Some def -> b_commands b' !! id = Some def).
Proof.
  revert b. induction defs as [|d defs IH]; intros b H Hd Hb.
  - injection H as <-. by split_and!.
  - apply bind_ok_inv in H as (b1 & H1 & H). apply Forall_cons in Hd as [Hd Hds].
    apply RegisterCommand_ok in H1 as (Hm & Hc & Hn & _ & Hs).
    destruct (IH b1 H Hds) as (Hm' & Hs' & Hok & Hin & Hold).
    { intros id def. rewrite Hc. intros [[<- <-]|[_ Hl]]%lookup_insert_Some; [done|by apply Hb]. }
    rewrite <- Hm, <- Hs. split_and!; try done.
    + intros def [<-|Hdef]; [|by apply Hin]. apply Hold. by rewrite Hc, lookup_insert_eq.
    + intros id def Hl. apply Hold. rewrite Hc, lookup_insert_ne; [done|]. congruence.
Qed.

Lemma register_all_tlvs_ok defs b b' :
  register_all RegisterTLV b defs = Ok b' ->
  b_mode b' = b_mode b /\ b_snapshot b' = b_snapshot b /\ b_commands b' = b_commands b.
Proof.
  revert b. induction defs as [|d defs IH]; intros b H; [by injection H as <-|].
  apply bind_ok_inv in H as (b1 & H1 & H). apply RegisterTLV_ok in H1 as (Hm & Hc & _ & Hs).
  destruct (IH b1 H) as (? & ? & ?). repeat split; congruence.
Qed.

Lemma Freeze_fresh b r b' :
  Freeze (Some b) = Ok (r, b') -> b_snapshot b = None ->
  r = MkRegistry (b_mode b) (b_commands b) (b_tlvs b) /\ RegistryModeValid (b_mode b) = true.
Proof.
  cbn. intros H Hs. rewrite Hs in H. destruct (RegistryModeValid _); cbn in H; [|done].
  by injection H as <- <-.
Qed.

Lemma NewSMPP34RegistryBuilder_ok mode b :
  NewSMPP34RegistryBuilder mode = Ok b ->
  b_mode b = mode /\ b_snapshot b = None /\ commands_ok (b_commands b) /\
  (forall def, In def smpp34_commands -> b_commands b !! cd_ID def = Some def).
Proof.
  unfold NewSMPP34RegistryBuilder, registerSMPP34Commands, registerSMPP34TLVs.
  intros H. apply bind_ok_inv in H as (b1 & H1 & H2).
  apply register_all_commands_ok in H1 as (Hm & Hs & Hok & Hin & _);
    [|apply smpp34_commands_ok|by intros id def; cbn; rewrite lookup_empty].
  apply register_all_tlvs_ok in H2 as (Hm' & Hs' & Hc).
  rewrite Hm', Hs', Hc. done.
Qed.

#[export] Instance NewSMPP34Registry_standard mode r :
  NewSMPP34Registry mode = Ok r -> StandardRegistry r.
Proof.
  unfold NewSMPP34Registry. intros H. apply bind_ok_inv in H as (b & Hb & Hf).
  apply NewSMPP34RegistryBuilder_ok in Hb as (Hm & Hs & Hok & _).
  apply bind_ok_inv in Hf as ([r' b'] & Hf & [= <-]).
  apply Freeze_fresh in Hf as [-> Hv]; [|done]. by split.
Qed.
Lemma NewSMPP34Registry_lookup mode r def :
  NewSMPP34Registry mode = Ok r -> In def smpp34_commands ->
  Command (Some r) (cd_ID def) = Some def.
Proof.
  unfold NewSMPP34Registry. intros H Hin. apply bind_ok_inv in H as (b & Hb & Hf).
  apply NewSMPP34RegistryBuilder_ok in Hb as (_ & Hs & _ & Hl).
  apply bind_ok_inv in Hf as ([r' b'] & Hf & [= <-]).
  apply Freeze_fresh in Hf as [-> _]; [|done]. by apply Hl.
Qed.
#[export] Instance NewSMPP50Registry_standard mode r :
  NewSMPP50Registry mode = Ok r -> StandardRegistry r.
Proof.
  unfold NewSMPP50Registry, NewSMPP50RegistryBuilder, registerSMPP50Commands, registerSMPP50TLVs.
  intros H. apply bind_ok_inv in H as (b & Hb & Hf).
  apply bind_ok_inv in Hb as (b1 & Hb1 & Hb). apply bind_ok_inv in Hb as (b2 & Hb2 & Hb).
  apply NewSMPP34RegistryBuilder_ok in Hb1 as (Hm & Hs & Hok & _).
  apply register_all_commands_ok in Hb2 as (Hm2 & Hs2 & Hok2 & _); [|apply smpp50_commands_ok|done].
  apply register_all_tlvs_ok in Hb as (Hm3 & Hs3 & Hc3).
  apply bind_ok_inv in Hf as ([r' b'] & Hf & [= <-]).
  apply Freeze_fresh in Hf as [-> Hv]; [|congruence]. split; [|done]. by rewrite Hc3.
Qed.

(** ** The properties *)

(** A frozen registry never changes.  Whatever operations a builder has gone
    through when [Freeze] succeeds, and whatever operations follow, every later
    [Freeze] returns that same snapshot and every later registration fails. *)
Theorem Freeze_stable mode before after r b' :
  let b := foldl builder_step (NewRegistryBuilder mode) before in
  Freeze (Some b) = Ok (r, b') ->
  let b'' := foldl builder_step b' after in
  Freeze (Some b'') = Ok (r, b'') /\
  (forall def, exists s, RegisterCommand (Some b'') def = Err (ESentinel s)) /\
  (forall def, exists s, RegisterTLV (Some b'') def = Err (ESentinel s)) /\
  r = MkRegistry mode (b_commands b'') (b_tlvs b'').
Proof.
  intros b Hf b''.
  assert (Hb : builder_inv b) by by apply builder_run_inv.
  destruct (Freeze_frozen b r b' Hb Hf) as (Hfr & Hb' & Hf').
  assert (b'' = b') as -> by by apply builder_frozen_run.
  split; [done|]. split; [|split].
  - intros def. cbn. rewrite Hfr. destruct (String.eqb _ _); eauto.
  - intros def. cbn. rewrite Hfr. destruct (String.eqb _ _); eauto.
  - unfold builder_inv in Hb'. cbn in Hf'.
    destruct (negb _); [done|]. destruct (b_snapshot b') as [r'|]; [|congruence].
    injection Hf' as ->. destruct Hb' as (_ & -> & _). f_equal.
    assert (Hmode : forall ops b0, b_mode (foldl builder_step b0 ops) = b_mode b0).
    { induction ops as [|op ops IH]; intros b0; [done|]. cbn [foldl]. rewrite IH.
      destruct op; cbn; by repeat case_match; simplify_eq. }
    transitivity (b_mode b); [|apply Hmode].
    cbn in Hf. by repeat case_match; simplify_eq.
Qed.

Definition sample_ops : list builder_op :=
  [OpCommand (MkCommandDefinition 0x10001 "vendor" None None ActorESME [StateBoundTX]);
   OpTLV (tlv_def 0x1400 "vendor_tlv")].

Lemma Freeze_stable_witness :
  match Freeze (Some (foldl builder_step (NewRegistryBuilder RegistryStrict) sample_ops)) with
  | Ok (r, b') =>
      let b'' := foldl builder_step b' (OpTLV (tlv_def 0x1401 "late") :: sample_ops) in
      Freeze (Some b'') = Ok (r, b'') /\
      (forall def, exists s, RegisterCommand (Some b'') def = Err (ESentinel s)) /\
      (forall def, exists s, RegisterTLV (Some b'') def = Err (ESentinel s)) /\
      r = MkRegistry RegistryStrict (b_commands b'') (b_tlvs b'')
  | _ => False
  end.
Proof.
  destruct (Freeze _) as [[r b']|e|] eqn:Hf; [|by vm_compute in Hf..].
  exact (Freeze_stable RegistryStrict sample_ops _ r b' Hf).
Defined.

(** Construction and counting as one computation. *)
Lemma registry_counts (m : res Registry) n k :
  match m with
  | Ok r => Nat.eqb (CommandCount (Some r)) n && Nat.eqb (TLVCount (Some r)) k
  | _ => false
  end = true ->
  exists r, m = Ok r /\ CommandCount (Some r) = n /\ TLVCount (Some r) = k.
Proof.
  destruct m as [r|e|]; try done. intros [Hn Hk]%andb_true_iff. exists r.
  by apply Nat.eqb_eq in Hn, Hk.
Qed.

(** The standard registries.  For a valid mode both constructors succeed,
    with the 27 commands and 44 TLVs of SMPP 3.4, and the 33 commands and 64 TLVs
    of SMPP 5.0. *)
Theorem standard_registries_complete mode :
  RegistryModeValid mode = true ->
  (exists r, NewSMPP34Registry mode = Ok r /\ CommandCount (Some r) = 27%nat /\
     TLVCount (Some r) = 44%nat) /\
  (exists r, NewSMPP50Registry mode = Ok r /\ CommandCount (Some r) = 33%nat /\
     TLVCount (Some r) = 64%nat).
Proof.
  unfold RegistryModeValid. intros H.
  apply orb_true_iff in H as [->%Z.eqb_eq| ->%Z.eqb_eq];
    split; apply registry_counts; vm_compute; reflexivity.
Qed.

Lemma standard_registries_complete_witness :
  (exists r, NewSMPP34Registry RegistryStrict = Ok r /\ CommandCount (Some r) = 27%nat /\
     TLVCount (Some r) = 44%nat) /\
  (exists r, NewSMPP50Registry RegistryStrict = Ok r /\ CommandCount (Some r) = 33%nat /\
     TLVCount (Some r) = 64%nat).
Proof. apply (standard_registries_complete RegistryStrict). reflexivity. Defined.
