(* ===== verification/Pdu.v ===== *)
(** * PDU encoding and decoding (src/codec: pdu.go, recover.go, error_response.go,
    size_hint.go)

    [DecodePDU] and [EncodePDU] over any registry; the theorems take the
    registry through its promise ([StandardRegistry], and [BodyCodec] for the
    codec of a command).  [int] is 64 bits wide, so a command_length converts to
    it unchanged. *)

From S2P Require Import Prelude Protocol Bodies Fields BodySpec Body34 Extra34 Body50 Registry.

(** ** recover.go *)

Definition decodeBody (def : CommandDefinition) (header : Header) (body : bytes) : res any :=
  match (match cd_Decode def with Some f => f header body | None => Panic end) with
  | Panic => Err (ESemantic StatusSystemError (CommandID header) (SequenceNumber header)
                    (Some (EPanic "codec.CommandDecoder")))
  | r => r
  end.

Definition encodeBody (def : CommandDefinition) (body : any) : W := fun dst =>
  match (match cd_Encode def with Some f => f body dst | None => Panic end) with
  | Panic => Err (dst, EPanic "codec.CommandEncoder")
  | r => r
  end.

(** ** error_response.go *)

Definition appendErrorResponseBody (def : CommandDefinition) (body : any) : W := fun dst =>
  match encodeBody def body [] with
  | Err (_, e) => Err (dst, e)
  | Panic => Panic
  | Ok _ => appendOptional (optionalParametersOf body) dst
  end.

(** ** pdu.go *)

Record DecodedPDU := MkDecodedPDU { pdu_Header : Header; pdu_Body : any }.

Definition DecodePDU (frame : bytes) (registry : option Registry) : res DecodedPDU :=
  header ← DecodeHeader frame;
  let declared := CommandLength header in
  if zlen frame <? declared
  then Err (EFatal (MkFatalError FatalTruncatedFrame (CommandLength header) (CommandID header)
                      (SequenceNumber header)))
  else if negb (zlen frame =? declared)
  then Err (semantic StatusInvalidCommandLength ErrPDUFrameLengthMismatch)
  else
    bodyBytes ← slice_to frame (Z.to_nat declared) ≫= fun f => slice_from f HeaderSize;
    resolved ← ResolveCommand registry (CommandID header);
    match resolved with
    | None => Ok (MkDecodedPDU header (AVal (VRawBody bodyBytes)))
    | Some def =>
        match cd_Decode def with
        | None => Ok (MkDecodedPDU header (AVal (VRawBody bodyBytes)))
        | Some _ => body ← decodeBody def header bodyBytes; Ok (MkDecodedPDU header body)
        end
    end.

Definition with_length (h : Header) (n : Z) : Header :=
  MkHeader n (CommandID h) (CommandStatus h) (SequenceNumber h).

(** [slices.Grow(dst, HeaderSize)[:len(dst)+HeaderSize]] exposes whatever the
    spare capacity of [dst] holds: [stale], cut or filled to sixteen octets. *)
Definition grow_header (stale dst : bytes) : bytes := dst ++ resize HeaderSize 0 stale.

(** [dst[:start]] in an error return. *)
Definition truncated (dst : bytes) (start : nat) (e : GoError) : wres :=
  match slice_to (E:=GoError) dst start with
  | Ok d => Err (d, e)
  | _ => Panic
  end.

(** [EncodeHeader(dst[start:start+HeaderSize], header)] after setting
    [header.CommandLength = uint32(len(dst) - start)]. *)
Definition finish_pdu (header : Header) (start : nat) (dst : bytes) : wres :=
  let header := with_length header (u32 (zlen dst - Z.of_nat start)) in
  match (slice_to dst (start + HeaderSize) ≫= fun d => slice_from d start)
          ≫= fun window => EncodeHeader window header with
  | Ok window => Ok (take start dst ++ window ++ drop (start + HeaderSize) dst)
  | Err e => truncated dst start e
  | Panic => Panic
  end.

(** The negation of [!known || def.Encode == nil]. *)
Definition encodable (resolved : option CommandDefinition) : option CommandDefinition :=
  match resolved with
  | Some def => match cd_Encode def with Some _ => Some def | None => None end
  | None => None
  end.

Definition EncodePDU (stale : bytes) (header : Header) (body : any)
    (registry : option Registry) : W := fun dst =>
  match ResolveCommand registry (CommandID header) with
  | Panic => Panic
  | Err e => Err (dst, e)
  | Ok resolved =>
      match encodable resolved with
      | None =>
          match body with
          | AVal (VRawBody raw) =>
              finish_pdu header (length dst) (grow_header stale dst ++ raw)
          | _ => Err (dst, ESentinel ErrInvalidPDUValue)
          end
      | Some def =>
          let start := length dst in
          let dst := grow_header stale dst in
          match (if IsResponse (CommandID header) && negb (OK (CommandStatus header))
                 then appendErrorResponseBody def body dst
                 else encodeBody def body dst) with
          | Panic => Panic
          | Err (dst, e) => truncated dst start e
          | Ok dst => finish_pdu header start dst
          end
      end
  end.

Definition ResponseHeader (request : Header) (responseID status : Z) : Header :=
  MkHeader 0 responseID status (SequenceNumber request).

(** ** size_hint.go *)

Definition optionalParametersSize (optional : list OptionalParameter) : Z :=
  foldl (fun n p => n + (Z.of_nat TLVHeaderSize + zlen (op_Value p))) 0 optional.

Definition submitSMBodySize (serviceType sourceAddr destinationAddr scheduleDeliveryTime
    validityPeriod shortMessage : bytes) (optional : list OptionalParameter) : Z :=
  17 + zlen serviceType + zlen sourceAddr + zlen destinationAddr + zlen scheduleDeliveryTime +
  zlen validityPeriod + zlen shortMessage + optionalParametersSize optional.

Definition bindRequestBodySize (systemID password systemType addressRange : bytes) : Z :=
  7 + zlen systemID + zlen password + zlen systemType + zlen addressRange.

Definition dataSMBodySize (serviceType sourceAddr destinationAddr : bytes)
    (optional : list OptionalParameter) : Z :=
  10 + zlen serviceType + zlen sourceAddr + zlen destinationAddr +
  optionalParametersSize optional.

Definition broadcastSMBodySize (serviceType sourceAddr messageID scheduleDeliveryTime
    validityPeriod : bytes) (optional : list OptionalParameter) : Z :=
  11 + zlen serviceType + zlen sourceAddr + zlen messageID + zlen scheduleDeliveryTime +
  zlen validityPeriod + optionalParametersSize optional.

Definition queryBroadcastSMBodySize (messageID sourceAddr : bytes)
    (optional : list OptionalParameter) : Z :=
  4 + zlen messageID + zlen sourceAddr + optionalParametersSize optional.

Definition cancelBroadcastSMBodySize (serviceType messageID sourceAddr : bytes)
    (optional : list OptionalParameter) : Z :=
  5 + zlen serviceType + zlen messageID + zlen sourceAddr + optionalParametersSize optional.

(** The response cases of [encodedBodySizeHint] that are shared by every
    response command: an [OptionalResponse], and an empty body of size [empty]. *)
Definition responseSizeHint (empty : Z) (body : any) : option Z :=
  match body with
  | ANil | AVal VEmptyBody | APtr VEmptyBody | ANilPtr KEmptyBody => Some empty
  | AVal (VOptionalResponse v) | APtr (VOptionalResponse v) =>
      Some (optionalParametersSize (or_Optional v))
  | _ => None
  end.

Definition encodedBodySizeHint (command : Z) (body : any) : option Z :=
  if command =? CommandSubmitSM then
    match body with
    | AVal (VSubmitSM v) | APtr (VSubmitSM v) =>
        Some (submitSMBodySize (ssm_ServiceType v) (ssm_SourceAddr v) (ssm_DestinationAddr v)
          (ssm_ScheduleDeliveryTime v) (ssm_ValidityPeriod v) (ssm_ShortMessage v)
          (ssm_Optional v))
    | _ => None
    end
  else if command =? CommandDeliverSM then
    match body with
    | AVal (VDeliverSM v) | APtr (VDeliverSM v) =>
        Some (submitSMBodySize (dsm_ServiceType v) (dsm_SourceAddr v) (dsm_DestinationAddr v)
          (dsm_ScheduleDeliveryTime v) (dsm_ValidityPeriod v) (dsm_ShortMessage v)
          (dsm_Optional v))
    | _ => None
    end
  else if command =? CommandSubmitSMResp then
    match body with
    | AVal (VSubmitSMResp v) | APtr (VSubmitSMResp v) =>
        Some (zlen (ssr_MessageID v) + 1 + optionalParametersSize (ssr_Optional v))
    | _ => responseSizeHint 0 body
    end
  else if command =? CommandDeliverSMResp then
    match body with
    | AVal (VDeliverSMResp v) | APtr (VDeliverSMResp v) =>
        Some (zlen (dsr_MessageID v) + 1 + optionalParametersSize (dsr_Optional v))
    | _ => responseSizeHint 1 body
    end
  else if (command =? CommandBindReceiver) || (command =? CommandBindTransmitter) ||
          (command =? CommandBindTransceiver) then
    match body with
    | AVal (VBindRequest v) | APtr (VBindRequest v) =>
        Some (bindRequestBodySize (brq_SystemID v) (brq_Password v) (brq_SystemType v)
          (brq_AddressRange v))
    | _ => None
    end
  else if (command =? CommandBindReceiverResp) || (command =? CommandBindTransmitterResp) ||
          (command =? CommandBindTransceiverResp) then
    match body with
    | AVal (VBindResponse v) | APtr (VBindResponse v) =>
        Some (zlen (brs_SystemID v) + 1 + optionalParametersSize (brs_Optional v))
    | _ => responseSizeHint 0 body
    end
  else if command =? CommandDataSM then
    match body with
    | AVal (VDataSM v) | APtr (VDataSM v) =>
        Some (dataSMBodySize (dat_ServiceType v) (dat_SourceAddr v) (dat_DestinationAddr v)
          (dat_Optional v))
    | _ => None
    end
  else if command =? CommandDataSMResp then
    match body with
    | AVal (VDataSMResp v) | APtr (VDataSMResp v) =>
        Some (zlen (dar_MessageID v) + 1 + optionalParametersSize (dar_Optional v))
    | _ => responseSizeHint 0 body
    end
  else if command =? CommandBroadcastSM then
    match body with
    | AVal (VBroadcastSM v) | APtr (VBroadcastSM v) =>
        Some (broadcastSMBodySize (bsm_ServiceType v) (bsm_SourceAddr v) (bsm_MessageID v)
          (bsm_ScheduleDeliveryTime v) (bsm_ValidityPeriod v) (bsm_Optional v))
    | _ => None
    end
  else if command =? CommandBroadcastSMResp then
    match body with
    | AVal (VBroadcastSMResp v) | APtr (VBroadcastSMResp v) =>
        Some (zlen (bsr_MessageID v) + 1 + optionalParametersSize (bsr_Optional v))
    | _ => responseSizeHint 0 body
    end
  else if command =? CommandQueryBroadcastSM then
    match body with
    | AVal (VQueryBroadcastSM v) | APtr (VQueryBroadcastSM v) =>
        Some (queryBroadcastSMBodySize (qbs_MessageID v) (qbs_SourceAddr v) (qbs_Optional v))
    | _ => None
    end
  else if command =? CommandQueryBroadcastSMResp then
    match body with
    | AVal (VQueryBroadcastSMResp v) | APtr (VQueryBroadcastSMResp v) =>
        Some (zlen (qbr_MessageID v) + 1 + optionalParametersSize (qbr_Optional v))
    | _ => responseSizeHint 0 body
    end
  else if command =? CommandCancelBroadcastSM then
    match body with
    | AVal (VCancelBroadcastSM v) | APtr (VCancelBroadcastSM v) =>
        Some (cancelBroadcastSMBodySize (cbs_ServiceType v) (cbs_MessageID v) (cbs_SourceAddr v)
          (cbs_Optional v))
    | _ => None
    end
  else None.

Definition EncodedPDUSizeHint (command : Z) (body : any) : option Z :=
  bodyLen ← encodedBodySizeHint command body; Some (Z.of_nat HeaderSize + bodyLen).

(** ** Frames *)

(** The frame of a PDU with header [h] (its command_length apart) and body
    octets [b]. *)
Definition wire_pdu (h : Header) (b : bytes) : bytes :=
  wire_header (with_length h (16 + zlen b)) ++ b.

Lemma wire_pdu_length h b : zlen (wire_pdu h b) = 16 + zlen b.
Proof. unfold wire_pdu. rewrite length_app, wire_header_length. lia. Qed.

(** The fields of a header that are on the wire as given. *)
Definition header_fields_ok (h : Header) : Prop :=
  is_u32 (CommandID h) /\ is_u32 (CommandStatus h) /\ is_u32 (SequenceNumber h).

(** [finish_pdu] on sixteen octets of room and a body. *)
Lemma finish_pdu_spec h pre room b :
  length room = HeaderSize -> 16 + zlen b < 4294967296 ->
  finish_pdu h (length pre) ((pre ++ room) ++ b) = Ok (pre ++ wire_pdu h b).
Proof.
  intros Hr Hb. unfold finish_pdu. unfold HeaderSize in *.
  rewrite slice_to_ok by len. cbn [mbind outcome_bind].
  rewrite slice_from_ok by len. cbn [mbind outcome_bind].
  replace (zlen ((pre ++ room) ++ b) - zlen pre) with (16 + zlen b) by len.
  rewrite u32_small by lia.
  assert (Ht : take (length pre + 16) ((pre ++ room) ++ b) = pre ++ room).
  { rewrite <- Hr, <- length_app. apply take_app_length. }
  rewrite Ht, drop_app_length, EncodeHeader_spec; [|unfold HeaderSize; lia|cbn; lia].
  rewrite <- !app_assoc, take_app_length.
  replace (length pre + 16)%nat with (length (pre ++ room)) by len.
  rewrite (app_assoc pre room b), drop_app_length. unfold wire_pdu, HeaderSize.
  by rewrite (drop_ge room) by lia.
Qed.

(** The window is always there, so [finish_pdu] never panics; and a failure
    gives back what was there before the PDU. *)
Lemma finish_pdu_cases h pre room b :
  length room = HeaderSize ->
  (exists d, finish_pdu h (length pre) ((pre ++ room) ++ b) = Ok d /\
     zlen d = zlen pre + 16 + zlen b) \/
  finish_pdu h (length pre) ((pre ++ room) ++ b) = Err (pre, ESentinel ErrInvalidCommandLength).
Proof.
  intros Hr. unfold finish_pdu, HeaderSize in *.
  rewrite slice_to_ok by len. cbn [mbind outcome_bind].
  rewrite slice_from_ok by len. cbn [mbind outcome_bind].
  unfold EncodeHeader. rewrite decide_False by (unfold HeaderSize; len).
  destruct (_ <? _); [right|left; eexists; split; [reflexivity|unfold HeaderSize; len]].
  unfold truncated. rewrite slice_to_ok by len. by rewrite <- app_assoc, take_app_length.
Qed.

Lemma grow_header_room stale : length (resize HeaderSize 0 stale) = HeaderSize.
Proof. apply length_resize. Qed.

(** ** Body writers under the contract *)

Lemma wspec_not_panic w P out dst : wspec w P out -> not_panic (w dst).
Proof. intros H. specialize (H dst). intros Hp. by rewrite Hp in H. Qed.

Lemma encodeBody_spec def enc body P out :
  cd_Encode def = Some enc -> wspec (enc body) P out -> wspec (encodeBody def body) P out.
Proof.
  intros He Hw dst. specialize (Hw dst). unfold encodeBody. rewrite He.
  by destruct (enc body dst) as [d|[d e]|].
Qed.

Lemma appendErrorResponseBody_spec def enc body P out :
  cd_Encode def = Some enc -> wspec (enc body) P out -> typed body ->
  wspec (appendErrorResponseBody def body)
    (P /\ valid_tlvs (optionalParametersOf body)) (wire_tlvs (optionalParametersOf body)).
Proof.
  intros He Hw Ht dst. unfold appendErrorResponseBody.
  pose proof (encodeBody_spec _ _ _ _ _ He Hw []) as Hb.
  destruct (encodeBody def body []) as [d|[d e]|]; [| |done].
  - assert (Ho : Forall (fun p => is_u16 (op_Tag p)) (optionalParametersOf body))
      by (destruct body; try apply Ht; constructor).
    pose proof (wspec_optional _ Ho dst) as Hopt.
    destruct (appendOptional _ dst) as [d'|[d' e]|]; tauto.
  - destruct Hb as (Hn & _ & He'). split; [tauto|]. split; [|done].
    exists []. by rewrite app_nil_r.
Qed.

(** A response that only carries its optional parameters. *)
Definition error_response (h : Header) : bool :=
  IsResponse (CommandID h) && negb (OK (CommandStatus h)).

Lemma error_response_spec h :
  error_response h = true <-> IsResponse (CommandID h) = true /\ CommandStatus h <> 0.
Proof.
  unfold error_response, OK, StatusOK. rewrite andb_true_iff, negb_true_iff, Z.eqb_neq. done.
Qed.

(** [EncodePDU] through the specification of its body writer. *)
Lemma EncodePDU_writer stale h body r def enc (w : W) P out dst :
  Command r (CommandID h) = Some def -> cd_Encode def = Some enc ->
  w = (if error_response h then appendErrorResponseBody def body else encodeBody def body) ->
  wspec w P out ->
  match EncodePDU stale h body r dst with
  | Ok d => P /\ zlen d = zlen dst + 16 + zlen out /\
      (16 + zlen out < 4294967296 -> d = dst ++ wire_pdu h out)
  | Err (d, e) => d = dst /\ (16 + zlen out < 4294967296 -> ~ P) /\ exists s, e = ESentinel s
  | Panic => False
  end.
Proof.
  intros Hc He Hww Hw. unfold EncodePDU, ResolveCommand. rewrite Hc. cbn [encodable].
  rewrite He. fold (error_response h).
  replace (if error_response h then _ else _) with (w (grow_header stale dst))
    by (rewrite Hww; by destruct (error_response h)).
  specialize (Hw (grow_header stale dst)). unfold grow_header in *.
  pose proof (grow_header_room stale) as Hroom.
  destruct (w _) as [d|[d e]|]; [| |done].
  - destruct Hw as [HP ->].
    destruct (finish_pdu_cases h dst _ out Hroom) as [(d & Hd & Hl)|Hd]; rewrite Hd.
    + split; [done|]. split; [done|]. intros Hlen. rewrite finish_pdu_spec in Hd by done. congruence.
    + split; [done|]. split; [|eauto]. intros Hlen. by rewrite finish_pdu_spec in Hd.
  - destruct Hw as (HP & (junk & ->) & He'). unfold truncated.
    rewrite slice_to_ok by len. rewrite <- !app_assoc, take_app_length. tauto.
Qed.

(** ** Decoding a frame *)

(** A frame with a consistent header reaches the command's decoder. *)
Lemma DecodePDU_frame h b r :
  header_fields_ok h -> 16 + zlen b < 4294967296 ->
  DecodePDU (wire_pdu h b) r =
    let h := with_length h (16 + zlen b) in
    resolved ← ResolveCommand r (CommandID h);
    match resolved with
    | None => Ok (MkDecodedPDU h (AVal (VRawBody b)))
    | Some def =>
        match cd_Decode def with
        | None => Ok (MkDecodedPDU h (AVal (VRawBody b)))
        | Some _ => body ← decodeBody def h b; Ok (MkDecodedPDU h body)
        end
    end.
Proof.
  intros (H1 & H2 & H3) Hb. unfold DecodePDU.
  assert (DecodeHeader (wire_pdu h b) = Ok (with_length h (16 + zlen b))) as ->.
  { apply DecodeHeader_complete; [unfold header_ok; cbn; lia|cbn; lia]. }
  cbn [mbind outcome_bind with_length CommandLength CommandID SequenceNumber CommandStatus].
  rewrite wire_pdu_length, Z.ltb_irrefl, Z.eqb_refl. cbn [negb].
  rewrite slice_to_ok by (apply Nat2Z.inj_le; rewrite wire_pdu_length; lia).
  cbn [mbind outcome_bind].
  rewrite take_ge by (apply Nat2Z.inj_le; rewrite wire_pdu_length; lia).
  rewrite slice_from_ok by (apply Nat2Z.inj_le; rewrite wire_pdu_length; unfold HeaderSize; lia).
  unfold wire_pdu. rewrite drop_app_length'; [done|]. by rewrite wire_header_length.
Qed.

(** Conversely a frame that gets past the header checks is [wire_pdu] of its
    header and its body. *)
Lemma DecodePDU_inv frame r :
  bytes_ok frame ->
  (exists h b, frame = wire_pdu h b /\ header_fields_ok h /\ bytes_ok b /\
     CommandLength h = 16 + zlen b /\ 16 + zlen b < 4294967296) \/
  (exists e, DecodePDU frame r = Err e /\ decode_error e).
Proof.
  intros Hok. pose proof (DecodeHeader_sound frame Hok) as Hh. unfold DecodePDU.
  destruct (DecodeHeader frame) as [h|e|]; [| |done].
  - destruct Hh as ((Hl & Hi & Hst & Hsq) & H16 & b & ->). cbn [mbind outcome_bind].
    destruct (Z.ltb_spec (zlen (wire_header h ++ b)) (CommandLength h)).
    { right. eexists. split; [done|]. by left. }
    destruct (Z.eqb_spec (zlen (wire_header h ++ b)) (CommandLength h)) as [He|He]; cbn [negb].
    + left. exists h, b. rewrite length_app, wire_header_length in He.
      apply bytes_ok_app in Hok as [_ Hb].
      split; [|split_and!; [done..|lia|lia]].
      unfold wire_pdu. replace (with_length h (16 + zlen b)) with h; [done|].
      destruct h; unfold with_length; cbn in *. f_equal. lia.
    + right. eexists. split; [done|]. by apply semantic_decode_error.
  - right. exists e. split; [done|]. by left.
Qed.

(** ** Round trips *)

(** What the peer's decoder makes of [body] sent under header [h]. *)
Definition peer_view (h : Header) (body : any) : option any :=
  spec ← command_spec (CommandID h);
  if error_response h then Some (error_view (zero spec) (optionalParametersOf body))
  else v ← view spec body; Some (AVal (inj spec v)).

(** The peer accepts [body] under [h]: an unsuccessful response, or a
    status-zero PDU whose body is of the command's own type (or what stands for
    it) and satisfies the decoder's further conditions. *)
Definition deliverable (h : Header) (body : any) : Prop :=
  match command_spec (CommandID h) with
  | None => False
  | Some spec =>
      error_response h = true \/
      (CommandStatus h = 0 /\
       match view spec body with Some v => accept spec v | None => False end)
  end.

Lemma standard_command r id def `{!StandardRegistry r} :
  Command (Some r) id = Some def ->
  exists S dec enc, command_spec id = Some S /\ cd_Decode def = Some dec /\
    cd_Encode def = Some enc /\ BodyCodec S (IsResponse id) dec enc.
Proof.
  intros Hc. destruct (standard_def id def Hc) as [<- (S & dec & enc & ?)]. by exists S, dec, enc.
Qed.

(** The body writer [EncodePDU] uses for a standard command, with the body it
    writes and what that body decodes to. *)
Lemma standard_writer S h body def dec enc :
  BodyCodec S (IsResponse (CommandID h)) dec enc ->
  cd_Encode def = Some enc -> typed body ->
  exists P out,
    wspec (if error_response h then appendErrorResponseBody def body else encodeBody def body)
      P out /\
    (command_spec (CommandID h) = Some S -> deliverable h body -> P ->
     exists a, peer_view h body = Some a /\
       body_format S (IsResponse (CommandID h)) (CommandStatus h) a out).
Proof.
  intros Hbc He Ht. destruct (error_response h) eqn:Hr.
  - pose proof Hr as [Hresp Hst]%error_response_spec.
    destruct (bc_writes S _ dec enc body Ht) as (P & out & Hw & Hv).
    do 2 eexists. split; [by eapply appendErrorResponseBody_spec|].
    intros HS _ [HP Ho]. exists (error_view (zero S) (optionalParametersOf body)).
    unfold peer_view. rewrite HS, Hr. split; [done|]. right. split_and!; [done..|]. eexists; eauto.
  - destruct (view S body) as [v|] eqn:Hv.
    + exists (valid S v), (wire S v).
      split; [by eapply encodeBody_spec, bc_encode|].
      intros HS Hd HP. exists (AVal (inj S v)). unfold peer_view, deliverable in *.
      rewrite HS, Hr in *. cbn. rewrite Hv in *. destruct Hd as [?|[H0 Ha]]; [done|].
      split; [done|]. left. split; [done|]. exists v. tauto.
    + destruct (bc_writes S _ dec enc body Ht) as (P & out & Hw & _).
      exists P, out. split; [by eapply encodeBody_spec|].
      intros HS Hd _. unfold deliverable in Hd. rewrite HS, Hr, Hv in Hd. naive_solver.
Qed.

(** The only tolerated non-canonical body is the header-only deliver_sm_resp. *)
Lemma lax_only id spec :
  command_spec id = Some spec -> forall v b, lax spec v b -> id = CommandDeliverSMResp /\ b = [].
Proof.
  unfold command_spec. destruct (List.find _ _) as [[id' s']|] eqn:Hf; [|done].
  intros [= <-]. apply find_some in Hf as [Hin Heq]. cbn [fst snd] in *.
  apply Z.eqb_eq in Heq as ->. unfold command_specs in Hin.
  repeat (destruct Hin as [[= <- <-]|Hin]; [by cbn; tauto|]). done.
Qed.

(** The body writer on what the decoder returned: it writes the same body. *)
Lemma decoded_writer spec h a b def dec enc :
  BodyCodec spec (IsResponse (CommandID h)) dec enc ->
  command_spec (CommandID h) = Some spec -> cd_Encode def = Some enc ->
  body_format spec (IsResponse (CommandID h)) (CommandStatus h) a b ->
  (exists P, P /\ wspec (if error_response h then appendErrorResponseBody def a
                         else encodeBody def a) P b) \/
  (CommandID h = CommandDeliverSMResp /\ CommandStatus h = 0 /\ b = []).
Proof.
  intros Hbc HS He [[H0 (v & -> & [(Hv & _ & ->)|Hl])]|(Hr & H0 & o & Ho & -> & ->)].
  - left. assert (error_response h = false) as ->.
    { unfold error_response. rewrite H0. by rewrite andb_false_r. }
    exists (valid spec v). split; [done|]. eapply encodeBody_spec; [done|].
    apply bc_encode; [by apply bc_typed|apply bc_view].
  - right. by destruct (lax_only _ _ HS v b Hl).
  - left. assert (error_response h = true) as -> by by apply error_response_spec.
    destruct (bc_error o Hr Ho) as (P & out & Hw & HP & Hopt & Hty).
    exists (P /\ valid_tlvs o). split; [done|].
    pose proof (appendErrorResponseBody_spec def enc _ P out He Hw Hty) as HA.
    by rewrite Hopt in HA.
Qed.

Lemma finish_raw stale h dst b :
  CommandLength h = 16 + zlen b -> 16 + zlen b < 4294967296 ->
  finish_pdu h (length dst) (grow_header stale dst ++ b) = Ok (dst ++ wire_pdu h b).
Proof. intros. apply finish_pdu_spec; [apply grow_header_room|done]. Qed.

(** ** Size hints *)

Lemma optionalParametersSize_wire o : optionalParametersSize o = zlen (wire_tlvs o).
Proof.
  unfold optionalParametersSize.
  assert (forall n, foldl (fun n p => n + (Z.of_nat TLVHeaderSize + zlen (op_Value p))) n o =
    n + zlen (wire_tlvs o)) as ->; [|done].
  induction o as [|p o IH]; intros n; cbn [foldl]; [cbn; lia|]. rewrite IH.
  unfold wire_tlvs. cbn [map concat]. rewrite length_app, wire_tlv_length.
  unfold TLVHeaderSize. lia.
Qed.

Lemma cstr_length v : length (cstr v) = S (length v).
Proof. unfold cstr. rewrite length_app. cbn. lia. Qed.

(** The octets [EncodePDU] writes for a body of a standard command. *)
Definition body_octets (spec : body_spec) (body : any) : bytes :=
  match view spec body with
  | Some v => wire spec v
  | None => wire_tlvs (optionalParametersOf body)
  end.

#[local] Hint Rewrite optionalParametersSize_wire cstr_length : len.

(** One command: the hint is the length of the wire format, on every body that
    has a hint. *)
Ltac hint_case HS spec' :=
  subst; match type of HS with _ = Some ?sp => change (Some spec' = Some sp) in HS end;
  injection HS as <-;
  match goal with |- _ = Some _ -> _ = zlen (body_octets _ ?body) => destruct body as [|[]|[]|[]] end;
  cbv beta iota delta [responseSizeHint]; try done; intros [= <-];
  unfold body_octets; cbn [view view_of optionalParametersOf value_optional];
  try match goal with v : SubmitSM |- _ => destruct v | v : DeliverSM |- _ => destruct v end;
  cbv [submitSMBodySize bindRequestBodySize dataSMBodySize broadcastSMBodySize
       queryBroadcastSMBodySize cancelBroadcastSMBodySize];
  cbn -[wire_tlvs cstr optionalParametersSize Z.add Z.of_nat length app];
  cbv [wire_smb wire_id_tlvs wire_BindRequest wire_DataSM wire_BroadcastSM
       wire_QueryBroadcastSM wire_CancelBroadcastSM];
  cbn -[wire_tlvs cstr optionalParametersSize Z.add Z.of_nat length app]; len.

Lemma hint_octets id spec body n :
  command_spec id = Some spec -> encodedBodySizeHint id body = Some n ->
  n = zlen (body_octets spec body).
Proof.
  intros HS. unfold encodedBodySizeHint.
  destruct (Z.eqb_spec id CommandSubmitSM); [hint_case HS spec_SubmitSM|].
  destruct (Z.eqb_spec id CommandDeliverSM); [hint_case HS spec_DeliverSM|].
  destruct (Z.eqb_spec id CommandSubmitSMResp); [hint_case HS spec_SubmitSMResp|].
  destruct (Z.eqb_spec id CommandDeliverSMResp); [hint_case HS spec_DeliverSMResp|].
  destruct (Z.eqb_spec id CommandBindReceiver); [hint_case HS spec_BindRequest|].
  destruct (Z.eqb_spec id CommandBindTransmitter); [hint_case HS spec_BindRequest|].
  destruct (Z.eqb_spec id CommandBindTransceiver); [hint_case HS spec_BindRequest|].
  destruct (Z.eqb_spec id CommandBindReceiverResp); [hint_case HS spec_BindResponse|].
  destruct (Z.eqb_spec id CommandBindTransmitterResp); [hint_case HS spec_BindResponse|].
  destruct (Z.eqb_spec id CommandBindTransceiverResp); [hint_case HS spec_BindResponse|].
  cbn [orb].
  destruct (Z.eqb_spec id CommandDataSM); [hint_case HS spec_DataSM|].
  destruct (Z.eqb_spec id CommandDataSMResp); [hint_case HS spec_DataSMResp|].
  destruct (Z.eqb_spec id CommandBroadcastSM); [hint_case HS spec_BroadcastSM|].
  destruct (Z.eqb_spec id CommandBroadcastSMResp); [hint_case HS spec_BroadcastSMResp|].
  destruct (Z.eqb_spec id CommandQueryBroadcastSM); [hint_case HS spec_QueryBroadcastSM|].
  destruct (Z.eqb_spec id CommandQueryBroadcastSMResp);
    [hint_case HS spec_QueryBroadcastSMResp|].
  destruct (Z.eqb_spec id CommandCancelBroadcastSM); [hint_case HS spec_CancelBroadcastSM|done].
Qed.

(** The octets the body writer of a standard command appends. *)
Lemma standard_octets spec h body def dec enc :
  BodyCodec spec (IsResponse (CommandID h)) dec enc -> cd_Encode def = Some enc -> typed body ->
  error_response h = false -> exists P, wspec (encodeBody def body) P (body_octets spec body).
Proof.
  intros Hbc He Ht Hr. unfold body_octets. destruct (view spec body) as [v|] eqn:Hv.
  - exists (valid spec v). by eapply encodeBody_spec, bc_encode.
  - destruct (bc_other body Ht Hv) as [Hw|[_ Hw]]; eexists; (eapply encodeBody_spec; [done|]).
    + eapply wspec_iff; [exact Hw|reflexivity|done].
    + exact Hw.
Qed.

(** ** The standard registries *)

Definition registry_or_empty (r : res Registry) : Registry :=
  match r with Ok r => r | _ => MkRegistry RegistryStrict ∅ ∅ end.
Definition smpp34_registry (mode : Z) : Registry := registry_or_empty (NewSMPP34Registry mode).
Definition smpp50_registry (mode : Z) : Registry := registry_or_empty (NewSMPP50Registry mode).

Lemma registry_or_empty_ok r : is_ok r = true -> r = Ok (registry_or_empty r).
Proof. by destruct r. Qed.

Lemma NewSMPP34Registry_ok mode :
  RegistryModeValid mode = true -> NewSMPP34Registry mode = Ok (smpp34_registry mode).
Proof.
  intros Hm. apply registry_or_empty_ok. unfold RegistryModeValid in Hm.
  apply orb_true_iff in Hm as [->%Z.eqb_eq| ->%Z.eqb_eq]; vm_compute; reflexivity.
Qed.
Lemma NewSMPP50Registry_ok mode :
  RegistryModeValid mode = true -> NewSMPP50Registry mode = Ok (smpp50_registry mode).
Proof.
  intros Hm. apply registry_or_empty_ok. unfold RegistryModeValid in Hm.
  apply orb_true_iff in Hm as [->%Z.eqb_eq| ->%Z.eqb_eq]; vm_compute; reflexivity.
Qed.

#[export] Instance smpp34_registry_standard :
  StandardRegistry (smpp34_registry RegistryStrict).
Proof. by apply (NewSMPP34Registry_standard RegistryStrict), NewSMPP34Registry_ok. Qed.
#[export] Instance smpp50_registry_standard :
  StandardRegistry (smpp50_registry RegistryCompatible).
Proof. by apply (NewSMPP50Registry_standard RegistryCompatible), NewSMPP50Registry_ok. Qed.

(** What [EncodePDU] appends: the header, with its command_length, and a body that
    decodes to what the peer should see. *)
Lemma EncodePDU_wire stale r h body dst out `{!StandardRegistry r} :
  header_fields_ok h -> typed body -> is_Some (Command (Some r) (CommandID h)) ->
  deliverable h body -> zlen out - zlen dst < 4294967296 ->
  EncodePDU stale h body (Some r) dst = Ok out ->
  exists b a, out = dst ++ wire_pdu h b /\ peer_view h body = Some a /\
    DecodePDU (wire_pdu h b) (Some r) = Ok (MkDecodedPDU (with_length h (16 + zlen b)) a).
Proof.
  intros Hh Ht [def Hc] Hd Hlen Henc.
  destruct (standard_command r _ def Hc) as (S & dec & enc & HS & Hdec & He & Hbc).
  destruct (standard_writer S h body def dec enc Hbc He Ht) as (P & b & Hw & Hpeer).
  pose proof (EncodePDU_writer stale h body (Some r) def enc _ P b dst Hc He eq_refl Hw) as HE.
  rewrite Henc in HE. destruct HE as (HP & Hl & Hout).
  destruct (Hpeer HS Hd HP) as (a & Ha & Hf).
  exists b, a. split; [apply Hout; lia|]. split; [done|].
  rewrite DecodePDU_frame by (done || lia). cbn zeta.
  change (CommandID (with_length h (16 + zlen b))) with (CommandID h).
  unfold ResolveCommand. rewrite Hc. cbn [mbind outcome_bind]. rewrite Hdec.
  unfold decodeBody. rewrite Hdec.
  rewrite (bc_complete (S:=S) (with_length h (16 + zlen b)) a b Hf).
  done.
Qed.

(** A request under a status other than zero: [EncodePDU] writes it, but no decoder of a
    standard command takes it. *)
Lemma EncodePDU_request_status stale r h body dst out `{!StandardRegistry r} :
  header_fields_ok h -> typed body -> is_Some (Command (Some r) (CommandID h)) ->
  zlen out - zlen dst < 4294967296 -> EncodePDU stale h body (Some r) dst = Ok out ->
  exists b, out = dst ++ wire_pdu h b /\
    (bytes_ok b -> CommandStatus h <> 0 -> IsResponse (CommandID h) = false ->
     exists e, DecodePDU (wire_pdu h b) (Some r) = Err e).
Proof.
  intros Hh Ht [def Hc] Hlen Henc.
  destruct (standard_command r _ def Hc) as (S & dec & enc & HS & Hdec & He & Hbc).
  destruct (standard_writer S h body def dec enc Hbc He Ht) as (P & b & Hw & _).
  pose proof (EncodePDU_writer stale h body (Some r) def enc _ P b dst Hc He eq_refl Hw) as HE.
  rewrite Henc in HE. destruct HE as (_ & Hl & Hout). exists b. split; [apply Hout; lia|].
  intros Hb Hst Hreq. rewrite DecodePDU_frame by (done || lia). cbn zeta.
  change (CommandID (with_length h (16 + zlen b))) with (CommandID h).
  unfold ResolveCommand. rewrite Hc. cbn [mbind outcome_bind]. rewrite Hdec.
  unfold decodeBody. rewrite Hdec.
  pose proof (bc_sound (dec:=dec) (with_length h (16 + zlen b)) b Hb) as Hs. unfold sound in Hs.
  destruct (dec _ b) as [a|e|]; [|eauto|done]. destruct Hs as [[H0 _]|[H0 _]]; [done|congruence].
Qed.

(** ** The properties *)

(** C5: Encode then decode.  Under a standard registry that has the command, a frame of
    less than 4 GiB that [EncodePDU] appended for a PDU that is [deliverable] is decoded
    by [DecodePDU] to the header it was given (with the command_length filled in) and to
    the body the sender meant: the body itself when the status is zero, its optional
    parameters when the PDU is an unsuccessful response.  Deliverable is an unsuccessful
    response, and a PDU of status zero whose body is of the command's own type and meets
    what its decoder asks beyond the encoder (the version in a bind response).
    [EncodePDU] also appends frames that are not: a request under another status, which
    [DecodePDU] refuses always; and, as [undeliverable_frames] shows, successful
    responses without their fields. *)
Theorem EncodePDU_DecodePDU stale r h body dst out `{!StandardRegistry r} :
  header_fields_ok h -> typed body -> is_Some (Command (Some r) (CommandID h)) ->
  zlen out - zlen dst < 4294967296 ->
  EncodePDU stale h body (Some r) dst = Ok out ->
  exists frame, out = dst ++ frame /\
    (deliverable h body -> exists a, peer_view h body = Some a /\
       DecodePDU frame (Some r) = Ok (MkDecodedPDU (with_length h (zlen frame)) a)) /\
    (bytes_ok frame -> CommandStatus h <> 0 -> IsResponse (CommandID h) = false ->
       exists e, DecodePDU frame (Some r) = Err e).
Proof.
  intros Hh Ht Hc Hl He.
  destruct (EncodePDU_request_status stale r h body dst out Hh Ht Hc Hl He) as (b & Ho & Hno).
  exists (wire_pdu h b). split; [done|]. split.
  - intros Hd. destruct (EncodePDU_wire stale r h body dst out Hh Ht Hc Hd Hl He) as (b' & a & Ho' & Hp & Hdec).
    rewrite Ho in Ho'. apply app_inv_head in Ho'. exists a. rewrite Ho', wire_pdu_length. done.
  - intros Hok. apply Hno. by apply bytes_ok_app in Hok as [_ Hb].
Qed.

Definition sample_submit : SubmitSM :=
  MkSubmitSM [] 1 1 [49; 50] 1 1 [51; 52] 0 0 0 [] [] 1 0 0 0 [104; 105]
    [MkOptionalParameter TLVTagSARMsgRefNum [0; 7]].
Definition sample_header : Header := MkHeader 0 CommandSubmitSM 0 9.

(** Frames that [EncodePDU] appends and [DecodePDU] refuses: a submit_sm with a status, a
    successful submit_sm_resp without its message_id, and a bind_transceiver_resp whose
    sc_interface_version is not one octet. *)
Definition undeliverable_pdus : list (Header * any) :=
  [(MkHeader 0 CommandSubmitSM 8 9, AVal (VSubmitSM sample_submit));
   (MkHeader 0 CommandSubmitSMResp 0 9, AVal VEmptyBody);
   (MkHeader 0 CommandBindTransceiverResp 0 9,
    AVal (VBindResponse (MkBindResponse [99] [MkOptionalParameter TLVTagSCInterfaceVersion [3; 4]])))].

Lemma undeliverable_frames : forallb (fun x =>
  match EncodePDU [] x.1 x.2 (Some (smpp34_registry RegistryStrict)) [] with
  | Ok frame => match DecodePDU frame (Some (smpp34_registry RegistryStrict)) with Err _ => true | _ => false end
  | _ => false
  end) undeliverable_pdus = true.
Proof. vm_compute. reflexivity. Qed.

Lemma EncodePDU_DecodePDU_witness :
  exists frame a,
    match EncodePDU [] sample_header (APtr (VSubmitSM sample_submit))
            (Some (smpp50_registry RegistryCompatible)) [255] with
    | Ok d => d | _ => [] end = [255] ++ frame /\
    peer_view sample_header (APtr (VSubmitSM sample_submit)) = Some a /\
    DecodePDU frame (Some (smpp50_registry RegistryCompatible)) =
      Ok (MkDecodedPDU (with_length sample_header (zlen frame)) a).
Proof.
  destruct (EncodePDU_DecodePDU [] (smpp50_registry RegistryCompatible) sample_header
           (APtr (VSubmitSM sample_submit)) [255]
           (match EncodePDU [] sample_header (APtr (VSubmitSM sample_submit))
              (Some (smpp50_registry RegistryCompatible)) [255] with Ok d => d | _ => [] end))
    as (frame & Hout & Hdec & _).
  - unfold header_fields_ok, sample_header, CommandSubmitSM; cbn; lia.
  - apply (bool_decide_unpack _); vm_compute; exact I.
  - apply (bool_decide_unpack _); vm_compute; exact I.
  - vm_compute. reflexivity.
  - vm_compute. reflexivity.
  - destruct Hdec as (a & Hp & Hd); [right; split; [reflexivity|exact I]|]. exists frame, a. exact (conj Hout (conj Hp Hd)).
Defined.

(** C8: Decode then encode.  What [DecodePDU] accepts under a standard registry
    is encoded back to exactly the same octets (unknown commands included, in a
    compatible registry), with one exception: a successful deliver_sm_resp of
    sixteen octets, which the decoder tolerates without its message_id. *)
Theorem DecodePDU_EncodePDU stale r frame pdu dst `{!StandardRegistry r} :
  bytes_ok frame -> DecodePDU frame (Some r) = Ok pdu ->
  EncodePDU stale (pdu_Header pdu) (pdu_Body pdu) (Some r) dst = Ok (dst ++ frame) \/
  (CommandID (pdu_Header pdu) = CommandDeliverSMResp /\
   CommandStatus (pdu_Header pdu) = 0 /\ zlen frame = 16).
Proof.
  intros Hok Hdec.
  destruct (DecodePDU_inv frame (Some r) Hok) as [(h & b & -> & Hh & Hb & Hl & Hlt)|(e & He & _)];
    [|congruence].
  rewrite DecodePDU_frame in Hdec by done. cbn zeta in Hdec.
  replace (with_length h (16 + zlen b)) with h in Hdec
    by (destruct h; unfold with_length; cbn in *; congruence).
  unfold ResolveCommand in Hdec. destruct (Command (Some r) (CommandID h)) as [def|] eqn:Hc.
  - destruct (standard_command r _ def Hc) as (spec & dec & enc & HS & Hd & He & Hbc).
    cbn [mbind outcome_bind] in Hdec. unfold decodeBody in Hdec. rewrite Hd in Hdec.
    pose proof (bc_sound h b Hb) as Hs. unfold sound in Hs.
    destruct (dec h b) as [a|e|]; cbn in Hdec; [|done|done]. injection Hdec as <-.
    cbn [pdu_Header pdu_Body].
    destruct (decoded_writer spec h a b def dec enc Hbc HS He Hs) as [(P & HP & Hw)|(-> & -> & ->)].
    + left. pose proof (EncodePDU_writer stale h a (Some r) def enc _ P b dst Hc He eq_refl Hw) as HE.
      destruct (EncodePDU _ _ _ _ dst) as [d|[d e]|]; [|tauto|done].
      destruct HE as (_ & _ & HE). by rewrite HE.
    + right. by rewrite wire_pdu_length.
  - left. destruct (r_mode r =? RegistryStrict) eqn:Hm; cbn [mbind outcome_bind] in Hdec; [done|].
    injection Hdec as <-. cbn [pdu_Header pdu_Body].
    unfold EncodePDU, ResolveCommand. rewrite Hc, Hm. cbn [encodable]. by apply finish_raw.
Qed.


Definition sample_frame : bytes :=
  wire_pdu (MkHeader 0 CommandSubmitSMResp 0 9) (cstr [65; 66] ++ [0; 30; 0; 1; 7]).

Lemma DecodePDU_EncodePDU_witness :
  match DecodePDU sample_frame (Some (smpp34_registry RegistryStrict)) with
  | Ok pdu =>
      EncodePDU [] (pdu_Header pdu) (pdu_Body pdu)
        (Some (smpp34_registry RegistryStrict)) [1] = Ok ([1] ++ sample_frame) \/
      (CommandID (pdu_Header pdu) = CommandDeliverSMResp /\
       CommandStatus (pdu_Header pdu) = 0 /\ zlen sample_frame = 16)
  | _ => False
  end.
Proof.
  destruct (DecodePDU sample_frame _) as [pdu|e|] eqn:Hd; [|by vm_compute in Hd..].
  apply (DecodePDU_EncodePDU [] (smpp34_registry RegistryStrict) sample_frame pdu [1]).
  - apply (bool_decide_unpack _); vm_compute; exact I.
  - exact Hd.
Defined.

(** C7: [DecodePDU] accepts exactly the protocol.  For a command of a standard
    registry a frame of octets decodes to a header and a body if and only if it
    is that header, with its command_length equal to the frame's length,
    followed by octets that stand for that body. *)
Theorem DecodePDU_exact r frame h a def spec `{!StandardRegistry r} :
  bytes_ok frame -> Command (Some r) (CommandID h) = Some def ->
  command_spec (CommandID h) = Some spec ->
  DecodePDU frame (Some r) = Ok (MkDecodedPDU h a) <->
  (exists b, frame = wire_pdu h b /\ header_fields_ok h /\ zlen frame < 4294967296 /\
     CommandLength h = zlen frame /\
     body_format spec (IsResponse (CommandID h)) (CommandStatus h) a b).
Proof.
  intros Hok Hc HS.
  destruct (standard_command r _ def Hc) as (spec' & dec & enc & HS' & Hd & He & Hbc).
  rewrite HS in HS'. injection HS' as <-. split.
  - intros Hdec.
    destruct (DecodePDU_inv frame (Some r) Hok)
      as [(h' & b & -> & Hh & Hb & Hl & Hlt)|(e & Hbad & _)]; [|congruence].
    rewrite DecodePDU_frame in Hdec by done. cbn zeta in Hdec.
    replace (with_length h' (16 + zlen b)) with h' in Hdec
      by (destruct h'; unfold with_length; cbn in *; congruence).
    assert (Heq : CommandID h' = CommandID h).
    { apply bind_ok_inv in Hdec as (resolved & _ & Hdec).
      destruct resolved as [def'|]; [|by injection Hdec as <- _].
      destruct (cd_Decode def'); [|by injection Hdec as <- _].
      by apply bind_ok_inv in Hdec as (a' & _ & [= <- _]). }
    unfold ResolveCommand in Hdec. rewrite Heq, Hc in Hdec. cbn [mbind outcome_bind] in Hdec.
    unfold decodeBody in Hdec. rewrite Hd in Hdec.
    pose proof (bc_sound (dec:=dec) h' b Hb) as Hs. unfold sound in Hs.
    destruct (dec h' b) as [a'|e|]; cbn in Hdec; [|done|done]. injection Hdec as -> ->.
    exists b. rewrite wire_pdu_length. done.
  - intros (b & -> & Hh & Hlt & Hl & Hf). rewrite wire_pdu_length in Hlt, Hl.
    rewrite DecodePDU_frame by done. cbn zeta.
    replace (with_length h (16 + zlen b)) with h
      by (destruct h; unfold with_length; cbn in *; congruence).
    unfold ResolveCommand. rewrite Hc. cbn [mbind outcome_bind]. rewrite Hd.
    unfold decodeBody. rewrite Hd. by rewrite (bc_complete (dec:=dec) h a b Hf).
Qed.

Definition sample_resp : any :=
  AVal (VSubmitSMResp (MkSubmitSMResp [65; 66] [MkOptionalParameter TLVTagReceiptedMessageID [7]])).
Definition sample_resp_def : CommandDefinition :=
  command_def CommandSubmitSMResp "submit_sm_resp" decodeSubmitSMResp encodeSubmitSMResp.

Lemma DecodePDU_exact_witness :
  exists b, sample_frame = wire_pdu (MkHeader 24 CommandSubmitSMResp 0 9) b /\
    header_fields_ok (MkHeader 24 CommandSubmitSMResp 0 9) /\ zlen sample_frame < 4294967296 /\
    CommandLength (MkHeader 24 CommandSubmitSMResp 0 9) = zlen sample_frame /\
    body_format spec_SubmitSMResp (IsResponse CommandSubmitSMResp) 0 sample_resp b.
Proof.
  assert (Hok : bytes_ok sample_frame) by (apply (bool_decide_unpack _); vm_compute; exact I).
  assert (Hc : Command (Some (smpp34_registry RegistryStrict)) CommandSubmitSMResp =
    Some sample_resp_def).
  { apply (NewSMPP34Registry_lookup RegistryStrict _ sample_resp_def);
      [by apply NewSMPP34Registry_ok|].
    unfold smpp34_commands. do 8 right. left. reflexivity. }
  pose proof (DecodePDU_exact (smpp34_registry RegistryStrict) sample_frame
    (MkHeader 24 CommandSubmitSMResp 0 9) sample_resp _ spec_SubmitSMResp Hok Hc eq_refl) as [H _].
  apply H. vm_compute. reflexivity.
Defined.

(** C22: Decoding errors can be acted on.  Under a standard registry [DecodePDU]
    does not panic on any octets, and every error is a [FatalError] (the session
    closes), a [SemanticError] with a non-zero status (the session answers with
    it), or [ErrUnknownCommand], which only a strict registry gives. *)
Theorem DecodePDU_errors r frame `{!StandardRegistry r} :
  bytes_ok frame ->
  match DecodePDU frame (Some r) with
  | Ok _ => True
  | Err e => decode_error e \/ (e = ESentinel ErrUnknownCommand /\ r_mode r = RegistryStrict)
  | Panic => False
  end.
Proof.
  intros Hok.
  destruct (DecodePDU_inv frame (Some r) Hok)
    as [(h & b & -> & Hh & Hb & Hl & Hlt)|(e & -> & He)]; [|by left].
  rewrite DecodePDU_frame by done. cbn zeta.
  replace (with_length h (16 + zlen b)) with h
    by (destruct h; unfold with_length; cbn in *; congruence).
  unfold ResolveCommand. destruct (Command (Some r) (CommandID h)) as [def|] eqn:Hc.
  - destruct (standard_command r _ def Hc) as (spec & dec & enc & HS & Hd & He & Hbc).
    cbn [mbind outcome_bind]. unfold decodeBody. rewrite Hd.
    pose proof (bc_sound (dec:=dec) h b Hb) as Hs. unfold sound in Hs.
    destruct (dec h b); cbn; [done|by left|done].
  - destruct (Z.eqb_spec (r_mode r) RegistryStrict); cbn; [by right|done].
Qed.

Lemma DecodePDU_errors_witness :
  match DecodePDU (be32_put 20 ++ be32_put CommandQuerySM ++ be32_put 0 ++ be32_put 1 ++ [65; 66; 67; 68])
          (Some (smpp34_registry RegistryStrict)) with
  | Ok _ => True
  | Err e => decode_error e \/
      (e = ESentinel ErrUnknownCommand /\ r_mode (smpp34_registry RegistryStrict) = RegistryStrict)
  | Panic => False
  end.
Proof.
  apply (DecodePDU_errors (smpp34_registry RegistryStrict)); [apply _|].
  apply (bool_decide_unpack _); vm_compute; exact I.
Defined.

(** The only errors of [DecodeHeader] are fatal, and it does not panic. *)
Lemma DecodeHeader_total frame :
  match DecodeHeader frame with
  | Ok _ => (16 <= length frame)%nat | Err e => is_fatal e = true | Panic => False end.
Proof.
  unfold DecodeHeader, HeaderSize. destruct (decide _) as [|Hn]; [done|].
  do 16 (destruct frame as [|? frame]; [cbn in Hn; lia|]).
  rewrite (slice_from_ok _ 4), (slice_from_ok _ 8), (slice_from_ok _ 12) by (cbn; lia).
  cbn. destruct (_ <? _); [done|lia].
Qed.

(** Whatever the decoders of the registry do, [DecodePDU] returns; an error that
    is not fatal is about a frame with a header. *)
Lemma DecodePDU_total frame registry :
  match DecodePDU frame registry with
  | Ok _ => True
  | Err e => is_fatal e = true \/ exists h, DecodeHeader frame = Ok h
  | Panic => False
  end.
Proof.
  unfold DecodePDU. pose proof (DecodeHeader_total frame) as HD.
  destruct (DecodeHeader frame) as [h|e|] eqn:Hh; cbn [mbind outcome_bind]; [|by left|done].
  destruct (Z.ltb_spec (zlen frame) (CommandLength h)); [by left|].
  destruct (Z.eqb_spec (zlen frame) (CommandLength h)) as [Heq|]; cbn [negb]; [|eauto].
  rewrite slice_to_ok by lia. cbn [mbind outcome_bind]. rewrite take_ge by lia.
  rewrite slice_from_ok by (unfold HeaderSize; lia). cbn [mbind outcome_bind].
  unfold ResolveCommand. destruct (Command registry (CommandID h)) as [def|].
  - cbn [mbind outcome_bind]. destruct (cd_Decode def) as [dec|] eqn:Hd; [|done].
    unfold decodeBody. rewrite Hd. destruct (dec h _); cbn; eauto.
  - destruct registry as [r|]; [destruct (r_mode r =? _)|]; cbn; eauto.
Qed.

(** A panic in a command decoder stays in [DecodePDU].  For any registry,
    nil included, with any caller-supplied decoders, [DecodePDU] returns: a
    panicking decoder is an ESME_RSYSERR [SemanticError] that names the PDU. *)
Theorem DecodePDU_contains_panics frame registry :
  not_panic (DecodePDU frame registry) /\
  (forall def header body dec, cd_Decode def = Some dec -> dec header body = Panic ->
     decodeBody def header body =
       Err (ESemantic StatusSystemError (CommandID header) (SequenceNumber header)
              (Some (EPanic "codec.CommandDecoder")))).
Proof.
  split; [|by intros def h b dec Hd Hp; unfold decodeBody; rewrite Hd, Hp].
  intros Hp. pose proof (DecodePDU_total frame registry) as H. by rewrite Hp in H.
Qed.

(** A failed encode leaves the destination alone.  Under a standard registry
    [EncodePDU] does not panic; when it fails it returns the destination exactly
    as it was, with a sentinel error, and when it succeeds it has only appended,
    at least a header. *)
Theorem EncodePDU_atomic stale r h body dst `{!StandardRegistry r} :
  typed body ->
  match EncodePDU stale h body (Some r) dst with
  | Ok d => zlen dst + 16 <= zlen d
  | Err (d, e) => d = dst /\ exists s, e = ESentinel s
  | Panic => False
  end.
Proof.
  intros Ht. destruct (Command (Some r) (CommandID h)) as [def|] eqn:Hc.
  - destruct (standard_command r _ def Hc) as (spec & dec & enc & HS & Hd & He & Hbc).
    destruct (standard_writer spec h body def dec enc Hbc He Ht) as (P & b & Hw & _).
    pose proof (EncodePDU_writer stale h body (Some r) def enc _ P b dst Hc He eq_refl Hw) as HE.
    destruct (EncodePDU _ _ _ _ _) as [d|[d e]|]; [lia|tauto|done].
  - unfold EncodePDU, ResolveCommand. rewrite Hc.
    destruct (r_mode r =? RegistryStrict); [eauto|]. cbn [encodable].
    destruct body as [|[]|[]|[]]; eauto.
    destruct (finish_pdu_cases h dst _ v (grow_header_room stale)) as [(d & Hd & Hl)|Hd];
      unfold grow_header; rewrite Hd; [lia|eauto].
Qed.

Lemma EncodePDU_atomic_witness :
  match EncodePDU [7] sample_header (AVal (VSubmitSM (SubmitSM_of (MkShortMessageBody
      [1; 0; 1] 0 0 [] 0 0 [] 0 0 0 [] [] 0 0 0 0 [] []))))
      (Some (smpp34_registry RegistryStrict)) [1; 2] with
  | Ok d => zlen [1; 2] + 16 <= zlen d
  | Err (d, e) => d = [1; 2] /\ exists s, e = ESentinel s
  | Panic => False
  end.
Proof.
  apply (EncodePDU_atomic [7] (smpp34_registry RegistryStrict)); [apply _|].
  apply (bool_decide_unpack _); vm_compute; exact I.
Defined.

(** The size hint is exact.  When [EncodedPDUSizeHint] gives a size for a
    command of a standard registry, a successful [EncodePDU] of anything but an
    unsuccessful response appends exactly that many octets. *)
Theorem EncodedPDUSizeHint_exact stale r h body dst out n `{!StandardRegistry r} :
  typed body -> is_Some (Command (Some r) (CommandID h)) -> error_response h = false ->
  EncodedPDUSizeHint (CommandID h) body = Some n ->
  EncodePDU stale h body (Some r) dst = Ok out -> zlen out = zlen dst + n.
Proof.
  intros Ht [def Hc] Hr Hn Henc.
  destruct (standard_command r _ def Hc) as (spec & dec & enc & HS & Hd & He & Hbc).
  destruct (standard_octets spec h body def dec enc Hbc He Ht Hr) as (P & Hw).
  assert (Hww : encodeBody def body =
    (if error_response h then appendErrorResponseBody def body else encodeBody def body))
    by by rewrite Hr.
  pose proof (EncodePDU_writer stale h body (Some r) def enc _ P _ dst Hc He Hww Hw) as HE.
  rewrite Henc in HE. destruct HE as (_ & Hl & _).
  unfold EncodedPDUSizeHint in Hn.
  destruct (encodedBodySizeHint (CommandID h) body) as [m|] eqn:Hm; cbn in Hn; [|done].
  injection Hn as <-. rewrite (hint_octets _ _ _ _ HS Hm). unfold HeaderSize. lia.
Qed.

Lemma EncodedPDUSizeHint_exact_witness :
  zlen (match EncodePDU [] sample_header (AVal (VSubmitSM sample_submit))
            (Some (smpp50_registry RegistryCompatible)) [255] with Ok d => d | _ => [] end) =
  1 + 45.
Proof.
  apply (EncodedPDUSizeHint_exact [] (smpp50_registry RegistryCompatible) sample_header
           (AVal (VSubmitSM sample_submit)) [255]).
  - apply _.
  - apply (bool_decide_unpack _); vm_compute; exact I.
  - apply (bool_decide_unpack _); vm_compute; exact I.
  - reflexivity.
  - vm_compute. reflexivity.
  - vm_compute. reflexivity.
Defined.
