(* ===== verification/Framer.v ===== *)
(** * Stream framing (src/codec/framer.go)

    A [Framer] cuts a TCP byte stream into PDUs.  The emit callback is a
    stateful function of the caller; the capacity of the reassembly buffer is
    part of the state, because the framer bounds what it keeps between PDUs.
    The abstract specification [deframe] cuts a whole stream at once; the
    refinement theorem says that [Feed] implements it however the stream is
    chunked. *)

From S2P Require Import Prelude Protocol Bodies Fields.

Definition DefaultMaxPDUSize : Z := 1048576.
Definition framerShrinkThreshold : Z := 65536.

(** [f_cap] is [cap(f.pending)]. *)
Record Framer := MkFramer {
  maxPDUSize : Z;
  pending : bytes;
  f_cap : Z;
  expected : Z;
  failed : option GoError
}.

Definition NewFramer (max : Z) : res Framer :=
  let max := if max =? 0 then DefaultMaxPDUSize else max in
  if max <? Z.of_nat HeaderSize then Err (ESentinel ErrInvalidMaxPDUSize)
  else Ok (MkFramer max [] 0 0 None).

(** The receiver of a method is a pointer, [None] when nil. *)
Definition initialized (f : option Framer) : bool :=
  match f with None => false | Some f => negb (maxPDUSize f =? 0) end.
Definition MaxPDUSize (f : option Framer) : Z :=
  match f with None => 0 | Some f => maxPDUSize f end.
Definition Buffered (f : option Framer) : Z :=
  match f with None => 0 | Some f => zlen (pending f) end.
Definition Failed (f : option Framer) : bool :=
  negb (initialized f) ||
  match f with
  | Some f => match failed f with Some _ => true | None => false end
  | None => false
  end.

(** [binary.BigEndian.Uint32(prefix[i:i+4])] of a prefix long enough. *)
Definition uint32_at (prefix : bytes) (i : nat) : Z :=
  match drop i prefix with
  | b0 :: b1 :: b2 :: b3 :: _ => be32_get b0 b1 b2 b3
  | _ => 0
  end.

(** [f.failed = err; f.pending = nil; f.expected = 0]. *)
Definition poison (f : Framer) (e : GoError) : Framer :=
  MkFramer (maxPDUSize f) [] 0 0 (Some e).

Definition framer_error (kind : FatalErrorKind) (declared : Z) (prefix : bytes) : GoError :=
  EFatal (MkFatalError kind declared
    (if decide (8 <= length prefix)%nat then uint32_at prefix 4 else 0)
    (if decide (HeaderSize <= length prefix)%nat then uint32_at prefix 12 else 0)).

Definition fail (f : Framer) (kind : FatalErrorKind) (declared : Z) (prefix : bytes)
    : Framer * GoError :=
  let err := framer_error kind declared prefix in (poison f err, err).

Definition validateLength (f : Framer) (length : Z) (prefix : bytes)
    : Framer * option GoError :=
  if length <? Z.of_nat HeaderSize
  then let (f, e) := fail f FatalInvalidCommandLength length prefix in (f, Some e)
  else if maxPDUSize f <? length
  then let (f, e) := fail f FatalPDUTooLarge length prefix in (f, Some e)
  else (f, None).

Definition Finalize (f : option Framer) : option Framer * option GoError :=
  if negb (initialized f) then (f, Some (ESentinel ErrCodecNotInitialized)) else
  match f with
  | None => (None, None)
  | Some f =>
      match failed f with
      | Some e => (Some f, Some e)
      | None =>
          if zlen (pending f) =? 0 then (Some f, None) else
          let declared := if decide (4 <= length (pending f))%nat
                          then uint32_at (pending f) 0 else 0 in
          let (f, e) := fail f FatalTruncatedFrame declared (pending f) in
          (Some f, Some e)
      end
  end.

Section feed.
(** [grow c n] is the capacity the runtime chooses when [append] needs [n]
    octets and the slice has capacity [c < n]. *)
Context (grow : Z -> Z -> Z).
(** The state and the code of the caller's callback, [None] when nil. *)
Context {St : Type} (callback : option (St -> bytes -> St * option GoError)).

(** [f.pending = append(base, data...)] where [base] has the capacity of
    [f.pending]. *)
Definition append_pending (f : Framer) (base data : bytes) : Framer :=
  let l := base ++ data in
  MkFramer (maxPDUSize f) l
    (if f_cap f <? zlen l then grow (f_cap f) (zlen l) else f_cap f) (expected f) (failed f).

Definition set_expected (f : Framer) (n : Z) : Framer :=
  MkFramer (maxPDUSize f) (pending f) (f_cap f) n (failed f).

(** [if cap(f.pending) < length { make and copy }]. *)
Definition reserve (f : Framer) (n : Z) : Framer :=
  MkFramer (maxPDUSize f) (pending f) (if f_cap f <? n then n else f_cap f)
    (expected f) (failed f).

(** After a reassembled PDU: [f.pending = f.pending[:0]], dropped when large. *)
Definition release (f : Framer) : Framer :=
  MkFramer (maxPDUSize f) [] (if framerShrinkThreshold <? f_cap f then 0 else f_cap f)
    0 (failed f).

Definition emit (f : Framer) (s : St) (frame : bytes) : Framer * St * option GoError :=
  match callback with
  | None => (f, s, None)
  | Some cb =>
      match cb s frame with
      | (s, None) => (f, s, None)
      | (s, Some err) => (if is_fatal err then poison f err else f, s, Some err)
      end
  end.

(** What one iteration of the loop of [Feed] does: return, go on with the rest
    of the data, or panic. *)
Inductive feed_result : Type :=
| FDone (f : Framer) (s : St) (err : option GoError)
| FNext (f : Framer) (s : St) (data : bytes)
| FPanic.

(** The first half of the buffered branch: complete the command_length. *)
Definition read_length (f : Framer) (s : St) (data : bytes) : feed_result :=
  if negb (expected f =? 0) then FNext f s data else
  let need := 4 - zlen (pending f) in
  let need := if zlen data <? need then zlen data else need in
  if need <? 0 then FPanic else
  let f := append_pending f (pending f) (take (Z.to_nat need) data) in
  let data := drop (Z.to_nat need) data in
  if zlen (pending f) <? 4 then FDone f s None else
  let length := uint32_at (pending f) 0 in
  match validateLength f length (pending f) with
  | (f, Some e) => FDone f s (Some e)
  | (f, None) => FNext (reserve (set_expected f length) length) s data
  end.

(** The second half: complete the PDU and emit it. *)
Definition read_pdu (f : Framer) (s : St) (data : bytes) : feed_result :=
  let need := expected f - zlen (pending f) in
  let take' := if 0 <? need then (if zlen data <? need then zlen data else need) else 0 in
  let f := if 0 <? need
           then append_pending f (pending f) (take (Z.to_nat take') data) else f in
  let data := drop (Z.to_nat take') data in
  if zlen (pending f) <? expected f then FDone f s None else
  match emit f s (take (Z.to_nat (expected f)) (pending f)) with
  | (f, s, Some e) => FDone f s (Some e)
  | (f, s, None) => FNext (release f) s data
  end.

Definition feed_buffered (f : Framer) (s : St) (data : bytes) : feed_result :=
  match read_length f s data with
  | FNext f s data => read_pdu f s data
  | r => r
  end.

(** The other branch: nothing is buffered. *)
Definition feed_direct (f : Framer) (s : St) (data : bytes) : feed_result :=
  if zlen data <? 4 then FDone (append_pending f [] data) s None else
  let length := uint32_at data 0 in
  match validateLength f length data with
  | (f, Some e) => FDone f s (Some e)
  | (f, None) =>
      if zlen data <? length
      then FDone (append_pending (reserve (set_expected f length) length) [] data) s None
      else match emit f s (take (Z.to_nat length) data) with
           | (f, s, Some e) => FDone f s (Some e)
           | (f, s, None) => FNext f s (drop (Z.to_nat length) data)
           end
  end.

Definition feed_iter (f : Framer) (s : St) (data : bytes) : feed_result :=
  if 0 <? zlen (pending f) then feed_buffered f s data else feed_direct f s data.

(** Every iteration but one that emits an already complete buffer consumes
    data, and that one leaves the buffer empty; so [S (S (length data))]
    iterations are enough. *)
Fixpoint feed_loop (fuel : nat) (f : Framer) (s : St) (data : bytes)
    : outcome GoError (Framer * St * option GoError) :=
  match data with
  | [] => Ok (f, s, None)
  | _ :: _ =>
      match fuel with
      | O => Panic
      | S fuel =>
          match feed_iter f s data with
          | FDone f s e => Ok (f, s, e)
          | FNext f s data => feed_loop fuel f s data
          | FPanic => Panic
          end
      end
  end.

Definition Feed (f : option Framer) (s : St) (data : bytes)
    : outcome GoError (option Framer * St * option GoError) :=
  if negb (initialized f) then Ok (f, s, Some (ESentinel ErrCodecNotInitialized)) else
  match f with
  | None => Panic
  | Some f =>
      match failed f with
      | Some e => Ok (Some f, s, Some e)
      | None =>
          '(f, s, e) ← feed_loop (S (S (length data))) f s data; Ok (Some f, s, e)
      end
  end.

(** Feed a list of reads one after the other, stopping at the first error. *)
Fixpoint feed_all (f : Framer) (s : St) (chunks : list bytes)
    : outcome GoError (Framer * St * option GoError) :=
  match chunks with
  | [] => Ok (f, s, None)
  | c :: rest =>
      '(f, s, e) ← Feed (Some f) s c;
      match f, e with
      | Some f, None => feed_all f s rest
      | Some f, Some e => Ok (f, s, Some e)
      | None, _ => Panic
      end
  end.
End feed.

(** ** Abstract specification *)

(** How a stream ends: in the middle of a PDU, or at a command_length the framer
    rejects. *)
Inductive tail :=
| Partial (rest : bytes)
| Bad (kind : FatalErrorKind) (declared : Z).

Fixpoint deframe_n (n : nat) (max : Z) (s : bytes) : list bytes * tail :=
  if zlen s <? 4 then ([], Partial s) else
  let l := uint32_at s 0 in
  if l <? 16 then ([], Bad FatalInvalidCommandLength l)
  else if max <? l then ([], Bad FatalPDUTooLarge l)
  else if zlen s <? l then ([], Partial s)
  else match n with
       | O => ([], Partial s)
       | S n => let (frames, t) := deframe_n n max (drop (Z.to_nat l) s) in
                (take (Z.to_nat l) s :: frames, t)
       end.
(** A PDU is not empty, so there are at most [length s] of them. *)
Definition deframe (max : Z) (s : bytes) : list bytes * tail := deframe_n (length s) max s.

Lemma deframe_n_fuel max n m s :
  (length s <= n)%nat -> (length s <= m)%nat -> deframe_n n max s = deframe_n m max s.
Proof.
  revert m s. induction n as [|n IH]; intros m s Hn Hm.
  - destruct s; [|cbn in Hn; lia]. by destruct m.
  - destruct m as [|m]; [destruct s; [done|cbn in Hm; lia]|]. cbn [deframe_n].
    destruct (Z.ltb_spec (zlen s) 4); [done|]. cbn zeta.
    destruct (Z.ltb_spec (uint32_at s 0) 16); [done|]. destruct (_ <? _); [done|].
    destruct (Z.ltb_spec (zlen s) (uint32_at s 0)); [done|].
    rewrite (IH m); [done|len|len].
Qed.

(** What is at the front of a stream, in the four cases of the framer. *)
Definition short (s : bytes) : Prop := zlen s < 4.
Definition bad (max : Z) (s : bytes) (kind : FatalErrorKind) : Prop :=
  4 <= zlen s /\
  ((uint32_at s 0 < 16 /\ kind = FatalInvalidCommandLength) \/
   (max < uint32_at s 0 /\ 16 <= uint32_at s 0 /\ kind = FatalPDUTooLarge)).
Definition good (max : Z) (s : bytes) (l : Z) : Prop :=
  4 <= zlen s /\ l = uint32_at s 0 /\ 16 <= l <= max.

Lemma deframe_short max s : short s -> deframe max s = ([], Partial s).
Proof.
  unfold short, deframe. intros H. destruct (length s) eqn:Hl; cbn [deframe_n];
    destruct (Z.ltb_spec (zlen s) 4); (done || lia).
Qed.
Lemma deframe_bad max s k : bad max s k -> deframe max s = ([], Bad k (uint32_at s 0)).
Proof.
  unfold deframe. intros (H4 & Hb). destruct (length s) eqn:Hl; cbn [deframe_n];
    destruct (Z.ltb_spec (zlen s) 4); try lia; cbn zeta;
    destruct (Z.ltb_spec (uint32_at s 0) 16), (Z.ltb_spec max (uint32_at s 0));
    destruct Hb as [[? ->]|(? & ? & ->)]; (done || lia).
Qed.
Lemma deframe_partial max s l :
  good max s l -> zlen s < l -> deframe max s = ([], Partial s).
Proof.
  unfold deframe. intros (H4 & -> & Hl) Hs. destruct (length s) eqn:Hls; cbn [deframe_n];
    destruct (Z.ltb_spec (zlen s) 4); try lia; cbn zeta;
    destruct (Z.ltb_spec (uint32_at s 0) 16), (Z.ltb_spec max (uint32_at s 0)); try lia;
    destruct (Z.ltb_spec (zlen s) (uint32_at s 0)); (done || lia).
Qed.
Lemma deframe_frame max frame rest l :
  good max (frame ++ rest) l -> zlen frame = l ->
  deframe max (frame ++ rest) = let (fs, t) := deframe max rest in (frame :: fs, t).
Proof.
  intros (H4 & Hl & Hb) Hf. unfold deframe at 1.
  destruct (length (frame ++ rest)) as [|n] eqn:Hls; [len|]. cbn [deframe_n].
  destruct (Z.ltb_spec (zlen (frame ++ rest)) 4); [lia|]. cbn zeta. rewrite <- Hl.
  destruct (Z.ltb_spec l 16), (Z.ltb_spec max l); try lia.
  destruct (Z.ltb_spec (zlen (frame ++ rest)) l); [len|].
  replace (Z.to_nat l) with (length frame) by lia.
  rewrite take_app_length, drop_app_length. unfold deframe.
  rewrite (deframe_n_fuel max n (length rest)); [done|len|done].
Qed.

Lemma uint32_at_app s t : 4 <= zlen s -> uint32_at (s ++ t) 0 = uint32_at s 0.
Proof.
  intros H. do 4 (destruct s as [|? s]; [cbn in H; lia|]). done.
Qed.
Lemma good_app max s t l : good max s l -> good max (s ++ t) l.
Proof.
  intros (H4 & -> & Hb). split; [len|]. rewrite uint32_at_app; [|done]. done.
Qed.
Lemma bad_app max s t k : bad max s k -> bad max (s ++ t) k.
Proof. intros (H4 & Hb). split; [len|]. rewrite uint32_at_app; done. Qed.

Lemma stream_cases max s : short s \/ (exists k, bad max s k) \/ (exists l, good max s l).
Proof.
  unfold short, bad, good. destruct (decide (zlen s < 4)); [by left|right].
  destruct (decide (uint32_at s 0 < 16)); 
    [left; exists FatalInvalidCommandLength; split; [lia|by left]|].
  destruct (decide (max < uint32_at s 0)).
  - left. exists FatalPDUTooLarge. split; [lia|]. right. split; [lia|]. split; [lia|done].
  - right. exists (uint32_at s 0). lia.
Qed.

(** Cutting a stream in two places makes no difference: the PDUs of [s ++ t] are
    those of [s] and then those of what [s] left over followed by [t]. *)
Lemma deframe_app max s t :
  deframe max (s ++ t) =
    match deframe max s with
    | (fs, Partial rest) => let (fs', e) := deframe max (rest ++ t) in (fs ++ fs', e)
    | (fs, Bad k l) => (fs, Bad k l)
    end.
Proof.
  remember (length s) as n eqn:Hn. revert s Hn. induction (lt_wf n) as [n _ IH]. intros s ->.
  destruct (stream_cases max s) as [Hs|[[k Hk]|[l Hl]]].
  - rewrite (deframe_short max s) by done. by destruct (deframe max (s ++ t)).
  - rewrite (deframe_bad max s k), (deframe_bad max (s ++ t) k) by auto using bad_app.
    by rewrite uint32_at_app by apply Hk.
  - destruct (decide (zlen s < l)).
    { rewrite (deframe_partial max s l) by done. by destruct (deframe max (s ++ t)). }
    assert (exists frame rest, s = frame ++ rest /\ zlen frame = l) as (frame & rest & -> & Hfl).
    { exists (take (Z.to_nat l) s), (drop (Z.to_nat l) s). rewrite take_drop.
      destruct Hl as (_ & _ & ?). split; [done|len]. }
    rewrite <- app_assoc. rewrite (deframe_frame max frame rest l) by done.
    rewrite (deframe_frame max frame (rest ++ t) l); [|rewrite app_assoc; by apply good_app|done].
    rewrite (IH (length rest)); [|destruct Hl as (_ & _ & ?); len|done].
    destruct (deframe max rest) as [fs [r|k d]]; [|done]. by destruct (deframe max (r ++ t)).
Qed.

(** ** The framer's invariant *)

(** Between calls the buffer holds a prefix of one PDU whose command_length, once
    complete, was validated; a failed framer holds nothing; and an empty buffer
    has a bounded capacity. *)
Definition wf (f : Framer) : Prop :=
  16 <= maxPDUSize f /\ (pending f = [] -> f_cap f <= framerShrinkThreshold) /\
  match failed f with
  | Some _ => pending f = [] /\ expected f = 0
  | None =>
      (short (pending f) /\ expected f = 0) \/
      (good (maxPDUSize f) (pending f) (expected f) /\ zlen (pending f) <= expected f)
  end.

(** Only a failed callback leaves a complete PDU in the buffer. *)
Definition no_complete (f : Framer) : Prop :=
  expected f <> 0 -> zlen (pending f) < expected f.

Lemma no_complete_0 f : expected f = 0 -> no_complete f.
Proof. intros H ?. congruence. Qed.

Lemma NewFramer_wf max f : NewFramer max = Ok f -> wf f /\ no_complete f /\ failed f = None /\
  pending f = [] /\ maxPDUSize f = if max =? 0 then DefaultMaxPDUSize else max.
Proof.
  unfold NewFramer. destruct (Z.ltb_spec (if max =? 0 then DefaultMaxPDUSize else max)
    (Z.of_nat HeaderSize)); [done|]. intros [= <-]. unfold HeaderSize in *.
  split; [|split; [by apply no_complete_0|done]].
  split; [cbn; lia|]. split; [unfold framerShrinkThreshold; cbn; lia|].
  left. split; [unfold short; cbn; lia|done].
Qed.

Lemma poison_wf f e : 16 <= maxPDUSize f -> wf (poison f e) /\ no_complete (poison f e).
Proof.
  intros. split; [|by apply no_complete_0]. split; [done|]. split; [unfold framerShrinkThreshold; cbn; lia|done].
Qed.

Lemma validateLength_spec f s :
  4 <= zlen s -> 16 <= maxPDUSize f ->
  match validateLength f (uint32_at s 0) s with
  | (f', None) => f' = f /\ good (maxPDUSize f) s (uint32_at s 0)
  | (f', Some e) => exists k, bad (maxPDUSize f) s k /\
      e = framer_error k (uint32_at s 0) s /\ f' = poison f e
  end.
Proof.
  intros H4 Hm. unfold validateLength, HeaderSize, fail.
  destruct (Z.ltb_spec (uint32_at s 0) (Z.of_nat 16)).
  { eexists. split; [split; [done|left; split; [lia|reflexivity]]|]. done. }
  destruct (Z.ltb_spec (maxPDUSize f) (uint32_at s 0)).
  { eexists. split; [split; [done|right; split; [lia|split; [lia|reflexivity]]]|]. done. }
  split; [done|]. split; [done|]. lia.
Qed.

Section feed_lemmas.
Context (grow : Z -> Z -> Z) {St : Type} (callback : option (St -> bytes -> St * option GoError)).
Implicit Types (f : Framer) (s : St) (data : bytes).

Lemma take_min (n : Z) data :
  0 <= n -> take (Z.to_nat (if zlen data <? n then zlen data else n)) data = take (Z.to_nat n) data.
Proof.
  intros. destruct (Z.ltb_spec (zlen data) n); [|done]. rewrite !take_ge by lia. done.
Qed.
Lemma drop_min (n : Z) data :
  0 <= n -> drop (Z.to_nat (if zlen data <? n then zlen data else n)) data = drop (Z.to_nat n) data.
Proof.
  intros. destruct (Z.ltb_spec (zlen data) n); [|done]. rewrite !drop_ge by lia. done.
Qed.

(** The buffer after [read_length]: all of the data if there were too few
    octets, a rejected command_length, or a validated one. *)
Definition ready f f' data data' : Prop :=
  pending f' ++ data' = pending f ++ data /\ maxPDUSize f' = maxPDUSize f /\
  failed f' = None /\ good (maxPDUSize f) (pending f') (expected f') /\
  zlen (pending f') <= expected f' /\ (length data' <= length data)%nat.

Definition rejected f f' (e : option GoError) data : Prop :=
  exists k pre post, pending f ++ data = pre ++ post /\ bad (maxPDUSize f) pre k /\
    e = Some (framer_error k (uint32_at pre 0) pre) /\
    f' = poison f (framer_error k (uint32_at pre 0) pre).

Definition kept f f' (e : option GoError) data : Prop :=
  e = None /\ pending f' = pending f ++ data /\ maxPDUSize f' = maxPDUSize f /\
  failed f' = None /\ wf f' /\ no_complete f' /\
  deframe (maxPDUSize f) (pending f ++ data) = ([], Partial (pending f ++ data)).

Lemma read_length_spec f s data :
  wf f -> failed f = None -> pending f <> [] -> data <> [] ->
  match read_length grow f s data with
  | FNext f' s' data' => s' = s /\ ready f f' data data'
  | FDone f' s' e => s' = s /\ (kept f f' e data \/ rejected f f' e data)
  | FPanic => False
  end.
Proof.
  intros (Hm & _ & Hw) Hf Hp Hd. rewrite Hf in Hw. unfold read_length.
  destruct (Z.eqb_spec (expected f) 0) as [He|He]; cbn [negb].
  2: { destruct Hw as [[_ ?]|[Hg Hl]]; [done|]. split; [done|]. by split_and!. }
  destruct Hw as [[Hs _]|[(_ & _ & ?) _]]; [|lia]. unfold short in Hs.
  set (need := 4 - zlen (pending f)). rewrite take_min, drop_min by lia.
  destruct (Z.ltb_spec (if zlen data <? need then zlen data else need) 0) as [Hneg|_].
  { destruct (Z.ltb_spec (zlen data) need); lia. }
  set (p := pending f ++ take (Z.to_nat need) data).
  assert (Hpd : p ++ drop (Z.to_nat need) data = pending f ++ data)
    by (unfold p; by rewrite <- app_assoc, take_drop).
  cbn [append_pending pending]. fold p.
  destruct (Z.ltb_spec (zlen p) 4) as [Hlt|Hge].
  - split; [done|]. left.
    assert (Hdr : drop (Z.to_nat need) data = []).
    { apply drop_ge. unfold p, need in *. len. }
    rewrite Hdr, app_nil_r in Hpd.
    split; [done|]. cbn [append_pending pending maxPDUSize failed]. fold p. rewrite <- Hpd.
    split_and!; [done..| | |by apply deframe_short].
    + split; [done|]. split; [|cbn; rewrite Hf; by left].
      cbn [append_pending pending]. fold p. intros Hnil. exfalso.
      unfold p in Hnil. by apply app_eq_nil in Hnil as [? _].
    + by apply no_complete_0.
  - pose proof (validateLength_spec (append_pending grow f (pending f) (take (Z.to_nat need) data))
      p Hge Hm) as Hv.
    destruct (validateLength _ _ _) as [f' [e|]].
    + destruct Hv as (k & Hb & -> & ->). split; [done|]. right.
      exists k, p, (drop (Z.to_nat need) data). done.
    + destruct Hv as [-> Hg]. split; [done|]. unfold ready.
      cbn [reserve set_expected append_pending pending maxPDUSize failed expected]. fold p.
      split_and!; [done..| |len]. destruct Hg as (_ & _ & ?).
      assert (zlen p = 4); [|lia]. unfold p, need in *. len.
Qed.

(** The callback alone, and the framer after an error of it. *)
Definition call s frame : St * option GoError :=
  match callback with None => (s, None) | Some cb => cb s frame end.
Definition after_error f (e : GoError) : Framer := if is_fatal e then poison f e else f.

Lemma emit_call f s frame :
  emit callback f s frame =
    match call s frame with
    | (s', None) => (f, s', None)
    | (s', Some e) => (after_error f e, s', Some e)
    end.
Proof. unfold emit, call. destruct callback as [cb|]; [|done]. by destruct (cb s frame) as [s' [e|]]. Qed.

Lemma after_error_wf f e : wf f -> wf (after_error f e).
Proof. intros Hf. unfold after_error. destruct (is_fatal e); [|done]. by apply poison_wf, Hf. Qed.

Lemma release_wf f : 16 <= maxPDUSize f -> failed f = None ->
  wf (release f) /\ failed (release f) = None /\ no_complete (release f).
Proof.
  intros Hm Hf. split; [|split; [done|by apply no_complete_0]].
  split; [done|]. split; cbn.
  - intros _. destruct (Z.ltb_spec framerShrinkThreshold (f_cap f)); [|done].
    unfold framerShrinkThreshold. lia.
  - rewrite Hf. left. split; [unfold short; cbn; lia|done].
Qed.

(** An iteration that emitted the first PDU of the stream and goes on. *)
Definition emitted f f' s s' data data' : Prop :=
  exists frame, call s frame = (s', None) /\ pending f ++ data = frame ++ data' /\
    good (maxPDUSize f) frame (zlen frame) /\
    pending f' = [] /\ wf f' /\ failed f' = None /\ expected f' = 0 /\
    maxPDUSize f' = maxPDUSize f /\ (length data' <= length data)%nat.

(** An iteration whose callback failed on the first PDU of the stream. *)
Definition refused f f' s s' (err : option GoError) data : Prop :=
  exists frame e rest, call s frame = (s', Some e) /\ err = Some e /\
    pending f ++ data = frame ++ rest /\ good (maxPDUSize f) frame (zlen frame) /\ wf f' /\
    maxPDUSize f' = maxPDUSize f /\ (is_fatal e = true -> failed f' = Some e).

Lemma read_pdu_spec f s data :
  16 <= maxPDUSize f -> failed f = None -> good (maxPDUSize f) (pending f) (expected f) ->
  zlen (pending f) <= expected f ->
  match read_pdu grow callback f s data with
  | FNext f' s' data' => emitted f f' s s' data data'
  | FDone f' s' e => (s' = s /\ kept f f' e data) \/ refused f f' s s' e data
  | FPanic => False
  end.
Proof.
  intros Hm Hf Hg Hle. unfold read_pdu. set (need := expected f - zlen (pending f)).
  assert (Hne : pending f <> []) by (destruct Hg as (? & _); by destruct (pending f)).
  set (f1 := if 0 <? need then _ else f). set (tk := if 0 <? need then _ else 0) in *.
  assert (Ht : take (Z.to_nat tk) data = take (Z.to_nat need) data).
  { unfold tk. destruct (Z.ltb_spec 0 need); [by apply take_min; lia|].
    by replace (Z.to_nat need) with 0%nat by lia. }
  assert (Hdr : drop (Z.to_nat tk) data = drop (Z.to_nat need) data).
  { unfold tk. destruct (Z.ltb_spec 0 need); [by apply drop_min; lia|].
    by replace (Z.to_nat need) with 0%nat by lia. }
  assert (H1 : pending f1 = pending f ++ take (Z.to_nat need) data /\
    maxPDUSize f1 = maxPDUSize f /\ expected f1 = expected f /\ failed f1 = None).
  { unfold f1. destruct (Z.ltb_spec 0 need); cbn; rewrite ?Ht; [done|].
    replace (Z.to_nat need) with 0%nat by lia. by rewrite app_nil_r. }
  destruct H1 as (Hp1 & Hm1 & He1 & Hf1). rewrite Hdr, He1.
  assert (Hg1 : good (maxPDUSize f) (pending f1) (expected f)) by (rewrite Hp1; by apply good_app).
  assert (Hsplit : pending f1 ++ drop (Z.to_nat need) data = pending f ++ data)
    by (rewrite Hp1, <- app_assoc; by rewrite take_drop).
  assert (Hle1 : zlen (pending f1) <= expected f) by (rewrite Hp1; unfold need; len).
  assert (Hwf1 : wf f1).
  { split; [by rewrite Hm1|]. split; [intros Hn; rewrite Hp1 in Hn; by apply app_eq_nil in Hn as [? _]|].
    rewrite Hf1, Hm1, He1. by right. }
  destruct (Z.ltb_spec (zlen (pending f1)) (expected f)) as [Hlt|Hge].
  - left. split; [done|].
    assert (Hnil : drop (Z.to_nat need) data = [])
      by (apply drop_ge; rewrite Hp1 in Hlt; unfold need in *; len).
    rewrite Hnil, app_nil_r in Hsplit.
    split; [done|]. split; [done|]. split; [done|]. split; [done|]. split; [done|].
    split; [intros _; by rewrite He1|]. rewrite <- Hsplit.
    by apply (deframe_partial _ _ (expected f)).
  - rewrite emit_call. rewrite take_ge by lia.
    assert (Hfr : zlen (pending f1) = expected f) by lia. rewrite <- Hfr in Hg1.
    destruct (call s (pending f1)) as [s' [e|]] eqn:Hc.
    + right. exists (pending f1), e, (drop (Z.to_nat need) data).
      split; [done|]. split; [done|]. split; [by rewrite Hsplit|]. split; [done|].
      split; [by apply after_error_wf|]. unfold after_error.
      split; [by destruct (is_fatal e)|]. by intros ->.
    + exists (pending f1). destruct (release_wf f1) as (Hr & Hr2 & _); [by rewrite Hm1|done|].
      split_and!; [done|by rewrite Hsplit|done..|len].
Qed.

Lemma feed_direct_spec f s data :
  wf f -> failed f = None -> pending f = [] -> data <> [] ->
  match feed_direct grow callback f s data with
  | FNext f' s' data' => emitted f f' s s' data data'
  | FDone f' s' e => (s' = s /\ (kept f f' e data \/ rejected f f' e data)) \/
      refused f f' s s' e data
  | FPanic => False
  end.
Proof.
  intros (Hm & Hcap & Hw) Hf Hp Hd. rewrite Hf in Hw.
  assert (He : expected f = 0).
  { destruct Hw as [[_ ?]|[(H4 & _) _]]; [done|]. rewrite Hp in H4. cbn in H4. lia. }
  assert (Hwf : wf f) by (split; [done|]; split; [done|]; by rewrite Hf).
  unfold feed_direct. destruct (Z.ltb_spec (zlen data) 4) as [Hlt|Hge].
  - left. split; [done|]. left. unfold kept.
    cbn [append_pending pending maxPDUSize failed]. rewrite Hp, !app_nil_l.
    split; [done|]. split; [done|]. split; [done|]. split; [done|].
    split; [|split; [by apply no_complete_0|by apply deframe_short]].
    split; [done|]. split; [done|]. cbn. rewrite Hf. by left.
  - pose proof (validateLength_spec f data Hge Hm) as Hv.
    destruct (validateLength _ _ _) as [f' [e|]].
    + destruct Hv as (k & Hb & -> & ->). left. split; [done|]. right.
      exists k, data, []. rewrite Hp, app_nil_r. done.
    + destruct Hv as [-> Hg]. set (l := uint32_at data 0) in *.
      destruct (Z.ltb_spec (zlen data) l) as [Hlt|Hle].
      * left. split; [done|]. left. unfold kept.
        cbn [append_pending reserve set_expected pending maxPDUSize failed]. rewrite Hp, !app_nil_l.
        split; [done|]. split; [done|]. split; [done|]. split; [done|].
        split; [|split; [by intros _|by apply (deframe_partial _ _ l)]].
        split; [done|]. split; [done|]. cbn. rewrite Hf. right. split; [done|]. fold l; lia.
      * rewrite emit_call. set (frame := take (Z.to_nat l) data).
        assert (Hfl : zlen frame = l) by (destruct Hg as (_ & _ & ?); unfold frame; len).
        assert (Hgf : good (maxPDUSize f) frame (zlen frame)).
        { rewrite Hfl. destruct Hg as (_ & Hl & Hb). split; [lia|]. split; [|done].
          rewrite Hl, <- (take_drop (Z.to_nat l) data). apply uint32_at_app. fold frame. lia. }
        destruct (call s frame) as [s' [e|]] eqn:Hc.
        -- right. exists frame, e, (drop (Z.to_nat l) data).
           split; [done|]. split; [done|]. split; [by unfold frame; rewrite Hp, take_drop|].
           split; [done|]. split; [by apply after_error_wf|]. unfold after_error.
           split; [by destruct (is_fatal e)|]. by intros ->.
        -- exists frame. split_and!; [done|by unfold frame; rewrite Hp, take_drop|done..|len].
Qed.

Lemma feed_iter_spec f s data :
  wf f -> failed f = None -> data <> [] ->
  match feed_iter grow callback f s data with
  | FNext f' s' data' => emitted f f' s s' data data'
  | FDone f' s' e => (s' = s /\ (kept f f' e data \/ rejected f f' e data)) \/
      refused f f' s s' e data
  | FPanic => False
  end.
Proof.
  intros Hwf Hf Hd. unfold feed_iter.
  destruct (Z.ltb_spec 0 (zlen (pending f))) as [Hp|Hp].
  2: { apply feed_direct_spec; [done..| |done]. destruct (pending f); [done|cbn in Hp; lia]. }
  assert (Hne : pending f <> []) by (by destruct (pending f)).
  unfold feed_buffered. pose proof (read_length_spec f s data Hwf Hf Hne Hd) as Hr.
  destruct (read_length grow f s data) as [f' s' e|f1 s1 data1|]; [by left| |done].
  destruct Hr as [-> (Hpd & Hm & Hf1 & Hg & Hle & Hlen)].
  assert (H16 : 16 <= maxPDUSize f1) by (rewrite Hm; apply Hwf).
  rewrite <- Hm in Hg. pose proof (read_pdu_spec f1 s data1 H16 Hf1 Hg Hle) as Hr.
  unfold emitted, refused, kept in *. rewrite Hpd, Hm in Hr.
  destruct (read_pdu grow callback f1 s data1) as [f' s' e|f' s' data'|]; [|naive_solver lia|done].
  destruct Hr as [[-> Hk]|Hr]; [by left; split; [|left]|by right].
Qed.

(** The callback run over a list of PDUs, up to its first error. *)
Fixpoint run_frames s (frames : list bytes) : St * option GoError :=
  match frames with
  | [] => (s, None)
  | frame :: rest =>
      match call s frame with
      | (s', None) => run_frames s' rest
      | (s', Some e) => (s', Some e)
      end
  end.

(** What [Feed] should do on a stream whose unread part is cut into [frames] and
    [t]: hand over the PDUs in order; stop at the callback's first error, and
    fail for good if it is fatal; otherwise keep the partial PDU, or reject the
    connection. *)
Definition feed_ok f s (frames : list bytes) (t : tail) f' s' (e : option GoError) : Prop :=
  wf f' /\ maxPDUSize f' = maxPDUSize f /\ s' = fst (run_frames s frames) /\
  match snd (run_frames s frames) with
  | Some err => e = Some err /\ (is_fatal err = true -> failed f' = Some err)
  | None =>
      match t with
      | Partial rest => e = None /\ failed f' = None /\ pending f' = rest /\ no_complete f'
      | Bad k l => exists command sequence,
          e = Some (EFatal (MkFatalError k l command sequence)) /\ failed f' = e
      end
  end.

Lemma feed_loop_spec fuel f s data :
  wf f -> failed f = None -> (no_complete f \/ data <> []) ->
  (length data + (if decide (pending f = []) then 0 else 1) < fuel)%nat ->
  exists f' s' e, feed_loop grow callback fuel f s data = Ok (f', s', e) /\
    let (frames, t) := deframe (maxPDUSize f) (pending f ++ data) in
    feed_ok f s frames t f' s' e.
Proof.
  revert f s data. induction fuel as [|fuel IH]; intros f s data Hwf Hf Hc Hfuel; [lia|].
  destruct data as [|b data'] eqn:Hdata.
  { exists f, s, None. split; [done|]. rewrite app_nil_r.
    destruct Hc as [Hc|?]; [|done].
    assert (deframe (maxPDUSize f) (pending f) = ([], Partial (pending f))) as ->.
    { destruct Hwf as (_ & _ & Hw). rewrite Hf in Hw.
      destruct Hw as [[Hs _]|[Hg _]]; [by apply deframe_short|].
      apply (deframe_partial _ _ (expected f)); [done|]. apply Hc.
      destruct Hg as (_ & _ & ?). lia. }
    by split_and!. }
  assert (Hd : data <> []) by by rewrite Hdata. rewrite <- Hdata in *. clear b data' Hdata Hc.
  replace (feed_loop grow callback (S fuel) f s data) with
    (match feed_iter grow callback f s data with
     | FDone f s e => Ok (f, s, e)
     | FNext f s data => feed_loop grow callback fuel f s data
     | FPanic => Panic
     end) by (by destruct data).
  pose proof (feed_iter_spec f s data Hwf Hf Hd) as Hi.
  destruct (feed_iter grow callback f s data) as [f' s' e|f' s' data'|]; [| |done].
  - exists f', s', e. split; [done|].
    destruct Hi as [[-> [Hk|Hr]]|Hr].
    + destruct Hk as (-> & Hp & Hm & Hf' & Hwf' & Hnc & ->). by split_and!.
    + destruct Hr as (k & pre & post & -> & Hb & -> & ->).
      rewrite (deframe_bad _ _ k) by by apply bad_app. rewrite uint32_at_app by apply Hb.
      destruct (poison_wf f (framer_error k (uint32_at pre 0) pre)) as [Hw _]; [apply Hwf|].
      split; [done|]. split; [done|]. split; [done|]. cbn. do 2 eexists. done.
    + destruct Hr as (frame & err & rest & Hcall & -> & -> & Hg & Hwf' & Hm & Hfail).
      rewrite (deframe_frame _ _ _ (zlen frame)) by (try apply good_app; done).
      destruct (deframe (maxPDUSize f) rest) as [fs t]. unfold feed_ok. cbn [run_frames].
      rewrite Hcall. done.
  - destruct Hi as (frame & Hcall & Hpd & Hg & Hp' & Hwf' & Hf' & He' & Hm & Hlen).
    assert (Hl : (length data' + 0 < fuel)%nat).
    { assert (length (pending f ++ data) = length (frame ++ data')) by by rewrite Hpd.
      rewrite !length_app in *. destruct Hg as (? & _ & _).
      destruct (decide (pending f = [])) as [Hn|Hn]; [rewrite Hn in *; cbn in *; lia|].
      destruct (decide (length data' = length data)); lia. }
    destruct (IH f' s' data') as (f2 & s2 & e2 & Hloop & Hrest); [done..| | |].
    { left. by apply no_complete_0. }
    { by rewrite decide_True. }
    exists f2, s2, e2. split; [done|].
    rewrite Hpd, (deframe_frame _ _ _ (zlen frame)) by (try apply good_app; done).
    rewrite Hp', Hm, app_nil_l in Hrest.
    destruct (deframe (maxPDUSize f) data') as [fs t]. unfold feed_ok in *. cbn [run_frames].
    rewrite Hcall. by rewrite <- Hm.
Qed.

Lemma Feed_spec f s data :
  wf f -> failed f = None -> (no_complete f \/ data <> []) ->
  exists f' s' e, Feed grow callback (Some f) s data = Ok (Some f', s', e) /\
    let (frames, t) := deframe (maxPDUSize f) (pending f ++ data) in
    feed_ok f s frames t f' s' e.
Proof.
  intros Hwf Hf Hc. unfold Feed. cbn [initialized].
  destruct (Z.eqb_spec (maxPDUSize f) 0); [destruct Hwf; lia|]. cbn [negb]. rewrite Hf.
  destruct (feed_loop_spec (S (S (length data))) f s data) as (f' & s' & e & Hl & Hok); [done..| |].
  { destruct (decide _); lia. }
  exists f', s', e. rewrite Hl. done.
Qed.

Lemma run_frames_app s l1 l2 :
  run_frames s (l1 ++ l2) =
    match run_frames s l1 with (s', None) => run_frames s' l2 | r => r end.
Proof.
  revert s. induction l1 as [|x l1 IH]; intros s; [done|]. cbn.
  by destruct (call s x) as [s' [e|]].
Qed.

Lemma feed_all_spec chunks f s :
  wf f -> failed f = None -> no_complete f ->
  exists f' s' e, feed_all grow callback f s chunks = Ok (f', s', e) /\
    let (frames, t) := deframe (maxPDUSize f) (pending f ++ concat chunks) in
    feed_ok f s frames t f' s' e.
Proof.
  revert f s. induction chunks as [|c chunks IH]; intros f s Hwf Hf Hnc.
  - destruct (feed_loop_spec 2 f s []) as (f' & s' & e & Hl & Hok);
      [done|done|by left|destruct (decide _); cbn; lia|].
    cbn in Hl. injection Hl as <- <- <-. by exists f, s, None.
  - cbn [feed_all concat].
    destruct (Feed_spec f s c Hwf Hf) as (f1 & s1 & e1 & -> & Hok); [by left|].
    cbn [mbind outcome_bind]. rewrite app_assoc, deframe_app.
    destruct (deframe (maxPDUSize f) (pending f ++ c)) as [frames t].
    destruct Hok as (Hwf1 & Hm1 & Hs1 & Hcase).
    destruct (run_frames s frames) as [s1' [err|]] eqn:Hrun; cbn [fst snd] in *; subst s1'.
    + destruct Hcase as [-> Hfail]. exists f1, s1, (Some err). split; [done|].
      destruct t as [rest|k l]; [destruct (deframe _ (rest ++ concat chunks)) as [fs t2]|];
        unfold feed_ok; rewrite ?run_frames_app, Hrun; done.
    + destruct t as [rest|k l].
      * destruct Hcase as (-> & Hf1 & <- & Hnc1).
        destruct (IH f1 s1 Hwf1 Hf1 Hnc1) as (f2 & s2 & e2 & -> & Hok2).
        exists f2, s2, e2. split; [done|]. rewrite Hm1 in Hok2.
        destruct (deframe _ (pending f1 ++ concat chunks)) as [fs t2]. unfold feed_ok in *.
        rewrite run_frames_app, Hrun, <- Hm1. done.
      * destruct Hcase as (cmd & sq & -> & Hfail). eexists f1, s1, _. split; [done|].
        unfold feed_ok. rewrite Hrun. split_and!; [done..|]. do 2 eexists. done.
Qed.
End feed_lemmas.

(** ** The properties *)

(** C6: Framing refines the abstract specification, however TCP cuts the stream.
    Feeding the chunks one by one to a new framer hands to the callback exactly
    the PDUs that [deframe] finds in their concatenation, in order, up to the
    callback's first error; without such an error the framer ends holding
    exactly the unfinished PDU, or permanently failed with the kind and the
    command_length of the rejected header.  It always returns. *)
Theorem framer_refines_deframe grow St (callback : option (St -> bytes -> St * option GoError))
    max f chunks s :
  NewFramer max = Ok f ->
  exists f' s' e, feed_all grow callback f s chunks = Ok (f', s', e) /\
    let (frames, t) := deframe (maxPDUSize f) (concat chunks) in
    feed_ok callback f s frames t f' s' e.
Proof.
  intros Hn. destruct (NewFramer_wf max f Hn) as (Hwf & Hnc & Hf & Hp & _).
  pose proof (feed_all_spec grow callback chunks f s Hwf Hf Hnc) as H.
  by rewrite Hp, app_nil_l in H.
Qed.

Definition sample_pdu (n : Z) : bytes := [0; 0; 0; 17; 0; 0; 0; 21; 0; 0; 0; 0; 0; 0; 0; n; 9].

Lemma framer_refines_deframe_witness :
  exists f' s' e,
    feed_all (fun _ n => 2 * n) (Some (fun l x => (l ++ [x], None)))
      (MkFramer 64 [] 0 0 None) [] [take 3 (sample_pdu 1); drop 3 (sample_pdu 1 ++ sample_pdu 2);
        [0; 0; 0]; [200; 1]] = Ok (f', s', e) /\
    let (frames, t) := deframe 64 (concat [take 3 (sample_pdu 1);
        drop 3 (sample_pdu 1 ++ sample_pdu 2); [0; 0; 0]; [200; 1]]) in
    feed_ok (Some (fun l x => (l ++ [x], None))) (MkFramer 64 [] 0 0 None) [] frames t f' s' e.
Proof.
  apply (framer_refines_deframe (fun _ n => 2 * n) (list bytes)
           (Some (fun l x => (l ++ [x], None))) 64).
  reflexivity.
Defined.

(** One [Feed] call, from any state the framer can be in.  With any callback
    [Feed] terminates without panicking, hands over the complete PDUs of the
    buffer and the new data in order, and leaves a well-formed framer. *)
Theorem Feed_functional grow St (callback : option (St -> bytes -> St * option GoError)) f s data :
  wf f -> failed f = None -> data <> [] ->
  exists f' s' e, Feed grow callback (Some f) s data = Ok (Some f', s', e) /\
    let (frames, t) := deframe (maxPDUSize f) (pending f ++ data) in
    feed_ok callback f s frames t f' s' e.
Proof. intros Hwf Hf Hd. apply Feed_spec; [done|done|by right]. Qed.

Lemma Feed_functional_witness :
  exists f' s' e,
    Feed (fun _ n => n) (Some (fun (l : list bytes) x => (l ++ [x], None)))
      (Some (MkFramer 64 [0; 0] 8 0 None)) [] [0; 17; 5] = Ok (Some f', s', e) /\
    let (frames, t) := deframe 64 ([0; 0] ++ [0; 17; 5]) in
    feed_ok (Some (fun l x => (l ++ [x], None))) (MkFramer 64 [0; 0] 8 0 None) [] frames t f' s' e.
Proof.
  apply (Feed_functional (fun _ n => n) (list bytes) (Some (fun l x => (l ++ [x], None)))
           (MkFramer 64 [0; 0] 8 0 None)).
  - split; [cbn; lia|]. split; [done|]. left. split; [unfold short; cbn; lia|done].
  - reflexivity.
  - done.
Defined.

(** The reassembly memory is bounded.  In every reachable state the buffered
    octets are fewer than the maximum PDU size or are one whole PDU, so at most
    [maxPDUSize]; and whenever the buffer is empty its retained capacity is at
    most 64 KiB, whatever capacities the runtime chose. *)
Theorem Feed_memory_bounded grow St (callback : option (St -> bytes -> St * option GoError))
    f s data f' s' e :
  wf f -> Feed grow callback (Some f) s data = Ok (Some f', s', e) ->
  wf f' /\ Buffered (Some f') <= MaxPDUSize (Some f) /\
  (Buffered (Some f') = 0 -> f_cap f' <= 65536).
Proof.
  intros Hwf HF.
  assert (Hw : wf f' /\ maxPDUSize f' = maxPDUSize f).
  { destruct (failed f) as [err|] eqn:Hf.
    - unfold Feed in HF. destruct (negb _); [by simplify_eq|]. rewrite Hf in HF. by simplify_eq.
    - destruct data as [|b data].
      + unfold Feed in HF. destruct (negb _); [by simplify_eq|]. rewrite Hf in HF. cbn in HF.
        by simplify_eq.
      + destruct (Feed_spec grow callback f s (b :: data) Hwf Hf) as (f1 & s1 & e1 & HF1 & Hok);
          [by right|]. rewrite HF1 in HF. simplify_eq.
        destruct (deframe _ _) as [frames t]. destruct Hok as (? & ? & _). done. }
  destruct Hw as [Hw Hm]. split; [done|]. destruct Hw as (H16 & Hcap & Hcase). cbn.
  split.
  - rewrite <- Hm. destruct (failed f'); [destruct Hcase as [-> _]; cbn; lia|].
    destruct Hcase as [[Hs _]|[(_ & _ & ?) ?]]; [unfold short in Hs|]; lia.
  - intros Hz. apply Hcap. by destruct (pending f').
Qed.

Lemma Feed_memory_bounded_witness :
  match Feed (fun _ n => n) (Some (fun (l : list bytes) x => (l ++ [x], None)))
      (Some (MkFramer 64 [0; 0] 8 0 None)) [] [0; 17; 5] with
  | Ok (Some f', _, _) => wf f' /\ Buffered (Some f') <= 64 /\
      (Buffered (Some f') = 0 -> f_cap f' <= 65536)
  | _ => False
  end.
Proof.
  apply (Feed_memory_bounded (fun _ n => n) (list bytes) (Some (fun l x => (l ++ [x], None)))
           (MkFramer 64 [0; 0] 8 0 None) [] [0; 17; 5]
           (MkFramer 64 [0; 0; 0; 17; 5] 17 17 None) [] None).
  - split; [cbn; lia|]. split; [done|]. left. split; [unfold short; cbn; lia|done].
  - vm_compute. reflexivity.
Defined.

(** A failed framer stays failed.  After a fatal error [Feed] does not call
    the callback, buffers nothing, and returns that same error for any data, as
    does [Finalize]; a framer that was not made by [NewFramer] refuses too. *)
Theorem framer_poisoned grow St (callback : option (St -> bytes -> St * option GoError)) f s data :
  Failed (Some f) = true ->
  exists e, Feed grow callback (Some f) s data = Ok (Some f, s, Some e) /\
    Finalize (Some f) = (Some f, Some e) /\
    (initialized (Some f) = true -> failed f = Some e).
Proof.
  unfold Failed, Feed, Finalize. destruct (initialized (Some f)) eqn:Hi; cbn [negb orb].
  - destruct (failed f) as [e|]; [|done]. by exists e.
  - intros _. by eexists.
Qed.

Lemma framer_poisoned_witness :
  exists e, Feed (fun _ n => n) None (Some (poison (MkFramer 64 [] 0 0 None)
      (fatal FatalPDUTooLarge))) tt [1; 2] =
      Ok (Some (poison (MkFramer 64 [] 0 0 None) (fatal FatalPDUTooLarge)), tt, Some e) /\
    Finalize (Some (poison (MkFramer 64 [] 0 0 None) (fatal FatalPDUTooLarge))) =
      (Some (poison (MkFramer 64 [] 0 0 None) (fatal FatalPDUTooLarge)), Some e) /\
    (initialized (Some (poison (MkFramer 64 [] 0 0 None) (fatal FatalPDUTooLarge))) = true ->
     failed (poison (MkFramer 64 [] 0 0 None) (fatal FatalPDUTooLarge)) = Some e).
Proof.
  apply (framer_poisoned (fun _ n => n) unit None
           (poison (MkFramer 64 [] 0 0 None) (fatal FatalPDUTooLarge)) tt [1; 2]).
  reflexivity.
Defined.

(** The end of the stream.  [Finalize] on a usable framer is clean exactly
    when no octet is buffered; otherwise the connection ends with a
    truncated-frame error that fails the framer. *)
Theorem Finalize_detects_truncation f :
  wf f -> failed f = None ->
  (pending f = [] /\ Finalize (Some f) = (Some f, None)) \/
  (pending f <> [] /\ exists declared command sequence f',
     Finalize (Some f) = (Some f', Some (EFatal (MkFatalError FatalTruncatedFrame declared
       command sequence))) /\ Failed (Some f') = true /\
     declared = if zlen (pending f) <? 4 then 0 else expected f).
Proof.
  intros (H16 & _ & Hw) Hf. rewrite Hf in Hw. unfold Finalize. cbn [initialized].
  destruct (Z.eqb_spec (maxPDUSize f) 0); [lia|]. cbn [negb]. rewrite Hf.
  destruct (Z.eqb_spec (zlen (pending f)) 0) as [Hz|Hz].
  - left. by destruct (pending f).
  - right. split; [by intros Hn; rewrite Hn in Hz|].
    do 4 eexists. split; [reflexivity|]. split; [apply orb_true_r|].
    destruct (decide _), (Z.ltb_spec (zlen (pending f)) 4); try lia.
    by destruct Hw as [[Hs _]|[(_ & -> & _) _]]; [unfold short in Hs; lia|].
Qed.

Lemma Finalize_detects_truncation_witness :
  ([0; 0] = [] :> bytes /\ Finalize (Some (MkFramer 64 [0; 0] 8 0 None)) =
     (Some (MkFramer 64 [0; 0] 8 0 None), None)) \/
  ([0; 0] <> [] :> bytes /\ exists declared command sequence f',
     Finalize (Some (MkFramer 64 [0; 0] 8 0 None)) =
       (Some f', Some (EFatal (MkFatalError FatalTruncatedFrame declared command sequence))) /\
     Failed (Some f') = true /\ declared = 0).
Proof.
  apply (Finalize_detects_truncation (MkFramer 64 [0; 0] 8 0 None)).
  - split; [cbn; lia|]. split; [done|]. left. split; [unfold short; cbn; lia|done].
  - reflexivity.
Defined.
