(* ===== verification/StateMachine.v ===== *)
(** * Session state machine (src/session: state.go, state_cancel.go)

    The operation/state matrix of SMPP and the bind/unbind lifecycle.  Every
    method of the machine is one critical section, so a machine shared by the
    receive, transmit and request goroutines goes through a sequence of the
    operations below. *)

From S2P Require Import Prelude Protocol Bodies Fields BodySpec Registry Pdu.

(** [RoleNone] stands for every value of the octet that is not a valid role. *)
Inductive Role : Set := RoleNone | RoleESME | RoleSMSC.
#[export] Instance Role_eq_dec : EqDecision Role.
Proof. solve_decision. Defined.

Definition Role_String (r : Role) : string :=
  match r with RoleESME => "ESME" | RoleSMSC => "SMSC" | RoleNone => "Unknown" end.
Definition Role_valid (r : Role) : bool :=
  match r with RoleNone => false | _ => true end.
Definition peer (r : Role) : Role :=
  match r with RoleESME => RoleSMSC | RoleSMSC => RoleESME | RoleNone => RoleNone end.

Inductive BindMode : Set := BindNone | BindTX | BindRX | BindTRX.
Definition BindMode_String (m : BindMode) : string :=
  match m with BindTX => "TX" | BindRX => "RX" | BindTRX => "TRX" | BindNone => "None" end.

Record operationRule := MkRule { rule_actor : Role; rule_states : list SessionState }.

(** An absent actor ([RoleNone]) means either role. *)
Definition allows (r : operationRule) (state : SessionState) (role : Role) : bool :=
  if bool_decide (rule_actor r <> RoleNone) && bool_decide (role <> rule_actor r) then false
  else existsb (fun s => bool_decide (s = state)) (rule_states r).

Definition openOnly := [StateOpen].
Definition openOrOutbound := [StateOpen; StateOutbound].
Definition boundStates := [StateBoundTX; StateBoundRX; StateBoundTRX].
Definition boundOrUnbound := [StateBoundTX; StateBoundRX; StateBoundTRX; StateUnbound].
Definition boundTXOrTRX := [StateBoundTX; StateBoundTRX].
Definition boundRXOrTRX := [StateBoundRX; StateBoundTRX].
Definition boundTXOnly := [StateBoundTX].

Definition standardRules : list (Z * operationRule) :=
  [(CommandBindTransmitter, MkRule RoleESME openOnly);
   (CommandBindTransceiver, MkRule RoleESME openOnly);
   (CommandBindReceiver, MkRule RoleESME openOrOutbound);
   (CommandBindTransmitterResp, MkRule RoleSMSC openOnly);
   (CommandBindTransceiverResp, MkRule RoleSMSC openOnly);
   (CommandBindReceiverResp, MkRule RoleSMSC openOrOutbound);
   (CommandOutbind, MkRule RoleSMSC openOnly);
   (CommandUnbind, MkRule RoleNone boundStates);
   (CommandUnbindResp, MkRule RoleNone boundOrUnbound);
   (CommandEnquireLink, MkRule RoleNone boundStates);
   (CommandEnquireLinkResp, MkRule RoleNone boundStates);
   (CommandSubmitSM, MkRule RoleESME boundTXOrTRX);
   (CommandSubmitMulti, MkRule RoleESME boundTXOrTRX);
   (CommandQuerySM, MkRule RoleESME boundTXOrTRX);
   (CommandCancelSM, MkRule RoleESME boundTXOrTRX);
   (CommandBroadcastSM, MkRule RoleESME boundTXOrTRX);
   (CommandQueryBroadcastSM, MkRule RoleESME boundTXOrTRX);
   (CommandCancelBroadcastSM, MkRule RoleESME boundTXOrTRX);
   (CommandReplaceSM, MkRule RoleESME boundTXOnly);
   (CommandSubmitSMResp, MkRule RoleSMSC boundTXOrTRX);
   (CommandSubmitMultiResp, MkRule RoleSMSC boundTXOrTRX);
   (CommandQuerySMResp, MkRule RoleSMSC boundTXOrTRX);
   (CommandCancelSMResp, MkRule RoleSMSC boundTXOrTRX);
   (CommandBroadcastSMResp, MkRule RoleSMSC boundTXOrTRX);
   (CommandQueryBroadcastSMResp, MkRule RoleSMSC boundTXOrTRX);
   (CommandCancelBroadcastSMResp, MkRule RoleSMSC boundTXOrTRX);
   (CommandReplaceSMResp, MkRule RoleSMSC boundTXOnly);
   (CommandDeliverSM, MkRule RoleSMSC boundRXOrTRX);
   (CommandDeliverSMResp, MkRule RoleESME boundRXOrTRX);
   (CommandDataSM, MkRule RoleNone boundStates);
   (CommandDataSMResp, MkRule RoleNone boundStates);
   (CommandAlertNotification, MkRule RoleSMSC boundRXOrTRX)].

(** [standardRules[command]]. *)
Definition standardRule (command : Z) : option operationRule :=
  snd <$> List.find (fun p => fst p =? command) standardRules.

Definition CanIssue (state : SessionState) (role : Role) (command : Z) : bool :=
  if negb (Role_valid role) || bool_decide (state = StateClosed) then false
  else if command =? CommandGenericNACK then true
  else match standardRule command with
       | None => false
       | Some rule => allows rule state role
       end.

Definition IsStandardCommand (command : Z) : bool :=
  if command =? CommandGenericNACK then true
  else match standardRule command with Some _ => true | None => false end.

(** ** The machine *)

Record StateMachine := MkStateMachine {
  sm_role : Role;
  sm_state : SessionState;
  pendingLocalBind : Z;
  pendingPeerBind : Z;
  localUnbindFrom : SessionState;
  peerUnbindFrom : SessionState
}.

(** [StateError] with its fields; the other errors are sentinels. *)
Inductive sm_error :=
| StateError (state : SessionState) (command : Z) (role : Role)
| SmSentinel (s : sentinel).

Abbreviation smres := (outcome sm_error).

Definition isBindRequest (command : Z) : bool :=
  (command =? CommandBindTransmitter) || (command =? CommandBindReceiver) ||
  (command =? CommandBindTransceiver).

Definition boundStateForBind (command : Z) : SessionState :=
  if command =? CommandBindTransmitter then StateBoundTX
  else if command =? CommandBindReceiver then StateBoundRX
  else if command =? CommandBindTransceiver then StateBoundTRX
  else StateOpen.

Definition NewStateMachine (role : Role) : smres StateMachine :=
  if negb (Role_valid role) then Err (SmSentinel ErrInvalidConfig)
  else Ok (MkStateMachine role StateClosed 0 0 StateClosed StateClosed).

(** The receiver is a pointer, [None] when nil. *)
Definition sm_Role (m : option StateMachine) : Role :=
  match m with None => RoleNone | Some m => sm_role m end.
Definition State (m : option StateMachine) : SessionState :=
  match m with None => StateClosed | Some m => sm_state m end.
Definition sm_BindMode (m : option StateMachine) : BindMode :=
  match State m with
  | StateBoundTX => BindTX | StateBoundRX => BindRX | StateBoundTRX => BindTRX
  | _ => BindNone
  end.

Definition set_state (m : StateMachine) (s : SessionState) : StateMachine :=
  MkStateMachine (sm_role m) s (pendingLocalBind m) (pendingPeerBind m)
    (localUnbindFrom m) (peerUnbindFrom m).
Definition set_localBind (m : StateMachine) (c : Z) : StateMachine :=
  MkStateMachine (sm_role m) (sm_state m) c (pendingPeerBind m)
    (localUnbindFrom m) (peerUnbindFrom m).
Definition set_peerBind (m : StateMachine) (c : Z) : StateMachine :=
  MkStateMachine (sm_role m) (sm_state m) (pendingLocalBind m) c
    (localUnbindFrom m) (peerUnbindFrom m).
Definition set_localFrom (m : StateMachine) (s : SessionState) : StateMachine :=
  MkStateMachine (sm_role m) (sm_state m) (pendingLocalBind m) (pendingPeerBind m)
    s (peerUnbindFrom m).
Definition set_peerFrom (m : StateMachine) (s : SessionState) : StateMachine :=
  MkStateMachine (sm_role m) (sm_state m) (pendingLocalBind m) (pendingPeerBind m)
    (localUnbindFrom m) s.

(** A transition that returns an error leaves the machine as it was. *)
Definition sm_Open (m : option StateMachine) : smres StateMachine :=
  match m with
  | None => Err (SmSentinel ErrNotInitialized)
  | Some m =>
      if negb (bool_decide (sm_state m = StateClosed))
      then Err (StateError (sm_state m) 0 (sm_role m))
      else Ok (set_state m StateOpen)
  end.

Definition MarkOutbound (m : option StateMachine) : smres StateMachine :=
  match m with
  | None => Err (SmSentinel ErrNotInitialized)
  | Some m =>
      if negb (bool_decide (sm_state m = StateOpen))
      then Err (StateError (sm_state m) CommandOutbind (sm_role m))
      else Ok (set_state m StateOutbound)
  end.

Definition BeginOutbound (m : option StateMachine) (command : Z) : smres StateMachine :=
  match m with
  | None => Err (SmSentinel ErrNotInitialized)
  | Some m =>
      let state := sm_state m in
      if negb (CanIssue state (sm_role m) command)
      then Err (StateError state command (sm_role m))
      else if isBindRequest command && negb (pendingLocalBind m =? 0)
      then Err (SmSentinel ErrBindInProgress)
      else
        let m := if isBindRequest command then set_localBind m command else m in
        let m := if command =? CommandUnbind
                 then set_state (set_localFrom m state) StateUnbound else m in
        let m := if command =? CommandOutbind then set_state m StateOutbound else m in
        Ok m
  end.

Definition CancelOutbound (m : StateMachine) (command : Z) : StateMachine :=
  let m := if isBindRequest command && (pendingLocalBind m =? command)
           then set_localBind m 0 else m in
  let m := if (command =? CommandUnbind) && bool_decide (sm_state m = StateUnbound) &&
              negb (bool_decide (localUnbindFrom m = StateClosed))
           then set_localFrom (set_state m (localUnbindFrom m)) StateClosed else m in
  if (command =? CommandOutbind) && bool_decide (sm_state m = StateOutbound)
  then set_state m StateOpen else m.

Definition CompleteOutbound (m : StateMachine) (command status : Z) : StateMachine :=
  if isBindRequest command then
    if negb (pendingLocalBind m =? command) then m
    else
      let m := set_localBind m 0 in
      if OK status then set_state m (boundStateForBind command) else m
  else if (command =? CommandUnbind) && bool_decide (sm_state m = StateUnbound) then
    let m := if OK status then set_state m StateClosed
             else if negb (bool_decide (localUnbindFrom m = StateClosed))
             then set_state m (localUnbindFrom m) else m in
    set_localFrom m StateClosed
  else m.

Definition BeginInbound (m : option StateMachine) (command : Z) : smres StateMachine :=
  match m with
  | None => Err (SmSentinel ErrNotInitialized)
  | Some m =>
      let state := sm_state m in
      let peerRole := peer (sm_role m) in
      if negb (CanIssue state peerRole command)
      then Err (StateError state command peerRole)
      else if isBindRequest command && negb (pendingPeerBind m =? 0)
      then Err (SmSentinel ErrBindInProgress)
      else
        let m := if isBindRequest command then set_peerBind m command else m in
        let m := if command =? CommandUnbind
                 then set_state (set_peerFrom m state) StateUnbound else m in
        let m := if command =? CommandOutbind then set_state m StateOutbound else m in
        Ok m
  end.

Definition CompleteInbound (m : StateMachine) (command status : Z) : StateMachine :=
  if isBindRequest command then
    if negb (pendingPeerBind m =? command) then m
    else
      let m := set_peerBind m 0 in
      if OK status then set_state m (boundStateForBind command) else m
  else if (command =? CommandUnbind) && bool_decide (sm_state m = StateUnbound) then
    let m := if OK status then set_state m StateClosed
             else if negb (bool_decide (peerUnbindFrom m = StateClosed))
             then set_state m (peerUnbindFrom m) else m in
    set_peerFrom m StateClosed
  else m.

Definition CancelInbound (m : StateMachine) (command : Z) : StateMachine :=
  let m := if isBindRequest command && (pendingPeerBind m =? command)
           then set_peerBind m 0 else m in
  if (command =? CommandUnbind) && bool_decide (sm_state m = StateUnbound) &&
     negb (bool_decide (peerUnbindFrom m = StateClosed))
  then set_peerFrom (set_state m (peerUnbindFrom m)) StateClosed else m.

Definition sm_Close (m : StateMachine) : StateMachine :=
  MkStateMachine (sm_role m) StateClosed 0 0 StateClosed StateClosed.

(** ** Operations in any order *)

Inductive sm_op : Set :=
| OpOpen | OpMarkOutbound | OpClose
| OpBeginOutbound (command : Z) | OpCancelOutbound (command : Z)
| OpCompleteOutbound (command status : Z)
| OpBeginInbound (command : Z) | OpCancelInbound (command : Z)
| OpCompleteInbound (command status : Z).

Definition or_same (m : StateMachine) (r : smres StateMachine) : StateMachine :=
  match r with Ok m' => m' | _ => m end.

Definition sm_step (m : StateMachine) (op : sm_op) : StateMachine :=
  match op with
  | OpOpen => or_same m (sm_Open (Some m))
  | OpMarkOutbound => or_same m (MarkOutbound (Some m))
  | OpClose => sm_Close m
  | OpBeginOutbound c => or_same m (BeginOutbound (Some m) c)
  | OpCancelOutbound c => CancelOutbound m c
  | OpCompleteOutbound c st => CompleteOutbound m c st
  | OpBeginInbound c => or_same m (BeginInbound (Some m) c)
  | OpCancelInbound c => CancelInbound m c
  | OpCompleteInbound c st => CompleteInbound m c st
  end.

Inductive reachable (role : Role) : StateMachine -> Prop :=
| reach_new m : NewStateMachine role = Ok m -> reachable role m
| reach_step m op : reachable role m -> reachable role (sm_step m op).

(** ** Reading the matrix *)

Definition is_bound (s : SessionState) : bool :=
  match s with StateBoundTX | StateBoundRX | StateBoundTRX => true | _ => false end.
Definition is_open (s : SessionState) : bool :=
  match s with StateOpen | StateOutbound => true | _ => false end.

Lemma isBindRequest_cases c :
  isBindRequest c = true <->
  c = CommandBindTransmitter \/ c = CommandBindReceiver \/ c = CommandBindTransceiver.
Proof. unfold isBindRequest. rewrite !orb_true_iff, !Z.eqb_eq. tauto. Qed.

Lemma CanIssue_bind s r c :
  isBindRequest c = true -> CanIssue s r c = true -> r = RoleESME /\ is_open s = true.
Proof.
  rewrite isBindRequest_cases. intros [-> | [-> | ->]] H; destruct s, r; by vm_compute in H.
Qed.
Lemma CanIssue_unbind s r : CanIssue s r CommandUnbind = true -> is_bound s = true.
Proof. intros H; destruct s, r; by vm_compute in H. Qed.
Lemma CanIssue_outbind s r :
  CanIssue s r CommandOutbind = true -> r = RoleSMSC /\ s = StateOpen.
Proof. intros H; destruct s, r; by vm_compute in H. Qed.
Lemma bound_for_bind c : isBindRequest c = true -> is_bound (boundStateForBind c) = true.
Proof. by rewrite isBindRequest_cases; intros [-> | [-> | ->]]. Qed.
Lemma peer_peer r : peer (peer r) = r.
Proof. by destruct r. Qed.

(** ** What each operation does *)

Lemma BeginOutbound_ok m c m' :
  BeginOutbound (Some m) c = Ok m' ->
  CanIssue (sm_state m) (sm_role m) c = true /\
  ((isBindRequest c = true /\ pendingLocalBind m = 0 /\ m' = set_localBind m c) \/
   (c = CommandUnbind /\ m' = set_state (set_localFrom m (sm_state m)) StateUnbound) \/
   (c = CommandOutbind /\ m' = set_state m StateOutbound) \/
   (isBindRequest c = false /\ c <> CommandUnbind /\ c <> CommandOutbind /\ m' = m)).
Proof.
  unfold BeginOutbound. destruct (CanIssue _ _ c) eqn:Hc; cbn [negb]; [|done].
  destruct (isBindRequest c) eqn:Hb; cbn [andb].
  - destruct (Z.eqb_spec (pendingLocalBind m) 0); cbn [negb]; [|done].
    intros [= <-]. split; [done|]. left. apply isBindRequest_cases in Hb as [-> | [-> | ->]]; done.
  - destruct (Z.eqb_spec c CommandUnbind) as [->|]; [intros [= <-]; naive_solver|].
    destruct (Z.eqb_spec c CommandOutbind) as [->|]; intros [= <-]; naive_solver.
Qed.

Lemma BeginInbound_ok m c m' :
  BeginInbound (Some m) c = Ok m' ->
  CanIssue (sm_state m) (peer (sm_role m)) c = true /\
  ((isBindRequest c = true /\ pendingPeerBind m = 0 /\ m' = set_peerBind m c) \/
   (c = CommandUnbind /\ m' = set_state (set_peerFrom m (sm_state m)) StateUnbound) \/
   (c = CommandOutbind /\ m' = set_state m StateOutbound) \/
   (isBindRequest c = false /\ c <> CommandUnbind /\ c <> CommandOutbind /\ m' = m)).
Proof.
  unfold BeginInbound. destruct (CanIssue _ _ c) eqn:Hc; cbn [negb]; [|done].
  destruct (isBindRequest c) eqn:Hb; cbn [andb].
  - destruct (Z.eqb_spec (pendingPeerBind m) 0); cbn [negb]; [|done].
    intros [= <-]. split; [done|]. left. apply isBindRequest_cases in Hb as [-> | [-> | ->]]; done.
  - destruct (Z.eqb_spec c CommandUnbind) as [->|]; [intros [= <-]; naive_solver|].
    destruct (Z.eqb_spec c CommandOutbind) as [->|]; intros [= <-]; naive_solver.
Qed.

(** Undoing ([ok = false]) and completing, on one side or the other.  The cases say which field
    changes; in every other case the machine is unchanged. *)
Inductive local_end (m : StateMachine) (ok : bool) (c : Z) : StateMachine -> Prop :=
| LE_same : local_end m ok c m
| LE_bind : ok = false -> isBindRequest c = true -> pendingLocalBind m = c ->
    local_end m ok c (set_localBind m 0)
| LE_bound : ok = true -> isBindRequest c = true -> pendingLocalBind m = c ->
    local_end m ok c (set_state (set_localBind m 0) (boundStateForBind c))
| LE_restore : c = CommandUnbind -> sm_state m = StateUnbound ->
    localUnbindFrom m <> StateClosed ->
    local_end m ok c (set_localFrom (set_state m (localUnbindFrom m)) StateClosed)
| LE_forget : c = CommandUnbind -> sm_state m = StateUnbound ->
    localUnbindFrom m = StateClosed -> local_end m ok c (set_localFrom m StateClosed)
| LE_closed : ok = true -> c = CommandUnbind -> sm_state m = StateUnbound ->
    local_end m ok c (set_localFrom (set_state m StateClosed) StateClosed)
| LE_open : c = CommandOutbind -> sm_state m = StateOutbound ->
    local_end m ok c (set_state m StateOpen).

Inductive peer_end (m : StateMachine) (ok : bool) (c : Z) : StateMachine -> Prop :=
| PE_same : peer_end m ok c m
| PE_bind : ok = false -> isBindRequest c = true -> pendingPeerBind m = c ->
    peer_end m ok c (set_peerBind m 0)
| PE_bound : ok = true -> isBindRequest c = true -> pendingPeerBind m = c ->
    peer_end m ok c (set_state (set_peerBind m 0) (boundStateForBind c))
| PE_restore : c = CommandUnbind -> sm_state m = StateUnbound ->
    peerUnbindFrom m <> StateClosed ->
    peer_end m ok c (set_peerFrom (set_state m (peerUnbindFrom m)) StateClosed)
| PE_forget : c = CommandUnbind -> sm_state m = StateUnbound ->
    peerUnbindFrom m = StateClosed -> peer_end m ok c (set_peerFrom m StateClosed)
| PE_closed : ok = true -> c = CommandUnbind -> sm_state m = StateUnbound ->
    peer_end m ok c (set_peerFrom (set_state m StateClosed) StateClosed).

(** A bind request is neither an unbind nor an outbind. *)
Lemma bind_not_unbind c :
  isBindRequest c = true -> (c =? CommandUnbind) = false /\ (c =? CommandOutbind) = false.
Proof. by rewrite isBindRequest_cases; intros [-> | [-> | ->]]. Qed.

Lemma CancelOutbound_end m c : local_end m false c (CancelOutbound m c).
Proof.
  unfold CancelOutbound. destruct (isBindRequest c) eqn:Hb; cbn [andb].
  - destruct (bind_not_unbind c Hb) as [-> ->]. cbn [andb].
    destruct (Z.eqb_spec (pendingLocalBind m) c); by constructor.
  - destruct (Z.eqb_spec c CommandUnbind) as [->|]; cbn [andb].
    + change (CommandUnbind =? CommandOutbind) with false. cbn [andb].
      destruct (bool_decide_reflect (sm_state m = StateUnbound)); cbn [andb]; [|constructor].
      destruct (bool_decide_reflect (localUnbindFrom m = StateClosed)); cbn; by constructor.
    + destruct (Z.eqb_spec c CommandOutbind) as [->|]; cbn [andb]; [|constructor].
      destruct (bool_decide_reflect (sm_state m = StateOutbound)); by constructor.
Qed.

Lemma CompleteOutbound_end m c st : local_end m (OK st) c (CompleteOutbound m c st).
Proof.
  unfold CompleteOutbound. destruct (isBindRequest c) eqn:Hb.
  - destruct (Z.eqb_spec (pendingLocalBind m) c); cbn [negb]; [|constructor].
    destruct (OK st); by constructor.
  - destruct (Z.eqb_spec c CommandUnbind) as [->|]; cbn [andb]; [|constructor].
    destruct (bool_decide_reflect (sm_state m = StateUnbound)); [|constructor].
    destruct (OK st); [by constructor|].
    destruct (bool_decide_reflect (localUnbindFrom m = StateClosed)); cbn; by constructor.
Qed.

Lemma CancelInbound_end m c : peer_end m false c (CancelInbound m c).
Proof.
  unfold CancelInbound. destruct (isBindRequest c) eqn:Hb; cbn [andb].
  - destruct (bind_not_unbind c Hb) as [-> _]. cbn [andb].
    destruct (Z.eqb_spec (pendingPeerBind m) c); by constructor.
  - destruct (Z.eqb_spec c CommandUnbind) as [->|]; cbn [andb]; [|constructor].
    destruct (bool_decide_reflect (sm_state m = StateUnbound)); cbn [andb]; [|constructor].
    destruct (bool_decide_reflect (peerUnbindFrom m = StateClosed)); cbn; by constructor.
Qed.

Lemma CompleteInbound_end m c st : peer_end m (OK st) c (CompleteInbound m c st).
Proof.
  unfold CompleteInbound. destruct (isBindRequest c) eqn:Hb.
  - destruct (Z.eqb_spec (pendingPeerBind m) c); cbn [negb]; [|constructor].
    destruct (OK st); by constructor.
  - destruct (Z.eqb_spec c CommandUnbind) as [->|]; cbn [andb]; [|constructor].
    destruct (bool_decide_reflect (sm_state m = StateUnbound)); [|constructor].
    destruct (OK st); [by constructor|].
    destruct (bool_decide_reflect (peerUnbindFrom m = StateClosed)); cbn; by constructor.
Qed.

(** ** The invariant *)

(** A pending bind belongs to the side that may bind, and the session is then
    not bound; an unbind in progress remembers a bound state. *)
Definition bind_inv (role side : Role) (state : SessionState) (pending : Z) : Prop :=
  pending = 0 \/ (role = side /\ isBindRequest pending = true /\ is_open state = true).
Definition from_inv (from : SessionState) : Prop := from = StateClosed \/ is_bound from = true.

Record sm_inv (role : Role) (m : StateMachine) : Prop := {
  inv_role : sm_role m = role;
  inv_local : bind_inv role RoleESME (sm_state m) (pendingLocalBind m);
  inv_peer : bind_inv role RoleSMSC (sm_state m) (pendingPeerBind m);
  inv_localFrom : from_inv (localUnbindFrom m);
  inv_peerFrom : from_inv (peerUnbindFrom m);
  inv_unbound : sm_state m = StateUnbound ->
    localUnbindFrom m <> StateClosed \/ peerUnbindFrom m <> StateClosed
}.

Lemma bound_not_open s : is_bound s = true -> is_open s = false.
Proof. by destruct s. Qed.
Lemma bind_inv_clear role side s : bind_inv role side s 0.
Proof. by left. Qed.
(** In a state that is not open no bind is pending. *)
Lemma bind_inv_none role side s p : bind_inv role side s p -> is_open s = false -> p = 0.
Proof. intros [?|(_ & _ & ?)]; congruence. Qed.
(** The other side's bind cannot be pending. *)
Lemma bind_inv_other role side s p : bind_inv role side s p -> role <> side -> p = 0.
Proof. intros [?|(? & _)]; done. Qed.
Lemma from_inv_bound s : from_inv s -> s <> StateClosed -> is_bound s = true /\ s <> StateUnbound.
Proof. intros [?|?] ?; [done|]. by destruct s. Qed.

#[local] Hint Resolve bind_inv_clear : core.
#[local] Hint Extern 1 (from_inv StateClosed) => by left : core.

Lemma isBindRequest_nonzero c : isBindRequest c = true -> c <> 0.
Proof. by rewrite isBindRequest_cases; intros [-> | [-> | ->]]. Qed.

Lemma local_end_inv role m ok c m' : local_end m ok c m' -> sm_inv role m -> sm_inv role m'.
Proof.
  intros HE [Hr HL HP HLF HPF HU].
  destruct HE as [|_ Hb Hc|_ Hb Hc| -> Hs Hf | -> Hs Hf |_ -> Hs | -> Hs]; split; cbn; auto; try done.
  - (* completed bind: the peer's pending bind is the other role's *)
    assert (Hnz := isBindRequest_nonzero c Hb).
    destruct HL as [?|(-> & _)]; [congruence|].
    rewrite (bind_inv_other _ _ _ _ HP); [auto|done].
  - intros Hs. pose proof (bound_for_bind c Hb) as Hbd. by rewrite Hs in Hbd.
  - rewrite (bind_inv_none _ _ _ _ HL); [auto|by rewrite Hs].
  - rewrite (bind_inv_none _ _ _ _ HP); [auto|by rewrite Hs].
  - intros Hs'. by destruct (from_inv_bound _ HLF Hf).
  - intros _. destruct (HU Hs); [done|by right].
  - rewrite (bind_inv_none _ _ _ _ HL); [auto|by rewrite Hs].
  - rewrite (bind_inv_none _ _ _ _ HP); [auto|by rewrite Hs].
  - destruct HL as [-> |(? & ? & _)]; [auto|by right].
  - destruct HP as [-> |(? & ? & _)]; [auto|by right].
Qed.

Lemma peer_end_inv role m ok c m' : peer_end m ok c m' -> sm_inv role m -> sm_inv role m'.
Proof.
  intros HE [Hr HL HP HLF HPF HU].
  destruct HE as [|_ Hb Hc|_ Hb Hc| -> Hs Hf | -> Hs Hf |_ -> Hs]; split; cbn; auto; try done.
  - assert (Hnz := isBindRequest_nonzero c Hb).
    destruct HP as [?|(-> & _)]; [congruence|].
    rewrite (bind_inv_other _ _ _ _ HL); [auto|done].
  - intros Hs. pose proof (bound_for_bind c Hb) as Hbd. by rewrite Hs in Hbd.
  - rewrite (bind_inv_none _ _ _ _ HL); [auto|by rewrite Hs].
  - rewrite (bind_inv_none _ _ _ _ HP); [auto|by rewrite Hs].
  - intros Hs'. by destruct (from_inv_bound _ HPF Hf).
  - intros _. destruct (HU Hs); [by left|done].
  - rewrite (bind_inv_none _ _ _ _ HL); [auto|by rewrite Hs].
  - rewrite (bind_inv_none _ _ _ _ HP); [auto|by rewrite Hs].
Qed.

Lemma BeginOutbound_inv role m c m' :
  sm_inv role m -> BeginOutbound (Some m) c = Ok m' -> sm_inv role m'.
Proof.
  intros [Hr HL HP HLF HPF HU] HB.
  apply BeginOutbound_ok in HB as [Hc [(Hb & H0 & ->)|[(-> & ->)|[(-> & ->)|(_ & _ & _ & ->)]]]];
    [| | |done].
  - rewrite Hr in Hc. destruct (CanIssue_bind _ _ _ Hb Hc) as [-> Ho].
    split; cbn; auto; by right.
  - pose proof (CanIssue_unbind _ _ Hc) as Hbd. pose proof (bound_not_open _ Hbd) as Hno.
    split; cbn; auto.
    + rewrite (bind_inv_none _ _ _ _ HL); auto.
    + rewrite (bind_inv_none _ _ _ _ HP); auto.
    + by right.
    + intros _. left. by intros Heq; rewrite Heq in Hbd.
  - apply CanIssue_outbind in Hc as [_ Ho]. rewrite Ho in HL, HP. split; cbn; auto; done.
Qed.

Lemma BeginInbound_inv role m c m' :
  sm_inv role m -> BeginInbound (Some m) c = Ok m' -> sm_inv role m'.
Proof.
  intros [Hr HL HP HLF HPF HU] HB.
  apply BeginInbound_ok in HB as [Hc [(Hb & H0 & ->)|[(-> & ->)|[(-> & ->)|(_ & _ & _ & ->)]]]];
    [| | |done].
  - rewrite Hr in Hc. destruct (CanIssue_bind _ _ _ Hb Hc) as [Hp Ho].
    split; cbn; auto. right. by destruct role.
  - pose proof (CanIssue_unbind _ _ Hc) as Hbd. pose proof (bound_not_open _ Hbd) as Hno.
    split; cbn; auto.
    + rewrite (bind_inv_none _ _ _ _ HL); auto.
    + rewrite (bind_inv_none _ _ _ _ HP); auto.
    + by right.
    + intros _. right. by intros Heq; rewrite Heq in Hbd.
  - apply CanIssue_outbind in Hc as [_ Ho]. rewrite Ho in HL, HP. split; cbn; auto; done.
Qed.

Lemma sm_step_inv role m op : sm_inv role m -> sm_inv role (sm_step m op).
Proof.
  intros Hm. pose proof Hm as [Hr HL HP HLF HPF HU].
  destruct op as [| | |c|c|c st|c|c|c st]; cbn [sm_step].
  - unfold sm_Open. destruct (bool_decide_reflect (sm_state m = StateClosed)) as [Hs|]; [|done].
    split; cbn; auto; try done.
    + rewrite (bind_inv_none _ _ _ _ HL); [auto|by rewrite Hs].
    + rewrite (bind_inv_none _ _ _ _ HP); [auto|by rewrite Hs].
  - unfold MarkOutbound. destruct (bool_decide_reflect (sm_state m = StateOpen)) as [Hs|]; [|done].
    rewrite Hs in HL, HP. by split.
  - split; cbn; auto; done.
  - destruct (BeginOutbound (Some m) c) eqn:HB; [|done..]. by eapply BeginOutbound_inv.
  - eapply local_end_inv; [apply CancelOutbound_end|done].
  - eapply local_end_inv; [apply CompleteOutbound_end|done].
  - destruct (BeginInbound (Some m) c) eqn:HB; [|done..]. by eapply BeginInbound_inv.
  - eapply peer_end_inv; [apply CancelInbound_end|done].
  - eapply peer_end_inv; [apply CompleteInbound_end|done].
Qed.

Lemma reachable_inv role m : reachable role m -> sm_inv role m.
Proof.
  induction 1 as [m H|m op _ IH]; [|by apply sm_step_inv].
  unfold NewStateMachine in H. destruct (Role_valid role); [|done]. injection H as <-.
  split; cbn; auto; done.
Qed.

(** ** The properties *)

(** The state changes the lifecycle allows, apart from staying and closing. *)
Definition lifecycle_edge (s s' : SessionState) : bool :=
  match s, s' with
  | StateClosed, StateOpen | StateOpen, StateOutbound | StateOutbound, StateOpen => true
  | _, StateClosed => true
  | _, _ => (is_open s && is_bound s') || (is_bound s && bool_decide (s' = StateUnbound)) ||
            (bool_decide (s = StateUnbound) && is_bound s') || bool_decide (s = s')
  end.

Lemma lifecycle_same s : lifecycle_edge s s = true.
Proof. by destruct s. Qed.
Lemma lifecycle_bind s s' : is_open s = true -> is_bound s' = true -> lifecycle_edge s s' = true.
Proof. by destruct s, s'. Qed.
Lemma lifecycle_restore s : is_bound s = true -> lifecycle_edge StateUnbound s = true.
Proof. by destruct s. Qed.

(** How [m'] may come from [m] by [op]. *)
Definition legal (role : Role) (m : StateMachine) (op : sm_op) (m' : StateMachine) : Prop :=
  lifecycle_edge (sm_state m) (sm_state m') = true /\
  (is_bound (sm_state m') = true -> is_bound (sm_state m) = false ->
   (sm_state m = StateUnbound /\
    (sm_state m' = localUnbindFrom m \/ sm_state m' = peerUnbindFrom m)) \/
   (exists c st, OK st = true /\ sm_state m' = boundStateForBind c /\ isBindRequest c = true /\
      ((op = OpCompleteOutbound c st /\ pendingLocalBind m = c /\ role = RoleESME) \/
       (op = OpCompleteInbound c st /\ pendingPeerBind m = c /\ role = RoleSMSC)))).

Lemma legal_same role m op m' : sm_state m' = sm_state m -> legal role m op m'.
Proof. intros H. split; rewrite H; [apply lifecycle_same|congruence]. Qed.
Lemma legal_unbound role m op m' :
  is_bound (sm_state m') = false -> lifecycle_edge (sm_state m) (sm_state m') = true ->
  legal role m op m'.
Proof. intros Hb He. split; [done|congruence]. Qed.
Lemma legal_restore role m op m' :
  sm_state m = StateUnbound -> is_bound (sm_state m') = true ->
  sm_state m' = localUnbindFrom m \/ sm_state m' = peerUnbindFrom m -> legal role m op m'.
Proof. intros Hs Hb Hf. split; [rewrite Hs; by apply lifecycle_restore|]. by left. Qed.

Lemma legal_local role m op c ok m' :
  sm_inv role m -> local_end m ok c m' ->
  (ok = true -> exists st, OK st = true /\ op = OpCompleteOutbound c st) -> legal role m op m'.
Proof.
  intros [Hr HL HP HLF HPF HU] HE Hop.
  destruct HE as [|? Hb Hc|Hok Hb Hc| -> Hs Hf | -> Hs Hf |? -> Hs | -> Hs];
    try by apply legal_same.
  - assert (Hnz := isBindRequest_nonzero c Hb). pose proof (bound_for_bind c Hb).
    destruct HL as [?|(-> & _ & Ho)]; [congruence|]. destruct (Hop Hok) as (st & Hst & ->).
    split; [by apply lifecycle_bind|]. intros _ _. right. exists c, st. auto 10.
  - destruct (from_inv_bound _ HLF Hf) as [Hbd _]. apply legal_restore; [done..|]. by left.
  - apply legal_unbound; [done|]. by rewrite Hs.
  - apply legal_unbound; [done|]. by rewrite Hs.
Qed.

Lemma legal_peer role m op c ok m' :
  sm_inv role m -> peer_end m ok c m' ->
  (ok = true -> exists st, OK st = true /\ op = OpCompleteInbound c st) -> legal role m op m'.
Proof.
  intros [Hr HL HP HLF HPF HU] HE Hop.
  destruct HE as [|? Hb Hc|Hok Hb Hc| -> Hs Hf | -> Hs Hf |? -> Hs];
    try by apply legal_same.
  - assert (Hnz := isBindRequest_nonzero c Hb). pose proof (bound_for_bind c Hb).
    destruct HP as [?|(-> & _ & Ho)]; [congruence|]. destruct (Hop Hok) as (st & Hst & ->).
    split; [by apply lifecycle_bind|]. intros _ _. right. exists c, st. auto 10.
  - destruct (from_inv_bound _ HPF Hf) as [Hbd _]. apply legal_restore; [done..|]. by right.
  - apply legal_unbound; [done|]. by rewrite Hs.
Qed.

(** Beginning an operation changes the state to Unbound or Outbound at most. *)
Lemma legal_begin role m op c r (m' : StateMachine) :
  CanIssue (sm_state m) r c = true ->
  sm_state m' = sm_state m \/ (c = CommandUnbind /\ sm_state m' = StateUnbound) \/
    (c = CommandOutbind /\ sm_state m' = StateOutbound) ->
  legal role m op m'.
Proof.
  intros Hc [Hs|[[-> Hs]|[-> Hs]]]; [by apply legal_same| |].
  - apply CanIssue_unbind in Hc. apply legal_unbound; rewrite Hs; [done|]. by destruct (sm_state m).
  - apply CanIssue_outbind in Hc as [_ Ho]. apply legal_unbound; rewrite Hs; [done|]. by rewrite Ho.
Qed.

Lemma sm_step_legal role m op : sm_inv role m -> legal role m op (sm_step m op).
Proof.
  intros Hm. pose proof Hm as [Hr _ _ _ _ _].
  destruct op as [| | |c|c|c st|c|c|c st]; cbn [sm_step].
  - unfold sm_Open. destruct (bool_decide_reflect (sm_state m = StateClosed)) as [Hs|];
      [|by apply legal_same]. apply legal_unbound; cbn; [done|by rewrite Hs].
  - unfold MarkOutbound. destruct (bool_decide_reflect (sm_state m = StateOpen)) as [Hs|];
      [|by apply legal_same]. apply legal_unbound; cbn; [done|by rewrite Hs].
  - apply legal_unbound; cbn; [done|by destruct (sm_state m)].
  - destruct (BeginOutbound (Some m) c) eqn:HB; cbn [or_same]; [|by apply legal_same..].
    apply BeginOutbound_ok in HB as [Hc HB]. eapply legal_begin; [exact Hc|].
    destruct HB as [(_ & _ & ->)|[(-> & ->)|[(-> & ->)|(_ & _ & _ & ->)]]]; auto.
  - by eapply legal_local; [|apply CancelOutbound_end|].
  - eapply legal_local; [done|apply CompleteOutbound_end|]. eauto.
  - destruct (BeginInbound (Some m) c) eqn:HB; cbn [or_same]; [|by apply legal_same..].
    apply BeginInbound_ok in HB as [Hc HB]. eapply legal_begin; [exact Hc|].
    destruct HB as [(_ & _ & ->)|[(-> & ->)|[(-> & ->)|(_ & _ & _ & ->)]]]; auto.
  - by eapply legal_peer; [|apply CancelInbound_end|].
  - eapply legal_peer; [done|apply CompleteInbound_end|]. eauto.
Qed.

Lemma local_end_closed m ok c m' : local_end m ok c m' -> sm_state m = StateClosed ->
  is_open (sm_state m') = false.
Proof.
  intros HE Hs. destruct HE as [| |_ Hb _| | | |]; cbn; rewrite ?Hs; try done; try congruence.
  by apply bound_not_open, bound_for_bind.
Qed.
Lemma peer_end_closed m ok c m' : peer_end m ok c m' -> sm_state m = StateClosed ->
  is_open (sm_state m') = false.
Proof.
  intros HE Hs. destruct HE as [| |_ Hb _| | |]; cbn; rewrite ?Hs; try done; try congruence.
  by apply bound_not_open, bound_for_bind.
Qed.

(** Only [Open] opens a closed machine. *)
Lemma closed_stays role m op : sm_inv role m -> op <> OpOpen -> sm_state m = StateClosed ->
  is_open (sm_state (sm_step m op)) = false.
Proof.
  intros [Hr HL HP HLF HPF HU] Hop Hs. destruct op as [| | |c|c|c st|c|c|c st]; cbn [sm_step].
  - done.
  - unfold MarkOutbound. rewrite Hs, bool_decide_eq_false_2 by done. cbn. by rewrite Hs.
  - done.
  - destruct (BeginOutbound (Some m) c) eqn:HB; cbn [or_same]; rewrite ?Hs; [|done..].
    apply BeginOutbound_ok in HB as [Hc [(Hb & _ & ->)|[(-> & ->)|[(-> & ->)|(_ & _ & _ & ->)]]]]; cbn; rewrite ?Hs; try done.
    apply CanIssue_outbind in Hc. rewrite Hs in Hc. by destruct Hc.
  - by eapply local_end_closed; [apply CancelOutbound_end|].
  - by eapply local_end_closed; [apply CompleteOutbound_end|].
  - destruct (BeginInbound (Some m) c) eqn:HB; cbn [or_same]; rewrite ?Hs; [|done..].
    apply BeginInbound_ok in HB as [Hc [(Hb & _ & ->)|[(-> & ->)|[(-> & ->)|(_ & _ & _ & ->)]]]]; cbn; rewrite ?Hs; try done.
    apply CanIssue_outbind in Hc. rewrite Hs in Hc. by destruct Hc.
  - by eapply peer_end_closed; [apply CancelInbound_end|].
  - by eapply peer_end_closed; [apply CompleteInbound_end|].
Qed.

(** A machine that is open was open before. *)
Lemma open_before role m op : sm_inv role m -> op <> OpOpen ->
  is_open (sm_state (sm_step m op)) = true -> is_open (sm_state m) = true.
Proof.
  intros Hm Hop Ho. destruct (sm_step_legal role m op Hm) as [He _].
  destruct (sm_state m) eqn:Hs; try done.
  - by rewrite (closed_stays role m op Hm Hop Hs) in Ho.
  - by destruct (sm_state (sm_step m op)).
  - by destruct (sm_state (sm_step m op)).
  - by destruct (sm_state (sm_step m op)).
  - by destruct (sm_state (sm_step m op)).
Qed.

(** C23: The session lifecycle.  From every state the machine can reach, whatever
    operation comes next, the state follows the SMPP lifecycle: it opens from
    Closed, is bound only from Open or Outbound, leaves a bound state only for
    Unbound or Closed, and returns from Unbound only to a bound state or Closed.
    A session becomes bound only when the bind that is pending on the binding
    side, ESME for a local and SMSC for a peer bind, completes with status zero,
    or when an unbind is undone. *)
Theorem sm_lifecycle role m op : reachable role m -> legal role m op (sm_step m op).
Proof. intros Hm%reachable_inv. by apply sm_step_legal. Qed.

Definition sample_machine : StateMachine :=
  sm_step (sm_step (MkStateMachine RoleESME StateClosed 0 0 StateClosed StateClosed) OpOpen)
    (OpBeginOutbound CommandBindTransceiver).

Lemma sample_machine_reachable : reachable RoleESME sample_machine.
Proof. unfold sample_machine. do 2 apply reach_step. by apply reach_new. Qed.

Lemma sm_lifecycle_witness :
  sm_state (sm_step sample_machine (OpCompleteOutbound CommandBindTransceiver 0)) = StateBoundTRX /\
  legal RoleESME sample_machine (OpCompleteOutbound CommandBindTransceiver 0)
    (sm_step sample_machine (OpCompleteOutbound CommandBindTransceiver 0)).
Proof.
  split; [reflexivity|].
  apply (sm_lifecycle RoleESME sample_machine). apply sample_machine_reachable.
Defined.

(** A failed request is undone.  If [BeginOutbound] reserved an operation and
    [CancelOutbound] gives it up at once, the state and both pending binds are
    what they were; likewise for [BeginInbound] and [CancelInbound], except for
    an outbind, which has no response that could fail. *)
Theorem cancel_rolls_back m c :
  (forall m', BeginOutbound (Some m) c = Ok m' ->
     let m'' := CancelOutbound m' c in
     sm_state m'' = sm_state m /\ pendingLocalBind m'' = pendingLocalBind m /\
     pendingPeerBind m'' = pendingPeerBind m) /\
  (forall m', BeginInbound (Some m) c = Ok m' -> c <> CommandOutbind ->
     let m'' := CancelInbound m' c in
     sm_state m'' = sm_state m /\ pendingLocalBind m'' = pendingLocalBind m /\
     pendingPeerBind m'' = pendingPeerBind m).
Proof.
  split.
  - intros m' HB. cbn zeta.
    apply BeginOutbound_ok in HB as [Hc [(Hb & H0 & ->)|[(-> & ->)|[(-> & ->)|(Hb & Hu & Ho & ->)]]]];
      unfold CancelOutbound.
    + rewrite Hb. destruct (bind_not_unbind c Hb) as [-> ->]. cbn. by rewrite Z.eqb_refl.
    + apply CanIssue_unbind in Hc. cbn. rewrite bool_decide_eq_true_2 by done.
      by rewrite bool_decide_eq_false_2 by (intros Heq; by rewrite Heq in Hc).
    + apply CanIssue_outbind in Hc as [_ Hs]. cbn. by rewrite Hs.
    + rewrite Hb. destruct (Z.eqb_spec c CommandUnbind), (Z.eqb_spec c CommandOutbind); done.
  - intros m' HB Hno. cbn zeta.
    apply BeginInbound_ok in HB as [Hc [(Hb & H0 & ->)|[(-> & ->)|[(-> & ->)|(Hb & Hu & Ho & ->)]]]];
      unfold CancelInbound; [| |done|].
    + rewrite Hb. destruct (bind_not_unbind c Hb) as [-> _]. cbn. by rewrite Z.eqb_refl.
    + apply CanIssue_unbind in Hc. cbn. rewrite bool_decide_eq_true_2 by done.
      by rewrite bool_decide_eq_false_2 by (intros Heq; by rewrite Heq in Hc).
    + rewrite Hb. destruct (Z.eqb_spec c CommandUnbind); done.
Qed.

Lemma cancel_rolls_back_witness :
  sm_state (CancelOutbound (sm_step (sm_step sample_machine
    (OpCompleteOutbound CommandBindTransceiver 0)) (OpBeginOutbound CommandUnbind))
    CommandUnbind) = StateBoundTRX.
Proof.
  destruct (cancel_rolls_back (sm_step sample_machine
    (OpCompleteOutbound CommandBindTransceiver 0)) CommandUnbind) as [H _].
  apply (H (sm_step (sm_step sample_machine
    (OpCompleteOutbound CommandBindTransceiver 0)) (OpBeginOutbound CommandUnbind))).
  reflexivity.
Defined.

(** A request that may be issued can be answered: in the state in which it was
    issued (for unbind, in Unbound as well) the peer may issue its response.
    outbind and alert_notification have no response. *)
Definition answered (c : Z) : bool :=
  negb (IsResponse c) && negb (c =? CommandOutbind) && negb (c =? CommandAlertNotification).

Definition all_states : list SessionState :=
  [StateClosed; StateOpen; StateOutbound; StateBoundTX; StateBoundRX; StateBoundTRX; StateUnbound].

Lemma all_states_complete s : In s all_states.
Proof. destruct s; cbn; tauto. Qed.

(** A command the matrix lets through is in it. *)
Lemma CanIssue_standard s r c :
  CanIssue s r c = true -> c = CommandGenericNACK \/ In c (map fst standardRules).
Proof.
  unfold CanIssue, standardRule. destruct (_ || _); [done|].
  destruct (Z.eqb_spec c CommandGenericNACK); [by left|]. intros H. right.
  destruct (List.find _ _) as [[c' rule]|] eqn:Hf; [|done].
  apply find_some in Hf as [Hin Heq]. cbn in Heq. apply Z.eqb_eq in Heq as <-.
  by apply (in_map fst) in Hin.
Qed.

(** Requests can be answered.  Whenever the matrix lets a role issue a request
    that has a response, it lets the peer issue that response in the same state;
    and it always lets an unbind_resp out of the Unbound state an unbind leads to. *)
Theorem CanIssue_response s r c :
  CanIssue s r c = true -> answered c = true ->
  CanIssue s (peer r) (ResponseID c) = true /\
  (c = CommandUnbind -> CanIssue StateUnbound (peer r) (ResponseID c) = true).
Proof.
  intros Hc Ha.
  assert (Hall : forallb (fun c => forallb (fun s => forallb (fun r =>
    negb (CanIssue s r c && answered c) ||
    (CanIssue s (peer r) (ResponseID c) &&
     (negb (c =? CommandUnbind) || CanIssue StateUnbound (peer r) (ResponseID c))))
    [RoleNone; RoleESME; RoleSMSC]) all_states)
    (CommandGenericNACK :: map fst standardRules) = true) by (vm_compute; reflexivity).
  rewrite forallb_forall in Hall.
  assert (Hin : In c (CommandGenericNACK :: map fst standardRules))
    by (destruct (CanIssue_standard s r c Hc) as [-> |]; [by left|by right]).
  specialize (Hall c Hin). rewrite forallb_forall in Hall.
  specialize (Hall s (all_states_complete s)). rewrite forallb_forall in Hall.
  specialize (Hall r ltac:(destruct r; cbn; tauto)). rewrite Hc, Ha in Hall. cbn [andb negb orb] in Hall.
  apply andb_true_iff in Hall as [H1 H2]. split; [done|]. intros ->. done.
Qed.

Lemma CanIssue_response_witness :
  CanIssue StateBoundTX RoleSMSC CommandSubmitSMResp = true /\
  (CommandSubmitSM = CommandUnbind -> CanIssue StateUnbound RoleSMSC CommandSubmitSMResp = true).
Proof. apply (CanIssue_response StateBoundTX RoleESME CommandSubmitSM); reflexivity. Defined.

(** The matrix covers the protocol.  The commands the state machine knows are
    exactly the commands that have a body format in the codec's SMPP 5.0 tables. *)
Theorem standard_commands_agree c :
  IsStandardCommand c = true <-> is_Some (command_spec c).
Proof.
  assert (H1 : forallb (fun c => bool_decide (is_Some (command_spec c)))
    (CommandGenericNACK :: map fst standardRules) = true) by (vm_compute; reflexivity).
  assert (H2 : forallb IsStandardCommand (map fst command_specs) = true)
    by (vm_compute; reflexivity).
  rewrite forallb_forall in H1, H2. split.
  - intros Hc. apply (bool_decide_unpack _), Is_true_eq_left, H1. unfold IsStandardCommand, standardRule in Hc.
    destruct (Z.eqb_spec c CommandGenericNACK) as [-> |]; [by left|right].
    destruct (List.find _ _) as [[c' rule]|] eqn:Hf; [|done].
    apply find_some in Hf as [Hin Heq]. cbn in Heq. apply Z.eqb_eq in Heq as <-.
    by apply (in_map fst) in Hin.
  - intros [S HS]. apply H2. unfold command_spec in HS.
    destruct (List.find _ _) as [[c' spec]|] eqn:Hf; [|done].
    apply find_some in Hf as [Hin Heq]. cbn in Heq. apply Z.eqb_eq in Heq as <-.
    by apply (in_map fst) in Hin.
Qed.

(** ** Two machines *)

(** A whole exchange: the sender reserves and sends a request, the receiver
    validates it, answers with [status], and both apply the answer.  [true] is an
    exchange the ESME starts. *)
Definition exchange (p : StateMachine * StateMachine) (x : bool * Z * Z)
    : StateMachine * StateMachine :=
  let '(esme, smsc) := p in
  let '(from_esme, c, status) := x in
  let a := if from_esme then esme else smsc in
  let b := if from_esme then smsc else esme in
  let (a', b') :=
    match BeginOutbound (Some a) c with
    | Ok a1 =>
        match BeginInbound (Some b) c with
        | Ok b1 => (CompleteOutbound a1 c status, CompleteInbound b1 c status)
        | _ => (CancelOutbound a1 c, b)
        end
    | _ => (a, b)
    end in
  if from_esme then (a', b') else (b', a').

Definition idle (m : StateMachine) : Prop := pendingLocalBind m = 0 /\ pendingPeerBind m = 0.
Definition in_sync (a b : StateMachine) : Prop :=
  sm_state a = sm_state b /\ sm_role b = peer (sm_role a) /\ idle a /\ idle b.

(** What the sender of a request may issue its peer accepts. *)
Lemma in_sync_accepts a b c a1 :
  in_sync a b -> BeginOutbound (Some a) c = Ok a1 -> exists b1, BeginInbound (Some b) c = Ok b1.
Proof.
  intros (Hs & Hr & _ & [_ Hpb]) HB. apply BeginOutbound_ok in HB as [Hc _].
  unfold BeginInbound. rewrite <- Hs, Hr, peer_peer, Hc, Hpb. cbn [negb].
  rewrite andb_false_r. eauto.
Qed.

Lemma in_sync_exchange a b c status a1 b1 :
  in_sync a b -> BeginOutbound (Some a) c = Ok a1 -> BeginInbound (Some b) c = Ok b1 ->
  in_sync (CompleteOutbound a1 c status) (CompleteInbound b1 c status).
Proof.
  intros (Hs & Hr & [Ha1 Ha2] & [Hb1 Hb2]) HA HB.
  apply BeginOutbound_ok in HA as [Hc HA]. apply BeginInbound_ok in HB as [_ HB].
  unfold in_sync, idle, CompleteOutbound, CompleteInbound.
  destruct HA as [(Hb & _ & ->)|[(-> & ->)|[(-> & ->)|(Hb & Hu & Ho & ->)]]].
  - rewrite Hb in *. destruct (bind_not_unbind c Hb) as [Hu Ho].
    destruct HB as [(_ & _ & ->)|[(-> & _)|[(-> & _)|(? & _)]]]; [|done..].
    cbn. rewrite !Z.eqb_refl. cbn. by destruct (OK status).
  - destruct HB as [(? & _)|[(_ & ->)|[(? & _)|(_ & ? & _)]]]; [done| |done|done].
    apply CanIssue_unbind in Hc. cbn. rewrite !bool_decide_eq_true_2 by done.
    destruct (OK status); cbn; [done|].
    assert (Hne : sm_state a <> StateClosed) by (intros Heq; by rewrite Heq in Hc).
    rewrite !bool_decide_eq_false_2; [done|by rewrite <- Hs|done].
  - destruct HB as [(? & _)|[(? & _)|[(_ & ->)|(_ & _ & ? & _)]]]; [done|done| |done]. done.
  - destruct HB as [(? & _)|[(? & _)|[(? & _)|(_ & _ & _ & ->)]]]; [congruence|done|done|].
    rewrite Hb. destruct (Z.eqb_spec c CommandUnbind); [done|]. done.
Qed.

Lemma in_sync_sym a b : in_sync a b -> in_sync b a.
Proof. intros (Hs & Hr & Ha & Hb). split_and!; [done| |done|done]. by rewrite Hr, peer_peer. Qed.

Lemma exchange_in_sync p x :
  in_sync (fst p) (snd p) -> in_sync (fst (exchange p x)) (snd (exchange p x)).
Proof.
  destruct p as [esme smsc], x as [[from c] status]. cbn [fst snd exchange]. intros Hsync.
  assert (Hstep : forall a b, in_sync a b ->
    let r := match BeginOutbound (Some a) c with
             | Ok a1 => match BeginInbound (Some b) c with
                        | Ok b1 => (CompleteOutbound a1 c status, CompleteInbound b1 c status)
                        | _ => (CancelOutbound a1 c, b)
                        end
             | _ => (a, b)
             end in in_sync (fst r) (snd r)).
  { intros a b Hab. destruct (BeginOutbound (Some a) c) as [a1|e|] eqn:HA; [|done|done].
    destruct (in_sync_accepts a b c a1 Hab HA) as [b1 HB]. rewrite HB.
    by eapply in_sync_exchange. }
  destruct from.
  - generalize (Hstep esme smsc Hsync). cbn zeta.
    by destruct (match BeginOutbound _ _ with Ok _ => _ | _ => _ end).
  - generalize (Hstep smsc esme (in_sync_sym _ _ Hsync)). cbn zeta.
    destruct (match BeginOutbound _ _ with Ok _ => _ | _ => _ end). apply in_sync_sym.
Qed.

Lemma idle_begins m c : idle m ->
  is_ok (BeginOutbound (Some m) c) = CanIssue (sm_state m) (sm_role m) c /\
  is_ok (BeginInbound (Some m) c) = CanIssue (sm_state m) (peer (sm_role m)) c.
Proof.
  intros [Hl Hp]. unfold BeginOutbound, BeginInbound. rewrite Hl, Hp. cbn [negb Z.eqb].
  rewrite !andb_false_r. split; by destruct (CanIssue _ _ c).
Qed.

(** Peers stay in agreement.  An ESME and an SMSC machine that are in the same
    state with nothing pending (as after both opened their session) are in the
    same state after any sequence of exchanges in either direction with any
    statuses, and then each accepts exactly the requests the other may issue. *)
Theorem peers_agree exchanges esme smsc :
  in_sync esme smsc ->
  let p := foldl exchange (esme, smsc) exchanges in
  sm_state (fst p) = sm_state (snd p) /\
  (forall c, is_ok (BeginOutbound (Some (fst p)) c) = is_ok (BeginInbound (Some (snd p)) c) /\
             is_ok (BeginOutbound (Some (snd p)) c) = is_ok (BeginInbound (Some (fst p)) c)).
Proof.
  intros Hsync. cbn zeta.
  assert (Hall : in_sync (fst (foldl exchange (esme, smsc) exchanges))
                         (snd (foldl exchange (esme, smsc) exchanges))).
  { change esme with (fst (esme, smsc)) in Hsync at 1.
    change smsc with (snd (esme, smsc)) in Hsync at 2. revert Hsync.
    generalize (esme, smsc) as p. induction exchanges as [|x xs IH]; intros p Hp; [done|].
    cbn [foldl]. apply IH. by apply exchange_in_sync. }
  destruct (foldl exchange (esme, smsc) exchanges) as [a b]. cbn [fst snd] in *.
  destruct Hall as (Hs & Hr & Ha & Hb). split; [done|]. intros c.
  destruct (idle_begins a c Ha) as [-> ->]. destruct (idle_begins b c Hb) as [-> ->].
  by rewrite Hs, Hr, peer_peer.
Qed.

Definition opened (r : Role) : StateMachine :=
  MkStateMachine r StateOpen 0 0 StateClosed StateClosed.
Definition sample_exchanges : list (bool * Z * Z) :=
  [(true, CommandBindTransceiver, 13); (true, CommandBindTransceiver, 0);
   (false, CommandDeliverSM, 0); (false, CommandUnbind, 8); (true, CommandUnbind, 0)].

Lemma peers_agree_witness :
  let p := foldl exchange (opened RoleESME, opened RoleSMSC) sample_exchanges in
  sm_state (fst p) = sm_state (snd p) /\
  (forall c, is_ok (BeginOutbound (Some (fst p)) c) = is_ok (BeginInbound (Some (snd p)) c) /\
             is_ok (BeginOutbound (Some (snd p)) c) = is_ok (BeginInbound (Some (fst p)) c)).
Proof. apply (peers_agree sample_exchanges (opened RoleESME) (opened RoleSMSC)). done. Defined.
