(* ===== verification/Pending.v ===== *)
(** * Sequence numbers, the request window and pending requests (src/session:
    sequence.go, window.go, pending.go)

    The three tables behind a session's outbound requests.  They are shared by
    goroutines: the sequence generator is a compare-and-swap loop, modelled with
    its interleavings; the window is a channel with atomic counters; the pending
    table is guarded by a mutex, and a request that left it belongs to the one
    goroutine that took it. *)

From S2P Require Import Prelude Protocol Bodies Fields Pdu.

(** ** sequence.go *)

Module Sequence.

(** The value [Next] tries to install over [current]: [current + 1] wraps at
    32 bits. *)
Definition next (current : Z) : Z :=
  let n := u32 (current + 1) in
  if (SequenceOutboundMax <=? current) || (n =? 0) then SequenceMin else n.

(** A goroutine in [Next] is about to load, or holds what it loaded. *)
Inductive thread := Start | Loaded (current : Z).

(** [value] is the atomic; [issued] the results of [Next] so far, oldest first. *)
Record generator := MkGenerator { value : Z; threads : list thread; issued : list Z }.

Inductive seq_step : generator -> generator -> Prop :=
| step_load g i :
    threads g !! i = Some Start ->
    seq_step g (MkGenerator (value g) (<[i := Loaded (value g)]> (threads g)) (issued g))
| step_swap g i current :
    threads g !! i = Some (Loaded current) -> value g = current ->
    seq_step g (MkGenerator (next current) (<[i := Start]> (threads g))
              (issued g ++ [next current]))
| step_retry g i current :
    threads g !! i = Some (Loaded current) -> value g <> current ->
    seq_step g (MkGenerator (value g) (<[i := Start]> (threads g)) (issued g)).

(** One call of [Next] that is not interfered with. *)
Definition Next (v : Z) : Z * Z := (next v, next v).

(** [n] goroutines share a zero-valued generator. *)
Definition init (n : nat) : generator := MkGenerator 0 (replicate n Start) [].
Definition run (n : nat) (g : generator) : Prop := rtc seq_step (init n) g.

(** The [k]-th sequence number, counting from zero. *)
Definition nth_sequence (k : Z) : Z := k mod SequenceOutboundMax + 1.

Lemma next_nth k : 0 <= k -> next (nth_sequence k) = nth_sequence (k + 1).
Proof.
  intros Hk. unfold next, nth_sequence, SequenceOutboundMax, SequenceMin, u32.
  pose proof (Z.mod_pos_bound k 2147483647 ltac:(lia)) as Hb.
  destruct (Z.leb_spec 2147483647 (k mod 2147483647 + 1)); cbn [orb].
  - rewrite Z.add_mod by lia. replace (k mod 2147483647) with 2147483646 by lia. reflexivity.
  - rewrite (Z.mod_small (k mod 2147483647 + 1 + 1)) by lia.
    destruct (Z.eqb_spec (k mod 2147483647 + 1 + 1) 0); [lia|].
    rewrite (Z.add_mod k 1) by lia. rewrite (Z.mod_small 1) by lia.
    rewrite (Z.mod_small (k mod 2147483647 + 1)) by lia. lia.
Qed.

Lemma next_zero : next 0 = nth_sequence 0.
Proof. reflexivity. Qed.

(** The atomic holds the last number issued, and the numbers issued are the
    sequence itself. *)
Definition seq_inv (g : generator) : Prop :=
  issued g = map nth_sequence (seqZ 0 (zlen (issued g))) /\
  value g = match issued g with [] => 0 | _ => nth_sequence (zlen (issued g) - 1) end.

Lemma seq_step_inv g g' : seq_step g g' -> seq_inv g -> seq_inv g'.
Proof.
  intros Hs [Hi Hv]. destruct Hs as [g i Ht|g i c Ht Hc|g i c Ht Hc]; [done| |done].
  unfold seq_inv; cbn [issued value].
  assert (Hn : next c = nth_sequence (zlen (issued g))).
  { rewrite <- Hc, Hv. destruct (issued g) as [|x l] eqn:Hl; [apply next_zero|].
    rewrite next_nth by (cbn; lia). f_equal. lia. }
  rewrite length_app, Nat2Z.inj_add. cbn [length]. split.
  - rewrite seqZ_app by lia. rewrite map_app, <- Hi. f_equal. cbn. rewrite Z.add_0_l. by rewrite Hn.
  - destruct (issued g ++ [next c]) eqn:Ha; [by destruct (issued g)|]. rewrite Hn. f_equal. lia.
Qed.

Lemma run_inv n g : run n g -> seq_inv g.
Proof.
  unfold run. intros H. assert (H0 : seq_inv (init n)) by done. revert H0.
  induction H as [|x y z Hs _ IH]; intros H0; [done|]. apply IH. by eapply seq_step_inv.
Qed.

Lemma nth_sequence_range k : 0 <= k -> 1 <= nth_sequence k <= 2147483647.
Proof.
  intros. unfold nth_sequence, SequenceOutboundMax.
  pose proof (Z.mod_pos_bound k 2147483647 ltac:(lia)). lia.
Qed.

Lemma nth_sequence_inj j k :
  0 <= j -> j < k -> k - j < SequenceOutboundMax -> nth_sequence j <> nth_sequence k.
Proof.
  unfold nth_sequence, SequenceOutboundMax. intros Hj Hk Hd Heq.
  assert (Hm : j mod 2147483647 = k mod 2147483647) by lia.
  Z.div_mod_to_equations. nia.
Qed.

(** Sequence numbers handed out to any number of goroutines, under every
    interleaving of their loads and compare-and-swaps, are valid outbound
    numbers, and two of them are equal only when 2^31 - 1 numbers were issued
    in between. *)
Theorem sequence_numbers_unique n g i j s :
  run n g -> issued g !! i = Some s ->
  ValidOutbound s = true /\
  (issued g !! j = Some s -> i <> j -> SequenceOutboundMax <= Z.abs (Z.of_nat i - Z.of_nat j)).
Proof.
  intros [Hi _]%run_inv Hs.
  assert (Hnth : forall k x, issued g !! k = Some x -> x = nth_sequence (Z.of_nat k)).
  { intros k x Hk. rewrite Hi in Hk. apply list_lookup_fmap_Some in Hk as (y & -> & Hy).
    apply lookup_seqZ in Hy as [-> _]. done. }
  split.
  - rewrite (Hnth _ _ Hs). pose proof (nth_sequence_range (Z.of_nat i) ltac:(lia)).
    unfold ValidOutbound, SequenceMin, SequenceOutboundMax. lia.
  - intros Hj Hne. pose proof (Hnth _ _ Hs) as H1. rewrite (Hnth _ _ Hj) in H1.
    destruct (Z.le_gt_cases SequenceOutboundMax (Z.abs (Z.of_nat i - Z.of_nat j))); [done|].
    exfalso. destruct (Nat.lt_total i j) as [?|[?|?]]; [|done|].
    + symmetry in H1. revert H1. apply nth_sequence_inj; lia.
    + revert H1. apply nth_sequence_inj; lia.
Qed.

(** Two goroutines race; the loser retries. *)
Lemma sample_race : exists g, run 2 g /\ issued g = [1; 2].
Proof.
  eexists. split.
  - eapply rtc_l; [by apply (step_load _ 0)|]. eapply rtc_l; [by apply (step_load _ 1)|].
    eapply rtc_l; [by eapply (step_swap _ 1)|]. eapply rtc_l; [by eapply (step_retry _ 0)|].
    eapply rtc_l; [by apply (step_load _ 0)|]. eapply rtc_l; [by eapply (step_swap _ 0)|].
    apply rtc_refl.
  - reflexivity.
Qed.

Lemma sequence_numbers_unique_witness : exists g, run 2 g /\ issued g !! 1%nat = Some 2 /\
  ValidOutbound 2 = true.
Proof.
  destruct sample_race as (g & Hg & Hi). exists g.
  assert (H : issued g !! 1%nat = Some 2) by by rewrite Hi.
  split_and!; [done..|]. by apply (sequence_numbers_unique 2 g 1 0 2).
Defined.
End Sequence.

(** ** window.go *)

Module Window.

(** [tokens] is the number of elements in the channel.  The observer and the
    underflow callback only read, and their panics are recovered, so they are
    not part of the state; Callbacks.v has the calls.  [acquire] and [release] run in one
    go here; Slots.v lets them be interrupted between their atomic operations. *)
Record requestWindow := MkWindow {
  tokens : Z;
  capacity : Z;
  inUse : Z;
  high : Z;
  acquired : Z;
  waits : Z;
  underflows : Z
}.

Record WindowSnapshot := MkWindowSnapshot {
  Capacity : Z; InUse : Z; HighWater : Z; Acquired : Z; Waits : Z; Underflows : Z
}.

Definition newRequestWindow (size : Z) : requestWindow :=
  MkWindow 0 (u32 size) 0 0 0 0 0.

(** After a token was sent: [inUse] and [high] are 32 bits, [acquired] 64. *)
Definition afterAcquire (w : requestWindow) : requestWindow :=
  let n := u32 (inUse w + 1) in
  MkWindow (tokens w) (capacity w) n (if n <=? high w then high w else n)
    (u64 (acquired w + 1)) (waits w) (underflows w).

Definition send_token (w : requestWindow) : requestWindow :=
  MkWindow (tokens w + 1) (capacity w) (inUse w) (high w) (acquired w) (waits w) (underflows w).
Definition add_wait (w : requestWindow) : requestWindow :=
  MkWindow (tokens w) (capacity w) (inUse w) (high w) (acquired w) (u64 (waits w + 1))
    (underflows w).

(** How the blocking [select] of [acquire] ends: a slot came free (the window it
    is then taken from), the context ended with an error, or the session
    closed. *)
Inductive wake :=
| WakeSlot (w : requestWindow)
| WakeContext (w : requestWindow) (e : GoError)
| WakeClosed (w : requestWindow).

Definition acquire (w : requestWindow) (wait : bool) (woken : requestWindow -> wake)
    : requestWindow * option GoError :=
  if tokens w <? capacity w then (afterAcquire (send_token w), None)
  else if negb wait then (w, Some (ESentinel ErrWindowFull))
  else match woken (add_wait w) with
       | WakeSlot w => (afterAcquire (send_token w), None)
       | WakeContext w e => (w, Some e)
       | WakeClosed w => (w, Some (ESentinel ErrSessionClosed))
       end.

Definition release (w : requestWindow) : requestWindow * bool :=
  if 0 <? tokens w
  then (MkWindow (tokens w - 1) (capacity w) (u32 (inUse w + (2 ^ 32 - 1))) (high w) (acquired w)
          (waits w) (underflows w), true)
  else (MkWindow (tokens w) (capacity w) (inUse w) (high w) (acquired w) (waits w)
          (u64 (underflows w + 1)), false).

Definition snapshot (w : requestWindow) : WindowSnapshot :=
  MkWindowSnapshot (capacity w) (inUse w) (high w) (acquired w) (waits w) (underflows w).

(** The counters agree with the channel, and nothing was released twice. *)
Definition window_inv (w : requestWindow) : Prop :=
  0 <= tokens w <= capacity w /\ capacity w < 4294967296 /\ inUse w = tokens w /\
  inUse w <= high w <= capacity w /\ underflows w = 0.

Lemma newRequestWindow_inv size : 0 <= size < 4294967296 -> window_inv (newRequestWindow size).
Proof. intros. unfold window_inv, newRequestWindow; cbn. rewrite u32_small by lia. lia. Qed.

Lemma afterAcquire_inv w :
  window_inv w -> tokens w < capacity w -> window_inv (afterAcquire (send_token w)).
Proof.
  intros (Ht & Hc & Hi & Hh & Hu) Hlt. unfold window_inv, afterAcquire, send_token; cbn.
  rewrite u32_small by lia. destruct (Z.leb_spec (inUse w + 1) (high w)); lia.
Qed.

Lemma release_inv w : window_inv w -> 0 < tokens w -> window_inv (fst (release w)) /\ snd (release w) = true /\
  tokens (fst (release w)) = tokens w - 1 /\ capacity (fst (release w)) = capacity w.
Proof.
  intros (Ht & Hc & Hi & Hh & Hu) Hlt. unfold release.
  destruct (Z.ltb_spec 0 (tokens w)); [|lia]. unfold window_inv; cbn [fst snd tokens capacity inUse high
    underflows].
  assert (u32 (inUse w + (2 ^ 32 - 1)) = inUse w - 1) as ->.
  { unfold u32. replace (inUse w + (2 ^ 32 - 1)) with (inUse w - 1 + 1 * 2 ^ 32) by lia.
    rewrite Z.mod_add, Z.mod_small by lia. lia. }
  lia.
Qed.
End Window.

(** ** pending.go *)

Module Table.
Import Window.

Record requestResult := MkResult { rr_pdu : option DecodedPDU; rr_err : option GoError }.

(** [releaseWindow] and the attached deadline are [None]/[false] when nil; [done]
    lists the results sent on the channel, which has room for one. *)
Record pendingRequest := MkPending {
  requestID : Z;
  bindVersion : Z;
  expectedID : Z;
  pdone : list requestResult;
  dispatched : bool;
  dispatchedAt : Z;
  responseAt : Z;
  responseCommand : Z;
  responseStatus : Z;
  rttRecorded : bool;
  releaseWindow : bool;
  deadline : option Z;
  finished : bool
}.

(** Requests are heap objects shared by pointer; [reqs] is that heap, [m] the
    table, [cancelled] the deadline items handed to [deadlineManager.cancel]. *)
Record pendingTable := MkTable {
  max : Z;
  m : gmap Z positive;
  reqs : gmap positive pendingRequest;
  window : requestWindow;
  cancelled : list Z
}.

Definition newPendingTable (max : Z) (w : requestWindow) : pendingTable :=
  MkTable max ∅ ∅ w [].

Definition set_m (t : pendingTable) (m' : gmap Z positive) : pendingTable :=
  MkTable (max t) m' (reqs t) (window t) (cancelled t).
Definition set_req (t : pendingTable) (p : positive) (r : pendingRequest) : pendingTable :=
  MkTable (max t) (m t) (<[p := r]> (reqs t)) (window t) (cancelled t).

Definition insert (t : pendingTable) (sequence : Z) (request : positive)
    : outcome GoError pendingTable :=
  if max t <=? Z.of_nat (size (m t)) then Err (ESentinel ErrPendingLimit)
  else match m t !! sequence with
       | Some _ => Err (ESentinel ErrSequenceInUse)
       | None => Ok (set_m t (<[sequence := request]> (m t)))
       end.

Definition exists_ (t : pendingTable) (sequence : Z) : bool :=
  match m t !! sequence with Some _ => true | None => false end.

Definition set_dispatched (r : pendingRequest) : pendingRequest :=
  MkPending (requestID r) (bindVersion r) (expectedID r) (pdone r) true (dispatchedAt r)
    (responseAt r) (responseCommand r) (responseStatus r) (rttRecorded r) (releaseWindow r)
    (deadline r) (finished r).

Definition markDispatched (t : pendingTable) (sequence : Z) : pendingTable * option positive :=
  match m t !! sequence with
  | None => (t, None)
  | Some p =>
      match reqs t !! p with
      | Some r => (set_req t p (set_dispatched r), Some p)
      | None => (t, Some p)
      end
  end.

Definition set_finished (r : pendingRequest) : pendingRequest :=
  MkPending (requestID r) (bindVersion r) (expectedID r) (pdone r) (dispatched r)
    (dispatchedAt r) (responseAt r) (responseCommand r) (responseStatus r) (rttRecorded r)
    false None true.

Definition finish (t : pendingTable) (p : positive) : pendingTable :=
  match reqs t !! p with
  | None => t
  | Some r =>
      if finished r then t else
      MkTable (max t) (m t) (<[p := set_finished r]> (reqs t))
        (if releaseWindow r then fst (Window.release (window t)) else window t)
        (match deadline r with Some item => cancelled t ++ [item] | None => cancelled t end)
  end.

(** [request.done <- result]. *)
Definition send_done (t : pendingTable) (p : positive) (result : requestResult) : pendingTable :=
  match reqs t !! p with
  | None => t
  | Some r =>
      set_req t p (MkPending (requestID r) (bindVersion r) (expectedID r) (pdone r ++ [result])
        (dispatched r) (dispatchedAt r) (responseAt r) (responseCommand r) (responseStatus r)
        (rttRecorded r) (releaseWindow r) (deadline r) (finished r))
  end.

Definition takeResponse (t : pendingTable) (sequence responseID : Z)
    : pendingTable * option positive :=
  match m t !! sequence with
  | None => (t, None)
  | Some p =>
      match reqs t !! p with
      | None => (t, None)
      | Some r =>
          if negb (responseID =? expectedID r) && negb (responseID =? CommandGenericNACK)
          then (t, None)
          else (finish (set_m t (delete sequence (m t))) p, Some p)
      end
  end.

Definition completeError (t : pendingTable) (sequence : Z) (err : GoError)
    : pendingTable * option positive :=
  match m t !! sequence with
  | None => (t, None)
  | Some p =>
      (send_done (finish (set_m t (delete sequence (m t))) p) p (MkResult None (Some err)), Some p)
  end.

(** The order in which Go walks the map is unspecified: [requests] is the order
    of this run, some permutation of the table. *)
Definition failAll (t : pendingTable) (requests : list positive) (err : GoError) : pendingTable :=
  foldl (fun t p => send_done (finish t p) p (MkResult None (Some err))) (set_m t ∅) requests.

Definition table_len (t : pendingTable) : Z := Z.of_nat (size (m t)).

Definition attachDeadline (t : pendingTable) (p : positive) (item : option Z) : pendingTable :=
  match item, reqs t !! p with
  | Some item, Some r =>
      if finished r then MkTable (max t) (m t) (reqs t) (window t) (cancelled t ++ [item])
      else set_req t p (MkPending (requestID r) (bindVersion r) (expectedID r) (pdone r)
             (dispatched r) (dispatchedAt r) (responseAt r) (responseCommand r) (responseStatus r)
             (rttRecorded r) (releaseWindow r) (Some item) (finished r))
  | _, _ => t
  end.

(** *** Round-trip times *)

(** [None] is [(0, false)]. *)
Definition claimRTT (r : pendingRequest) : pendingRequest * option Z :=
  if (dispatchedAt r =? 0) || (responseAt r =? 0) || rttRecorded r then (r, None)
  else
    (MkPending (requestID r) (bindVersion r) (expectedID r) (pdone r) (dispatched r)
       (dispatchedAt r) (responseAt r) (responseCommand r) (responseStatus r) true
       (releaseWindow r) (deadline r) (finished r),
     Some (if responseAt r <=? dispatchedAt r then 0 else responseAt r - dispatchedAt r)).

Definition markDispatchAt (r : pendingRequest) (at' : Z) : pendingRequest * option Z :=
  claimRTT (MkPending (requestID r) (bindVersion r) (expectedID r) (pdone r) (dispatched r)
    at' (responseAt r) (responseCommand r) (responseStatus r) (rttRecorded r)
    (releaseWindow r) (deadline r) (finished r)).

Definition markResponseAt (r : pendingRequest) (at' command status : Z)
    : pendingRequest * option Z :=
  claimRTT (MkPending (requestID r) (bindVersion r) (expectedID r) (pdone r) (dispatched r)
    (dispatchedAt r) at' command status (rttRecorded r) (releaseWindow r) (deadline r)
    (finished r)).

Definition responseMetadata (r : pendingRequest) : Z * Z :=
  (if responseCommand r =? 0 then expectedID r else responseCommand r, responseStatus r).

(** *** The life of a request

    The goroutines that share the table: callers that acquire a slot, admit a
    request under a sequence number ([Session.request]) or give the slot back,
    the receive loop that delivers responses ([Session.handleResponse]), and
    whoever fails one request (timeout, cancellation, encoding error) or all of
    them (termination).  [owned] counts the slots held by callers that have not
    yet admitted their request; [fresh] is the next heap address; [sent] remembers
    the sequence number in the header of each admitted request. *)
Record world := MkWorld {
  tab : pendingTable; owned : Z; fresh : positive; sent : gmap positive Z
}.

Definition new_request (command version : Z) : pendingRequest :=
  MkPending command version (ResponseID command) [] false 0 0 0 0 false true None false.

Definition with_window (t : pendingTable) (w : requestWindow) : pendingTable :=
  MkTable (max t) (m t) (reqs t) w (cancelled t).

Inductive wstep : world -> world -> Prop :=
| WAcquire w : tokens (window (tab w)) < capacity (window (tab w)) ->
    wstep w (MkWorld (with_window (tab w) (afterAcquire (send_token (window (tab w)))))
               (owned w + 1) (fresh w) (sent w))
| WGiveUp w : 0 < owned w ->
    wstep w (MkWorld (with_window (tab w) (fst (Window.release (window (tab w)))))
               (owned w - 1) (fresh w) (sent w))
| WAdmit w command version sequence t' : 0 < owned w ->
    insert (set_req (tab w) (fresh w) (new_request command version)) sequence (fresh w) = Ok t' ->
    wstep w (MkWorld t' (owned w - 1) (Pos.succ (fresh w)) (<[fresh w := sequence]> (sent w)))
| WRespond w pdu t' p :
    takeResponse (tab w) (SequenceNumber (pdu_Header pdu)) (CommandID (pdu_Header pdu)) = (t', Some p) ->
    wstep w (MkWorld (send_done t' p (MkResult (Some pdu) None)) (owned w) (fresh w) (sent w))
| WFail w sequence err t' p :
    completeError (tab w) sequence err = (t', Some p) -> wstep w (MkWorld t' (owned w) (fresh w) (sent w))
| WFailAll w order err :
    order ≡ₚ (map_to_list (m (tab w))).*2 ->
    wstep w (MkWorld (failAll (tab w) order err) (owned w) (fresh w) (sent w))
| WAttach w p item : wstep w (MkWorld (attachDeadline (tab w) p item) (owned w) (fresh w) (sent w))
| WDispatched w sequence t' r :
    markDispatched (tab w) sequence = (t', r) -> wstep w (MkWorld t' (owned w) (fresh w) (sent w)).

(** A request in flight, and one that is over. *)
Definition live (r : pendingRequest) : Prop :=
  finished r = false /\ releaseWindow r = true /\ pdone r = [].
Definition settled (r : pendingRequest) : Prop :=
  finished r = true /\ releaseWindow r = false /\ deadline r = None /\ length (pdone r) = 1%nat.

(** [limbo] are the requests taken out of the table and not yet settled. *)
Record winv (limbo : list positive) (w : world) : Prop := {
  wi_window : Window.window_inv (window (tab w));
  wi_tokens : tokens (window (tab w)) = owned w + Z.of_nat (size (m (tab w))) + zlen limbo;
  wi_owned : 0 <= owned w;
  wi_max : Z.of_nat (size (m (tab w))) <= max (tab w);
  wi_limbo : forall p, p ∈ limbo -> exists r, reqs (tab w) !! p = Some r /\ live r;
  wi_live : forall s p, m (tab w) !! s = Some p -> exists r, reqs (tab w) !! p = Some r /\ live r;
  wi_inj : forall s1 s2 p, m (tab w) !! s1 = Some p -> m (tab w) !! s2 = Some p -> s1 = s2;
  wi_nodup : NoDup limbo;
  wi_disj : forall s p, m (tab w) !! s = Some p -> p ∉ limbo;
  wi_settled : forall p r, reqs (tab w) !! p = Some r -> p ∉ limbo ->
    (forall s, m (tab w) !! s <> Some p) -> settled r;
  wi_fresh : forall p r, reqs (tab w) !! p = Some r -> (p < fresh w)%positive
}.

Lemma size_remove (m' : gmap Z positive) s p : m' !! s = Some p -> size m' = S (size (delete s m')).
Proof.
  intros H. rewrite <- (insert_delete_id m' s p H) at 1.
  apply map_size_insert_None, lookup_delete_eq.
Qed.

(** Taking a request out of the table. *)
Lemma winv_remove w s p limbo :
  winv limbo w -> m (tab w) !! s = Some p ->
  winv (p :: limbo) (MkWorld (set_m (tab w) (delete s (m (tab w)))) (owned w) (fresh w) (sent w)).
Proof.
  intros [Hw Ht Ho Hm Hli Hl Hi Hn Hd Hs Hf] Hp. pose proof (size_remove _ _ _ Hp) as Hsz.
  split; cbn [tab set_m m reqs window owned fresh max length]; try done.
  - rewrite Hsz in Ht. lia.
  - rewrite Hsz in Hm. lia.
  - intros q [-> | Hq]%elem_of_cons; eauto.
  - intros s' q [_ Hq]%lookup_delete_Some. eauto.
  - intros s1 s2 q [_ H1]%lookup_delete_Some [_ H2]%lookup_delete_Some. eauto.
  - constructor; [by eapply Hd|done].
  - intros s' q [Hne Hq]%lookup_delete_Some [-> | Hin]%elem_of_cons; [|by eapply Hd].
    apply Hne. by eapply Hi.
  - intros q r Hr Hnin Hno. apply not_elem_of_cons in Hnin as [Hqp Hnin]. apply (Hs q r); [done..|].
    intros s' Hq. destruct (decide (s' = s)) as [-> |Hss]; [congruence|].
    apply (Hno s'). by rewrite lookup_delete_ne.
Qed.

(** Taking all of them out, in any order. *)
Lemma winv_remove_all w order :
  winv [] w -> order ≡ₚ (map_to_list (m (tab w))).*2 ->
  winv order (MkWorld (set_m (tab w) ∅) (owned w) (fresh w) (sent w)).
Proof.
  intros [Hw Ht Ho Hm Hli Hl Hi Hn Hd Hs Hf] Hord.
  assert (Hin : forall p, p ∈ order <-> exists s, m (tab w) !! s = Some p).
  { intros p. rewrite Hord, list_elem_of_fmap. setoid_rewrite <- elem_of_map_to_list. split.
    - intros ([s q] & -> & Hq). by exists s.
    - intros [s Hq]. by exists (s, p). }
  assert (Hlen : length order = size (m (tab w))).
  { by rewrite Hord, length_fmap, length_map_to_list. }
  split; cbn [tab set_m m reqs window owned fresh max]; try done.
  - rewrite map_size_empty, Hlen. cbn [length] in Ht. lia.
  - rewrite map_size_empty. lia.
  - intros p [s Hq]%Hin. eauto.
  - rewrite Hord. apply NoDup_fmap_2_strong; [|apply NoDup_map_to_list].
    intros [s1 p1] [s2 p2] H1%elem_of_map_to_list H2%elem_of_map_to_list [= <-].
    f_equal. by eapply Hi.
  - intros p r Hr Hno _. apply (Hs p r Hr); [by intros ?%elem_of_nil|].
    intros s Hq. apply Hno, Hin. eauto.
Qed.

(** Settling one request in limbo: [finish], then a result. *)
Lemma winv_settle w p limbo result :
  winv (p :: limbo) w ->
  winv limbo (MkWorld (send_done (finish (tab w) p) p result) (owned w) (fresh w) (sent w)).
Proof.
  intros [Hw Ht Ho Hm Hli Hl Hi Hn Hd Hs Hf].
  destruct (Hli p) as (r & Hr & Hfin & Hrel & Hdone); [by left|].
  apply NoDup_cons in Hn as [Hnp Hn].
  destruct (Window.release_inv (window (tab w)) Hw) as (Hw' & _ & Htok & _); [cbn [length] in Ht; lia|].
  unfold finish. rewrite Hr, Hfin, Hrel. unfold send_done. cbn [reqs].
  rewrite lookup_insert_eq.
  split; cbn [tab set_req m reqs window owned fresh max]; try done.
  - rewrite Htok, Ht. cbn [length]. lia.
  - intros q Hq. destruct (Hli q) as (r' & Hr' & Hlive); [by right|]. exists r'.
    rewrite !lookup_insert_ne by (intros ->; done). done.
  - intros s q Hq. destruct (Hl s q Hq) as (r' & Hr' & Hlive). exists r'.
    assert (q <> p) by (intros ->; apply (Hd s p Hq); by left).
    rewrite !lookup_insert_ne by done. done.
  - intros s q Hq Hin. apply (Hd s q Hq). by right.
  - intros q r' Hq Hnin Hno. destruct (decide (q = p)) as [-> |Hne].
    + rewrite lookup_insert_eq in Hq. injection Hq as <-. unfold settled. cbn.
      rewrite Hdone. done.
    + rewrite !lookup_insert_ne in Hq by done. apply (Hs q r' Hq); [|done].
      apply not_elem_of_cons. done.
  - intros q r' Hq. destruct (decide (q = p)) as [-> |Hne]; [by eapply Hf|].
    rewrite !lookup_insert_ne in Hq by done. by eapply Hf.
Qed.

Lemma winv_fail_all order w err :
  winv order w ->
  winv [] (MkWorld (foldl (fun t p => send_done (finish t p) p (MkResult None (Some err)))
    (tab w) order) (owned w) (fresh w) (sent w)).
Proof.
  revert w. induction order as [|p order IH]; intros [t o f se] Hw; [done|]. cbn [foldl tab].
  apply (winv_settle _ _ _ (MkResult None (Some err))) in Hw. by apply IH in Hw.
Qed.

(** An update of a request that keeps it live or settled. *)
Lemma winv_update w p r r' :
  winv [] w -> reqs (tab w) !! p = Some r ->
  (live r -> live r') -> (settled r -> settled r') ->
  winv [] (MkWorld (set_req (tab w) p r') (owned w) (fresh w) (sent w)).
Proof.
  intros [Hw Ht Ho Hm Hli Hl Hi Hn Hd Hs Hf] Hr H1 H2.
  split; cbn [tab set_req m reqs window owned fresh max]; try done.
  - intros q ?%elem_of_nil. done.
  - intros s q Hq. destruct (Hl s q Hq) as (x & Hx & Hlive).
    destruct (decide (q = p)) as [-> |]; [rewrite lookup_insert_eq|rewrite lookup_insert_ne by done; eauto].
    exists r'. split; [done|]. apply H1. congruence.
  - intros q x Hq Hno Hm'. destruct (decide (q = p)) as [-> |].
    + rewrite lookup_insert_eq in Hq. injection Hq as <-. eapply H2, Hs; done.
    + rewrite lookup_insert_ne in Hq by done. by eapply Hs.
  - intros q x Hq. destruct (decide (q = p)) as [-> |]; [by eapply Hf|].
    rewrite lookup_insert_ne in Hq by done. by eapply Hf.
Qed.

Lemma winv_admit w command version sequence t' :
  winv [] w -> 0 < owned w ->
  insert (set_req (tab w) (fresh w) (new_request command version)) sequence (fresh w) = Ok t' ->
  winv [] (MkWorld t' (owned w - 1) (Pos.succ (fresh w)) (<[fresh w := sequence]> (sent w))).
Proof.
  intros [Hw Ht Ho Hm Hli Hl Hi Hn Hd Hs Hf] Hpos. unfold insert. cbn [set_req m max].
  destruct (Z.leb_spec (max (tab w)) (Z.of_nat (size (m (tab w))))) as [|Hlt]; [done|].
  destruct (m (tab w) !! sequence) eqn:Hseq; [done|]. intros [= <-].
  assert (Hnew : forall p r, reqs (tab w) !! p = Some r -> p <> fresh w).
  { intros p r Hr ->. pose proof (Hf _ _ Hr). lia. }
  split; cbn [tab set_m set_req m reqs window owned fresh max]; try done.
  - rewrite map_size_insert_None by done. cbn [length] in *. lia.
  - lia.
  - rewrite map_size_insert_None by done. lia.
  - intros q ?%elem_of_nil. done.
  - intros s p [[<- <-]|[_ Hp]]%lookup_insert_Some.
    + rewrite lookup_insert_eq. eexists. by split.
    + destruct (Hl s p Hp) as (r & Hr & Hlive). exists r.
      rewrite lookup_insert_ne by (apply not_eq_sym; eauto). done.
  - assert (Hno : forall s, m (tab w) !! s <> Some (fresh w)).
    { intros s Hs'. destruct (Hl s _ Hs') as (r & Hr & _). by apply (Hnew _ _ Hr). }
    intros s1 s2 p [[<- <-]|[? H1]]%lookup_insert_Some [[<- Heq]|[? H2]]%lookup_insert_Some;
      [done|by apply Hno in H2|subst; by apply Hno in H1|by eapply Hi].
  - intros s p _ ?%elem_of_nil. done.
  - intros p r [[<- <-]|[Hne Hr]]%lookup_insert_Some _ Hnot.
    + exfalso. apply (Hnot sequence). apply lookup_insert_eq.
    + apply (Hs p r Hr); [by intros ?%elem_of_nil|]. intros s Hp. apply (Hnot s).
      rewrite lookup_insert_ne; [done|]. congruence.
  - intros p r [[<- <-]|[Hne Hr]]%lookup_insert_Some; [lia|]. pose proof (Hf _ _ Hr). lia.
Qed.

Lemma wstep_inv w w' : wstep w w' -> winv [] w -> winv [] w'.
Proof.
  intros Hs Hw. pose proof Hw as [Hwi Ht Ho Hm Hli Hl Hi Hn Hd Hse Hf].
  destruct Hs as [w Hlt|w Hpos|w c v sq t' Hpos Hins|w pdu t' p Htk|w sq err t' p Hce
    |w order err Hord|w p item|w sq t' r Hmd].
  - split; cbn [tab with_window m reqs window owned fresh max]; try done.
    + by apply Window.afterAcquire_inv. + cbn [afterAcquire send_token tokens]. lia. + lia.
  - destruct (Window.release_inv _ Hwi) as (H1 & _ & H2 & _); [cbn [length] in Ht; lia|].
    split; cbn [tab with_window m reqs window owned fresh max]; try done; [|lia].
    rewrite H2. cbn [length] in *. lia.
  - by eapply winv_admit.
  - unfold takeResponse in Htk. destruct (m (tab w) !! _) as [q|] eqn:Hq; [|done].
    destruct (reqs (tab w) !! q) as [r|] eqn:Hr; [|done].
    destruct (_ && _); [done|]. injection Htk as <- <-.
    pose proof (winv_remove _ _ _ _ Hw Hq) as H.
    by apply (winv_settle _ _ _ (MkResult (Some pdu) None)) in H.
  - unfold completeError in Hce. destruct (m (tab w) !! sq) as [q|] eqn:Hq; [|done].
    injection Hce as <- <-.
    pose proof (winv_remove _ _ _ _ Hw Hq) as H.
    by apply (winv_settle _ _ _ (MkResult None (Some err))) in H.
  - pose proof (winv_remove_all w order Hw Hord) as H. by apply (winv_fail_all order _ err) in H.
  - unfold attachDeadline. destruct item as [item|]; [|by destruct w].
    destruct (reqs (tab w) !! p) as [r|] eqn:Hr; [|by destruct w].
    destruct (finished r) eqn:Hfin.
    + split; try done.
    + eapply winv_update; [done|exact Hr|by intros (_ & H1 & H2)|].
      intros (H1 & _). congruence.
  - unfold markDispatched in Hmd. destruct (m (tab w) !! sq) as [q|] eqn:Hq.
    + destruct (reqs (tab w) !! q) as [r'|] eqn:Hr; injection Hmd as <- <-; [|by destruct w].
      eapply winv_update; [done|exact Hr|done|done].
    + injection Hmd as <- <-. by destruct w.
Qed.

Lemma wsteps_inv w w' : rtc wstep w w' -> winv [] w -> winv [] w'.
Proof. induction 1 as [|x y z Hs _ IH]; intros Hw; [done|]. apply IH. by eapply wstep_inv. Qed.

(** A session starts with a window of [size] slots and room for [limit] requests. *)
Definition initial (size limit : Z) : world :=
  MkWorld (newPendingTable limit (newRequestWindow size)) 0 1 ∅.

Lemma initial_inv size limit :
  0 <= size < 4294967296 -> 0 <= limit -> winv [] (initial size limit).
Proof.
  intros Hs Hl. split; cbn [initial tab newPendingTable m reqs window owned fresh max]; try done.
  - by apply newRequestWindow_inv.
  - intros p H. by apply elem_of_nil in H.
  - constructor.
Qed.

(** *** Responses reach the request they answer *)

Definition answers (w : world) (p : positive) (r : pendingRequest) (pdu : DecodedPDU) : Prop :=
  sent w !! p = Some (SequenceNumber (pdu_Header pdu)) /\
  (CommandID (pdu_Header pdu) = expectedID r \/ CommandID (pdu_Header pdu) = CommandGenericNACK).

Record matched (w : world) : Prop := {
  ma_sent : forall s p, m (tab w) !! s = Some p -> sent w !! p = Some s;
  ma_pdu : forall p r result pdu, reqs (tab w) !! p = Some r -> result ∈ pdone r ->
    rr_pdu result = Some pdu -> answers w p r pdu
}.

(** A request may change as long as its results stay justified. *)
Lemma matched_update w t p r r' :
  matched w -> m t ⊆ m (tab w) -> reqs (tab w) !! p = Some r ->
  reqs t = <[p := r']> (reqs (tab w)) -> expectedID r' = expectedID r ->
  (forall result pdu, result ∈ pdone r' -> rr_pdu result = Some pdu ->
     result ∈ pdone r \/ answers w p r pdu) ->
  matched (MkWorld t (owned w) (fresh w) (sent w)).
Proof.
  intros [Hs Hp] Hsub Hr Ht He Hd. split; cbn [tab sent].
  - intros s q Hq. apply Hs. by eapply lookup_weaken.
  - unfold answers; cbn [sent]. rewrite Ht.
    intros q x result pdu [[<- <-]|[_ Hx]]%lookup_insert_Some Hin Hpdu; [|by eapply Hp].
    rewrite He. destruct (Hd result pdu Hin Hpdu) as [H|H]; [by eapply Hp|done].
Qed.

Lemma matched_sub w t : matched w -> m t ⊆ m (tab w) -> reqs t = reqs (tab w) ->
  matched (MkWorld t (owned w) (fresh w) (sent w)).
Proof.
  intros [Hs Hp] Hsub Ht. split; unfold answers; cbn [tab sent]; [|by rewrite Ht].
  intros s q Hq. apply Hs. by eapply lookup_weaken.
Qed.

Lemma matched_finish w p : matched w ->
  matched (MkWorld (finish (tab w) p) (owned w) (fresh w) (sent w)).
Proof.
  intros Hw. unfold finish. destruct (reqs (tab w) !! p) as [r|] eqn:Hr; [|by destruct w].
  destruct (finished r); [by destruct w|].
  eapply matched_update; [done|done|exact Hr|reflexivity|done|]. cbn. auto.
Qed.

Lemma matched_send w p result : matched w ->
  (forall r pdu, reqs (tab w) !! p = Some r -> rr_pdu result = Some pdu -> answers w p r pdu) ->
  matched (MkWorld (send_done (tab w) p result) (owned w) (fresh w) (sent w)).
Proof.
  intros Hw Ha. unfold send_done. destruct (reqs (tab w) !! p) as [r|] eqn:Hr; [|by destruct w].
  eapply matched_update; [done|done|exact Hr|reflexivity|done|]. cbn.
  intros x pdu [?|Hx]%elem_of_app Hpdu; [by left|]. apply list_elem_of_singleton in Hx as ->.
  right. by apply Ha.
Qed.

Lemma matched_fail w p err : matched w ->
  matched (MkWorld (send_done (finish (tab w) p) p (MkResult None (Some err)))
    (owned w) (fresh w) (sent w)).
Proof.
  intros H%(matched_finish _ p). by apply (matched_send _ p (MkResult None (Some err))) in H.
Qed.

Lemma matched_fail_all order w err : matched w ->
  matched (MkWorld (foldl (fun t p => send_done (finish t p) p (MkResult None (Some err)))
    (tab w) order) (owned w) (fresh w) (sent w)).
Proof.
  revert w. induction order as [|p order IH]; intros [t o f se] Hw; [done|]. cbn [foldl tab].
  apply (matched_fail _ p err) in Hw. by apply IH in Hw.
Qed.

Lemma matched_step w w' : wstep w w' -> winv [] w -> matched w -> matched w'.
Proof.
  intros Hs Hi Hw. pose proof Hw as [Hse Hpd].
  destruct Hs as [w Hlt|w Hpos|w c v sq t' Hpos Hins|w pdu t' p Htk|w sq err t' p Hce
    |w order err Hord|w p item|w sq t' r Hmd]; [by split..| | | | | |].
  - unfold insert in Hins. cbn [set_req m max] in Hins. destruct (_ <=? _); [done|].
    destruct (m (tab w) !! sq); [done|]. injection Hins as <-.
    assert (Hnew : forall p r, reqs (tab w) !! p = Some r -> fresh w <> p).
    { intros p r Hr <-. pose proof (wi_fresh _ _ Hi _ _ Hr). lia. }
    split; unfold answers; cbn [tab sent set_m set_req m reqs].
    + intros s p [[<- <-]|[_ Hp]]%lookup_insert_Some; [apply lookup_insert_eq|].
      destruct (wi_live _ _ Hi _ _ Hp) as (r & Hr & _).
      rewrite lookup_insert_ne by eauto. auto.
    + intros p r x pdu [[<- <-]|[_ Hp]]%lookup_insert_Some Hin Hx.
      * by apply elem_of_nil in Hin.
      * rewrite lookup_insert_ne by eauto. by eapply Hpd.
  - unfold takeResponse in Htk. destruct (m (tab w) !! _) as [q|] eqn:Hq; [|done].
    destruct (reqs (tab w) !! q) as [r|] eqn:Hr; [|done].
    destruct (negb _ && negb _) eqn:Hc; [done|]. injection Htk as <- <-.
    pose proof (matched_sub w (set_m (tab w) (delete (SequenceNumber (pdu_Header pdu)) (m (tab w)))) Hw
      (delete_subseteq _ _) eq_refl) as H.
    apply (matched_finish _ q) in H. apply (matched_send _ q (MkResult (Some pdu) None)) in H; [done|].
    unfold answers; cbn [tab sent finish set_m reqs]. intros r' pdu' Hr' [= <-].
    split; [by apply Hse|]. apply andb_false_iff in Hc. rewrite !negb_false_iff, !Z.eqb_eq in Hc.
    enough (expectedID r' = expectedID r) as -> by done. revert Hr'. unfold finish. cbn [reqs set_m].
    rewrite Hr. destruct (finished r); cbn [reqs set_m]; [rewrite Hr; congruence|].
    rewrite lookup_insert_eq. by intros [= <-].
  - unfold completeError in Hce. destruct (m (tab w) !! sq) as [q|] eqn:Hq; [|done].
    injection Hce as <- <-.
    pose proof (matched_sub w (set_m (tab w) (delete sq (m (tab w)))) Hw
      (delete_subseteq _ _) eq_refl) as H. by apply (matched_fail _ q err) in H.
  - pose proof (matched_sub w (set_m (tab w) ∅) Hw (map_empty_subseteq _) eq_refl) as H.
    by apply (matched_fail_all order _ err) in H.
  - unfold attachDeadline. destruct item as [item|]; [|by destruct w].
    destruct (reqs (tab w) !! p) as [r|] eqn:Hr; [|by destruct w].
    destruct (finished r); [by apply matched_sub|].
    eapply matched_update; [done|done|exact Hr|reflexivity|done|cbn; auto].
  - unfold markDispatched in Hmd. destruct (m (tab w) !! sq) as [q|] eqn:Hq; [|injection Hmd as <- <-; by destruct w].
    destruct (reqs (tab w) !! q) as [r'|] eqn:Hr; injection Hmd as <- <-; [|by destruct w].
    eapply matched_update; [done|done|exact Hr|reflexivity|done|cbn; auto].
Qed.

Lemma wsteps_matched w w' : rtc wstep w w' -> winv [] w -> matched w -> matched w'.
Proof.
  induction 1 as [|x y z Hs _ IH]; intros Hi Hw; [done|].
  apply IH; [by eapply wstep_inv|by eapply matched_step].
Qed.

(** C24: Whatever the callers, the receive loop, the timers and the termination
    of a session do to the pending table, and in whatever order, every request
    that was admitted is either still in the table with no result, or gone from
    it with exactly one result, its deadline cancelled and its slot given back.
    A result that carries a PDU carries the PDU that has the sequence number the
    request was sent with, and the response command of the request or
    generic_nack. *)
Theorem requests_settle_once size limit w :
  0 <= size < 4294967296 -> 0 <= limit -> rtc wstep (initial size limit) w ->
  forall p r, reqs (tab w) !! p = Some r ->
  ((exists s, m (tab w) !! s = Some p /\ sent w !! p = Some s) /\ pdone r = [] /\ finished r = false \/
   (forall s, m (tab w) !! s <> Some p) /\ finished r = true /\ deadline r = None /\
   exists result, pdone r = [result] /\ forall pdu, rr_pdu result = Some pdu -> answers w p r pdu).
Proof.
  intros Hs Hl Hw p r Hr. pose proof (initial_inv size limit Hs Hl) as H0.
  pose proof (wsteps_inv _ _ Hw H0) as Hi.
  assert (Hm : matched w) by (eapply wsteps_matched; [done..|]; split; done).
  destruct (decide (p ∈ (map_to_list (m (tab w))).*2)) as [Hin|Hno].
  - left. apply list_elem_of_fmap in Hin as ([s q] & -> & Hp%elem_of_map_to_list). cbn [snd] in *. destruct (wi_live _ _ Hi s q Hp) as (r' & Hr' & Hlive).
    assert (r' = r) as -> by congruence. destruct Hlive as (H1 & _ & H3).
    split_and!; [|done..]. exists s. split; [done|]. by apply (ma_sent _ Hm).
  - right. assert (Hnone : forall s, m (tab w) !! s <> Some p).
    { intros s Hp. apply Hno, list_elem_of_fmap. exists (s, p).
      split; [done|by apply elem_of_map_to_list]. }
    destruct (wi_settled _ _ Hi p r Hr (not_elem_of_nil _) Hnone) as (H1 & _ & H3 & H4).
    destruct (pdone r) as [|result [|]] eqn:Hd; [done| |done].
    split_and!; [done..|]. exists result. split; [done|].
    intros pdu Hpdu. eapply (ma_pdu _ Hm); [done| |done]. rewrite Hd. by left.
Qed.

(** A run: a slot is acquired, a submit_sm is sent under sequence number 7, and
    its response arrives. *)
Definition sample_response : DecodedPDU :=
  MkDecodedPDU (MkHeader 16 CommandSubmitSMResp 8 7) (AVal VEmptyBody).

Lemma sample_run : exists w r, rtc wstep (initial 2 2) w /\ reqs (tab w) !! 1%positive = Some r /\
  pdone r = [MkResult (Some sample_response) None].
Proof.
  eexists _, _. split; [|split].
  - eapply rtc_l; [by apply WAcquire|].
    eapply rtc_l; [by eapply (WAdmit _ CommandSubmitSM 0 7)|].
    eapply rtc_l; [by eapply (WRespond _ sample_response)|]. apply rtc_refl.
  - reflexivity.
  - reflexivity.
Qed.

Lemma requests_settle_once_witness : exists w r, rtc wstep (initial 2 2) w /\
  reqs (tab w) !! 1%positive = Some r /\ pdone r = [MkResult (Some sample_response) None] /\
  sent w !! 1%positive = Some 7.
Proof.
  destruct sample_run as (w & r & Hw & Hr & Hd). exists w, r. split_and!; [done..|].
  destruct (requests_settle_once 2 2 w ltac:(lia) ltac:(lia) Hw 1%positive r Hr)
    as [(_ & H & _)|(_ & _ & _ & x & Hx & Ha)]; [congruence|].
  rewrite Hd in Hx. injection Hx as <-. by apply (Ha sample_response).
Defined.

(** In every reachable state the window's counters agree: the tokens in the
    channel, [inUse], and the slots owned by callers plus the requests pending
    are one number; it never exceeds the capacity or the high-water mark; the
    pending table never exceeds its limit; and no slot was ever released that
    was not owned ([Underflows] is zero). *)
Theorem window_accounting size limit w :
  0 <= size < 4294967296 -> 0 <= limit -> rtc wstep (initial size limit) w ->
  tokens (window (tab w)) = owned w + table_len (tab w) /\
  InUse (snapshot (window (tab w))) = owned w + table_len (tab w) /\
  0 <= InUse (snapshot (window (tab w))) <= HighWater (snapshot (window (tab w))) /\
  HighWater (snapshot (window (tab w))) <= Capacity (snapshot (window (tab w))) /\
  table_len (tab w) <= max (tab w) /\
  Underflows (snapshot (window (tab w))) = 0.
Proof.
  intros Hs Hl Hw. pose proof (wsteps_inv _ _ Hw (initial_inv size limit Hs Hl)) as Hi.
  destruct Hi as [(H1 & _ & H2 & H3 & H4) H5 _ H6 _ _ _ _ _ _ _].
  unfold table_len, snapshot; cbn [InUse HighWater Capacity Underflows length] in *. lia.
Qed.

Lemma window_accounting_witness : exists w, rtc wstep (initial 2 2) w /\
  tokens (window (tab w)) = owned w + table_len (tab w).
Proof.
  destruct sample_run as (w & r & Hw & _ & _). exists w. split; [done|].
  by apply (window_accounting 2 2 w ltac:(lia) ltac:(lia) Hw).
Defined.

(** *** Choosing a sequence number (Session.request, src/session/session.go)

    [attempts] is what the loop has left; the generator's value is threaded
    through. *)
Fixpoint allocate (attempts : nat) (v : Z) (t : pendingTable) (request : positive)
    : Z * outcome GoError (pendingTable * Z) :=
  match attempts with
  | O => (v, Err (ESentinel ErrSequenceExhausted))
  | S attempts =>
      let '(v, sequence) := Sequence.Next v in
      match insert t sequence request with
      | Ok t => (v, Ok (t, sequence))
      | Err (ESentinel ErrSequenceInUse) => allocate attempts v t request
      | Err e => (v, Err e)
      | Panic => (v, Panic)
      end
  end.

Lemma next_range v : 0 <= v <= SequenceOutboundMax -> Sequence.next v = Sequence.nth_sequence v.
Proof.
  intros Hv. destruct (Z.eq_dec v 0) as [-> |Hne]; [apply Sequence.next_zero|].
  assert (v = Sequence.nth_sequence (v - 1)) as Heq.
  { unfold Sequence.nth_sequence, SequenceOutboundMax in *. rewrite Z.mod_small by lia. lia. }
  rewrite Heq at 1. rewrite Sequence.next_nth by lia. f_equal. lia.
Qed.

(** The numbers a loop of [n] attempts tries from the [k]-th on. *)
Definition candidates (k : Z) (n : nat) : list Z := map Sequence.nth_sequence (seqZ k (Z.of_nat n)).

Lemma candidates_S k n : candidates k (S n) = Sequence.nth_sequence k :: candidates (k + 1) n.
Proof. unfold candidates. rewrite Nat2Z.inj_succ, seqZ_cons by lia. cbn. by rewrite Z.pred_succ. Qed.

Lemma candidates_distinct k n :
  0 <= k -> Z.of_nat n <= SequenceOutboundMax -> NoDup (candidates k n).
Proof.
  intros Hk Hn. apply NoDup_fmap_2_strong; [|apply NoDup_seqZ].
  intros i j Hi%elem_of_seqZ Hj%elem_of_seqZ Heq.
  destruct (Z.lt_trichotomy i j) as [H|[H|H]]; [|done|].
  - by apply Sequence.nth_sequence_inj in Heq; try lia.
  - symmetry in Heq. by apply Sequence.nth_sequence_inj in Heq; try lia.
Qed.

(** The loop takes the first candidate that is not in use. *)
Lemma allocate_first n v k t request :
  table_len t < max t -> 0 <= k -> Sequence.next v = Sequence.nth_sequence k ->
  (exists s, s ∈ candidates k n /\ m t !! s = None) ->
  exists s, s ∈ candidates k n /\ m t !! s = None /\
    allocate n v t request = (s, Ok (set_m t (<[s := request]> (m t)), s)).
Proof.
  unfold table_len. intros Hlen. revert v k. induction n as [|n IH]; intros v k Hk Hv Hex.
  - destruct Hex as (s & Hs & _). by apply elem_of_nil in Hs.
  - cbn [allocate]. unfold Sequence.Next. rewrite Hv. unfold insert at 1.
    destruct (Z.leb_spec (max t) (Z.of_nat (size (m t)))); [lia|].
    rewrite candidates_S in *. destruct (m t !! Sequence.nth_sequence k) eqn:Hm.
    + destruct (IH (Sequence.nth_sequence k) (k + 1)) as (s & Hs & Hf & Heq);
        [lia|by apply Sequence.next_nth| |].
      * destruct Hex as (s & [-> |Hs]%elem_of_cons & Hf); [congruence|eauto].
      * exists s. split_and!; [by right|done..].
    + exists (Sequence.nth_sequence k). split_and!; [by left|done..].
Qed.

(** Among more candidates than requests pending, one is free. *)
Lemma candidates_free k n (tab' : gmap Z positive) :
  0 <= k -> (size tab' < n)%nat -> Z.of_nat n <= SequenceOutboundMax ->
  exists s, s ∈ candidates k n /\ tab' !! s = None.
Proof.
  intros Hk Hlt Hn. destruct (decide (Exists (fun s => s ∉ dom tab') (candidates k n))) as [H|H].
  - apply Exists_exists in H as (s & Hs & Hf). exists s. split; [done|]. by apply not_elem_of_dom.
  - exfalso. apply (not_Exists_Forall _ _) in H.
    assert (Hsub : list_to_set (candidates k n) ⊆ dom tab').
    { intros s Hs%elem_of_list_to_set. rewrite Forall_forall in H.
      by apply dec_stable, H. }
    apply subseteq_size in Hsub.
    rewrite size_list_to_set, size_dom in Hsub by by apply candidates_distinct.
    unfold candidates in Hsub. rewrite length_map, length_seqZ in Hsub. lia.
Qed.

(** [Session.request] always finds a sequence number: with room in the table,
    and a limit below the number of outbound sequence numbers, the loop of
    [MaxPending + 1] attempts inserts the request under a valid number that no
    pending request uses, and [ErrSequenceExhausted] does not happen. *)
Theorem allocate_succeeds v t request :
  0 <= v <= SequenceOutboundMax -> 0 <= max t < SequenceOutboundMax ->
  table_len t < max t ->
  exists s, ValidOutbound s = true /\ m t !! s = None /\
    allocate (Z.to_nat (max t + 1)) v t request = (s, Ok (set_m t (<[s := request]> (m t)), s)).
Proof.
  intros Hv Hmax Hlen. pose proof Hlen as Hlen'. unfold table_len in Hlen'.
  destruct (allocate_first (Z.to_nat (max t + 1)) v v t request) as (s & Hs & Hf & Heq);
    [done|lia|by apply next_range|apply candidates_free; lia|].
  exists s. split_and!; [|done..]. apply list_elem_of_fmap in Hs as (k & -> & Hk%elem_of_seqZ).
  pose proof (Sequence.nth_sequence_range k ltac:(lia)).
  unfold ValidOutbound, SequenceMin, SequenceOutboundMax. lia.
Qed.

Definition sample_table : pendingTable :=
  MkTable 2 {[1 := 5%positive]} ∅ (newRequestWindow 2) [].

Lemma allocate_succeeds_witness : exists s, ValidOutbound s = true /\
  m sample_table !! s = None /\ fst (allocate 3 2147483647 sample_table 6%positive) = s.
Proof.
  destruct (allocate_succeeds 2147483647 sample_table 6%positive) as (s & Hs & Hn & Heq);
    [by vm_compute..|].
  exists s. split_and!; [done..|]. change 3%nat with (Z.to_nat (max sample_table + 1)).
  by rewrite Heq.
Defined.
End Table.

(** ** The round-trip sample (pending.go: markDispatchAt, markResponseAt, claimRTT)

    The transmit loop and the receive loop each store their timestamp and then
    run [claimRTT], at the grain of one atomic operation per step: load
    [dispatchedAt], load [responseAt], compare-and-swap [rttRecorded]. *)

Module RTT.

(** Where a goroutine is. *)
Inductive pc :=
| Begin                     (* before the store of its timestamp *)
| Stored                    (* before the load of dispatchedAt *)
| LoadedDispatch (d : Z)    (* before the load of responseAt *)
| LoadedBoth (d r : Z)      (* before the test and the compare-and-swap *)
| Returned.

#[export] Instance pc_eq_dec : EqDecision pc.
Proof. solve_decision. Defined.

Record rtt := MkRTT {
  dispatchedAt : Z; responseAt : Z; rttRecorded : bool;
  tx : pc; rx : pc; samples : list Z
}.

(** The duration [claimRTT] returns.  Timestamps are positive [int64] nanoseconds,
    so the difference does not wrap. *)
Definition duration (dispatch response : Z) : Z :=
  if response <=? dispatch then 0 else response - dispatch.

Definition start : rtt := MkRTT 0 0 false Begin Begin [].

(** The last step of [claimRTT]: the new flag and the sample, if any. *)
Definition claim (recorded : bool) (d r : Z) (samples : list Z) : bool * list Z :=
  if (d =? 0) || (r =? 0) || recorded then (recorded, samples)
  else (true, samples ++ [duration d r]).

(** One step of [claimRTT]; [None] at [Begin] and [Returned]. *)
Definition claim_step (s : rtt) (p : pc) : option (pc * bool * list Z) :=
  match p with
  | Stored => Some (LoadedDispatch (dispatchedAt s), rttRecorded s, samples s)
  | LoadedDispatch d => Some (LoadedBoth d (responseAt s), rttRecorded s, samples s)
  | LoadedBoth d r => let '(f, l) := claim (rttRecorded s) d r (samples s) in Some (Returned, f, l)
  | _ => None
  end.

Inductive rtt_step (dt rt : Z) : rtt -> rtt -> Prop :=
| tx_store s : tx s = Begin ->
    rtt_step dt rt s (MkRTT dt (responseAt s) (rttRecorded s) Stored (rx s) (samples s))
| rx_store s : rx s = Begin ->
    rtt_step dt rt s (MkRTT (dispatchedAt s) rt (rttRecorded s) (tx s) Stored (samples s))
| tx_claim s p f l : claim_step s (tx s) = Some (p, f, l) ->
    rtt_step dt rt s (MkRTT (dispatchedAt s) (responseAt s) f p (rx s) l)
| rx_claim s p f l : claim_step s (rx s) = Some (p, f, l) ->
    rtt_step dt rt s (MkRTT (dispatchedAt s) (responseAt s) f (tx s) p l).

Section Invariant.
Context (dt rt : Z).
Hypothesis Hdt : dt <> 0.
Hypothesis Hrt : rt <> 0.

(** What each goroutine may have loaded: always its own timestamp. *)
Definition tx_ok (p : pc) : Prop :=
  match p with LoadedDispatch d => d = dt | LoadedBoth d r => d = dt /\ (r = 0 \/ r = rt) | _ => True end.
Definition rx_ok (p : pc) : Prop :=
  match p with
  | LoadedDispatch d => d = 0 \/ d = dt | LoadedBoth d r => (d = 0 \/ d = dt) /\ r = rt | _ => True
  end.

(** The goroutine missed the other's timestamp, or returned without a sample. *)
Definition tx_lost (s : rtt) : Prop :=
  tx s = LoadedBoth dt 0 \/ tx s = Returned /\ rttRecorded s = false.
Definition rx_lost (s : rtt) : Prop :=
  rx s = LoadedDispatch 0 \/ rx s = LoadedBoth 0 rt \/ rx s = Returned /\ rttRecorded s = false.

Record rinv (s : rtt) : Prop := {
  ri_dispatch : dispatchedAt s = if decide (tx s = Begin) then 0 else dt;
  ri_response : responseAt s = if decide (rx s = Begin) then 0 else rt;
  ri_tx : tx_ok (tx s);
  ri_rx : rx_ok (rx s);
  ri_samples : samples s = if rttRecorded s then [duration dt rt] else [];
  ri_lost : ~ (tx_lost s /\ rx_lost s)
}.

Lemma start_rinv : rinv start.
Proof. split; try done. intros [[H|[H _]] _]; done. Qed.

Lemma tx_claim_rinv s p f l :
  claim_step s (tx s) = Some (p, f, l) -> rinv s ->
  rinv (MkRTT (dispatchedAt s) (responseAt s) f p (rx s) l).
Proof.
  intros Hc [Hd Hr Ht Hx Hs Hl]. destruct s as [da ra rec tx' rx' sm]. unfold tx_lost, rx_lost in *.
  cbn in *. destruct tx' as [| |d|d r|]; cbn in Hc; try done.
  - injection Hc as <- <- <-. cbn in *. split; cbn; try done. intros [[H|[H _]] _]; done.
  - injection Hc as <- <- <-. cbn in *. subst d. split; unfold tx_lost, rx_lost; cbn; try done.
    + split; [done|]. rewrite Hr. destruct (decide (rx' = Begin)); auto.
    + intros [[[= H]|[H _]] Hrx]; [|done]. rewrite H in Hr.
      destruct (decide (rx' = Begin)) as [Hb|]; [|congruence].
      rewrite Hb in Hrx. by destruct Hrx as [?|[?|[? _]]].
  - destruct Ht as [-> Hr']. unfold claim in Hc. destruct (Z.eqb_spec dt 0); [done|].
    destruct (Z.eqb_spec r 0) as [-> |]; cbn in Hc.
    + injection Hc as <- <- <-. split; unfold tx_lost, rx_lost; cbn; try done. intros [_ Hrx].
      apply Hl. auto.
    + destruct Hr' as [? | ->]; [done|]. destruct rec; injection Hc as <- <- <-;
        (split; unfold tx_lost, rx_lost; cbn; try done; try by rewrite Hs); by intros [[H|[_ H]] _].
Qed.

Lemma rx_claim_rinv s p f l :
  claim_step s (rx s) = Some (p, f, l) -> rinv s ->
  rinv (MkRTT (dispatchedAt s) (responseAt s) f (tx s) p l).
Proof.
  intros Hc [Hd Hr Ht Hx Hs Hl]. destruct s as [da ra rec tx' rx' sm]. unfold tx_lost, rx_lost in *.
  cbn in *. destruct rx' as [| |d|d r|]; cbn in Hc; try done.
  - injection Hc as <- <- <-. split; unfold tx_lost, rx_lost; cbn; try done.
    + rewrite Hd. destruct (decide (tx' = Begin)); auto.
    + intros [Htx [[= H]|[H|[H _]]]]; [|done..]. rewrite H in Hd.
      destruct (decide (tx' = Begin)) as [Hb|]; [|congruence].
      rewrite Hb in Htx. by destruct Htx as [?|[? _]].
  - injection Hc as <- <- <-. cbn in *. split; unfold tx_lost, rx_lost; cbn; try done.
    intros [Htx [H|[[= -> _]|[H _]]]]; [done| |done]. apply Hl. auto.
  - destruct Hx as [Hd' ->]. unfold claim in Hc. destruct (Z.eqb_spec rt 0); [done|].
    destruct (Z.eqb_spec d 0) as [-> |]; cbn in Hc.
    + injection Hc as <- <- <-. split; unfold tx_lost, rx_lost; cbn; try done. intros [Htx _].
      apply Hl. auto.
    + destruct Hd' as [? | ->]; [done|]. destruct rec; injection Hc as <- <- <-;
        (split; unfold tx_lost, rx_lost; cbn; try done; try by rewrite Hs); by intros [_ [H|[H|[_ H]]]].
Qed.

Lemma step_rinv s s' : rtt_step dt rt s s' -> rinv s -> rinv s'.
Proof.
  intros Hs Hi. destruct Hs as [s Hb|s Hb|s p f l Hc|s p f l Hc];
    [| |by eapply tx_claim_rinv|by eapply rx_claim_rinv].
  - destruct Hi as [Hd Hr Ht Hx Hs Hl]. split; unfold tx_lost, rx_lost; cbn; try done.
    intros [[H|[H _]] _]; done.
  - destruct Hi as [Hd Hr Ht Hx Hs Hl]. split; unfold tx_lost, rx_lost; cbn; try done.
    intros [_ [H|[H|[H _]]]]; done.
Qed.

Lemma steps_rinv s s' : rtc (rtt_step dt rt) s s' -> rinv s -> rinv s'.
Proof. induction 1 as [|x y z Hs _ IH]; intros Hi; [done|]. apply IH. by eapply step_rinv. Qed.
End Invariant.

(** However the transmit loop's and the receive loop's atomic operations
    interleave, a request contributes at most one round-trip sample, and exactly
    one once both have recorded their timestamps; the sample is never negative. *)
Theorem rtt_recorded_once dt rt s :
  dt <> 0 -> rt <> 0 -> rtc (rtt_step dt rt) start s ->
  (samples s = [] \/ samples s = [duration dt rt]) /\
  (tx s = Returned -> rx s = Returned -> samples s = [duration dt rt]) /\
  0 <= duration dt rt.
Proof.
  intros Hd Hr Hs. pose proof (steps_rinv dt rt Hd Hr _ _ Hs (start_rinv dt rt)) as [_ _ _ _ Hsm Hl].
  split_and!.
  - rewrite Hsm. destruct (rttRecorded s); auto.
  - intros Ht Hx. rewrite Hsm. destruct (rttRecorded s) eqn:Hrec; [done|].
    exfalso. apply Hl. unfold tx_lost, rx_lost. auto.
  - unfold duration. destruct (Z.leb_spec rt dt); lia.
Qed.

(** The response overtakes the bookkeeping of the write. *)
Lemma sample_overtake : rtc (rtt_step 20 10) start (MkRTT 20 10 true Returned Returned [0]).
Proof.
  apply (rtc_l _ _ (MkRTT 0 10 false Begin Stored [])); [by apply rx_store|].
  apply (rtc_l _ _ (MkRTT 0 10 false Begin (LoadedDispatch 0) [])); [by apply rx_claim|].
  apply (rtc_l _ _ (MkRTT 20 10 false Stored (LoadedDispatch 0) [])); [by apply tx_store|].
  apply (rtc_l _ _ (MkRTT 20 10 false Stored (LoadedBoth 0 10) [])); [by apply rx_claim|].
  apply (rtc_l _ _ (MkRTT 20 10 false Stored Returned [])); [by apply rx_claim|].
  apply (rtc_l _ _ (MkRTT 20 10 false (LoadedDispatch 20) Returned [])); [by apply tx_claim|].
  apply (rtc_l _ _ (MkRTT 20 10 false (LoadedBoth 20 10) Returned [])); [by apply tx_claim|].
  apply rtc_once. by apply tx_claim.
Qed.

Lemma rtt_recorded_once_witness : exists s, rtc (rtt_step 20 10) start s /\ tx s = Returned /\
  rx s = Returned /\ samples s = [duration 20 10].
Proof.
  exists (MkRTT 20 10 true Returned Returned [0]). split_and!; [apply sample_overtake|done..|].
  by apply (rtt_recorded_once 20 10 _ ltac:(lia) ltac:(lia) sample_overtake).
Defined.
End RTT.
