(* ===== verification/Slots.v ===== *)
(** * The request window between its atomic operations (src/session/window.go)

    [requestWindow] takes no lock: [acquire] sends a token, adds to [inUse] and
    [acquired] and raises [high] with a compare-and-swap, one after the other, and
    [release] receives a token and then subtracts from [inUse].  Pending.v runs each of
    them in one go; here every atomic operation is a step of its own, so that the calls of
    any number of goroutines may be interleaved anywhere.  A slot belongs to the call that
    acquired it, then to the request in the pending table (src/session/pending.go), and
    at last to whoever finishes that request. *)

From S2P Require Import Prelude Protocol Pending.

Module Slots.
Import Window.

(** Where a slot, or the call that wants one, is. *)
Inductive stage : Type :=
| Trying (wait : bool)            (* at the first [select] of [acquire] *)
| Full                            (* about to count the wait *)
| Waiting                         (* at the second [select] *)
| Sent                            (* the token is in the channel *)
| Added (inUse : Z)               (* [inUse := w.inUse.Add(1)] *)
| Counted (inUse : Z)             (* [w.acquired.Add(1)] *)
| Loaded (inUse old : Z)          (* [old := w.high.Load()] *)
| Owned                           (* [acquire] returned *)
| InTable (sequence : Z)          (* the request is in the table *)
| Finishing                       (* about to [release] *)
| Taken                           (* the token is received *)
| Gone.

Definition set_inUse (w : requestWindow) (n : Z) : requestWindow :=
  MkWindow (tokens w) (capacity w) n (high w) (acquired w) (waits w) (underflows w).
Definition set_high (w : requestWindow) (n : Z) : requestWindow :=
  MkWindow (tokens w) (capacity w) (inUse w) n (acquired w) (waits w) (underflows w).
Definition add_acquired (w : requestWindow) : requestWindow :=
  MkWindow (tokens w) (capacity w) (inUse w) (high w) (u64 (acquired w + 1)) (waits w) (underflows w).
Definition receive_token (w : requestWindow) : requestWindow :=
  MkWindow (tokens w - 1) (capacity w) (inUse w) (high w) (acquired w) (waits w) (underflows w).
Definition add_underflow (w : requestWindow) : requestWindow :=
  MkWindow (tokens w) (capacity w) (inUse w) (high w) (acquired w) (waits w) (u64 (underflows w + 1)).

(** The next atomic operation of [acquire], and the stage after it; [slot] is which case
    the second [select] takes. *)
Definition acquire_step (slot : bool) (w : requestWindow) (s : stage) : option (requestWindow * stage) :=
  match s with
  | Trying wait =>
      if tokens w <? capacity w then Some (send_token w, Sent)
      else Some (w, if negb wait then Gone else Full)
  | Full => Some (add_wait w, Waiting)
  | Waiting =>
      if slot then (if tokens w <? capacity w then Some (send_token w, Sent) else None)
      else Some (w, Gone)
  | _ => None
  end.
(** That of [afterAcquire]. *)
Definition afterAcquire_step (w : requestWindow) (s : stage) : option (requestWindow * stage) :=
  match s with
  | Sent => let n := u32 (inUse w + 1) in Some (set_inUse w n, Added n)
  | Added n => Some (add_acquired w, Counted n)
  | Counted n => Some (w, Loaded n (high w))
  | Loaded n old =>
      if n <=? old then Some (w, Owned)
      else if high w =? old then Some (set_high w n, Owned)
      else Some (w, Counted n)
  | _ => None
  end.
(** That of [release]. *)
Definition release_step (w : requestWindow) (s : stage) : option (requestWindow * stage) :=
  match s with
  | Finishing => if 0 <? tokens w then Some (receive_token w, Taken) else Some (add_underflow w, Gone)
  | Taken => Some (set_inUse w (u32 (inUse w + (2 ^ 32 - 1))), Gone)
  | _ => None
  end.
Definition window_step (slot : bool) (w : requestWindow) (s : stage) : option (requestWindow * stage) :=
  match s with
  | Trying _ | Full | Waiting => acquire_step slot w s
  | Sent | Added _ | Counted _ | Loaded _ _ => afterAcquire_step w s
  | Finishing | Taken => release_step w s
  | Owned | InTable _ | Gone => None
  end.

(** The window, the table with its limit, and every call of [acquire] there ever was;
    [s_peak] is the highest value [inUse.Add(1)] ever returned. *)
Record slots := MkSlots {
  s_window : requestWindow;
  s_max : Z;
  s_table : gmap Z nat;
  s_calls : list stage;
  s_peak : Z
}.

Definition acquiring_value (s : stage) : option Z :=
  match s with Added n | Counted n | Loaded n _ => Some n | _ => None end.
Definition raise_peak (peak : Z) (s : stage) : Z :=
  match s with Added n => Z.max peak n | _ => peak end.
Definition leave_table (s : stage) : stage := match s with InTable _ => Finishing | _ => s end.

Inductive gstep : slots -> slots -> Prop :=
(* A goroutine calls [acquire]. *)
| GCall g wait :
    gstep g (MkSlots (s_window g) (s_max g) (s_table g) (s_calls g ++ [Trying wait]) (s_peak g))
(* One atomic operation of one of the calls. *)
| GMove g i s slot w' s' : s_calls g !! i = Some s -> window_step slot (s_window g) s = Some (w', s') ->
    gstep g (MkSlots w' (s_max g) (s_table g) (<[i := s']> (s_calls g)) (raise_peak (s_peak g) s'))
(* [insert], under the lock of the table. *)
| GInsert g i sequence : s_calls g !! i = Some Owned -> s_table g !! sequence = None ->
    Z.of_nat (size (s_table g)) < s_max g ->
    gstep g (MkSlots (s_window g) (s_max g) (<[sequence := i]> (s_table g)) (<[i := InTable sequence]> (s_calls g)) (s_peak g))
(* The call gives its slot back before its request is in the table. *)
| GGiveUp g i : s_calls g !! i = Some Owned ->
    gstep g (MkSlots (s_window g) (s_max g) (s_table g) (<[i := Finishing]> (s_calls g)) (s_peak g))
(* [takeResponse] and [completeError] take a request out, under the lock of the table. *)
| GSettle g i sequence : s_table g !! sequence = Some i ->
    gstep g (MkSlots (s_window g) (s_max g) (delete sequence (s_table g)) (<[i := Finishing]> (s_calls g)) (s_peak g))
(* [failAll] takes all of them out. *)
| GFailAll g :
    gstep g (MkSlots (s_window g) (s_max g) ∅ (map leave_table (s_calls g)) (s_peak g)).

Definition slots_initial (size limit : Z) : slots := MkSlots (newRequestWindow size) limit ∅ [] 0.

(** ** The operations run in one go *)

Fixpoint run (fuel : nat) (w : requestWindow) (s : stage) : requestWindow * stage :=
  match fuel with
  | O => (w, s)
  | S fuel => match window_step true w s with Some (w, s) => run fuel w s | None => (w, s) end
  end.

(** Uninterrupted, [acquire] is the one of Pending.v; seven operations are enough. *)
Lemma acquire_alone w wait : tokens w < capacity w ->
  run 7 w (Trying wait) = (afterAcquire (send_token w), Owned).
Proof.
  intros H. cbn. destruct (Z.ltb_spec (tokens w) (capacity w)); [|lia]. cbn. unfold afterAcquire.
  cbn. destruct (Z.leb_spec (u32 (inUse w + 1)) (high w)); cbn; [by destruct w|].
  rewrite Z.eqb_refl. done.
Qed.
Lemma release_alone w : run 2 w Finishing = (fst (release w), Gone).
Proof. unfold release. cbn. by destruct (0 <? tokens w). Qed.

(** ** The invariant *)

Definition count (f : stage -> bool) (l : list stage) : Z :=
  Z.of_nat (sum_list_with (fun s => if f s then 1 else 0)%nat l).

Definition holds_token (s : stage) : bool :=
  match s with Sent | Added _ | Counted _ | Loaded _ _ | Owned | InTable _ | Finishing => true | _ => false end.
Definition is_sent (s : stage) : bool := match s with Sent => true | _ => false end.
Definition is_taken (s : stage) : bool := match s with Taken => true | _ => false end.
(** Acquired and not yet given back. *)
Definition is_held (s : stage) : bool :=
  match s with Added _ | Counted _ | Loaded _ _ | Owned | InTable _ | Finishing => true | _ => false end.
Definition table_size (g : slots) : Z := Z.of_nat (size (s_table g)).
Definition in_table (s : stage) : bool := match s with InTable _ => true | _ => false end.
(** In between [inUse.Add(1)] and [inUse.Add(^uint32(0))]. *)
Definition in_use (s : stage) : bool :=
  match s with Added _ | Counted _ | Loaded _ _ | Owned | InTable _ | Finishing | Taken => true | _ => false end.

Record slots_inv (g : slots) : Prop := {
  si_tokens : tokens (s_window g) = count holds_token (s_calls g);
  si_capacity : 0 <= tokens (s_window g) <= capacity (s_window g);
  si_inUse : inUse (s_window g) = u32 (count in_use (s_calls g));
  si_underflows : underflows (s_window g) = 0;
  si_table i s : s_table g !! s = Some i -> s_calls g !! i = Some (InTable s);
  si_size : Z.of_nat (size (s_table g)) = count in_table (s_calls g);
  si_limit : count in_table (s_calls g) <= s_max g;
  si_high : 0 <= high (s_window g) <= s_peak g;
  si_below i s n : s_calls g !! i = Some s -> acquiring_value s = Some n -> n <= s_peak g;
  si_loaded i n old : s_calls g !! i = Some (Loaded n old) -> old <= high (s_window g);
  si_peak : high (s_window g) = s_peak g \/
    exists i s, s_calls g !! i = Some s /\ acquiring_value s = Some (s_peak g)
}.

Lemma count_nonneg f l : 0 <= count f l.
Proof. unfold count. lia. Qed.
Lemma count_app f l s : count f (l ++ [s]) = count f l + (if f s then 1 else 0).
Proof. unfold count. rewrite sum_list_with_app. cbn. destruct (f s); lia. Qed.
Lemma calls_cons f x l : count f (x :: l) = (if f x then 1 else 0) + count f l.
Proof. unfold count. cbn. destruct (f x); lia. Qed.
Lemma count_insert f l i s s' : l !! i = Some s ->
  count f (<[i := s']> l) = count f l - (if f s then 1 else 0) + (if f s' then 1 else 0).
Proof.
  revert i. induction l as [|x l IH]; intros [|i] Hi; [done..| |].
  - injection Hi as ->. change (<[0%nat := s']> (s :: l)) with (s' :: l). rewrite !calls_cons. lia.
  - change (<[S i := s']> (x :: l)) with (x :: <[i := s']> l). rewrite !calls_cons, (IH i Hi). lia.
Qed.
Lemma count_map f g l : (forall s, f (g s) = f s) -> count f (map g l) = count f l.
Proof. intros H. induction l as [|x l IH]; [done|]. cbn [map]. rewrite !calls_cons, H, IH. done. Qed.
Lemma calls_pos f l i s : l !! i = Some s -> f s = true -> 0 < count f l.
Proof.
  revert i. induction l as [|x l IH]; intros [|i] Hi Hf; [done..| |]; rewrite calls_cons.
  - injection Hi as ->. rewrite Hf. pose proof (count_nonneg f l). lia.
  - specialize (IH i Hi Hf). destruct (f x); lia.
Qed.

(** A subtraction of one without a signed atomic. *)
Lemma u32_minus n : u32 (u32 n + (2 ^ 32 - 1)) = u32 (n - 1).
Proof.
  unfold u32. rewrite Zplus_mod_idemp_l. replace (n + (2 ^ 32 - 1)) with (n - 1 + 1 * 2 ^ 32) by lia.
  by rewrite Z.mod_add by lia.
Qed.
Lemma u32_plus n : u32 (u32 n + 1) = u32 (n + 1).
Proof. unfold u32. by rewrite Zplus_mod_idemp_l. Qed.
Lemma u32_nonneg n : 0 <= u32 n.
Proof. unfold u32. apply Z.mod_pos_bound. lia. Qed.

(** What a step of one call does to the counts. *)
Lemma window_step_counts slot w s w' s' : window_step slot w s = Some (w', s') ->
  (holds_token s = true -> 0 < tokens w) -> 0 <= tokens w <= capacity w ->
  let one (b : bool) := if b then 1 else 0 in
  tokens w' = tokens w - one (holds_token s) + one (holds_token s') /\ 0 <= tokens w' <= capacity w' /\
  (forall n, inUse w = u32 n -> inUse w' = u32 (n - one (in_use s) + one (in_use s'))) /\
  underflows w' = underflows w /\ in_table s = false /\ in_table s' = false.
Proof.
  intros Hs Hpos Hcap. cbv zeta.
  destruct s as [wait| | | |n|n|n old| |sq| | |]; cbn in Hs; cbn [holds_token in_use in_table] in *;
    repeat case_match; simplify_eq/=; rewrite ?Z.ltb_lt in *; split_and!; try lia; try done;
    try (intros k ->; rewrite ?u32_plus, ?u32_minus; f_equal; lia).
  all: try (specialize (Hpos eq_refl); rewrite Z.ltb_ge in *; lia).
Qed.

(** What it does to the high-water mark. *)
Lemma window_step_high slot w s w' s' peak : window_step slot w s = Some (w', s') ->
  0 <= high w <= peak -> (forall n, acquiring_value s = Some n -> n <= peak) ->
  (forall n old, s = Loaded n old -> old <= high w) ->
  high w <= high w' <= raise_peak peak s' /\
  (forall n, acquiring_value s' = Some n -> n <= raise_peak peak s') /\
  (forall n old, s' = Loaded n old -> old <= high w') /\
  (acquiring_value s = Some peak -> acquiring_value s' = Some peak \/ high w' = peak) /\
  (raise_peak peak s' <> peak -> acquiring_value s' = Some (raise_peak peak s')) /\
  (high w = peak -> high w' = peak).
Proof.
  intros Hs Hh Hv Hl. destruct s as [wait| | | |n|n|n old| |sq| | |]; cbn in Hs; cbn [acquiring_value] in *;
    repeat case_match; simplify_eq/=; rewrite ?Z.leb_le, ?Z.leb_gt, ?Z.eqb_eq in *.
  all: try (specialize (Hv _ eq_refl)); try (specialize (Hl _ _ eq_refl)).
  all: split_and!; intros; simplify_eq/=; try done; try lia; auto with lia.
  all: try (f_equal; lia).
Qed.

Lemma moved_lookup (l : list stage) i s' j x : <[i := s']> l !! j = Some x ->
  j = i /\ x = s' \/ j <> i /\ l !! j = Some x.
Proof.
  intros [(<- & -> & _)|[Hne H]]%list_lookup_insert_Some; [by left|right]. split; [congruence|done].
Qed.

Lemma gmove_inv g i s slot w' s' : s_calls g !! i = Some s -> window_step slot (s_window g) s = Some (w', s') ->
  slots_inv g -> slots_inv (MkSlots w' (s_max g) (s_table g) (<[i := s']> (s_calls g)) (raise_peak (s_peak g) s')).
Proof.
  intros Hi Hs Hg.
  assert (Hlt : (i < length (s_calls g))%nat) by (by apply lookup_lt_is_Some; exists s).
  destruct (window_step_counts _ _ _ _ _ Hs) as (Ht & Hc & Hu & Hf & Hn & Hn'); [|apply Hg|].
  { intros Hp. rewrite (si_tokens _ Hg). by eapply calls_pos. }
  destruct (window_step_high _ _ _ _ _ (s_peak g) Hs) as (H1 & H2 & H3 & H4 & H5 & H6);
    [apply Hg|intros n; by apply (si_below _ Hg i s n)|intros n old ->; by apply (si_loaded _ Hg i n)|].
  pose proof (si_high _ Hg) as Hh.
  assert (Hraise : s_peak g <= raise_peak (s_peak g) s') by (destruct s'; cbn; lia).
  split; cbn [s_window s_max s_table s_calls s_peak]; rewrite ?(count_insert _ _ _ s s' Hi), ?Hn, ?Hn', ?Hf; try apply Hg.
  - rewrite Ht, (si_tokens _ Hg). done.
  - done.
  - apply Hu, Hg.
  - intros j sq Hj. apply (si_table _ Hg) in Hj. destruct (decide (i = j)) as [-> |Hne]; [|by rewrite list_lookup_insert_ne].
    rewrite Hi in Hj. injection Hj as ->. done.
  - rewrite (si_size _ Hg). lia.
  - pose proof (si_limit _ Hg). lia.
  - lia.
  - intros j x n [[-> ->]|[_ Hj]]%moved_lookup Hx; [by apply H2|]. pose proof (si_below _ Hg j x n Hj Hx). lia.
  - intros j n old [[_ Heq]|[_ Hj]]%moved_lookup; [by eapply H3|]. pose proof (si_loaded _ Hg j n old Hj). lia.
  - destruct (decide (raise_peak (s_peak g) s' = s_peak g)) as [Heq|Hne].
    + rewrite Heq. destruct (si_peak _ Hg) as [Hp|(j & x & Hj & Hx)]; [left; auto|].
      destruct (decide (i = j)) as [-> |Hij].
      * rewrite Hi in Hj. injection Hj as <-. destruct (H4 Hx) as [H|H]; [right|by left].
        exists j, s'. split; [by apply list_lookup_insert_eq|done].
      * right. exists j, x. by rewrite list_lookup_insert_ne.
    + right. exists i, s'. split; [by apply list_lookup_insert_eq|auto].
Qed.

(** A call moves on without touching the window. *)
Lemma replaced_inv g i s s' table : s_calls g !! i = Some s ->
  holds_token s = true -> holds_token s' = true -> in_use s = true -> in_use s' = true ->
  acquiring_value s = None -> acquiring_value s' = None ->
  (forall j sq, table !! sq = Some j -> <[i := s']> (s_calls g) !! j = Some (InTable sq)) ->
  Z.of_nat (size table) = count in_table (s_calls g) - (if in_table s then 1 else 0) + (if in_table s' then 1 else 0) ->
  Z.of_nat (size table) <= s_max g ->
  slots_inv g -> slots_inv (MkSlots (s_window g) (s_max g) table (<[i := s']> (s_calls g)) (s_peak g)).
Proof.
  intros Hi H1 H2 H3 H4 H5 H6 Htab Hsize Hmax Hg.
  split; cbn [s_window s_max s_table s_calls s_peak]; rewrite ?(count_insert _ _ _ s s' Hi), ?H1, ?H2, ?H3, ?H4; try apply Hg.
  - rewrite (si_tokens _ Hg). lia.
  - rewrite (si_inUse _ Hg). f_equal. lia.
  - done.
  - done.
  - lia.
  - intros j x n [[-> ->]|[_ Hj]]%moved_lookup Hx; [congruence|]. by eapply (si_below _ Hg).
  - intros j n old [[_ <-]|[_ Hj]]%moved_lookup; [done|]. by eapply (si_loaded _ Hg).
  - destruct (si_peak _ Hg) as [Hp|(j & x & Hj & Hx)]; [by left|right]. exists j, x. split; [|done].
    destruct (decide (i = j)) as [-> |Hij]; [congruence|by rewrite list_lookup_insert_ne].
Qed.

Lemma failed_inv g : slots_inv g ->
  slots_inv (MkSlots (s_window g) (s_max g) ∅ (map leave_table (s_calls g)) (s_peak g)).
Proof.
  intros Hg. assert (Hl : forall j x, map leave_table (s_calls g) !! j = Some x ->
    exists y, s_calls g !! j = Some y /\ x = leave_table y).
  { intros j x Hj. apply list_lookup_fmap_Some in Hj as (y & -> & Hy). eauto. }
  assert (H0 : count in_table (map leave_table (s_calls g)) = 0).
  { clear. induction (s_calls g) as [|x l IH]; [done|]. cbn [map]. rewrite calls_cons, IH. by destruct x. }
  pose proof (si_limit _ Hg). pose proof (count_nonneg in_table (s_calls g)).
  split; cbn [s_window s_max s_table s_calls s_peak]; rewrite ?(count_map holds_token), ?(count_map in_use), ?H0;
    try apply Hg; try (by intros []); try done; try lia.
  - intros j x n (y & Hy & ->)%Hl Hx. apply (si_below _ Hg j y n Hy). by destruct y.
  - intros j n old (y & Hy & Heq)%Hl. destruct y; try done. simplify_eq/=. by eapply (si_loaded _ Hg).
  - destruct (si_peak _ Hg) as [Hp|(j & x & Hj & Hx)]; [by left|right]. exists j, x. split; [|done].
    apply list_lookup_fmap_Some. exists x. split; [|done]. by destruct x.
Qed.

Lemma gstep_inv g g' : gstep g g' -> slots_inv g -> slots_inv g'.
Proof.
  intros Hs Hg. destruct Hs as [g wait|g i s slot w' s' Hi Hs|g i sq Hi Hno Hlt|g i Hi|g i sq Hm|g].
  - split; cbn [s_window s_max s_table s_calls s_peak]; rewrite ?count_app; cbn [holds_token in_use in_table];
      rewrite ?Z.add_0_r; try apply Hg.
    + intros i sq Hi%(si_table _ Hg). by apply lookup_app_l_Some.
    + intros i s n [Hi|[_ Hi]]%lookup_app_Some Hn; [by eapply (si_below _ Hg)|].
      apply list_lookup_singleton_Some in Hi as [_ <-]. done.
    + intros i n old [Hi|[_ Hi]]%lookup_app_Some; [by eapply (si_loaded _ Hg)|].
      apply list_lookup_singleton_Some in Hi as [_ Hi]. done.
    + destruct (si_peak _ Hg) as [Hp|(i & s & Hi & Hv)]; [by left|right]. exists i, s. split; [|done].
      by apply lookup_app_l_Some.
  - by eapply gmove_inv.
  - assert (Hsz : Z.of_nat (size (<[sq := i]> (s_table g))) = count in_table (s_calls g) + 1).
    { rewrite map_size_insert_None by done. rewrite <- (si_size _ Hg). lia. }
    apply (replaced_inv g i Owned); try done; cbn [in_table]; [|lia|].
    + intros j sq' [[<- <-]|[Hne Hj]]%lookup_insert_Some.
      * apply list_lookup_insert_eq. by apply lookup_lt_is_Some; exists Owned.
      * apply (si_table _ Hg) in Hj. destruct (decide (i = j)) as [-> |Hij]; [congruence|by rewrite list_lookup_insert_ne].
    + rewrite Hsz, <- (si_size _ Hg). lia.
  - apply (replaced_inv g i Owned); try done; cbn [in_table].
    + intros j sq' Hj%(si_table _ Hg). destruct (decide (i = j)) as [-> |Hij]; [congruence|by rewrite list_lookup_insert_ne].
    + rewrite (si_size _ Hg). lia.
    + rewrite (si_size _ Hg). apply Hg.
  - pose proof (si_table _ Hg _ _ Hm) as Hi. pose proof (si_size _ Hg) as Hsz. pose proof (si_limit _ Hg).
    pose proof (calls_pos in_table _ _ _ Hi eq_refl).
    assert (Hd : Z.of_nat (size (delete sq (s_table g))) = count in_table (s_calls g) - 1).
    { rewrite map_size_delete, Hm. lia. }
    apply (replaced_inv g i (InTable sq)); try done; cbn [in_table]; [|lia|lia].
    intros j sq' [Hne Hj]%lookup_delete_Some. apply (si_table _ Hg) in Hj.
    destruct (decide (i = j)) as [-> |Hij]; [congruence|by rewrite list_lookup_insert_ne].
  - by apply failed_inv.
Qed.

Lemma gsteps_inv g g' : rtc gstep g g' -> slots_inv g -> slots_inv g'.
Proof. induction 1; eauto using gstep_inv. Qed.

Lemma slots_initial_inv size limit : 0 <= size < 4294967296 -> 0 <= limit -> slots_inv (slots_initial size limit).
Proof. intros. split; cbn; rewrite ?u32_small by lia; try done; try lia; auto. Qed.

Lemma window_step_capacity slot w s w' s' : window_step slot w s = Some (w', s') -> capacity w' = capacity w.
Proof. intros Hs. destruct s; cbn in Hs; repeat case_match; by simplify_eq/=. Qed.
Lemma gsteps_capacity g g' : rtc gstep g g' ->
  capacity (s_window g') = capacity (s_window g) /\ s_max g' = s_max g.
Proof.
  induction 1 as [|x y z Hs _ [IH IH']]; [done|]. rewrite IH, IH'. destruct Hs; cbn; try done.
  split; [by eapply window_step_capacity|done].
Qed.

Lemma in_use_split l : count in_use l = count holds_token l - count is_sent l + count is_taken l.
Proof. induction l as [|s l IH]; [done|]. rewrite !calls_cons, IH. destruct s; cbn; lia. Qed.
Lemma held_split l : count holds_token l = count is_sent l + count is_held l.
Proof. induction l as [|s l IH]; [done|]. rewrite !calls_cons, IH. destruct s; cbn; lia. Qed.

(** C25: The request window under every interleaving of its atomic operations.  However
    the calls of [acquire] and [release] of all goroutines are cut into one another, and
    whatever requests enter and leave the table meanwhile: there is one token in the
    channel for every slot that was acquired and not given back, never more than the
    capacity; [InUse] is that number, less the acquisitions that have sent their token
    and not yet counted it, plus the releases that have received theirs and not yet
    counted it, so it is exact whenever no call is at one of these two points; every
    request in the table has a slot and the table keeps to its limit; [HighWater] never
    exceeds the highest value an acquisition found, and is exactly that once the
    acquisitions are through; and no release ever finds the channel empty
    ([Underflows] is zero). *)
Theorem window_slots_accounted size limit g :
  0 <= size < 4294967296 -> 0 <= limit -> rtc gstep (slots_initial size limit) g ->
  let w := s_window g in
  let number f := count f (s_calls g) in
  Capacity (snapshot w) = size /\
  tokens w = number is_sent + number is_held /\ 0 <= tokens w <= size /\
  InUse (snapshot w) = u32 (tokens w - number is_sent + number is_taken) /\
  (number is_sent = 0 -> number is_taken = 0 -> InUse (snapshot w) = tokens w) /\
  table_size g = number in_table /\ number in_table <= number is_held /\ table_size g <= limit /\
  HighWater (snapshot w) <= s_peak g /\
  (Forall (fun s => acquiring_value s = None) (s_calls g) -> HighWater (snapshot w) = s_peak g) /\
  Underflows (snapshot w) = 0.
Proof.
  intros Hs Hl Hg. cbv zeta.
  pose proof (gsteps_inv _ _ Hg (slots_initial_inv size limit Hs Hl)) as Hi.
  destruct (gsteps_capacity _ _ Hg) as [Hc Hm]. cbn in Hc, Hm. rewrite u32_small in Hc by lia.
  pose proof (si_tokens _ Hi) as Ht. pose proof (si_capacity _ Hi) as Hcap. pose proof (si_inUse _ Hi) as Hu.
  rewrite in_use_split, <- Ht in Hu. rewrite held_split in Ht. unfold table_size, snapshot.
  cbn [Capacity InUse HighWater Underflows]. split_and!; try done; try lia.
  - intros H1 H2. rewrite Hu, H1, H2, u32_small by lia. lia.
  - apply Hi.
  - clear. induction (s_calls g) as [|s l IH]; [done|]. rewrite !calls_cons. destruct s; cbn; lia.
  - rewrite (si_size _ Hi), <- Hm. apply Hi.
  - apply Hi.
  - intros Hno. destruct (si_peak _ Hi) as [H|(i & s & Hi' & Hv)]; [done|].
    rewrite (Forall_lookup_1 _ _ _ _ Hno Hi') in Hv. done.
  - apply Hi.
Qed.

(** One slot, and two callers.  The first has received its token back but not yet
    subtracted from [inUse] when the second acquires: [InUse] is 2 for a moment, and
    [HighWater] stays 2 for good. *)
Definition move (i : nat) (g : slots) : slots :=
  match s_calls g !! i with
  | Some s => match window_step true (s_window g) s with
              | Some (w', s') => MkSlots w' (s_max g) (s_table g) (<[i := s']> (s_calls g)) (raise_peak (s_peak g) s')
              | None => g
              end
  | None => g
  end.
Lemma move_step i g : rtc gstep g (move i g).
Proof.
  unfold move. destruct (s_calls g !! i) as [s|] eqn:Hi; [|done].
  destruct (window_step true (s_window g) s) as [[w' s']|] eqn:Hs; [|done]. apply rtc_once. by eapply GMove.
Qed.
Definition call_acquire (wait : bool) (g : slots) : slots :=
  MkSlots (s_window g) (s_max g) (s_table g) (s_calls g ++ [Trying wait]) (s_peak g).
Definition hand_back (i : nat) (g : slots) : slots :=
  MkSlots (s_window g) (s_max g) (s_table g) (<[i := Finishing]> (s_calls g)) (s_peak g).
Fixpoint moves (k i : nat) (g : slots) : slots :=
  match k with O => g | S k => moves k i (move i g) end.
Lemma moves_steps k i : forall g, rtc gstep g (moves k i g).
Proof. induction k as [|k IH]; intros g; [done|]. cbn [moves]. etrans; [apply move_step|apply IH]. Qed.

Definition first_slot : slots := moves 7 0 (call_acquire true (slots_initial 1 1)).
Definition overlapped : slots := moves 1 0 (moves 7 1 (moves 1 0 (hand_back 0 (call_acquire true first_slot)))).

Lemma overlapped_reachable : rtc gstep (slots_initial 1 1) overlapped.
Proof.
  transitivity first_slot.
  { apply (rtc_l _ _ (call_acquire true (slots_initial 1 1))); [apply GCall|apply moves_steps]. }
  apply (rtc_l _ _ (call_acquire true first_slot)); [apply GCall|].
  apply (rtc_l _ _ (hand_back 0 (call_acquire true first_slot))); [apply GGiveUp; vm_compute; reflexivity|].
  unfold overlapped. generalize (hand_back 0 (call_acquire true first_slot)). intros g.
  transitivity (moves 1 0 g); [apply moves_steps|].
  transitivity (moves 7 1 (moves 1 0 g)); apply moves_steps.
Qed.

Lemma high_water_overshoots : rtc gstep (slots_initial 1 1) overlapped /\
  snapshot (s_window overlapped) = MkWindowSnapshot 1 1 2 2 0 0 /\ s_calls overlapped = [Gone; Owned].
Proof. split; [apply overlapped_reachable|]. split; vm_compute; reflexivity. Qed.

Lemma window_slots_accounted_witness : rtc gstep (slots_initial 1 1) overlapped /\
  InUse (snapshot (s_window overlapped)) = tokens (s_window overlapped) /\
  HighWater (snapshot (s_window overlapped)) = s_peak overlapped.
Proof.
  pose proof overlapped_reachable as Hr. split; [exact Hr|].
  destruct (window_slots_accounted 1 1 overlapped ltac:(lia) ltac:(lia) Hr)
    as (_ & _ & _ & _ & H1 & _ & _ & _ & _ & H2 & _). split.
  - apply H1; vm_compute; reflexivity.
  - apply H2. apply (bool_decide_unpack _). vm_compute. exact I.
Defined.
End Slots.
