(* ===== verification/Encoding.v ===== *)
(** * Character encodings (src/encoding: gsm7.go, unicode.go)

    Text is a Go string: UTF-8 octets.  What the code uses of Go's strings
    ([utf8.ValidString], [range], [string(runes)], [strings.Builder.WriteRune])
    and of [unicode/utf16] comes first, then the GSM 03.38 alphabet and its
    septet packing, UCS-2 and UTF-16BE, and the choice between them.

    The encoders and decoders are inverse to each other as relations: an encoder
    yields some octets exactly when the decoder yields the text back. *)

From S2P Require Import Prelude Protocol.

(** ** Go strings *)

(** A Unicode scalar value, [utf8.ValidRune]. *)
Definition scalar (r : Z) : bool :=
  ((0 <=? r) && (r <? 0xd800)) || ((0xdfff <? r) && (r <=? 0x10ffff)).

(** [utf8.AppendRune]: what is not a scalar value is written as U+FFFD. *)
Definition utf8_put (rune : Z) : bytes :=
  let r := if scalar rune then rune else 0xfffd in
  if r <? 0x80 then [r]
  else if r <? 0x800 then [0xc0 + r / 64; 0x80 + r mod 64]
  else if r <? 0x10000 then [0xe0 + r / 4096; 0x80 + r / 64 mod 64; 0x80 + r mod 64]
  else [0xf0 + r / 262144; 0x80 + r / 4096 mod 64; 0x80 + r / 64 mod 64; 0x80 + r mod 64].

(** [string(runes)]. *)
Definition utf8 (runes : list Z) : bytes := concat (map utf8_put runes).

Definition continuation (b : Z) : bool := (0x80 <=? b) && (b <? 0xc0).
Definition rune2 (b0 b1 : Z) : Z := (b0 - 0xc0) * 64 + (b1 - 0x80).
Definition rune3 (b0 b1 b2 : Z) : Z := (b0 - 0xe0) * 4096 + (b1 - 0x80) * 64 + (b2 - 0x80).
Definition rune4 (b0 b1 b2 b3 : Z) : Z :=
  (b0 - 0xf0) * 262144 + (b1 - 0x80) * 4096 + (b2 - 0x80) * 64 + (b3 - 0x80).
Definition valid2 (b0 b1 : Z) : bool :=
  (0xc0 <=? b0) && (b0 <? 0xe0) && continuation b1 && (0x80 <=? rune2 b0 b1).
Definition valid3 (b0 b1 b2 : Z) : bool :=
  (0xe0 <=? b0) && (b0 <? 0xf0) && continuation b1 && continuation b2 &&
  (0x800 <=? rune3 b0 b1 b2) && scalar (rune3 b0 b1 b2).
Definition valid4 (b0 b1 b2 b3 : Z) : bool :=
  (0xf0 <=? b0) && (b0 <? 0xf8) && continuation b1 && continuation b2 && continuation b3 &&
  (0x10000 <=? rune4 b0 b1 b2 b3) && scalar (rune4 b0 b1 b2 b3).

(** The runes [range text] visits, [None] when [utf8.ValidString text] is false. *)
Fixpoint runes (text : bytes) : option (list Z) :=
  match text with
  | [] => Some []
  | b0 :: t =>
      if (0 <=? b0) && (b0 <? 0x80) then cons b0 <$> runes t
      else match t with
      | [] => None
      | b1 :: t =>
          if valid2 b0 b1 then cons (rune2 b0 b1) <$> runes t
          else match t with
          | [] => None
          | b2 :: t =>
              if valid3 b0 b1 b2 then cons (rune3 b0 b1 b2) <$> runes t
              else match t with
              | [] => None
              | b3 :: t =>
                  if valid4 b0 b1 b2 b3 then cons (rune4 b0 b1 b2 b3) <$> runes t else None
              end
          end
      end
  end.

Ltac tobool := repeat match goal with
  | |- context [?a <=? ?b] => destruct (Z.leb_spec a b); try lia
  | |- context [?a <? ?b] => destruct (Z.ltb_spec a b); try lia
  end.

Lemma scalar_spec r : scalar r = true <-> 0 <= r < 0xd800 \/ 0xdfff < r <= 0x10ffff.
Proof. unfold scalar. lia. Qed.

Lemma runes_put r rest : scalar r = true -> runes (utf8_put r ++ rest) = cons r <$> runes rest.
Proof.
  intros Hr. unfold utf8_put. rewrite Hr. pose proof (proj1 (scalar_spec r) Hr) as Hs.
  destruct (Z.ltb_spec r 0x80); [|destruct (Z.ltb_spec r 0x800); [|destruct (Z.ltb_spec r 0x10000)]];
    cbn [app runes].
  - assert ((0 <=? r) && (r <? 128) = true) as -> by lia. done.
  - assert ((0 <=? 192 + r / 64) && (192 + r / 64 <? 128) = false) as -> by zdiv.
    assert (rune2 (192 + r / 64) (128 + r mod 64) = r) as Heq by (unfold rune2; zdiv).
    assert (valid2 (192 + r / 64) (128 + r mod 64) = true) as ->.
    { unfold valid2, continuation. rewrite Heq. zdiv. }
    by rewrite Heq.
  - assert ((0 <=? 224 + r / 4096) && (224 + r / 4096 <? 128) = false) as -> by zdiv.
    assert (valid2 (224 + r / 4096) (128 + r / 64 mod 64) = false) as ->
      by (unfold valid2, continuation; zdiv).
    assert (rune3 (224 + r / 4096) (128 + r / 64 mod 64) (128 + r mod 64) = r) as Heq
      by (unfold rune3; zdiv).
    assert (valid3 (224 + r / 4096) (128 + r / 64 mod 64) (128 + r mod 64) = true) as ->.
    { unfold valid3, continuation. rewrite Heq, Hr. zdiv. }
    by rewrite Heq.
  - set (b0 := 240 + r / 262144). set (b1 := 128 + r / 4096 mod 64).
    set (b2 := 128 + r / 64 mod 64). set (b3 := 128 + r mod 64).
    assert (Hb : 240 <= b0 <= 244 /\ 128 <= b1 < 192 /\ 128 <= b2 < 192 /\ 128 <= b3 < 192)
      by (unfold b0, b1, b2, b3; zdiv).
    assert (rune4 b0 b1 b2 b3 = r) as Heq by (unfold rune4, b0, b1, b2, b3; zdiv).
    assert ((0 <=? b0) && (b0 <? 128) = false) as -> by lia.
    assert (valid2 b0 b1 = false) as -> by (unfold valid2; lia).
    assert (valid3 b0 b1 b2 = false) as -> by (unfold valid3; lia).
    assert (valid4 b0 b1 b2 b3 = true) as ->.
    { unfold valid4, continuation. rewrite Heq, Hr. lia. }
    by rewrite Heq.
Qed.

Lemma runes_utf8 rs : Forall (fun r => scalar r = true) rs -> runes (utf8 rs) = Some rs.
Proof.
  induction 1 as [|r rs Hr _ IH]; [done|]. unfold utf8 in *. cbn [map concat].
  by rewrite runes_put, IH.
Qed.

(** A list is worked through up to four elements at a time. *)
Lemma list_short_ind {A} (P : list A -> Prop) :
  (forall l, (forall l', (length l' < length l)%nat -> P l') -> P l) -> forall l, P l.
Proof. intros H l. by apply (induction_ltof1 _ (@length A)). Qed.

Lemma put2 b0 b1 : valid2 b0 b1 = true ->
  utf8_put (rune2 b0 b1) = [b0; b1] /\ scalar (rune2 b0 b1) = true.
Proof.
  unfold valid2, continuation, utf8_put. intros H.
  assert (scalar (rune2 b0 b1) = true) as Hs by (unfold scalar, rune2 in *; lia). rewrite Hs.
  assert (0x80 <= rune2 b0 b1 < 0x800) by (unfold rune2 in *; lia).
  assert ((rune2 b0 b1 <? 128) = false) as -> by lia. assert ((rune2 b0 b1 <? 2048) = true) as -> by lia.
  split; [|done]. unfold rune2 in *. repeat f_equal; zdiv.
Qed.
Lemma put3 b0 b1 b2 : valid3 b0 b1 b2 = true ->
  utf8_put (rune3 b0 b1 b2) = [b0; b1; b2] /\ scalar (rune3 b0 b1 b2) = true.
Proof.
  unfold valid3, continuation, utf8_put. intros H.
  apply andb_true_iff in H as [H Hs]. rewrite Hs.
  assert (0x800 <= rune3 b0 b1 b2 < 0x10000) by (clear Hs; unfold rune3 in *; lia).
  assert ((rune3 b0 b1 b2 <? 128) = false) as -> by lia.
  assert ((rune3 b0 b1 b2 <? 2048) = false) as -> by lia.
  assert ((rune3 b0 b1 b2 <? 65536) = true) as -> by lia.
  split; [|done]. unfold rune3 in *. repeat f_equal; zdiv.
Qed.
Lemma put4 b0 b1 b2 b3 : valid4 b0 b1 b2 b3 = true ->
  utf8_put (rune4 b0 b1 b2 b3) = [b0; b1; b2; b3] /\ scalar (rune4 b0 b1 b2 b3) = true.
Proof.
  unfold valid4, continuation, utf8_put. intros H.
  apply andb_true_iff in H as [H Hs]. rewrite Hs.
  assert ((rune4 b0 b1 b2 b3 <? 128) = false) as -> by lia.
  assert ((rune4 b0 b1 b2 b3 <? 2048) = false) as -> by lia.
  assert ((rune4 b0 b1 b2 b3 <? 65536) = false) as -> by lia.
  split; [|done]. unfold rune4 in *. repeat f_equal; zdiv.
Qed.

Lemma runes_inv text : forall rs, runes text = Some rs ->
  text = utf8 rs /\ Forall (fun r => scalar r = true) rs.
Proof.
  induction text as [text IH] using list_short_ind. intros rs.
  assert (Hstep : forall r pre t,
    text = pre ++ t -> pre <> [] -> utf8_put r = pre /\ scalar r = true ->
    cons r <$> runes t = Some rs -> text = utf8 rs /\ Forall (fun r => scalar r = true) rs).
  { intros r pre t -> Hne [Hp Hr] Hc. apply fmap_Some in Hc as (rs' & Hrs & ->).
    apply IH in Hrs as [-> Hall]; [|destruct pre; [done|]; len].
    split; [|by constructor]. unfold utf8. cbn [map concat]. by rewrite Hp. }
  destruct text as [|b0 t]; [intros [= <-]; done|]. cbn [runes].
  destruct ((0 <=? b0) && (b0 <? 0x80)) eqn:H1.
  { apply (Hstep b0 [b0]); [done..|]. unfold utf8_put, scalar. destruct (_ || _) eqn:?; [|lia].
    destruct (Z.ltb_spec b0 128); [done|lia]. }
  destruct t as [|b1 t]; [done|]. destruct (valid2 b0 b1) eqn:H2.
  { by apply (Hstep _ [b0; b1]); [..|apply put2]. }
  destruct t as [|b2 t]; [done|]. destruct (valid3 b0 b1 b2) eqn:H3.
  { by apply (Hstep _ [b0; b1; b2]); [..|apply put3]. }
  destruct t as [|b3 t]; [done|]. destruct (valid4 b0 b1 b2 b3) eqn:H4; [|done].
  by apply (Hstep _ [b0; b1; b2; b3]); [..|apply put4].
Qed.

(** ** gsm7.go: the GSM 03.38 alphabet *)

Definition gsmEscape : Z := 0x1b.

(** The default alphabet by septet, as code points; the escape is zero. *)
Definition gsmDefault : list Z :=
  [0x40; 0xa3; 0x24; 0xa5; 0xe8; 0xe9; 0xf9; 0xec; 0xf2; 0xc7; 0x0a; 0xd8; 0xf8; 0x0d; 0xc5; 0xe5;
   0x394; 0x5f; 0x3a6; 0x393; 0x39b; 0x3a9; 0x3a0; 0x3a8; 0x3a3; 0x398; 0x39e; 0; 0xc6; 0xe6; 0xdf; 0xc9;
   0x20; 0x21; 0x22; 0x23; 0xa4; 0x25; 0x26; 0x27; 0x28; 0x29; 0x2a; 0x2b; 0x2c; 0x2d; 0x2e; 0x2f;
   0x30; 0x31; 0x32; 0x33; 0x34; 0x35; 0x36; 0x37; 0x38; 0x39; 0x3a; 0x3b; 0x3c; 0x3d; 0x3e; 0x3f;
   0xa1; 0x41; 0x42; 0x43; 0x44; 0x45; 0x46; 0x47; 0x48; 0x49; 0x4a; 0x4b; 0x4c; 0x4d; 0x4e; 0x4f;
   0x50; 0x51; 0x52; 0x53; 0x54; 0x55; 0x56; 0x57; 0x58; 0x59; 0x5a; 0xc4; 0xd6; 0xd1; 0xdc; 0xa7;
   0xbf; 0x61; 0x62; 0x63; 0x64; 0x65; 0x66; 0x67; 0x68; 0x69; 0x6a; 0x6b; 0x6c; 0x6d; 0x6e; 0x6f;
   0x70; 0x71; 0x72; 0x73; 0x74; 0x75; 0x76; 0x77; 0x78; 0x79; 0x7a; 0xe4; 0xf6; 0xf1; 0xfc; 0xe0].

Definition gsmExtension : list (Z * Z) :=
  [(0x0a, 0x0c); (0x14, 0x5e); (0x28, 0x7b); (0x29, 0x7d); (0x2f, 0x5c); (0x3c, 0x5b);
   (0x3d, 0x7e); (0x3e, 0x5d); (0x40, 0x7c); (0x65, 0x20ac)].

(** A Go map literal, and the lookup in it. *)
Definition assoc (l : list (Z * Z)) (k : Z) : option Z := snd <$> List.find (fun p => fst p =? k) l.

(** The reverse tables [init] fills; a later entry for a rune would replace an
    earlier one, so the latest is searched first. *)
Definition gsmDefaultReverse : list (Z * Z) :=
  rev (filter (fun p => p.2 <> gsmEscape /\ p.1 <> 0) (zip gsmDefault (seqZ 0 128))).
Definition gsmExtensionReverse : list (Z * Z) := map (fun p => (p.2, p.1)) gsmExtension.

(** The septets of one rune in [EncodeGSM7]. *)
Definition encode_rune (r : Z) : res bytes :=
  match assoc gsmDefaultReverse r with
  | Some code => Ok [code]
  | None =>
      match assoc gsmExtensionReverse r with
      | Some code => Ok [gsmEscape; code]
      | None => Err (ESentinel ErrUnrepresentableRune)
      end
  end.

Fixpoint encode_runes (out : bytes) (rs : list Z) : res bytes :=
  match rs with
  | [] => Ok out
  | r :: rs => codes ← encode_rune r; encode_runes (out ++ codes) rs
  end.

Definition EncodeGSM7 (text : bytes) : res bytes :=
  match runes text with
  | None => Err (ESentinel ErrInvalidUnicode)
  | Some rs => encode_runes [] rs
  end.

(** [b] is the builder; the loop advances one septet, or two after an escape. *)
Fixpoint decode_septets (b : bytes) (septets : bytes) : res bytes :=
  match septets with
  | [] => Ok b
  | code :: septets =>
      if 0x7f <? code then Err (ESentinel ErrInvalidGSM7)
      else if code =? gsmEscape then
        match septets with
        | [] => Err (ESentinel ErrInvalidGSM7)
        | extension :: septets =>
            match assoc gsmExtension extension with
            | None => Err (ESentinel ErrInvalidGSM7)
            | Some r => decode_septets (b ++ utf8_put r) septets
            end
        end
      else
        match gsmDefault !! Z.to_nat code with
        | None => Panic
        | Some r =>
            if r =? 0 then Err (ESentinel ErrInvalidGSM7)
            else decode_septets (b ++ utf8_put r) septets
        end
  end.

Definition DecodeGSM7 (septets : bytes) : res bytes := decode_septets [] septets.

Definition GSM7SeptetCount (text : bytes) : res Z :=
  septets ← EncodeGSM7 text; Ok (zlen septets).

Definition CanEncodeGSM7 (text : bytes) : bool := is_ok (GSM7SeptetCount text).

(** *** The tables are inverse to each other *)

(** The septets that stand for one rune, and that rune. *)
Definition gsm_symbols : list (bytes * Z) :=
  map (fun p => ([p.2], p.1)) gsmDefaultReverse ++
  map (fun p => ([gsmEscape; p.1], p.2)) gsmExtension.

Definition symbol (codes : bytes) (r : Z) : Prop := (codes, r) ∈ gsm_symbols.

Definition check_symbol (p : bytes * Z) : bool :=
  match encode_rune p.2 with Ok codes => bool_decide (codes = p.1) | _ => false end &&
  scalar p.2 &&
  match p.1 with
  | [c] => (0 <=? c) && (c <=? 0x7f) && negb (c =? gsmEscape) &&
           bool_decide (gsmDefault !! Z.to_nat c = Some p.2) && negb (p.2 =? 0)
  | [x; e] => (x =? gsmEscape) && (0 <=? e) && (e <=? 0x7f) &&
              bool_decide (assoc gsmExtension e = Some p.2)
  | _ => false
  end.

Lemma symbol_check codes r : symbol codes r -> check_symbol (codes, r) = true.
Proof.
  intros H. assert (Hall : forallb check_symbol gsm_symbols = true) by (vm_compute; reflexivity).
  rewrite forallb_forall in Hall. by apply Hall, list_elem_of_In.
Qed.

Lemma assoc_elem l k v : assoc l k = Some v -> (k, v) ∈ l.
Proof.
  unfold assoc. destruct (List.find _ l) as [[k' v']|] eqn:Hf; [|done]. cbn. intros [= <-].
  apply List.find_some in Hf as [Hin Heq%Z.eqb_eq]. cbn in Heq. subst. by apply list_elem_of_In.
Qed.

Lemma symbol_default (c r : Z) : 0 <= c -> c <> gsmEscape -> r <> 0 ->
  gsmDefault !! Z.to_nat c = Some r -> symbol [c] r.
Proof.
  intros Hc He Hr Hl.
  assert (Hall : forallb (fun i => match gsmDefault !! i with
     | Some r => (Z.of_nat i =? gsmEscape) || bool_decide (([Z.of_nat i], r) ∈ gsm_symbols)
     | None => false end) (seq 0 128) = true) by (vm_compute; reflexivity).
  rewrite forallb_forall in Hall. specialize (Hall (Z.to_nat c)). rewrite Hl in Hall.
  rewrite Z2Nat.id in Hall by lia. apply lookup_lt_Some in Hl. change (length gsmDefault) with 128%nat in Hl.
  rewrite orb_true_iff, bool_decide_eq_true, Z.eqb_eq in Hall.
  destruct Hall as [H|H]; [apply in_seq; lia|done|done].
Qed.

Lemma symbol_extension e r : assoc gsmExtension e = Some r -> symbol [gsmEscape; e] r.
Proof.
  intros H%assoc_elem. apply elem_of_app. right. apply list_elem_of_fmap. by exists (e, r).
Qed.

Lemma encode_rune_symbol r codes : encode_rune r = Ok codes <-> symbol codes r.
Proof.
  split.
  - unfold encode_rune. destruct (assoc gsmDefaultReverse r) as [c|] eqn:H1.
    + intros [= <-]. apply assoc_elem in H1. apply elem_of_app. left.
      apply list_elem_of_fmap. by exists (r, c).
    + destruct (assoc gsmExtensionReverse r) as [c|] eqn:H2; [|done]. intros [= <-].
      apply assoc_elem, list_elem_of_fmap in H2 as ([e r'] & [= -> ->] & Hin).
      apply elem_of_app. right. apply list_elem_of_fmap. by exists (e, r').
  - intros H%symbol_check. unfold check_symbol in H. cbn in H.
    destruct (encode_rune r) as [c| |]; [|done..].
    rewrite !andb_true_iff, bool_decide_eq_true in H. by destruct H as [[-> _] _].
Qed.

(** A text in GSM 03.38: its runes and their septets. *)
Inductive gsm_text : list Z -> bytes -> Prop :=
| gsm_nil : gsm_text [] []
| gsm_cons r rs codes s : symbol codes r -> gsm_text rs s -> gsm_text (r :: rs) (codes ++ s).

Lemma gsm_text_scalar rs s : gsm_text rs s -> Forall (fun r => scalar r = true) rs.
Proof.
  induction 1 as [|r rs codes s H%symbol_check _ IH]; constructor; [|done].
  unfold check_symbol in H. cbn in H. rewrite !andb_true_iff in H. by destruct H as [[_ H] _].
Qed.

Lemma encode_runes_spec rs : forall out s,
  encode_runes out rs = Ok s <-> exists s', s = out ++ s' /\ gsm_text rs s'.
Proof.
  induction rs as [|r rs IH]; intros out s; cbn [encode_runes].
  - split; [intros [= <-]; exists []; split; [by rewrite app_nil_r|constructor]|].
    intros (s' & -> & H). inversion H. by rewrite app_nil_r.
  - split.
    + intros (codes & Hc%encode_rune_symbol & (s' & -> & Hs)%IH)%bind_ok_inv.
      exists (codes ++ s'). split; [by rewrite app_assoc|by constructor].
    + intros (s' & -> & H). inversion H as [|? ? codes s2 Hc Hs]; subst.
      apply encode_rune_symbol in Hc. rewrite Hc. cbn. apply IH. exists s2.
      split; [by rewrite app_assoc|done].
Qed.

Lemma EncodeGSM7_spec text s :
  EncodeGSM7 text = Ok s <-> exists rs, text = utf8 rs /\ gsm_text rs s.
Proof.
  unfold EncodeGSM7. split.
  - destruct (runes text) as [rs|] eqn:Hr; [|done]. apply runes_inv in Hr as [-> _].
    intros (s' & -> & H)%encode_runes_spec. eauto.
  - intros (rs & -> & H). rewrite runes_utf8 by by eapply gsm_text_scalar.
    apply encode_runes_spec. by exists s.
Qed.

Lemma decode_symbol codes r b s : symbol codes r ->
  decode_septets b (codes ++ s) = decode_septets (b ++ utf8_put r) s.
Proof.
  intros H%symbol_check. unfold check_symbol in H. cbn [fst snd] in H.
  apply andb_true_iff in H as [_ H]. destruct codes as [|c [|e [|]]]; [done| | |done].
  - rewrite !andb_true_iff, !negb_true_iff, bool_decide_eq_true, !Z.eqb_neq in H.
    destruct H as ((((? & ?) & ?) & Hl) & ?). cbn [app decode_septets].
    assert ((127 <? c) = false) as -> by lia. assert ((c =? gsmEscape) = false) as -> by lia.
    rewrite Hl. assert ((r =? 0) = false) as -> by lia. done.
  - rewrite !andb_true_iff, bool_decide_eq_true, Z.eqb_eq in H.
    destruct H as (((-> & ?) & ?) & Hl). cbn [app decode_septets].
    change (127 <? gsmEscape) with false. rewrite Z.eqb_refl. by rewrite Hl.
Qed.

Lemma decode_septets_spec s : bytes_ok s -> forall b text,
  decode_septets b s = Ok text <-> exists rs, text = b ++ utf8 rs /\ gsm_text rs s.
Proof.
  intros Hok b text. split.
  - revert Hok b text. induction s as [s IH] using list_short_ind. intros Hok b text.
    destruct s as [|code s]; cbn [decode_septets].
    { intros [= <-]. exists []. split; [by rewrite app_nil_r|constructor]. }
    apply bytes_ok_cons in Hok as [Hb Hok]. destruct (Z.ltb_spec 0x7f code); [done|].
    assert (Hsym : forall r pre t, symbol pre r -> code :: s = pre ++ t -> (length t < S (length s))%nat ->
      bytes_ok t -> decode_septets (b ++ utf8_put r) t = Ok text ->
      exists rs, text = b ++ utf8 rs /\ gsm_text rs (code :: s)).
    { intros r pre t Hs -> Ht Htok (rs & -> & H')%IH; [|done..]. exists (r :: rs).
      split; [unfold utf8; cbn; by rewrite app_assoc|by constructor]. }
    destruct (Z.eqb_spec code gsmEscape) as [-> |He].
    + destruct s as [|e s]; [done|]. destruct (assoc gsmExtension e) as [r|] eqn:Ha; [|done].
      apply (Hsym r [gsmEscape; e]); [by apply symbol_extension|done|cbn; lia|].
      by apply bytes_ok_cons in Hok as [_ Hok].
    + destruct (gsmDefault !! Z.to_nat code) as [r|] eqn:Hl; [|done].
      destruct (Z.eqb_spec r 0); [done|].
      apply (Hsym r [code]); [apply symbol_default; [lia|done..]|done|lia|done].
  - intros (rs & -> & H). clear Hok. revert b. induction H as [|r rs codes s Hs _ IH]; intros b.
    + cbn. by rewrite app_nil_r.
    + rewrite (decode_symbol codes r) by done. rewrite IH. unfold utf8. cbn. by rewrite app_assoc.
Qed.

(** GSM 03.38 encoding and decoding are inverse to each other: octets are the
    encoding of a text exactly when they decode to it.  A character of the
    extension table is an escape pair in both directions. *)
Theorem gsm7_exact text s :
  bytes_ok s -> EncodeGSM7 text = Ok s <-> DecodeGSM7 s = Ok text.
Proof.
  intros Hok. rewrite EncodeGSM7_spec. unfold DecodeGSM7. rewrite decode_septets_spec by done. done.
Qed.

(** The euro sign and an A. *)
Lemma gsm7_exact_witness : EncodeGSM7 [0xe2; 0x82; 0xac; 0x41] = Ok [0x1b; 0x65; 0x41].
Proof.
  apply (gsm7_exact [0xe2; 0x82; 0xac; 0x41] [0x1b; 0x65; 0x41]).
  - repeat constructor; lia.
  - vm_compute. reflexivity.
Defined.

(** ** gsm7.go: packing septets *)

(** [out[pos/8] |= 1 << (pos%8)]. *)
Definition or_bit (out : bytes) (pos : Z) : res bytes :=
  match out !! Z.to_nat (pos / 8) with
  | None => Panic
  | Some b => Ok (<[Z.to_nat (pos / 8) := Z.lor b (Z.shiftl 1 (pos mod 8))]> out)
  end.

Fixpoint pack_bits (septet bitPos : Z) (out : bytes) (bits : list Z) : res bytes :=
  match bits with
  | [] => Ok out
  | bit :: bits =>
      out ← (if negb (Z.land septet (Z.shiftl 1 bit) =? 0) then or_bit out (bitPos + bit) else Ok out);
      pack_bits septet bitPos out bits
  end.

Fixpoint pack_septets (out : bytes) (bitPos : Z) (septets : bytes) : res bytes :=
  match septets with
  | [] => Ok out
  | septet :: septets =>
      if 0x7f <? septet then Err (ESentinel ErrInvalidGSM7)
      else out ← pack_bits septet bitPos out (seqZ 0 7); pack_septets out (bitPos + 7) septets
  end.

Definition PackSeptetsWithFill (septets : bytes) (fillBits : Z) : res bytes :=
  if 6 <? fillBits then Err (ESentinel ErrInvalidGSM7)
  else if zlen septets =? 0 then (if fillBits =? 0 then Ok [] else Ok [0])
  else
    let bits := fillBits + zlen septets * 7 in
    pack_septets (replicate (Z.to_nat ((bits + 7) / 8)) 0) fillBits septets.

Definition PackSeptets (septets : bytes) : res bytes := PackSeptetsWithFill septets 0.

Fixpoint unpack_bits (data : bytes) (bitPos septet : Z) (bits : list Z) : res Z :=
  match bits with
  | [] => Ok septet
  | bit :: bits =>
      let pos := bitPos + bit in
      b ← index data (Z.to_nat (pos / 8));
      unpack_bits data bitPos
        (if negb (Z.land b (Z.shiftl 1 (pos mod 8)) =? 0) then Z.lor septet (Z.shiftl 1 bit)
         else septet) bits
  end.

Fixpoint unpack_septets (data : bytes) (bitPos : Z) (count : nat) : res bytes :=
  match count with
  | O => Ok []
  | S count =>
      septet ← unpack_bits data bitPos 0 (seqZ 0 7);
      rest ← unpack_septets data (bitPos + 7) count;
      Ok (septet :: rest)
  end.

Definition UnpackSeptets (data : bytes) (count fillBits : Z) : res bytes :=
  if (count <? 0) || (6 <? fillBits) then Err (ESentinel ErrInvalidGSM7)
  else if zlen data * 8 <? fillBits + count * 7 then Err (ESentinel ErrInvalidGSM7)
  else unpack_septets data fillBits (Z.to_nat count).

(** The bit of a packed string at a position. *)
Definition bit_at (out : bytes) (pos : Z) : bool :=
  Z.testbit (default 0 (out !! Z.to_nat (pos / 8))) (pos mod 8).

Lemma land_bit a k : 0 <= k -> negb (Z.land a (Z.shiftl 1 k) =? 0) = Z.testbit a k.
Proof.
  intros Hk. rewrite Z.shiftl_1_l. destruct (Z.testbit a k) eqn:Ht.
  - apply negb_true_iff, Z.eqb_neq. intros H. apply (f_equal (fun x => Z.testbit x k)) in H.
    rewrite Z.land_spec, Ht, Z.pow2_bits_true, Z.bits_0 in H by done. done.
  - apply negb_false_iff, Z.eqb_eq. apply Z.bits_inj'. intros n Hn.
    rewrite Z.land_spec, Z.bits_0, Z.pow2_bits_eqb by done.
    destruct (Z.eqb_spec k n) as [-> |]; [by rewrite Ht|apply andb_false_r].
Qed.

Lemma or_bit_spec out pos : 0 <= pos < 8 * zlen out ->
  exists out', or_bit out pos = Ok out' /\ length out' = length out /\
    forall p, 0 <= p -> bit_at out' p = bit_at out p || (p =? pos).
Proof.
  intros Hpos. unfold or_bit.
  destruct (lookup_lt_is_Some_2 out (Z.to_nat (pos / 8))) as [b Hb]; [zdiv|].
  rewrite Hb. eexists. split; [done|]. split; [apply length_insert|]. intros p Hp.
  unfold bit_at. destruct (decide (p / 8 = pos / 8)) as [He|He].
  - rewrite He, list_lookup_insert_eq by (by eapply lookup_lt_Some). rewrite Hb. cbn [default from_option id].
    rewrite Z.lor_spec, Z.shiftl_1_l, Z.pow2_bits_eqb by (apply Z.mod_pos_bound; lia).
    f_equal. apply eq_iff_eq_true. rewrite !Z.eqb_eq. zdiv.
  - rewrite list_lookup_insert_ne by (intros ?%Z2Nat.inj; [done|zdiv..]).
    destruct (Z.eqb_spec p pos) as [-> |]; [done|by rewrite orb_false_r].
Qed.

Lemma pack_bits_spec septet bitPos bits : forall out,
  (forall b, b ∈ bits -> 0 <= b /\ 0 <= bitPos + b < 8 * zlen out) ->
  exists out', pack_bits septet bitPos out bits = Ok out' /\ length out' = length out /\
    forall p, 0 <= p ->
      bit_at out' p = bit_at out p || (bool_decide (p - bitPos ∈ bits) && Z.testbit septet (p - bitPos)).
Proof.
  induction bits as [|bit bits IH]; intros out Hb.
  - exists out. split_and!; [done..|]. intros p Hp. rewrite bool_decide_eq_false_2.
    + by rewrite orb_false_r. + by intros ?%elem_of_nil.
  - cbn [pack_bits]. destruct (Hb bit) as [Hbit Hpos]; [by left|]. rewrite land_bit by done.
    assert (Hout : exists out1, (if Z.testbit septet bit then or_bit out (bitPos + bit) else Ok out) = Ok out1 /\
      length out1 = length out /\
      forall p, 0 <= p -> bit_at out1 p =
        bit_at out p || ((p =? bitPos + bit) && Z.testbit septet bit)).
    { destruct (Z.testbit septet bit).
      - destruct (or_bit_spec out (bitPos + bit) Hpos) as (out1 & H1 & H2 & H3).
        exists out1. split_and!; [done..|]. intros p Hp. by rewrite H3, andb_true_r.
      - exists out. split_and!; [done..|]. intros. by rewrite andb_false_r, orb_false_r. }
    destruct Hout as (out1 & -> & Hlen & Hbits). cbn [mbind outcome_bind].
    destruct (IH out1) as (out2 & H1 & H2 & H3); [rewrite Hlen; intros b Hin; apply Hb; by right|].
    exists out2. split_and!; [done|congruence|]. intros p Hp. rewrite H3, Hbits by done.
    rewrite <- orb_assoc. f_equal. destruct (Z.eqb_spec p (bitPos + bit)) as [-> |Hne].
    + replace (bitPos + bit - bitPos) with bit by lia.
      rewrite (bool_decide_eq_true_2 (bit ∈ bit :: bits)) by by left.
      destruct (Z.testbit septet bit); [done|]. by rewrite !andb_false_r.
    + cbn [andb orb]. f_equal. apply bool_decide_ext. rewrite elem_of_cons. split; [by right|].
      intros [?|?]; [lia|done].
Qed.

Definition is_septet (s : Z) : Prop := 0 <= s < 128.

Lemma pack_septets_spec septets : forall out bitPos,
  Forall is_septet septets -> 0 <= bitPos -> bitPos + 7 * zlen septets <= 8 * zlen out ->
  exists out', pack_septets out bitPos septets = Ok out' /\ length out' = length out /\
    (forall p, 0 <= p -> p < bitPos \/ bitPos + 7 * zlen septets <= p -> bit_at out' p = bit_at out p) /\
    (forall i s b, septets !! i = Some s -> 0 <= b < 7 ->
       let p := bitPos + 7 * Z.of_nat i + b in bit_at out' p = bit_at out p || Z.testbit s b).
Proof.
  induction septets as [|s septets IH]; intros out bitPos Hall Hpos Hlen; cbn [pack_septets].
  - exists out. split_and!; done.
  - apply Forall_cons in Hall as [Hs Hall]. unfold is_septet in Hs. cbn [length] in Hlen.
    destruct (Z.ltb_spec 0x7f s); [lia|].
    destruct (pack_bits_spec s bitPos (seqZ 0 7) out) as (out1 & -> & Hl1 & Hb1).
    { intros b Hb%elem_of_seqZ. lia. }
    cbn [mbind outcome_bind].
    destruct (IH out1 (bitPos + 7)) as (out2 & H2 & Hl2 & Hout & Hin); [done|lia|rewrite Hl1; lia|].
    exists out2. split_and!; [done|congruence| |].
    + cbn [length]. intros p Hp Hr. rewrite Hout, Hb1 by lia. rewrite bool_decide_eq_false_2.
      * by rewrite orb_false_r. * rewrite elem_of_seqZ. lia.
    + intros i x b Hi Hb. cbn zeta. destruct i as [|i].
      * injection Hi as ->. rewrite Hout, Hb1 by lia.
        replace (bitPos + 7 * Z.of_nat 0 + b - bitPos) with b by lia.
        rewrite bool_decide_eq_true_2 by (rewrite elem_of_seqZ; lia). done.
      * specialize (Hin i x b Hi Hb). cbn zeta in Hin.
        replace (bitPos + 7 * Z.of_nat (S i) + b) with (bitPos + 7 + 7 * Z.of_nat i + b) by lia.
        rewrite Hin, Hb1 by lia. rewrite bool_decide_eq_false_2 by (rewrite elem_of_seqZ; lia).
        by rewrite orb_false_r.
Qed.

Lemma unpack_bits_spec data bitPos bits : forall septet,
  (forall b, b ∈ bits -> 0 <= b /\ 0 <= bitPos + b < 8 * zlen data) ->
  exists r, unpack_bits data bitPos septet bits = Ok r /\
    forall n, 0 <= n ->
      Z.testbit r n = Z.testbit septet n || (bool_decide (n ∈ bits) && bit_at data (bitPos + n)).
Proof.
  induction bits as [|bit bits IH]; intros septet Hb; cbn [unpack_bits].
  - exists septet. split; [done|]. intros n Hn. rewrite bool_decide_eq_false_2 by (by intros ?%elem_of_nil).
    by rewrite orb_false_r.
  - destruct (Hb bit) as [Hbit Hpos]; [by left|]. unfold index.
    destruct (lookup_lt_is_Some_2 data (Z.to_nat ((bitPos + bit) / 8))) as [x Hx]; [zdiv|].
    rewrite Hx. cbn [mbind outcome_bind]. rewrite land_bit by (apply Z.mod_pos_bound; lia).
    assert (Z.testbit x ((bitPos + bit) mod 8) = bit_at data (bitPos + bit)) as ->
      by (unfold bit_at; by rewrite Hx).
    edestruct IH as (r & -> & Hr); [intros b Hin; apply Hb; by right|]. exists r. split; [done|].
    intros n Hn. rewrite Hr by done.
    assert (Z.testbit (if bit_at data (bitPos + bit) then Z.lor septet (Z.shiftl 1 bit) else septet) n =
      Z.testbit septet n || ((n =? bit) && bit_at data (bitPos + n))) as ->.
    { destruct (Z.eqb_spec n bit) as [-> |Hne]; cbn [andb];
        destruct (bit_at data (bitPos + bit)); rewrite ?Z.lor_spec, ?Z.shiftl_1_l, ?Z.pow2_bits_eqb,
          ?orb_false_r by done; [by rewrite Z.eqb_refl|done| |done].
      destruct (Z.eqb_spec bit n); [by subst|by rewrite orb_false_r]. }
    rewrite <- orb_assoc. f_equal. destruct (Z.eqb_spec n bit) as [-> |Hne]; cbn [andb orb].
    + rewrite (bool_decide_eq_true_2 (bit ∈ bit :: bits)) by by left.
      destruct (bit_at data (bitPos + bit)); [done|]. by rewrite !andb_false_r.
    + f_equal. apply bool_decide_ext. rewrite elem_of_cons. split; [by right|]. by intros [?|?].
Qed.

(** Reading back what lies in the data. *)
Lemma unpack_septets_spec septets : forall data bitPos,
  Forall is_septet septets -> 0 <= bitPos -> bitPos + 7 * zlen septets <= 8 * zlen data ->
  (forall i s b, septets !! i = Some s -> 0 <= b < 7 ->
     bit_at data (bitPos + 7 * Z.of_nat i + b) = Z.testbit s b) ->
  unpack_septets data bitPos (length septets) = Ok septets.
Proof.
  induction septets as [|s septets IH]; intros data bitPos Hall Hpos Hlen Hbits; [done|].
  apply Forall_cons in Hall as [Hs Hall]. unfold is_septet in Hs. cbn [length unpack_septets] in *.
  destruct (unpack_bits_spec data bitPos (seqZ 0 7) 0) as (r & -> & Hr).
  { intros b Hb%elem_of_seqZ. lia. }
  cbn [mbind outcome_bind]. rewrite IH; [|done|lia|lia|].
  - cbn. assert (r = s) as ->; [|done]. apply Z.bits_inj'. intros n Hn. rewrite Hr, Z.bits_0 by done.
    cbn [orb]. destruct (Z.lt_ge_cases n 7).
    + rewrite bool_decide_eq_true_2 by (rewrite elem_of_seqZ; lia). cbn [andb].
      rewrite <- (Hbits 0%nat s n) by (done || lia). f_equal. lia.
    + rewrite bool_decide_eq_false_2 by (rewrite elem_of_seqZ; lia). cbn [andb].
      rewrite <- (Z.mod_small s (2 ^ 7)) by lia. by rewrite Z.mod_pow2_bits_high by lia.
  - intros i x b Hi Hb. rewrite <- (Hbits (S i) x b) by done. f_equal. lia.
Qed.

Lemma bit_at_zeros n p : bit_at (replicate n 0) p = false.
Proof.
  unfold bit_at. destruct (replicate n 0 !! Z.to_nat (p / 8)) eqn:H; [|apply Z.bits_0].
  apply lookup_replicate in H as [-> _]. apply Z.bits_0.
Qed.

Lemma PackSeptets_length septets fillBits packed :
  Forall is_septet septets -> 0 <= fillBits <= 6 ->
  PackSeptetsWithFill septets fillBits = Ok packed ->
  zlen packed = (fillBits + zlen septets * 7 + 7) / 8.
Proof.
  intros Hall Hf. unfold PackSeptetsWithFill. destruct (Z.ltb_spec 6 fillBits); [lia|].
  destruct (Z.eqb_spec (zlen septets) 0) as [He|He].
  - rewrite He. destruct (Z.eqb_spec fillBits 0); intros [= <-]; cbn [length]; zdiv.
  - destruct (pack_septets_spec septets (replicate (Z.to_nat ((fillBits + zlen septets * 7 + 7) / 8)) 0)
      fillBits Hall) as (out & -> & Hl & _); [lia|rewrite length_replicate; zdiv|].
    intros [= <-]. rewrite Hl, length_replicate. zdiv.
Qed.

Lemma pack_unpack septets fillBits :
  Forall is_septet septets -> 0 <= fillBits <= 6 ->
  exists packed, PackSeptetsWithFill septets fillBits = Ok packed /\
    zlen packed = (fillBits + zlen septets * 7 + 7) / 8 /\
    UnpackSeptets packed (zlen septets) fillBits = Ok septets.
Proof.
  intros Hall Hf. assert (Hp : exists packed, PackSeptetsWithFill septets fillBits = Ok packed /\
    (forall i s b, septets !! i = Some s -> 0 <= b < 7 ->
       bit_at packed (fillBits + 7 * Z.of_nat i + b) = Z.testbit s b)).
  { unfold PackSeptetsWithFill. destruct (Z.ltb_spec 6 fillBits); [lia|].
    destruct (Z.eqb_spec (zlen septets) 0).
    - destruct septets; [|cbn in *; lia]. destruct (fillBits =? 0); eexists; (split; [done|by intros [|i]]).
    - destruct (pack_septets_spec septets (replicate (Z.to_nat ((fillBits + zlen septets * 7 + 7) / 8)) 0)
        fillBits Hall) as (out & -> & _ & _ & Hin); [lia|rewrite length_replicate; zdiv|].
      exists out. split; [done|]. intros i s b Hi Hb. rewrite (Hin i s b Hi Hb). by rewrite bit_at_zeros. }
  destruct Hp as (packed & Hpk & Hbits). exists packed.
  pose proof (PackSeptets_length _ _ _ Hall Hf Hpk) as Hlen. split_and!; [done..|].
  unfold UnpackSeptets. destruct (Z.ltb_spec (zlen septets) 0); [lia|].
  destruct (Z.ltb_spec 6 fillBits); [lia|]. cbn [orb].
  destruct (Z.ltb_spec (zlen packed * 8) (fillBits + zlen septets * 7)); [zdiv|].
  rewrite Nat2Z.id. apply unpack_septets_spec; [done|lia|zdiv|done].
Qed.

(** Packing septets into octets loses nothing: for any septets and up to six
    fill bits, packing succeeds with just enough octets and unpacking the same
    number of septets gives them back, whatever the padding. *)
Theorem septets_roundtrip septets fillBits :
  Forall is_septet septets -> 0 <= fillBits <= 6 ->
  exists packed, PackSeptetsWithFill septets fillBits = Ok packed /\
    zlen packed = (fillBits + zlen septets * 7 + 7) / 8 /\
    UnpackSeptets packed (zlen septets) fillBits = Ok septets.
Proof. apply pack_unpack. Qed.

(** "hello" after one fill bit. *)
Lemma septets_roundtrip_witness : exists packed,
  PackSeptetsWithFill [104; 101; 108; 108; 111] 1 = Ok packed /\
  UnpackSeptets packed 5 1 = Ok [104; 101; 108; 108; 111].
Proof.
  destruct (septets_roundtrip [104; 101; 108; 108; 111] 1) as (packed & H1 & _ & H2);
    [repeat constructor; lia|lia|]. by exists packed.
Defined.

(** ** unicode.go *)

Inductive Kind := KindUnknown | KindGSM7 | KindUCS2 | KindUTF16BE | KindBinary.
#[export] Instance Kind_eq_dec : EqDecision Kind.
Proof. solve_decision. Defined.

Definition GSM7Kind : Kind := KindGSM7.

Definition Kind_String (k : Kind) : string :=
  match k with
  | KindGSM7 => "gsm7" | KindUCS2 => "ucs2" | KindUTF16BE => "utf16be" | KindBinary => "binary"
  | KindUnknown => "unknown"
  end%string.

Record EncodedText := MkEncodedText { et_Kind : Kind; et_Data : bytes; et_Units : Z }.

Definition is_surrogate (u : Z) : bool := (0xd800 <=? u) && (u <=? 0xdfff).

(** The 16-bit units in network order ([binary.BigEndian.PutUint16] in a loop). *)
Definition put_units (units : list Z) : bytes := concat (map be16_put units).

Fixpoint ucs2_units (units : list Z) (rs : list Z) : res (list Z) :=
  match rs with
  | [] => Ok units
  | r :: rs =>
      if (0xffff <? r) || is_surrogate r then Err (ESentinel ErrUnrepresentableRune)
      else ucs2_units (units ++ [u16 r]) rs
  end.

Definition EncodeUCS2 (text : bytes) : res bytes :=
  match runes text with
  | None => Err (ESentinel ErrInvalidUnicode)
  | Some rs => units ← ucs2_units [] rs; Ok (put_units units)
  end.

(** The loop over [data[i:]] for even [i]. *)
Fixpoint ucs2_runes (rs : list Z) (data : bytes) : res (list Z) :=
  match data with
  | [] => Ok rs
  | [_] => Panic
  | b0 :: b1 :: data =>
      let unit := be16_get b0 b1 in
      if is_surrogate unit then Err (ESentinel ErrInvalidUnicode)
      else ucs2_runes (rs ++ [unit]) data
  end.

Definition DecodeUCS2 (data : bytes) : res bytes :=
  if negb (zlen data mod 2 =? 0) then Err (ESentinel ErrInvalidUnicode)
  else rs ← ucs2_runes [] data; Ok (utf8 rs).

(** [utf16.Encode] of one rune, and [utf16.Decode]. *)
Definition utf16_put (r : Z) : list Z :=
  if negb (scalar r) then [0xfffd]
  else if r <? 0x10000 then [r]
  else [0xd800 + (r - 0x10000) / 1024; 0xdc00 + (r - 0x10000) mod 1024].
Definition utf16_Encode (rs : list Z) : list Z := concat (map utf16_put rs).

Definition high_surrogate (u : Z) : bool := (0xd800 <=? u) && (u <=? 0xdbff).
Definition low_surrogate (u : Z) : bool := (0xdc00 <=? u) && (u <=? 0xdfff).

Fixpoint utf16_Decode (units : list Z) : list Z :=
  match units with
  | [] => []
  | u :: rest =>
      if high_surrogate u then
        match rest with
        | v :: rest' =>
            if low_surrogate v
            then (u - 0xd800) * 1024 + (v - 0xdc00) + 0x10000 :: utf16_Decode rest'
            else 0xfffd :: utf16_Decode rest
        | [] => [0xfffd]
        end
      else (if low_surrogate u then 0xfffd else u) :: utf16_Decode rest
  end.

Definition EncodeUTF16BE (text : bytes) : res bytes :=
  match runes text with
  | None => Err (ESentinel ErrInvalidUnicode)
  | Some rs => Ok (put_units (utf16_Encode rs))
  end.

Fixpoint get_units (data : bytes) : res (list Z) :=
  match data with
  | [] => Ok []
  | [_] => Panic
  | b0 :: b1 :: data => units ← get_units data; Ok (be16_get b0 b1 :: units)
  end.

(** The loop that rejects unpaired surrogates. *)
Fixpoint check_units (units : list Z) : res () :=
  match units with
  | [] => Ok ()
  | u :: rest =>
      if high_surrogate u then
        match rest with
        | v :: rest' =>
            if (v <? 0xdc00) || (0xdfff <? v) then Err (ESentinel ErrInvalidUnicode)
            else check_units rest'
        | [] => Err (ESentinel ErrInvalidUnicode)
        end
      else if low_surrogate u then Err (ESentinel ErrInvalidUnicode)
      else check_units rest
  end.

Definition DecodeUTF16BE (data : bytes) : res bytes :=
  if negb (zlen data mod 2 =? 0) then Err (ESentinel ErrInvalidUnicode)
  else units ← get_units data; _ ← check_units units; Ok (utf8 (utf16_Decode units)).

Definition UTF16CodeUnitCount (text : bytes) : res Z :=
  match runes text with
  | None => Err (ESentinel ErrInvalidUnicode)
  | Some rs => Ok (zlen (utf16_Encode rs))
  end.

Definition SelectText (text : bytes) (allowSurrogates : bool) : res EncodedText :=
  match EncodeGSM7 text with
  | Ok septets => Ok (MkEncodedText KindGSM7 septets (zlen septets))
  | Panic => Panic
  | Err _ =>
      match EncodeUCS2 text with
      | Ok ucs2 => Ok (MkEncodedText KindUCS2 ucs2 (zlen ucs2 / 2))
      | Panic => Panic
      | Err _ =>
          if negb allowSurrogates then Err (ESentinel ErrUnrepresentableRune)
          else utf16be ← EncodeUTF16BE text;
               Ok (MkEncodedText KindUTF16BE utf16be (zlen utf16be / 2))
      end
  end.

Definition CloneBinary (data : bytes) : EncodedText := MkEncodedText KindBinary data (zlen data).

(** *** Units and octets *)

Lemma put_units_cons u us : put_units (u :: us) = be16_put u ++ put_units us.
Proof. done. Qed.

Lemma put_units_length us : zlen (put_units us) = 2 * zlen us.
Proof. induction us as [|u us IH]; [done|]. rewrite put_units_cons. len. Qed.

Lemma get_put_units us : Forall (fun u => is_u16 u) us -> get_units (put_units us) = Ok us.
Proof.
  induction 1 as [|u us Hu _ IH]; [done|]. rewrite put_units_cons. unfold be16_put at 1.
  cbn [app get_units]. rewrite IH. cbn. by rewrite be16_get_put.
Qed.

Lemma put_get_units data : forall us, bytes_ok data -> get_units data = Ok us ->
  data = put_units us /\ Forall (fun u => is_u16 u) us.
Proof.
  induction data as [data IH] using list_short_ind. intros us Hok.
  destruct data as [|b0 [|b1 data]]; [intros [= <-]; done|done|]. cbn [get_units].
  rewrite !bytes_ok_cons in Hok. destruct Hok as (H0 & H1 & Hok).
  intros (us' & Hu & [= <-])%bind_ok_inv. apply IH in Hu as [Hd Hall]; [|cbn; lia|done].
  rewrite put_units_cons, be16_put_get by done. split; [by rewrite Hd at 1|].
  constructor; [by apply be16_get_range|done].
Qed.

Lemma get_units_even data : zlen data mod 2 = 0 -> exists us, get_units data = Ok us.
Proof.
  induction data as [data IH] using list_short_ind. destruct data as [|b0 [|b1 data]]; intros H.
  - by eexists. - done.
  - destruct (IH data) as [us Hus]; [cbn; lia|cbn [length] in H; zdiv|].
    cbn [get_units]. rewrite Hus. by eexists.
Qed.

Lemma even_length us : (zlen (put_units us) mod 2 =? 0) = true.
Proof. rewrite put_units_length, Z.mul_comm, Z.mod_mul by lia. done. Qed.

(** *** UCS-2 *)

Definition bmp (r : Z) : Prop := 0 <= r <= 0xffff /\ is_surrogate r = false.

Lemma bmp_scalar rs : Forall bmp rs -> Forall (fun r => scalar r = true) rs.
Proof. intros H. eapply Forall_impl; [exact H|]. unfold bmp, is_surrogate, scalar. lia. Qed.
Lemma bmp_units rs : Forall bmp rs -> Forall (fun u => is_u16 u) rs.
Proof. intros H. eapply Forall_impl; [exact H|]. unfold bmp. lia. Qed.

Lemma ucs2_units_spec rs : Forall (fun r => scalar r = true) rs -> forall units us,
  ucs2_units units rs = Ok us <-> us = units ++ rs /\ Forall bmp rs.
Proof.
  induction 1 as [|r rs Hr _ IH]; intros units us; cbn [ucs2_units].
  - rewrite app_nil_r. split; [by intros [= <-]|by intros [-> _]].
  - unfold scalar in Hr. destruct ((0xffff <? r) || is_surrogate r) eqn:Hc.
    + split; [done|]. intros [_ [[H1 H2] _]%Forall_cons]. rewrite H2 in Hc. lia.
    + apply orb_false_iff in Hc as [Hc Hn].
      rewrite IH, Forall_cons, <- app_assoc, u16_small by lia. cbn [app].
      assert (bmp r) by (split; [lia|done]). naive_solver.
Qed.

Lemma EncodeUCS2_spec text data :
  EncodeUCS2 text = Ok data <-> exists rs, text = utf8 rs /\ data = put_units rs /\ Forall bmp rs.
Proof.
  unfold EncodeUCS2. split.
  - destruct (runes text) as [rs|] eqn:Hr; [|done]. apply runes_inv in Hr as [-> Hs].
    intros (us & Hu & [= <-])%bind_ok_inv. apply ucs2_units_spec in Hu as [-> Hb]; [|done]. eauto.
  - intros (rs & -> & -> & Hb). rewrite runes_utf8 by by apply bmp_scalar.
    assert (Hu : ucs2_units [] rs = Ok rs) by (apply ucs2_units_spec; [by apply bmp_scalar|done]).
    by rewrite Hu.
Qed.

Lemma ucs2_runes_spec us : Forall (fun u => is_u16 u) us -> forall rs rs',
  ucs2_runes rs (put_units us) = Ok rs' <-> rs' = rs ++ us /\ Forall bmp us.
Proof.
  induction 1 as [|u us Hu _ IH]; intros rs rs'.
  - cbn. rewrite app_nil_r. split; [by intros [= <-]|by intros [-> _]].
  - rewrite put_units_cons. unfold be16_put. cbn [app ucs2_runes]. rewrite be16_get_put by done.
    destruct (is_surrogate u) eqn:Hs.
    + split; [done|]. intros [_ [H _]%Forall_cons]. unfold bmp in H. destruct H. congruence.
    + rewrite IH, Forall_cons, <- app_assoc. cbn [app].
      assert (bmp u) by (unfold bmp; split; [lia|done]). naive_solver.
Qed.

Lemma DecodeUCS2_spec text data : bytes_ok data ->
  DecodeUCS2 data = Ok text <-> exists rs, text = utf8 rs /\ data = put_units rs /\ Forall bmp rs.
Proof.
  intros Hok. unfold DecodeUCS2. split.
  - destruct (Z.eqb_spec (zlen data mod 2) 0) as [He|]; cbn [negb]; [|done].
    apply get_units_even in He as [us Hus]. apply put_get_units in Hus as [-> Hu]; [|done].
    intros (rs & Hr & [= <-])%bind_ok_inv. apply ucs2_runes_spec in Hr as [-> Hb]; [|done]. eauto.
  - intros (rs & -> & -> & Hb). rewrite even_length. cbn [negb].
    assert (Hr : ucs2_runes [] (put_units rs) = Ok rs)
      by (apply ucs2_runes_spec; [by apply bmp_units|done]).
    by rewrite Hr.
Qed.

(** *** UTF-16 *)

Lemma utf16_put_units r : Forall (fun u => is_u16 u) (utf16_put r).
Proof.
  unfold utf16_put. destruct (scalar r) eqn:Hs; cbn [negb]; [|by repeat constructor].
  apply scalar_spec in Hs. destruct (Z.ltb_spec r 0x10000); repeat constructor; zdiv.
Qed.

Lemma utf16_units rs : Forall (fun u => is_u16 u) (utf16_Encode rs).
Proof.
  unfold utf16_Encode. induction rs as [|r rs IH]; [constructor|]. cbn.
  apply Forall_app. split; [apply utf16_put_units|done].
Qed.

Lemma utf16_put_decode r us : scalar r = true ->
  check_units (utf16_put r ++ us) = check_units us /\
  utf16_Decode (utf16_put r ++ us) = r :: utf16_Decode us.
Proof.
  intros Hr. unfold utf16_put. rewrite Hr. cbn [negb]. apply scalar_spec in Hr.
  destruct (Z.ltb_spec r 0x10000); cbn [app check_units utf16_Decode].
  - assert (high_surrogate r = false) as -> by (unfold high_surrogate; lia).
    assert (low_surrogate r = false) as -> by (unfold low_surrogate; lia). done.
  - set (h := 0xd800 + (r - 0x10000) / 1024). set (l := 0xdc00 + (r - 0x10000) mod 1024).
    assert (Hh : 0xd800 <= h <= 0xdbff) by (unfold h; zdiv).
    assert (Hl : 0xdc00 <= l <= 0xdfff) by (unfold l; zdiv).
    assert (high_surrogate h = true) as -> by (unfold high_surrogate; lia).
    assert (low_surrogate l = true) as -> by (unfold low_surrogate; lia).
    assert ((l <? 0xdc00) || (0xdfff <? l) = false) as -> by lia. split; [done|].
    f_equal. unfold h, l. zdiv.
Qed.

Lemma utf16_decode_encode rs : Forall (fun r => scalar r = true) rs ->
  check_units (utf16_Encode rs) = Ok () /\ utf16_Decode (utf16_Encode rs) = rs.
Proof.
  unfold utf16_Encode. induction 1 as [|r rs Hr _ [IH1 IH2]]; [done|]. cbn [map concat].
  destruct (utf16_put_decode r (concat (map utf16_put rs)) Hr) as [-> ->]. by rewrite IH2.
Qed.

Lemma utf16_encode_decode us : Forall (fun u => is_u16 u) us -> check_units us = Ok () ->
  exists rs, us = utf16_Encode rs /\ Forall (fun r => scalar r = true) rs.
Proof.
  induction us as [us IH] using list_short_ind. intros Hall Hc.
  destruct us as [|u us]; [by exists []|]. apply Forall_cons in Hall as [Hu Hall].
  assert (Hstep : forall r pre t, u :: us = pre ++ t -> utf16_put r = pre -> scalar r = true ->
    (length t < S (length us))%nat -> Forall (fun u => is_u16 u) t -> check_units t = Ok () ->
    exists rs, u :: us = utf16_Encode rs /\ Forall (fun r => scalar r = true) rs).
  { intros r pre t -> Hp Hr Ht Ha Hct. destruct (IH t Ht Ha Hct) as (rs & -> & Hs).
    exists (r :: rs). split; [|by constructor]. unfold utf16_Encode. cbn. by rewrite Hp. }
  cbn [check_units] in Hc. destruct (high_surrogate u) eqn:Hh.
  - destruct us as [|v us]; [done|]. destruct ((v <? 0xdc00) || (0xdfff <? v)) eqn:Hv; [done|].
    apply Forall_cons in Hall as [_ Hall]. unfold high_surrogate in Hh.
    set (r := (u - 0xd800) * 1024 + (v - 0xdc00) + 0x10000).
    assert (Hr : 0x10000 <= r <= 0x10ffff) by (unfold r; lia).
    assert (Hsc : scalar r = true) by (apply scalar_spec; lia).
    apply (Hstep r [u; v] us); [done| |done|cbn; lia|done|done].
    unfold utf16_put. rewrite Hsc. cbn [negb]. destruct (Z.ltb_spec r 0x10000); [lia|].
    unfold r. repeat f_equal; zdiv.
  - destruct (low_surrogate u) eqn:Hl; [done|]. unfold high_surrogate, low_surrogate in *.
    assert (Hsc : scalar u = true) by (apply scalar_spec; lia).
    apply (Hstep u [u] us); [done| |done|lia|done|done].
    unfold utf16_put. rewrite Hsc. cbn [negb]. destruct (Z.ltb_spec u 0x10000); [done|lia].
Qed.

Lemma EncodeUTF16BE_spec text data :
  EncodeUTF16BE text = Ok data <->
  exists rs, text = utf8 rs /\ data = put_units (utf16_Encode rs) /\
    Forall (fun r => scalar r = true) rs.
Proof.
  unfold EncodeUTF16BE. split.
  - destruct (runes text) as [rs|] eqn:Hr; [|done]. apply runes_inv in Hr as [-> Hs].
    intros [= <-]. eauto.
  - intros (rs & -> & -> & Hs). by rewrite runes_utf8.
Qed.

Lemma DecodeUTF16BE_spec text data : bytes_ok data ->
  DecodeUTF16BE data = Ok text <->
  exists rs, text = utf8 rs /\ data = put_units (utf16_Encode rs) /\
    Forall (fun r => scalar r = true) rs.
Proof.
  intros Hok. unfold DecodeUTF16BE. split.
  - destruct (Z.eqb_spec (zlen data mod 2) 0) as [He|]; cbn [negb]; [|done].
    apply get_units_even in He as [us Hus]. rewrite Hus. cbn [mbind outcome_bind].
    intros ([] & Hc & [= <-])%bind_ok_inv.
    apply put_get_units in Hus as [-> Hu]; [|done].
    apply utf16_encode_decode in Hc as (rs & -> & Hs); [|done]. exists rs.
    by rewrite (proj2 (utf16_decode_encode rs Hs)).
  - intros (rs & -> & -> & Hs). rewrite even_length. cbn [negb].
    rewrite get_put_units by apply utf16_units. cbn [mbind outcome_bind].
    destruct (utf16_decode_encode rs Hs) as [-> ->]. done.
Qed.

(** UCS-2 and UTF-16BE encoding and decoding are inverse to each other: octets
    are the encoding of a text exactly when they decode to it; strict UCS-2 takes
    the texts without supplementary characters, and there both agree. *)
Theorem unicode_exact text data :
  bytes_ok data ->
  (EncodeUCS2 text = Ok data <-> DecodeUCS2 data = Ok text) /\
  (EncodeUTF16BE text = Ok data <-> DecodeUTF16BE data = Ok text) /\
  (EncodeUCS2 text = Ok data -> EncodeUTF16BE text = Ok data).
Proof.
  intros Hok. rewrite (EncodeUCS2_spec text data), (EncodeUTF16BE_spec text data).
  rewrite (DecodeUCS2_spec text data Hok), (DecodeUTF16BE_spec text data Hok).
  split_and!; [done|done|]. intros (rs & -> & -> & Hb). exists rs. split_and!; [done| |by apply bmp_scalar].
  f_equal. clear Hok. induction Hb as [|r rs [Hr Hs] _ IH]; [done|]. unfold utf16_Encode in *. cbn [map concat].
  rewrite <- IH. unfold utf16_put, scalar. unfold is_surrogate in Hs.
  destruct (_ || _) eqn:Hc; cbn [negb]; [|lia]. destruct (Z.ltb_spec r 0x10000); [done|lia].
Qed.

(** U+1F600 is a surrogate pair. *)
Lemma unicode_exact_witness : EncodeUTF16BE [0xf0; 0x9f; 0x98; 0x80] = Ok [0xd8; 0x3d; 0xde; 0x00].
Proof.
  destruct (unicode_exact [0xf0; 0x9f; 0x98; 0x80] [0xd8; 0x3d; 0xde; 0x00]) as (_ & [_ H] & _).
  - repeat constructor; lia.
  - apply H. vm_compute. reflexivity.
Defined.

(** *** Selection *)

(** The decoder of a text kind. *)
Definition decode_kind (k : Kind) (data : bytes) : res bytes :=
  match k with
  | KindGSM7 => DecodeGSM7 data
  | KindUCS2 => DecodeUCS2 data
  | KindUTF16BE => DecodeUTF16BE data
  | _ => Err (ESentinel ErrInvalidSegments)
  end.

Lemma put_units_bytes us : bytes_ok (put_units us).
Proof.
  induction us as [|u us IH]; [constructor|]. rewrite put_units_cons.
  apply bytes_ok_app. split; [apply be16_put_ok|done].
Qed.

Lemma gsm_text_septets rs s : gsm_text rs s -> Forall is_septet s.
Proof.
  induction 1 as [|r rs codes s H%symbol_check _ IH]; [constructor|]. apply Forall_app. split; [|done].
  unfold check_symbol in H. cbn [fst snd] in H. apply andb_true_iff in H as [_ H].
  destruct codes as [|c [|e [|]]]; [done| | |done].
  - rewrite !andb_true_iff in H. destruct H as ((((? & ?) & ?) & ?) & ?).
    repeat constructor; unfold is_septet; lia.
  - rewrite !andb_true_iff, Z.eqb_eq in H. destruct H as (((-> & ?) & ?) & ?).
    repeat constructor; unfold is_septet, gsmEscape; lia.
Qed.

Lemma septets_bytes s : Forall is_septet s -> bytes_ok s.
Proof. intros H. eapply Forall_impl; [exact H|]. unfold is_septet. lia. Qed.

Lemma ucs2_data_units (n : nat) : 2 * Z.of_nat n / 2 = Z.of_nat n.
Proof. rewrite Z.mul_comm. by apply Z.div_mul. Qed.

(** What a selection is: the text's runes in the representation it names. *)
Lemma SelectText_ok text allow e : SelectText text allow = Ok e ->
  exists rs, text = utf8 rs /\
  ((et_Kind e = KindGSM7 /\ gsm_text rs (et_Data e) /\ et_Units e = zlen (et_Data e)) \/
   (et_Kind e = KindUCS2 /\ et_Data e = put_units rs /\ Forall bmp rs /\ et_Units e = zlen rs) \/
   (et_Kind e = KindUTF16BE /\ et_Data e = put_units (utf16_Encode rs) /\
      Forall (fun r => scalar r = true) rs /\ et_Units e = zlen (utf16_Encode rs))).
Proof.
  unfold SelectText. destruct (EncodeGSM7 text) as [s|err|] eqn:Hg; [|clear Hg|done].
  { intros [= <-]. apply EncodeGSM7_spec in Hg as (rs & -> & Hg). exists rs. split; [done|].
    left. done. }
  destruct (EncodeUCS2 text) as [d|err'|] eqn:Hu; [|clear Hu|done].
  { intros [= <-]. apply EncodeUCS2_spec in Hu as (rs & -> & -> & Hb). exists rs.
    cbn [et_Kind et_Data et_Units]. rewrite put_units_length, ucs2_data_units. split; [done|].
    right; left. done. }
  destruct allow; cbn [negb]; [|done]. intros (d & Hd & [= <-])%bind_ok_inv.
  apply EncodeUTF16BE_spec in Hd as (rs & -> & -> & Hs). exists rs.
  cbn [et_Kind et_Data et_Units]. rewrite put_units_length, ucs2_data_units. split; [done|].
  right; right. done.
Qed.

Lemma decode_gsm_text rs s : gsm_text rs s -> decode_kind KindGSM7 s = Ok (utf8 rs).
Proof.
  intros H. apply decode_septets_spec; [by eapply septets_bytes, gsm_text_septets|]. by exists rs.
Qed.
Lemma decode_ucs2_text rs : Forall bmp rs -> decode_kind KindUCS2 (put_units rs) = Ok (utf8 rs).
Proof. intros H. apply DecodeUCS2_spec; [apply put_units_bytes|]. by exists rs. Qed.
Lemma decode_utf16_text rs : Forall (fun r => scalar r = true) rs ->
  decode_kind KindUTF16BE (put_units (utf16_Encode rs)) = Ok (utf8 rs).
Proof. intros H. apply DecodeUTF16BE_spec; [apply put_units_bytes|]. by exists rs. Qed.

Lemma SelectText_decodes text allow e : SelectText text allow = Ok e ->
  decode_kind (et_Kind e) (et_Data e) = Ok text.
Proof.
  intros (rs & -> & [(-> & H & _)|[(-> & -> & H & _)|(-> & -> & H & _)]])%SelectText_ok.
  - by apply decode_gsm_text. - by apply decode_ucs2_text. - by apply decode_utf16_text.
Qed.

(** [SelectText] picks a representation that decodes to the text, and the
    cheapest: GSM 03.38 when every character is in that alphabet, else UCS-2 when
    every character is in the basic plane, else UTF-16BE; valid UTF-8 is always
    representable when surrogates are allowed. *)
Theorem SelectText_chooses text allow rs :
  runes text = Some rs ->
  (forall e, SelectText text allow = Ok e -> decode_kind (et_Kind e) (et_Data e) = Ok text) /\
  (CanEncodeGSM7 text = true <-> exists e, SelectText text allow = Ok e /\ et_Kind e = KindGSM7) /\
  (CanEncodeGSM7 text = false -> Forall bmp rs ->
     exists e, SelectText text allow = Ok e /\ et_Kind e = KindUCS2) /\
  (CanEncodeGSM7 text = false -> ~ Forall bmp rs ->
     if allow then exists e, SelectText text allow = Ok e /\ et_Kind e = KindUTF16BE
     else SelectText text allow = Err (ESentinel ErrUnrepresentableRune)).
Proof.
  intros Hr. split; [by apply SelectText_decodes|].
  pose proof (runes_inv _ _ Hr) as [-> Hs]. unfold CanEncodeGSM7, GSM7SeptetCount, SelectText.
  destruct (EncodeGSM7 (utf8 rs)) as [s|err|] eqn:Hg; cbn [mbind outcome_bind is_ok].
  - split_and!; [|done..]. split; [|done]. intros _. by eexists.
  - assert (Hu : Forall bmp rs -> EncodeUCS2 (utf8 rs) = Ok (put_units rs))
      by (intros; apply EncodeUCS2_spec; eauto).
    assert (Hn : forall d, EncodeUCS2 (utf8 rs) = Ok d -> Forall bmp rs).
    { intros d (rs' & He & _ & Hb)%EncodeUCS2_spec. rewrite He, runes_utf8 in Hr by by apply bmp_scalar.
      by injection Hr as ->. }
    assert (Hp : EncodeUCS2 (utf8 rs) <> Panic).
    { unfold EncodeUCS2. rewrite Hr. assert (forall us, ucs2_units us rs <> Panic).
      { clear. induction rs as [|r rs IH]; intros us; cbn; [done|]. by destruct (_ || _). }
      intros Hpan. destruct (ucs2_units [] rs) eqn:E; [done..|by apply (H [])]. }
    split_and!.
    + split; [done|]. intros (e & He & Hk). destruct (EncodeUCS2 (utf8 rs)); [by injection He as <-| |done].
      destruct allow; [|done]. cbn [negb] in He. apply bind_ok_inv in He as (? & _ & [= <-]). done.
    + intros _ Hb. rewrite (Hu Hb). by eexists.
    + intros _ Hb. destruct (EncodeUCS2 (utf8 rs)) as [d| |] eqn:E; [by destruct Hb; eapply Hn| |done].
      destruct allow; cbn [negb]; [|done]. unfold EncodeUTF16BE. rewrite Hr. by eexists.
  - exfalso. unfold EncodeGSM7 in Hg. rewrite Hr in Hg. revert Hg. clear.
    generalize (@nil Z). induction rs as [|r rs IH]; intros out; cbn [encode_runes]; [done|].
    unfold encode_rune. destruct (assoc gsmDefaultReverse r); cbn [mbind outcome_bind]; [apply IH|].
    destruct (assoc gsmExtensionReverse r); cbn [mbind outcome_bind]; [apply IH|done].
Qed.

Lemma SelectText_chooses_witness :
  exists e, SelectText [0xd0; 0x90] false = Ok e /\ et_Kind e = KindUCS2.
Proof.
  apply (SelectText_chooses [0xd0; 0x90] false [0x410]); [reflexivity|reflexivity|].
  repeat constructor; lia.
Defined.
