(* ===== verification/Message.v ===== *)
(** * Long messages (src/message: message.go, udh16_unpacked.go)

    A text or binary payload that does not fit one short message is cut into
    segments, described by a user data header or by SAR parameters, and put
    together again by the receiver.  [clone] only changes the backing array and
    is left out. *)

From stdpp Require Import sorting.
From S2P Require Import Prelude Protocol Bodies Encoding.

Definition ESMClassUDHI : Z := 0x40.
Definition GSM7SingleSeptets : Z := 160.
Definition GSM7MultipartSeptets : Z := 153.
Definition UCS2SingleUnits : Z := 70.
Definition UCS2MultipartUnits : Z := 67.
Definition BinarySingleOctets : Z := 140.
Definition BinaryMultipartOctets : Z := 134.
Definition gsm7Multipart16Septets : Z := 152.
Definition ucs2Multipart16Units : Z := 66.
Definition binaryMultipart16Bytes : Z := 133.

(** [EncodedText] of this package: the selection with its data_coding. *)
Record MessageText := MkMessageText {
  mt_Kind : Kind; mt_DataCoding : Z; mt_Data : bytes; mt_Units : Z
}.

Definition EncodeText (text : bytes) (allowSurrogates : bool) : res MessageText :=
  selected ← SelectText text allowSurrogates;
  let coding := if decide (et_Kind selected = KindGSM7) then DataCodingSMSCDefault
                else DataCodingUCS2 in
  Ok (MkMessageText (et_Kind selected) coding (et_Data selected) (et_Units selected)).

Record Segment := MkSegment {
  Reference : Z;
  Total : Z;
  Sequence : Z;
  sg_Kind : Kind;
  sg_DataCoding : Z;
  Units : Z;
  Data : bytes;
  UDH : bytes;
  UserData : bytes;
  sg_Optional : list OptionalParameter
}.

(** ** Splitting *)

(** Where [splitGSM7] cuts: before an escape that would end the part. *)
Definition gsm7_cut (data : bytes) (max : Z) : res Z :=
  let n := Z.min (zlen data) max in
  if n <? zlen data then
    last ← index data (Z.to_nat (n - 1)); Ok (if last =? 0x1b then n - 1 else n)
  else Ok n.

(** The loops cut at least one octet per round, so the length of the data is
    fuel enough. *)
Fixpoint splitGSM7_loop (fuel : nat) (data : bytes) (max : Z) (parts : list bytes)
    : res (list bytes) :=
  match fuel, data with
  | _, [] => Ok parts
  | O, _ => Ok parts
  | S fuel, _ =>
      n ← gsm7_cut data max;
      splitGSM7_loop fuel (drop (Z.to_nat n) data) max (parts ++ [take (Z.to_nat n) data])
  end.

Definition splitGSM7 (data : bytes) (max : Z) : res (list bytes) :=
  if zlen data =? 0 then Ok [] else if max <? 2 then Ok []
  else splitGSM7_loop (length data) data max [].

Fixpoint splitBytes_loop (fuel : nat) (data : bytes) (max : Z) (parts : list bytes) : list bytes :=
  match fuel, data with
  | _, [] => parts
  | O, _ => parts
  | S fuel, _ =>
      let n := if zlen data <? max then zlen data else max in
      splitBytes_loop fuel (drop (Z.to_nat n) data) max (parts ++ [take (Z.to_nat n) data])
  end.

Definition splitBytes (data : bytes) (max : Z) : list bytes :=
  if zlen data =? 0 then [] else splitBytes_loop (length data) data max [].

Definition splitFixedUnits (data : bytes) (unitSize maxUnits : Z) : list bytes :=
  splitBytes data (unitSize * maxUnits).

(** The loop of [splitUTF16]: [data[start:off]] is the part being built. *)
Fixpoint splitUTF16_loop (fuel : nat) (data : bytes) (maxUnits : Z)
    (parts : list bytes) (start : nat) (units : Z) (off : nat) : res (list bytes * nat) :=
  if zlen data <=? Z.of_nat off then Ok (parts, start) else
  match fuel with
  | O => Ok (parts, start)
  | S fuel =>
      u ← Uint16 (drop off data);
      width ← (if high_surrogate u then
                 if zlen data <? Z.of_nat off + 4 then Err (ESentinel ErrInvalidSegments)
                 else low ← Uint16 (drop (off + 2) data);
                      if (low <? 0xdc00) || (0xdfff <? low) then Err (ESentinel ErrInvalidSegments)
                      else Ok 2
               else if low_surrogate u then Err (ESentinel ErrInvalidSegments)
               else Ok 1);
      let cut := (0 <? units) && (maxUnits <? units + width) in
      let parts := if cut then parts ++ [drop start (take off data)] else parts in
      let start := if cut then off else start in
      let units := if cut then 0 else units in
      if maxUnits <? width then Err (ESentinel ErrInvalidSegments)
      else splitUTF16_loop fuel data maxUnits parts start (units + width) (off + 2 * Z.to_nat width)
  end.

Definition splitUTF16 (data : bytes) (maxUnits : Z) : res (list bytes) :=
  if zlen data =? 0 then Ok []
  else if negb (zlen data mod 2 =? 0) then Err (ESentinel ErrInvalidSegments)
  else '(parts, start) ← splitUTF16_loop (length data) data maxUnits [] 0 0 0;
       Ok (parts ++ [drop start data]).

(** ** Concatenation headers *)

Definition GSM7UDHFillBits (headerOctets : Z) : Z :=
  if headerOctets <=? 0 then 0
  else let mod7 := (headerOctets * 8) mod 7 in if mod7 =? 0 then 0 else u8 (7 - mod7).

Definition BuildConcatUDH8 (reference total sequence : Z) : bytes :=
  [0x05; 0x00; 0x03; reference; total; sequence].
Definition BuildConcatUDH16 (reference total sequence : Z) : bytes :=
  [0x06; 0x08; 0x04; u8 (Z.shiftr reference 8); u8 reference; total; sequence].

(** What [ParseConcatUDH] returns. *)
Record ConcatUDH := MkConcat { cu_reference : Z; cu_total : Z; cu_sequence : Z; cu_headerLen : Z }.

(** The walk over the information elements from [off] on; every round moves
    past the two octets of an element's header. *)
Fixpoint parse_elements (fuel : nat) (userData : bytes) (headerLen off : Z) : res ConcatUDH :=
  if headerLen <? off + 2 then Err (ESentinel ErrInvalidUDH) else
  match fuel with
  | O => Err (ESentinel ErrInvalidUDH)
  | S fuel =>
      iei ← index userData (Z.to_nat off);
      length ← index userData (Z.to_nat (off + 1));
      let off := off + 2 in
      if headerLen <? off + length then Err (ESentinel ErrInvalidUDH) else
      value ← (rest ← slice_from userData (Z.to_nat off); slice_to rest (Z.to_nat length));
      if iei =? 0x00 then
        if negb (length =? 3) then Err (ESentinel ErrInvalidUDH)
        else v0 ← index value 0; v1 ← index value 1; v2 ← index value 2;
             Ok (MkConcat v0 v1 v2 headerLen)
      else if iei =? 0x08 then
        if negb (length =? 4) then Err (ESentinel ErrInvalidUDH)
        else reference ← (two ← slice_to value 2; Uint16 two);
             v2 ← index value 2; v3 ← index value 3;
             Ok (MkConcat reference v2 v3 headerLen)
      else parse_elements fuel userData headerLen (off + length)
  end.

Definition ParseConcatUDH (userData : bytes) : res ConcatUDH :=
  match userData with
  | [] => Err (ESentinel ErrInvalidUDH)
  | b :: _ =>
      let headerLen := b + 1 in
      if (zlen userData <? headerLen) || (headerLen <? 6) then Err (ESentinel ErrInvalidUDH)
      else parse_elements (length userData) userData headerLen 1
  end.

Definition SARTLVs (reference total sequence : Z) : list OptionalParameter :=
  [MkOptionalParameter TLVTagSARMsgRefNum [u8 (Z.shiftr reference 8); u8 reference];
   MkOptionalParameter TLVTagSARTotalSegments [total];
   MkOptionalParameter TLVTagSARSegmentSeqnum [sequence]].

(** The loop of [ParseSAR]; [None] is a [have] flag that is false. *)
Fixpoint sar_loop (reference total sequence : option Z) (optional : list OptionalParameter)
    : res (option Z * option Z * option Z) :=
  match optional with
  | [] => Ok (reference, total, sequence)
  | p :: optional =>
      if op_Tag p =? TLVTagSARMsgRefNum then
        if negb (zlen (op_Value p) =? 2) then Err (ESentinel ErrInvalidSAR)
        else v ← Uint16 (op_Value p); sar_loop (Some v) total sequence optional
      else if op_Tag p =? TLVTagSARTotalSegments then
        if negb (zlen (op_Value p) =? 1) then Err (ESentinel ErrInvalidSAR)
        else v ← index (op_Value p) 0; sar_loop reference (Some v) sequence optional
      else if op_Tag p =? TLVTagSARSegmentSeqnum then
        if negb (zlen (op_Value p) =? 1) then Err (ESentinel ErrInvalidSAR)
        else v ← index (op_Value p) 0; sar_loop reference total (Some v) optional
      else sar_loop reference total sequence optional
  end.

Definition ParseSAR (optional : list OptionalParameter) : res (Z * Z * Z) :=
  found ← sar_loop None None None optional;
  match found with
  | (Some reference, Some total, Some sequence) =>
      if (total =? 0) || (sequence =? 0) || (total <? sequence) then Err (ESentinel ErrInvalidSAR)
      else Ok (reference, total, sequence)
  | _ => Err (ESentinel ErrInvalidSAR)
  end.

(** ** Segments *)

Definition unit_kind (kind : Kind) : bool :=
  match kind with KindUCS2 | KindUTF16BE => true | _ => false end.

(** The segment of one part in [makeUDHSegments]; [i] counts from zero. *)
Definition udh_segment (kind : Kind) (coding reference total : Z) (i : Z) (chunk : bytes)
    : res Segment :=
  let seq := u8 (i + 1) in
  let udh := BuildConcatUDH8 reference total seq in
  content ← (if decide (kind = KindGSM7)
             then PackSeptetsWithFill chunk (GSM7UDHFillBits (zlen udh)) else Ok chunk);
  let units := if decide (kind = KindGSM7) then zlen chunk
               else if unit_kind kind then zlen chunk / 2 else zlen chunk in
  Ok (MkSegment reference total seq kind coding units chunk udh (udh ++ content) []).

(** [for i, chunk := range chunks]. *)
Fixpoint each_chunk (segment : Z -> bytes -> res Segment) (i : Z) (chunks : list bytes)
    : res (list Segment) :=
  match chunks with
  | [] => Ok []
  | chunk :: chunks =>
      s ← segment i chunk; rest ← each_chunk segment (i + 1) chunks; Ok (s :: rest)
  end.

Definition makeUDHSegments (chunks : list bytes) (kind : Kind) (coding reference : Z)
    : res (list Segment) :=
  if (zlen chunks =? 0) || (255 <? zlen chunks) then Err (ESentinel ErrInvalidSegments)
  else each_chunk (udh_segment kind coding reference (u8 (zlen chunks))) 0 chunks.

(** A message in one part: no header. *)
Definition single (kind : Kind) (coding units : Z) (data userData : bytes) : Segment :=
  MkSegment 0 1 1 kind coding units data [] userData [].

Definition SegmentTextUDH (text : bytes) (allowSurrogates : bool) (reference : Z)
    : res (list Segment) :=
  encoded ← EncodeText text allowSurrogates;
  let kind := mt_Kind encoded in
  let coding := mt_DataCoding encoded in
  match kind with
  | KindGSM7 =>
      if mt_Units encoded <=? GSM7SingleSeptets then
        packed ← PackSeptets (mt_Data encoded);
        Ok [single kind coding (mt_Units encoded) (mt_Data encoded) packed]
      else chunks ← splitGSM7 (mt_Data encoded) GSM7MultipartSeptets;
           makeUDHSegments chunks kind coding reference
  | KindUCS2 =>
      if mt_Units encoded <=? UCS2SingleUnits then
        Ok [single kind coding (mt_Units encoded) (mt_Data encoded) (mt_Data encoded)]
      else makeUDHSegments (splitFixedUnits (mt_Data encoded) 2 UCS2MultipartUnits) kind coding reference
  | KindUTF16BE =>
      if mt_Units encoded <=? UCS2SingleUnits then
        Ok [single kind coding (mt_Units encoded) (mt_Data encoded) (mt_Data encoded)]
      else chunks ← splitUTF16 (mt_Data encoded) UCS2MultipartUnits;
           makeUDHSegments chunks kind coding reference
  | _ => Err (ESentinel ErrInvalidSegments)
  end.

Definition SegmentBinaryUDH (data : bytes) (reference : Z) : res (list Segment) :=
  if zlen data <=? BinarySingleOctets then
    Ok [single KindBinary DataCodingOctetBinary2 (zlen data) data data]
  else makeUDHSegments (splitBytes data BinaryMultipartOctets) KindBinary DataCodingOctetBinary2
         reference.

Definition udh16_segment (kind : Kind) (coding reference total : Z) (i : Z) (chunk : bytes)
    : res Segment :=
  let seq := u8 (i + 1) in
  let udh := BuildConcatUDH16 reference total seq in
  let units := if unit_kind kind then zlen chunk / 2 else zlen chunk in
  Ok (MkSegment reference total seq kind coding units chunk udh (udh ++ chunk) []).

Definition makeUDH16UnpackedSegments (chunks : list bytes) (kind : Kind) (coding reference : Z)
    : res (list Segment) :=
  if (zlen chunks =? 0) || (255 <? zlen chunks) then Err (ESentinel ErrInvalidSegments)
  else each_chunk (udh16_segment kind coding reference (u8 (zlen chunks))) 0 chunks.

(** The chunks are [nil] when the message fits one part. *)
Definition SegmentTextUDH16Unpacked (text : bytes) (allowSurrogates : bool) (reference : Z)
    : res (list Segment) :=
  encoded ← EncodeText text allowSurrogates;
  let kind := mt_Kind encoded in
  let coding := mt_DataCoding encoded in
  let units := mt_Units encoded in
  '(limit, chunks) ← match kind with
    | KindGSM7 =>
        chunks ← (if GSM7SingleSeptets <? units
                  then splitGSM7 (mt_Data encoded) gsm7Multipart16Septets else Ok []);
        Ok (GSM7SingleSeptets, chunks)
    | KindUCS2 =>
        Ok (UCS2SingleUnits, if UCS2SingleUnits <? units
                             then splitFixedUnits (mt_Data encoded) 2 ucs2Multipart16Units else [])
    | KindUTF16BE =>
        chunks ← (if UCS2SingleUnits <? units
                  then splitUTF16 (mt_Data encoded) ucs2Multipart16Units else Ok []);
        Ok (UCS2SingleUnits, chunks)
    | _ => Err (ESentinel ErrInvalidSegments)
    end;
  if units <=? limit then Ok [single kind coding units (mt_Data encoded) (mt_Data encoded)]
  else makeUDH16UnpackedSegments chunks kind coding reference.

Definition SegmentBinaryUDH16 (data : bytes) (reference : Z) : res (list Segment) :=
  if zlen data <=? BinarySingleOctets then
    Ok [single KindBinary DataCodingOctetBinary2 (zlen data) data data]
  else makeUDH16UnpackedSegments (splitBytes data binaryMultipart16Bytes) KindBinary
         DataCodingOctetBinary2 reference.

Definition sar_segment (kind : Kind) (coding reference total : Z) (i : Z) (chunk : bytes)
    : res Segment :=
  let seq := u8 (i + 1) in
  userData ← (if decide (kind = KindGSM7) then PackSeptets chunk else Ok chunk);
  let units := if decide (kind = KindGSM7) then zlen chunk else zlen chunk / 2 in
  Ok (MkSegment reference total seq kind coding units chunk [] userData
        (SARTLVs reference total seq)).

Definition SegmentTextSAR (text : bytes) (allowSurrogates : bool) (reference : Z)
    : res (list Segment) :=
  encoded ← EncodeText text allowSurrogates;
  let kind := mt_Kind encoded in
  chunks ← match kind with
    | KindGSM7 => splitGSM7 (mt_Data encoded) GSM7SingleSeptets
    | KindUCS2 => Ok (splitFixedUnits (mt_Data encoded) 2 UCS2SingleUnits)
    | KindUTF16BE => splitUTF16 (mt_Data encoded) UCS2SingleUnits
    | _ => Ok []
    end;
  if zlen chunks <=? 1 then SegmentTextUDH text allowSurrogates (u8 reference)
  else if 255 <? zlen chunks then Err (ESentinel ErrInvalidSegments)
  else each_chunk (sar_segment kind (mt_DataCoding encoded) reference (u8 (zlen chunks))) 0 chunks.

Definition sar_binary_segment (reference total : Z) (i : Z) (chunk : bytes) : res Segment :=
  let seq := u8 (i + 1) in
  Ok (MkSegment reference total seq KindBinary DataCodingOctetBinary2 (zlen chunk) chunk [] chunk
        (SARTLVs reference total seq)).

Definition SegmentBinarySAR (data : bytes) (reference : Z) : res (list Segment) :=
  let chunks := splitBytes data BinarySingleOctets in
  if zlen chunks <=? 1 then SegmentBinaryUDH data (u8 reference)
  else if 255 <? zlen chunks then Err (ESentinel ErrInvalidSegments)
  else each_chunk (sar_binary_segment reference (u8 (zlen chunks))) 0 chunks.

(** ** Reassembly *)

(** [slices.SortFunc] is not stable; parts with equal sequence numbers are an
    error below, so the order it gives them does not matter. *)
Definition seq_le (a b : Segment) : Prop := Sequence a <= Sequence b.
#[export] Instance seq_le_dec : RelDecision seq_le.
Proof. unfold seq_le. intros a b. apply _. Defined.
Definition sort_parts (segments : list Segment) : list Segment := merge_sort seq_le segments.

Fixpoint duplicate (seen : gset Z) (parts : list Segment) : bool :=
  match parts with
  | [] => false
  | part :: parts =>
      if decide (Sequence part ∈ seen) then true
      else duplicate ({[Sequence part]} ∪ seen) parts
  end.

Definition consistent (first part : Segment) (i : Z) : bool :=
  (Reference part =? Reference first) && bool_decide (sg_Kind part = sg_Kind first) &&
  (sg_DataCoding part =? sg_DataCoding first) && (Total part =? Total first) &&
  (Sequence part =? u8 (i + 1)).

Fixpoint join_parts (first : Segment) (out : bytes) (i : Z) (parts : list Segment) : res bytes :=
  match parts with
  | [] => Ok out
  | part :: parts =>
      if consistent first part i then join_parts first (out ++ Data part) (i + 1) parts
      else Err (ESentinel ErrInvalidSegments)
  end.

Definition Reassemble (segments : list Segment) : res bytes :=
  match sort_parts segments with
  | [] => Err (ESentinel ErrInvalidSegments)
  | (first :: _) as parts =>
      if duplicate ∅ parts then Err (ESentinel ErrInvalidSegments)
      else if Total first =? 0 then Err (ESentinel ErrInvalidSegments)
      else if negb (Total first =? zlen parts) then Err (ESentinel ErrInvalidSegments)
      else join_parts first [] 0 parts
  end.

Definition DecodeTextSegments (segments : list Segment) : res bytes :=
  match segments with
  | [] => Err (ESentinel ErrInvalidSegments)
  | first :: _ =>
      data ← Reassemble segments;
      match sg_Kind first with
      | KindGSM7 => DecodeGSM7 data
      | KindUCS2 => DecodeUCS2 data
      | KindUTF16BE => DecodeUTF16BE data
      | _ => Err (ESentinel ErrInvalidSegments)
      end
  end.

(** ** Correctness of the splits

    Every part decodes on its own, and the parts' texts make up the text. *)
Definition chunked (kind : Kind) (chunks : list bytes) (text : bytes) : Prop :=
  exists texts, Forall2 (fun c t => decode_kind kind c = Ok t) chunks texts /\ concat texts = text.

(** The parts are the data, none is empty, none exceeds [max] octets, and there
    are no more of them than that needs (a part may be one octet short of it). *)
Record partition (data : bytes) (max : Z) (chunks : list bytes) : Prop := {
  pa_concat : concat chunks = data;
  pa_sizes : Forall (fun c => 0 < zlen c <= max) chunks;
  pa_count : (zlen chunks - 1) * (max - 1) <= zlen data
}.

Lemma partition_nil max : 1 <= max -> partition [] max [].
Proof. intros. split; [done|constructor|cbn; lia]. Qed.

Lemma partition_one d max : 0 < zlen d <= max -> partition d max [d].
Proof. intros. split; [apply app_nil_r|constructor; [done|constructor]|cbn; lia]. Qed.

Lemma partition_cons d max k chunks :
  0 < k <= max -> k <= zlen d -> max - 1 <= k -> partition (drop (Z.to_nat k) d) max chunks ->
  partition d max (take (Z.to_nat k) d :: chunks).
Proof.
  intros Hk Hd Hm [Hc Hs Hn]. split.
  - cbn [concat]. by rewrite Hc, take_drop.
  - constructor; [rewrite length_take; lia|done].
  - rewrite length_drop in Hn. cbn [length]. nia.
Qed.

Lemma splitBytes_loop_ok fuel : forall data max parts,
  0 < max -> (length data <= fuel)%nat ->
  exists chunks, splitBytes_loop fuel data max parts = parts ++ chunks /\ partition data max chunks.
Proof.
  induction fuel as [|fuel IH]; intros data max parts Hm Hf; (destruct data as [|x data];
    [exists []; rewrite app_nil_r; split; [done|apply partition_nil; lia]|]); [cbn in Hf; lia|].
  cbn [splitBytes_loop]. set (d := x :: data) in *.
  assert (Hd : 0 < zlen d) by (unfold d; cbn; lia). destruct (Z.ltb_spec (zlen d) max) as [Hlt|Hge].
  - exists [d]. rewrite Nat2Z.id, take_ge, drop_ge by lia.
    split; [by destruct fuel|apply partition_one; lia].
  - destruct (IH (drop (Z.to_nat max) d) max (parts ++ [take (Z.to_nat max) d]) Hm)
      as (chunks & -> & Hc); [len|].
    exists (take (Z.to_nat max) d :: chunks). rewrite <- app_assoc. split; [done|].
    apply partition_cons; [lia..|done].
Qed.

Lemma splitBytes_ok data max : 0 < max -> partition data max (splitBytes data max).
Proof.
  intros Hm. unfold splitBytes. destruct (Z.eqb_spec (zlen data) 0).
  - destruct data; [apply partition_nil; lia|cbn in *; lia].
  - destruct (splitBytes_loop_ok (length data) data max [] Hm ltac:(lia)) as (c & -> & H). done.
Qed.

Lemma put_units_take us n : take (2 * n) (put_units us) = put_units (take n us).
Proof.
  revert n. induction us as [|u us IH]; intros [|n]; [done..|].
  replace (2 * S n)%nat with (S (S (2 * n))) by lia. rewrite put_units_cons. unfold be16_put.
  cbn [app take]. rewrite IH. done.
Qed.
Lemma put_units_drop us n : drop (2 * n) (put_units us) = put_units (drop n us).
Proof.
  revert n. induction us as [|u us IH]; intros [|n]; [done..|].
  replace (2 * S n)%nat with (S (S (2 * n))) by lia. rewrite put_units_cons. unfold be16_put.
  cbn [app drop]. rewrite IH. done.
Qed.

(** Fixed units are never cut. *)
Lemma splitBytes_units fuel : forall us max parts,
  0 < max -> exists groups, splitBytes_loop fuel (put_units us) (2 * max) parts =
    parts ++ map put_units groups /\ (2 * length us <= fuel -> concat groups = us)%nat.
Proof.
  induction fuel as [|fuel IH]; intros us max parts Hm.
  - exists []. cbn. rewrite app_nil_r. split; [by destruct (put_units us)|].
    destruct us; [done|cbn; lia].
  - destruct us as [|u us]; [exists []; rewrite app_nil_r; done|].
    set (k := Z.to_nat (Z.min (zlen (u :: us)) max)).
    assert (Hk : (0 < k <= length (u :: us))%nat) by (unfold k; cbn [length]; lia).
    assert (Hn : Z.to_nat (if zlen (put_units (u :: us)) <? 2 * max then zlen (put_units (u :: us))
      else 2 * max) = (2 * k)%nat).
    { unfold k. rewrite put_units_length. destruct (Z.ltb_spec (2 * zlen (u :: us)) (2 * max)); lia. }
    cbn [splitBytes_loop]. rewrite put_units_cons. cbn [be16_put app].
    change (u8 (u / 256) :: u8 u :: put_units us) with (put_units (u :: us)).
    rewrite Hn, put_units_drop, put_units_take.
    destruct (IH (drop k (u :: us)) max (parts ++ [put_units (take k (u :: us))]) Hm)
      as (groups & -> & Hg).
    exists (take k (u :: us) :: groups). rewrite <- app_assoc. split; [done|]. intros Hf.
    cbn [concat]. rewrite Hg by len. apply take_drop.
Qed.

Lemma splitFixedUnits_ok us max : 0 < max ->
  exists groups, splitFixedUnits (put_units us) 2 max = map put_units groups /\ concat groups = us.
Proof.
  intros Hm. unfold splitFixedUnits, splitBytes. rewrite put_units_length.
  destruct (Z.eqb_spec (2 * zlen us) 0).
  - destruct us; [by exists []|cbn in *; lia].
  - destruct (splitBytes_units (length (put_units us)) us max [] Hm) as (g & -> & Hg).
    exists g. split; [done|]. apply Hg. pose proof (put_units_length us). lia.
Qed.

(** *** GSM 03.38: an escape stays with its extension *)

Lemma symbol_shape codes r : symbol codes r ->
  (exists c, codes = [c] /\ c <> gsmEscape) \/ (exists e, codes = [gsmEscape; e] /\ e <> gsmEscape).
Proof.
  intros H. pose proof (symbol_check _ _ H) as Hc. unfold check_symbol in Hc. cbn [fst snd] in Hc.
  apply andb_true_iff in Hc as [_ Hc]. destruct codes as [|c [|e [|]]]; [done| | |done].
  - left. exists c. rewrite !andb_true_iff, negb_true_iff, Z.eqb_neq in Hc.
    split; [done|]. by destruct Hc as (((_ & ?) & _) & _).
  - right. exists e. rewrite !andb_true_iff, Z.eqb_eq, bool_decide_eq_true in Hc.
    destruct Hc as (((-> & _) & _) & Ha). split; [done|]. intros ->. vm_compute in Ha. done.
Qed.

Lemma gsm_no_double rs s i : gsm_text rs s -> s !! i = Some gsmEscape -> s !! S i <> Some gsmEscape.
Proof.
  intros H. revert i. induction H as [|r rs codes s Hs Ht IH]; intros i; [done|].
  destruct (symbol_shape _ _ Hs) as [(c & -> & Hc)|(e & -> & He)].
  - destruct i as [|i]; cbn; [congruence|]. apply IH.
  - destruct i as [|[|i]]; cbn; [congruence|congruence|]. apply IH.
Qed.

Lemma gsm_split rs s n : gsm_text rs s -> (forall i, n = S i -> s !! i <> Some gsmEscape) ->
  exists rs1 rs2, rs = rs1 ++ rs2 /\ gsm_text rs1 (take n s) /\ gsm_text rs2 (drop n s).
Proof.
  intros H. revert n. induction H as [|r rs codes s Hs Ht IH]; intros n Hn.
  - exists [], []. rewrite take_nil, drop_nil. split_and!; [done|constructor..].
  - destruct n as [|n]; [exists [], (r :: rs); split_and!; [done|constructor|by constructor]|].
    assert (Hk : (length codes <= S n)%nat).
    { destruct (symbol_shape _ _ Hs) as [(c & -> & _)|(e & -> & _)]; [cbn; lia|].
      destruct n as [|n]; [|cbn; lia]. exfalso. by apply (Hn 0%nat). }
    destruct (IH (S n - length codes)%nat) as (rs1 & rs2 & -> & H1 & H2).
    { intros i Hi. specialize (Hn (length codes + i)%nat ltac:(lia)).
      rewrite lookup_app_r in Hn by lia. replace (length codes + i - length codes)%nat with i in Hn by lia.
      done. }
    exists (r :: rs1), rs2. rewrite take_app, drop_app, !take_ge, !drop_ge by lia.
    split_and!; [done|by constructor|done].
Qed.

Lemma gsm_text_nil rs : gsm_text rs [] -> rs = [].
Proof.
  inversion 1 as [|r rs' codes s Hs]; [done|].
  destruct (symbol_shape _ _ Hs) as [(? & -> & _)|(? & -> & _)]; done.
Qed.

Lemma gsm7_cut_ok rs d max : gsm_text rs d -> d <> [] -> 2 <= max ->
  exists k, gsm7_cut d max = Ok k /\ 0 < k <= max /\ k <= zlen d /\
    (k < zlen d -> max - 1 <= k) /\
    forall i, Z.to_nat k = S i -> k < zlen d -> d !! i <> Some gsmEscape.
Proof.
  intros Hg Hne Hm. unfold gsm7_cut. set (n := Z.min (zlen d) max).
  assert (Hd : 0 < zlen d) by (destruct d; [done|cbn; lia]).
  destruct (Z.ltb_spec n (zlen d)) as [Hlt|]; [|exists n; split_and!; [done|lia..]].
  assert (Hn : n = max) by lia. unfold index.
  destruct (lookup_lt_is_Some_2 d (Z.to_nat (n - 1))) as [c Hc]; [lia|]. rewrite Hc.
  cbn [mbind outcome_bind]. destruct (Z.eqb_spec c 0x1b) as [-> |Hx].
  - exists (n - 1). split_and!; [done|lia..|]. intros i Hi _ Hesc.
    apply (gsm_no_double _ _ _ Hg Hesc). by rewrite <- Hi, Hc.
  - exists n. split_and!; [done|lia..|]. intros i Hi _.
    replace i with (Z.to_nat (n - 1)) by lia. rewrite Hc. intros [= ->]. done.
Qed.

Lemma splitGSM7_loop_ok fuel : forall rs data max parts,
  gsm_text rs data -> 2 <= max -> (length data <= fuel)%nat ->
  exists chunks groups, splitGSM7_loop fuel data max parts = Ok (parts ++ chunks) /\
    partition data max chunks /\ Forall2 gsm_text groups chunks /\ concat groups = rs.
Proof.
  assert (Hnil : forall fuel rs max parts, gsm_text rs [] -> 2 <= max ->
    exists chunks groups, splitGSM7_loop fuel [] max parts = Ok (parts ++ chunks) /\
    partition [] max chunks /\ Forall2 gsm_text groups chunks /\ concat groups = rs).
  { clear fuel. intros fuel rs max parts ->%gsm_text_nil Hm. exists [], []. rewrite app_nil_r.
    split_and!; [by destruct fuel|apply partition_nil; lia|constructor|done]. }
  induction fuel as [|fuel IH]; intros rs data max parts Hg Hm Hf;
    (destruct data as [|x data]; [by apply Hnil|]); [cbn in Hf; lia|].
  cbn [splitGSM7_loop]. set (d := x :: data) in *.
  destruct (gsm7_cut_ok rs d max Hg) as (k & -> & Hk & Hkd & Hfull & Hesc); [done..|]. cbn [mbind outcome_bind].
  destruct (Z.eq_dec k (zlen d)) as [-> |Hne].
  - rewrite Nat2Z.id, take_ge, drop_ge by lia. exists [d], [rs].
    split; [by destruct fuel|]. split; [apply partition_one; lia|].
    split; [by repeat constructor|apply app_nil_r].
  - destruct (gsm_split rs d (Z.to_nat k) Hg) as (rs1 & rs2 & -> & H1 & H2);
      [intros i Hi; apply Hesc; [done|lia]|].
    destruct (IH rs2 _ max (parts ++ [take (Z.to_nat k) d]) H2 Hm)
      as (chunks & groups & -> & Hc & Hall & <-); [len|].
    exists (take (Z.to_nat k) d :: chunks), (rs1 :: groups). rewrite <- app_assoc.
    split; [done|]. split; [|split; [by constructor|done]]. apply partition_cons; [lia..|done].
Qed.

Lemma splitGSM7_ok rs data max : gsm_text rs data -> 2 <= max ->
  exists chunks groups, splitGSM7 data max = Ok chunks /\
    partition data max chunks /\ Forall2 gsm_text groups chunks /\ concat groups = rs.
Proof.
  intros Hg Hm. unfold splitGSM7. destruct (Z.eqb_spec (zlen data) 0).
  - destruct data; [|cbn in *; lia]. destruct (splitGSM7_loop_ok 0 rs [] max [] Hg Hm) as (c & g & H & Hr);
      [done|]. exists c, g. split; [done|done].
  - destruct (Z.ltb_spec max 2); [lia|].
    destruct (splitGSM7_loop_ok (length data) rs data max [] Hg Hm) as (c & g & -> & Hr); [done|].
    by exists c, g.
Qed.

(** *** UTF-16: surrogate pairs stay together *)

Definition wire16 (rs : list Z) : bytes := put_units (utf16_Encode rs).

Lemma wire16_app a b : wire16 (a ++ b) = wire16 a ++ wire16 b.
Proof. unfold wire16, utf16_Encode, put_units. by rewrite map_app, concat_app, map_app, concat_app. Qed.
Lemma wire16_length rs : zlen (wire16 rs) = 2 * zlen (utf16_Encode rs).
Proof. apply put_units_length. Qed.

(** The loop's reading of one rune. *)
Lemma read_rune pre r rs data (off : nat) : scalar r = true ->
  data = pre ++ wire16 (r :: rs) -> off = length pre ->
  exists u, @Uint16 GoError (drop off data) = Ok u /\
  (if high_surrogate u then
     if zlen data <? Z.of_nat off + 4 then Err (ESentinel ErrInvalidSegments)
     else low ← Uint16 (drop (off + 2) data);
          if (low <? 0xdc00) || (0xdfff <? low) then Err (ESentinel ErrInvalidSegments) else Ok 2
   else if low_surrogate u then Err (ESentinel ErrInvalidSegments) else Ok 1) =
  Ok (zlen (utf16_put r)).
Proof.
  intros Hr -> ->. rewrite drop_app_length.
  assert (drop (length pre + 2) (pre ++ wire16 (r :: rs)) = drop 2 (wire16 (r :: rs))) as ->
    by (by rewrite <- drop_drop, drop_app_length).
  pose proof (utf16_put_units r) as Hu. unfold wire16, utf16_Encode. cbn [map concat].
  generalize (concat (map utf16_put rs)) as tl. intros tl.
  unfold utf16_put in *. rewrite Hr in *. cbn [negb] in *. apply scalar_spec in Hr.
  destruct (Z.ltb_spec r 0x10000).
  - cbn [app]. rewrite put_units_cons. unfold be16_put. cbn [app Uint16].
    apply Forall_cons in Hu as [Hu _]. rewrite be16_get_put by done. exists r. split; [done|].
    assert (high_surrogate r = false) as -> by (unfold high_surrogate; lia).
    assert (low_surrogate r = false) as -> by (unfold low_surrogate; lia). done.
  - set (h := 0xd800 + (r - 0x10000) / 1024) in *. set (l := 0xdc00 + (r - 0x10000) mod 1024) in *.
    cbn [app]. rewrite !put_units_cons. unfold be16_put. cbn [app Uint16 drop].
    rewrite !Forall_cons in Hu. destruct Hu as (Hh & Hl & _). rewrite !be16_get_put by done.
    exists h. split; [done|].
    assert (high_surrogate h = true) as -> by (unfold high_surrogate, h; zdiv).
    rewrite length_app. cbn [length]. 
    match goal with |- context [?a <? ?b + 4] => destruct (Z.ltb_spec a (b + 4)); [lia|] end.
    cbn [mbind outcome_bind].
    assert ((l <? 0xdc00) || (0xdfff <? l) = false) as -> by (unfold l; zdiv). done.
Qed.

Lemma utf16_put_length r : scalar r = true -> 1 <= zlen (utf16_put r) <= 2.
Proof. intros Hr. unfold utf16_put. rewrite Hr. cbn [negb]. destruct (r <? 0x10000); cbn; lia. Qed.
Lemma utf16_app a b : utf16_Encode (a ++ b) = utf16_Encode a ++ utf16_Encode b.
Proof. unfold utf16_Encode. by rewrite map_app, concat_app. Qed.
Lemma utf16_single r : utf16_Encode [r] = utf16_put r.
Proof. unfold utf16_Encode. cbn. apply app_nil_r. Qed.

(** A group of runes that makes a part of at most [max] units. *)
Definition fits (max : Z) (g : list Z) : Prop := 0 < zlen (utf16_Encode g) <= max.

Section Split16.
Context (max : Z) (Hmax : 2 <= max) (rs : list Z) (Hrs : Forall (fun r => scalar r = true) rs).

(** The state of the loop: whole groups done, [cur] in the part being built. *)
Record split_state (groups : list (list Z)) (cur rest : list Z)
    (parts : list bytes) (start : nat) (units : Z) (off : nat) : Prop := {
  ss_runes : rs = concat groups ++ cur ++ rest;
  ss_parts : parts = map wire16 groups;
  ss_start : start = length (wire16 (concat groups));
  ss_off : off = length (wire16 (concat groups ++ cur));
  ss_units : units = zlen (utf16_Encode cur);
  ss_max : units <= max;
  ss_groups : Forall (fits max) groups;
  ss_full : zlen groups * (max - 1) <= zlen (utf16_Encode (concat groups))
}.

Lemma split_state_scalar groups cur r rest parts start units off :
  split_state groups cur (r :: rest) parts start units off -> scalar r = true.
Proof.
  intros [Hr _ _ _ _ _ _ _]. rewrite Hr in Hrs. apply Forall_app in Hrs as [_ [_ H]%Forall_app].
  by apply Forall_cons in H as [H _].
Qed.

Lemma off_next pre r : scalar r = true ->
  length (wire16 (pre ++ [r])) = (length (wire16 pre) + 2 * Z.to_nat (zlen (utf16_put r)))%nat.
Proof.
  intros Hr. rewrite wire16_app, length_app.
  pose proof (wire16_length [r]) as Hl. rewrite utf16_single in Hl. lia.
Qed.

Lemma split_state_cut groups cur r rest parts start units off :
  split_state groups cur (r :: rest) parts start units off -> 0 < units ->
  max < units + zlen (utf16_put r) ->
  split_state (groups ++ [cur]) [r] rest (parts ++ [drop start (take off (wire16 rs))]) off
    (zlen (utf16_put r)) (off + 2 * Z.to_nat (zlen (utf16_put r))).
Proof.
  intros Hs Hu Hcut. pose proof (split_state_scalar _ _ _ _ _ _ _ _ Hs) as Hr.
  destruct Hs as [Hrun -> -> -> -> Hm Hg Hfull]. pose proof (utf16_put_length r Hr) as Hw.
  assert (Hcat : concat (groups ++ [cur]) = concat groups ++ cur)
    by (rewrite concat_app; cbn; by rewrite app_nil_r).
  split; try rewrite Hcat; try done.
  - by rewrite Hrun, <- app_assoc.
  - rewrite map_app. cbn [map]. do 2 f_equal. rewrite Hrun, app_assoc, (wire16_app (concat groups ++ cur)).
    rewrite take_app_length, wire16_app. apply drop_app_length.
  - symmetry. by apply off_next.
  - by rewrite utf16_single.
  - lia.
  - apply Forall_app. split; [done|]. by repeat constructor.
  - rewrite length_app, utf16_app. len.
Qed.

Lemma split_state_extend groups cur r rest parts start units off :
  split_state groups cur (r :: rest) parts start units off ->
  units + zlen (utf16_put r) <= max ->
  split_state groups (cur ++ [r]) rest parts start (units + zlen (utf16_put r))
    (off + 2 * Z.to_nat (zlen (utf16_put r))).
Proof.
  intros Hs Hu. pose proof (split_state_scalar _ _ _ _ _ _ _ _ Hs) as Hr.
  destruct Hs as [Hrun -> -> -> -> Hm Hg Hfull]. split; try done.
  - by rewrite Hrun, <- app_assoc.
  - rewrite app_assoc. symmetry. by apply off_next.
  - rewrite utf16_app, utf16_single. len.
Qed.

Lemma split_state_length groups cur r rest parts start units off :
  split_state groups cur (r :: rest) parts start units off -> Z.of_nat off < zlen (wire16 rs).
Proof.
  intros Hs. pose proof (split_state_scalar _ _ _ _ _ _ _ _ Hs) as Hr.
  destruct Hs as [Hrun _ _ -> _ _ _ _]. pose proof (utf16_put_length r Hr).
  rewrite Hrun, app_assoc. change (r :: rest) with ([r] ++ rest).
  rewrite (app_assoc _ [r]), (wire16_app (_ ++ [r])), length_app, off_next by done. lia.
Qed.

Lemma splitUTF16_loop_ok fuel : forall groups cur rest parts start units off,
  split_state groups cur rest parts start units off -> (length rest <= fuel)%nat ->
  exists groups' cur' off', splitUTF16_loop fuel (wire16 rs) max parts start units off =
    Ok (map wire16 groups', length (wire16 (concat groups'))) /\
    split_state groups' cur' [] (map wire16 groups') (length (wire16 (concat groups')))
      (zlen (utf16_Encode cur')) off' /\ (rest <> [] \/ cur <> [] -> cur' <> []).
Proof.
  assert (Hend : forall fuel groups cur parts start units off,
    split_state groups cur [] parts start units off ->
    splitUTF16_loop fuel (wire16 rs) max parts start units off =
      Ok (map wire16 groups, length (wire16 (concat groups)))).
  { clear. intros fuel groups cur parts start units off [Hr -> -> Ho _ _ _ _].
    rewrite app_nil_r in Hr. subst rs off. destruct fuel; cbn [splitUTF16_loop]; by rewrite Z.leb_refl. }
  induction fuel as [|fuel IH]; intros groups cur rest parts start units off Hs Hf;
    (destruct rest as [|r rest];
      [exists groups, cur, off; split_and!;
        [by eapply Hend|by destruct Hs as [? -> -> ? -> ? ? ?]|by intros [?|?]]|]); [cbn in Hf; lia|].
  pose proof (split_state_scalar _ _ _ _ _ _ _ _ Hs) as Hr. pose proof (utf16_put_length r Hr) as Hw.
  pose proof (split_state_length _ _ _ _ _ _ _ _ Hs) as Hlt. pose proof Hs as [Hrun Hp Hst Ho Hu Hm Hg Hfull].
  cbn [splitUTF16_loop]. destruct (Z.leb_spec (zlen (wire16 rs)) (Z.of_nat off)) as [|_]; [lia|].
  destruct (read_rune (wire16 (concat groups ++ cur)) r rest (wire16 rs) off Hr) as (u & -> & Hread);
    [by rewrite Hrun, app_assoc, wire16_app|done|]. cbn [mbind outcome_bind] in Hread |- *.
  rewrite Hread. cbn [mbind outcome_bind]. destruct (Z.ltb_spec max (zlen (utf16_put r))); [lia|].
  assert (Hstep : forall groups' cur' parts' start' units' off', cur' <> [] ->
    split_state groups' cur' rest parts' start' units' off' ->
    exists g c o, splitUTF16_loop fuel (wire16 rs) max parts' start' units' off' =
      Ok (map wire16 g, length (wire16 (concat g))) /\
      split_state g c [] (map wire16 g) (length (wire16 (concat g))) (zlen (utf16_Encode c)) o /\
      (r :: rest <> [] \/ cur <> [] -> c <> [])).
  { intros groups' cur' parts' start' units' off' Hc Hs'.
    destruct (IH _ _ _ _ _ _ _ Hs') as (g & c & o & H1 & H2 & H3); [cbn in Hf; lia|].
    exists g, c, o. auto. }
  destruct (Z.ltb_spec 0 units) as [Hpos|Hpos]; cbn [andb];
    [destruct (Z.ltb_spec max (units + zlen (utf16_put r))) as [Hcut|Hcut]|];
    [|by (eapply Hstep; [|eapply split_state_extend; [done|lia]]; by destruct cur)..].
  rewrite Z.add_0_l. by (eapply Hstep; [|by eapply split_state_cut]).
Qed.

Lemma splitUTF16_ok :
  exists groups, splitUTF16 (wire16 rs) max = Ok (map wire16 groups) /\
    concat groups = rs /\ Forall (fits max) groups /\
    (zlen groups - 1) * (max - 1) <= zlen (utf16_Encode rs).
Proof.
  assert (Hlen : zlen rs <= zlen (utf16_Encode rs)).
  { clear -Hrs. induction rs as [|r l IH]; [done|]. apply Forall_cons in Hrs as [Hr Hl].
    specialize (IH Hl). unfold utf16_Encode in *. cbn [map concat length]. rewrite length_app.
    pose proof (utf16_put_length r Hr). lia. }
  pose proof (wire16_length rs) as Hw. unfold splitUTF16.
  destruct (Z.eqb_spec (zlen (wire16 rs)) 0) as [He|He].
  - exists []. assert (length rs = 0%nat) by lia. destruct rs; [|done]. split_and!; [done..|cbn; lia].
  - unfold wire16 at 1. rewrite even_length. cbn [negb].
    destruct (splitUTF16_loop_ok (length (wire16 rs)) [] [] rs [] 0 0 0)
      as (g & c & o & -> & [Hrun _ _ _ _ Hm Hg Hfull] & Hne);
      [split; try done; cbn; lia|lia|].
    cbn [mbind outcome_bind]. rewrite app_nil_r in Hrun. exists (g ++ [c]). split_and!.
    + rewrite map_app. cbn [map]. do 3 f_equal. rewrite Hrun at 1. rewrite wire16_app. apply drop_app_length.
    + rewrite concat_app. cbn. by rewrite app_nil_r.
    + apply Forall_app. split; [done|]. constructor; [|constructor]. split; [|done].
      assert (Hc : c <> []) by (apply Hne; left; by destruct rs).
      destruct c as [|r c]; [done|]. rewrite Hrun in Hrs. apply Forall_app in Hrs as [_ [Hr _]%Forall_cons].
      change (r :: c) with ([r] ++ c). rewrite utf16_app, utf16_single, length_app.
      pose proof (utf16_put_length r Hr). lia.
    + replace (utf16_Encode rs) with (utf16_Encode (concat g) ++ utf16_Encode c)
        by (by rewrite Hrun, utf16_app).
      rewrite !length_app. cbn [length]. lia.
Qed.
End Split16.

(** ** Parts of a text *)

Definition unit_octets (kind : Kind) : Z := if decide (kind = KindGSM7) then 1 else 2.

Definition split_text (kind : Kind) (data : bytes) (max : Z) : res (list bytes) :=
  match kind with
  | KindGSM7 => splitGSM7 data max
  | KindUCS2 => Ok (splitFixedUnits data 2 max)
  | KindUTF16BE => splitUTF16 data max
  | _ => Err (ESentinel ErrInvalidSegments)
  end.

Record parts_of (kind : Kind) (data text : bytes) (units max : Z) (chunks : list bytes) : Prop := {
  po_concat : concat chunks = data;
  po_text : chunked kind chunks text;
  po_sizes : Forall (fun c => 0 < zlen c <= unit_octets kind * max) chunks;
  po_septets : kind = KindGSM7 -> Forall (fun c => Forall is_septet c) chunks;
  po_count : (zlen chunks - 1) * (max - 1) <= units
}.

Lemma utf8_concat groups : concat (map utf8 groups) = utf8 (concat groups).
Proof.
  unfold utf8. induction groups as [|g groups IH]; [done|]. cbn [map concat].
  by rewrite IH, map_app, concat_app.
Qed.

Lemma chunked_groups kind (wire : list Z -> bytes) groups :
  Forall (fun g => decode_kind kind (wire g) = Ok (utf8 g)) groups ->
  chunked kind (map wire groups) (utf8 (concat groups)).
Proof.
  intros H. exists (map utf8 groups). split; [|apply utf8_concat].
  induction H; constructor; done.
Qed.

Lemma concat_map_put groups : concat (map put_units groups) = put_units (concat groups).
Proof.
  unfold put_units. induction groups as [|g groups IH]; [done|]. cbn [map concat].
  by rewrite IH, map_app, concat_app.
Qed.
Lemma concat_map_wire16 groups : concat (map wire16 groups) = wire16 (concat groups).
Proof. induction groups as [|g groups IH]; [done|]. cbn [map concat]. by rewrite IH, wire16_app. Qed.

Lemma Forall_concat {A} (P : A -> Prop) ls : Forall P (concat ls) <-> Forall (Forall P) ls.
Proof.
  induction ls as [|l ls IH]; cbn; [split; constructor|]. by rewrite Forall_app, Forall_cons, IH.
Qed.

(** Each of the three splits cuts a selected text into parts. *)
Lemma split_text_ok text allow e max : SelectText text allow = Ok e -> 2 <= max ->
  exists chunks, split_text (et_Kind e) (et_Data e) max = Ok chunks /\
    parts_of (et_Kind e) (et_Data e) text (et_Units e) max chunks.
Proof.
  intros (rs & -> & [(-> & Hg & Hu)|[(-> & -> & Hb & Hu)|(-> & -> & Hs & Hu)]])%SelectText_ok Hm;
    cbn [split_text].
  - destruct (splitGSM7_ok rs _ max Hg Hm) as (chunks & groups & -> & [Hc Hz Hn] & Hall & <-).
    exists chunks. split; [done|]. split; [done| |by rewrite Z.mul_1_l| |lia].
    + exists (map utf8 groups). split; [|apply utf8_concat].
      clear -Hall. induction Hall as [|g c gs cs Hg _ IH]; constructor; [by apply decode_gsm_text|done].
    + intros _. clear -Hall. induction Hall as [|g c gs cs Hg _ IH]; constructor; [|done].
      by eapply gsm_text_septets.
  - destruct (splitFixedUnits_ok rs max) as (groups & Hsp & <-); [lia|].
    assert (Hp : partition (put_units (concat groups)) (2 * max) (splitFixedUnits (put_units (concat groups)) 2 max))
      by (apply splitBytes_ok; lia).
    rewrite Hsp in *. destruct Hp as [Hc Hz Hn]. rewrite put_units_length in Hn.
    eexists. split; [done|]. split; [done| |done|done|].
    + apply chunked_groups. apply Forall_concat in Hb. eapply Forall_impl; [exact Hb|].
      intros g. apply decode_ucs2_text.
    + rewrite length_map in *. nia.
  - change (put_units (utf16_Encode rs)) with (wire16 rs).
    destruct (splitUTF16_ok max Hm rs Hs) as (groups & -> & <- & Hf & Hn).
    eexists. split; [done|]. split; [apply concat_map_wire16| | |done|by rewrite length_map, Hu].
    + apply chunked_groups. apply Forall_concat in Hs. eapply Forall_impl; [exact Hs|].
      intros g. apply decode_utf16_text.
    + clear -Hf. induction Hf as [|g groups Hg _ IH]; [constructor|]. constructor; [|done].
      rewrite wire16_length. unfold fits in Hg. change (unit_octets KindUTF16BE) with 2. lia.
Qed.

(** ** Segments that describe their parts *)

Record described (reference : Z) (kind : Kind) (coding : Z) (chunks : list bytes)
    (segs : list Segment) : Prop := {
  de_length : length segs = length chunks;
  de_segment : forall k s, segs !! k = Some s ->
    Reference s = reference /\ Total s = zlen chunks /\ Sequence s = Z.of_nat k + 1 /\
    sg_Kind s = kind /\ sg_DataCoding s = coding /\ chunks !! k = Some (Data s)
}.

#[export] Instance seq_le_trans : Transitive seq_le.
Proof. intros a b c. unfold seq_le. lia. Qed.
#[export] Instance seq_le_total : base.Total seq_le.
Proof. intros a b. unfold seq_le. lia. Qed.

Lemma sorted_by_index segs : (forall k s, segs !! k = Some s -> Sequence s = Z.of_nat k + 1) ->
  StronglySorted seq_le segs.
Proof.
  intros H. assert (Hgen : forall j, (forall k s, segs !! k = Some s -> Sequence s = Z.of_nat (j + k) + 1) ->
    StronglySorted seq_le segs); [|by apply (Hgen 0%nat)].
  clear H. induction segs as [|s segs IH]; intros j H; constructor.
  - apply (IH (S j)). intros k s' Hk. rewrite (H (S k) s' Hk). lia.
  - apply Forall_forall. intros s' [k Hk]%list_elem_of_lookup. unfold seq_le.
    rewrite (H 0%nat s eq_refl), (H (S k) s' Hk). lia.
Qed.

(** Whatever the order they arrive in. *)
Lemma sort_parts_perm segs segs' : (forall k s, segs !! k = Some s -> Sequence s = Z.of_nat k + 1) ->
  segs' ≡ₚ segs -> sort_parts segs' = segs.
Proof.
  intros H Hp. unfold sort_parts.
  apply (StronglySorted_unique_strong seq_le).
  - intros a b Ha Hb H1 H2. rewrite (merge_sort_Permutation seq_le segs') in Ha. rewrite Hp in Ha.
    apply list_elem_of_lookup in Ha as [i Hi], Hb as [j Hj].
    unfold seq_le in *. pose proof (H i a Hi). pose proof (H j b Hj). assert (i = j) as -> by lia. congruence.
  - apply StronglySorted_merge_sort; apply _.
  - by apply sorted_by_index.
  - by rewrite merge_sort_Permutation.
Qed.

Lemma duplicate_spec parts : forall seen, duplicate seen parts = false <->
  NoDup (map Sequence parts) /\ forall s, s ∈ parts -> Sequence s ∉ seen.
Proof.
  induction parts as [|p parts IH]; intros seen; cbn [duplicate map].
  - split; [|done]. split; [constructor|]. by intros s ?%elem_of_nil.
  - rewrite NoDup_cons. destruct (decide (Sequence p ∈ seen)) as [Hin|Hin].
    + split; [done|]. intros [_ H]. exfalso. apply (H p); [by left|done].
    + rewrite IH. rewrite list_elem_of_fmap. split.
      * intros [Hn H]. split_and!; [|done|].
        -- intros (s & He & Hs). apply (H s Hs). rewrite He. set_solver.
        -- intros s [-> |Hs]%elem_of_cons; [done|]. specialize (H s Hs). set_solver.
      * intros [[Hp Hn] H]. split; [done|]. intros s Hs.
        assert (Sequence s ∉ seen) by (apply H; by right). assert (Sequence s <> Sequence p); [|set_solver].
        intros He. apply Hp. by exists s.
Qed.

Lemma join_parts_spec first parts : forall out i d, join_parts first out i parts = Ok d <->
  (forall k s, parts !! k = Some s -> consistent first s (i + Z.of_nat k) = true) /\
  d = out ++ concat (map Data parts).
Proof.
  induction parts as [|p parts IH]; intros out i d; cbn [join_parts map concat].
  - rewrite app_nil_r. split; [intros [= <-]; done|]. by intros [_ ->].
  - destruct (consistent first p i) eqn:Hc.
    + rewrite IH, app_assoc. split; intros [H ->]; (split; [|done]).
      * intros [|k] s; cbn; [intros [= <-]; by rewrite Z.add_0_r|].
        intros Hk. rewrite <- (H k s Hk). f_equal. lia.
      * intros k s Hk. rewrite <- (H (S k) s Hk). f_equal. lia.
    + split; [done|]. intros [H _]. specialize (H 0%nat p eq_refl). rewrite Z.add_0_r in H. congruence.
Qed.

Lemma consistent_spec first s i : consistent first s i = true <->
  Reference s = Reference first /\ sg_Kind s = sg_Kind first /\ sg_DataCoding s = sg_DataCoding first /\
  Total s = Total first /\ Sequence s = u8 (i + 1).
Proof. unfold consistent. rewrite !andb_true_iff, bool_decide_eq_true, !Z.eqb_eq. tauto. Qed.

Lemma Reassemble_described reference kind coding chunks segs segs' :
  described reference kind coding chunks segs -> 1 <= zlen chunks <= 255 -> segs' ≡ₚ segs ->
  Reassemble segs' = Ok (concat chunks).
Proof.
  intros [Hlen Hseg] Hn Hp. unfold Reassemble.
  rewrite (sort_parts_perm segs segs'); [|by intros k s (_ & _ & H & _)%Hseg|done].
  destruct segs as [|first rest]; [cbn in Hlen; lia|]. set (segs0 := first :: rest) in *.
  assert (H0 : segs0 !! 0%nat = Some first) by done.
  destruct (Hseg 0%nat first H0) as (Hr & Ht & _ & Hk & Hc & _).
  assert (duplicate ∅ segs0 = false) as ->.
  { apply duplicate_spec. split; [|set_solver]. apply NoDup_fmap_2_strong.
    - intros a b [i Hi]%list_elem_of_lookup [j Hj]%list_elem_of_lookup He.
      pose proof (Hseg i a Hi) as (_ & _ & H1 & _). pose proof (Hseg j b Hj) as (_ & _ & H2 & _).
      assert (i = j) as -> by lia. congruence.
    - apply NoDup_alt. intros i j s Hi Hj.
      pose proof (Hseg i s Hi) as (_ & _ & H1 & _). pose proof (Hseg j s Hj) as (_ & _ & H2 & _). lia. }
  destruct (Z.eqb_spec (Total first) 0); [lia|].
  destruct (Z.eqb_spec (Total first) (zlen segs0)); [|lia]. cbn [negb].
  apply join_parts_spec. split.
  - intros k s Hks. apply consistent_spec. destruct (Hseg k s Hks) as (-> & -> & -> & -> & -> & Hd).
    apply lookup_lt_Some in Hd. rewrite u8_small by lia. split_and!; [done..|lia].
  - cbn [app]. f_equal. apply list_eq_same_length with (length chunks); [by rewrite length_map|done|].
    intros k c d Hlt Hck Hdk. apply list_lookup_fmap_Some in Hdk as (s & -> & Hs').
    destruct (Hseg k s Hs') as (_ & _ & _ & _ & _ & H). congruence.
Qed.

(** [Reassemble] accepts exactly the complete messages: it returns an octet
    string precisely when the segments are, in some order, the parts 1 to n of n
    with one reference, kind and data_coding, and then the string is their data
    in that order. *)
Theorem Reassemble_exact segs d :
  Forall (fun s => is_u8 (Total s)) segs ->
  Reassemble segs = Ok d <->
  exists parts reference kind coding, parts ≡ₚ segs /\ parts <> [] /\
    described reference kind coding (map Data parts) parts /\ d = concat (map Data parts).
Proof.
  intros Hu. split.
  - unfold Reassemble. pose proof (merge_sort_Permutation seq_le segs) as Hp. fold (sort_parts segs) in Hp.
    destruct (sort_parts segs) as [|first rest] eqn:Hs; [done|]. set (parts := first :: rest) in *.
    destruct (duplicate ∅ parts); [done|]. destruct (Z.eqb_spec (Total first) 0); [done|].
    destruct (Z.eqb_spec (Total first) (zlen parts)) as [Ht|]; [|done]. cbn [negb].
    intros [Hc ->]%join_parts_spec. exists parts, (Reference first), (sg_Kind first), (sg_DataCoding first).
    split_and!; [done|done| |done]. split; [by rewrite length_map|]. intros k s Hk.
    pose proof (Hc k s Hk) as (-> & -> & -> & -> & Hseq)%consistent_spec.
    assert (Hmax : is_u8 (Total first)).
    { rewrite <- Hp in Hu. by apply Forall_cons in Hu as [Hu _]. }
    pose proof (lookup_lt_Some _ _ _ Hk). rewrite length_map, Hseq, Z.add_0_l, u8_small by lia.
    split_and!; [done..|]. rewrite list_lookup_fmap. by rewrite Hk.
  - intros (parts & reference & kind & coding & Hp & Hne & Hd & ->).
    eapply Reassemble_described; [done| |by symmetry]. rewrite length_map.
    destruct parts as [|p parts]; [done|]. destruct (de_segment _ _ _ _ _ Hd 0%nat p eq_refl) as (_ & Ht & _).
    rewrite <- Hp in Hu. apply Forall_cons in Hu as [Hu _]. rewrite length_map in Ht. cbn [length] in *. lia.
Qed.

(** ** What the receiver of a segment recovers

    From the octets of the short message (and the SAR parameters) alone; a
    receiver of packed septets knows their count from the length field of the
    message. *)
Inductive carrier := Udh8 | Udh16 | Sar.

Definition receive (c : carrier) (s : Segment) : res (Z * Z * Z * bytes) :=
  match c with
  | Udh8 =>
      h ← ParseConcatUDH (UserData s);
      content ← slice_from (UserData s) (Z.to_nat (cu_headerLen h));
      data ← (if decide (sg_Kind s = KindGSM7)
              then UnpackSeptets content (Units s) (GSM7UDHFillBits (cu_headerLen h))
              else Ok content);
      Ok (cu_reference h, cu_total h, cu_sequence h, data)
  | Udh16 =>
      h ← ParseConcatUDH (UserData s);
      content ← slice_from (UserData s) (Z.to_nat (cu_headerLen h));
      Ok (cu_reference h, cu_total h, cu_sequence h, content)
  | Sar =>
      '(reference, total, sequence) ← ParseSAR (sg_Optional s);
      data ← (if decide (sg_Kind s = KindGSM7) then UnpackSeptets (UserData s) (Units s) 0
              else Ok (UserData s));
      Ok (reference, total, sequence, data)
  end.

Record sent_as (c : carrier) (reference : Z) (kind : Kind) (coding total i limit : Z)
    (chunk : bytes) (s : Segment) : Prop := {
  sa_reference : Reference s = reference;
  sa_total : Total s = total;
  sa_sequence : Sequence s = i + 1;
  sa_kind : sg_Kind s = kind;
  sa_coding : sg_DataCoding s = coding;
  sa_data : Data s = chunk;
  sa_receive : receive c s = Ok (reference, total, i + 1, chunk);
  sa_size : zlen (UserData s) <= limit
}.

Lemma fill8 : GSM7UDHFillBits 6 = 1.
Proof. reflexivity. Qed.

Lemma slice_from_app {E} (a b : bytes) n : n = length a -> @slice_from E (a ++ b) n = Ok b.
Proof.
  intros ->. unfold slice_from. rewrite decide_True by len. by rewrite drop_app_length.
Qed.

Lemma parse_udh8 reference total sequence content :
  ParseConcatUDH (BuildConcatUDH8 reference total sequence ++ content) =
  Ok (MkConcat reference total sequence 6).
Proof.
  unfold ParseConcatUDH, BuildConcatUDH8. cbn [app length].
  destruct (Z.ltb_spec (Z.of_nat (S (S (S (S (S (S (length content)))))))) (5 + 1)); [lia|]. reflexivity.
Qed.

Lemma be16_shiftr v : is_u16 v -> be16_get (u8 (Z.shiftr v 8)) (u8 v) = v.
Proof. intros. rewrite Z.shiftr_div_pow2 by lia. by apply be16_get_put. Qed.

Lemma parse_udh16 reference total sequence content : is_u16 reference ->
  ParseConcatUDH (BuildConcatUDH16 reference total sequence ++ content) =
  Ok (MkConcat reference total sequence 7).
Proof.
  intros Hr. unfold ParseConcatUDH, BuildConcatUDH16. cbn [app length].
  destruct (Z.ltb_spec (Z.of_nat (S (S (S (S (S (S (S (length content))))))))) (6 + 1)); [lia|].
  transitivity (@Ok GoError _ (MkConcat (be16_get (u8 (Z.shiftr reference 8)) (u8 reference))
    total sequence 7)); [reflexivity|by rewrite be16_shiftr].
Qed.

Lemma parse_sar reference total sequence : is_u16 reference -> 1 <= sequence <= total ->
  ParseSAR (SARTLVs reference total sequence) = Ok (reference, total, sequence).
Proof.
  intros Hr Hs. unfold ParseSAR, SARTLVs. cbn -[Z.shiftr u8 be16_get].
  rewrite be16_shiftr by done.
  change (Z.of_nat 2 =? 2) with true. change (Z.of_nat 1 =? 1) with true. cbn [negb mbind outcome_bind].
  destruct (Z.eqb_spec total 0); [lia|]. destruct (Z.eqb_spec sequence 0); [lia|].
  destruct (Z.ltb_spec total sequence); [lia|]. reflexivity.
Qed.

Lemma udh_segment_ok kind coding reference total i chunk :
  0 <= i < total -> total <= 255 ->
  (kind = KindGSM7 -> Forall is_septet chunk /\ zlen chunk <= 153) ->
  (kind <> KindGSM7 -> zlen chunk <= 134) ->
  exists s, udh_segment kind coding reference total i chunk = Ok s /\
    sent_as Udh8 reference kind coding total i 140 chunk s.
Proof.
  intros Hi Ht Hg Ho. unfold udh_segment. rewrite u8_small by lia. cbn zeta.
  change (zlen (BuildConcatUDH8 reference total (i + 1))) with 6. rewrite fill8.
  destruct (decide (kind = KindGSM7)) as [Hk|Hk].
  - destruct (Hg Hk) as [Hsep Hlen]. destruct (pack_unpack chunk 1 Hsep) as (packed & -> & Hl & Hun); [lia|].
    cbn [mbind outcome_bind]. eexists. split; [done|]. split; try done.
    + cbn [receive UserData sg_Kind Units]. rewrite parse_udh8. cbn [mbind outcome_bind cu_headerLen].
      rewrite slice_from_app by done. cbn [mbind outcome_bind]. rewrite decide_True by done.
      rewrite fill8, Hun. done.
    + cbn [UserData]. rewrite length_app. change (length (BuildConcatUDH8 _ _ _)) with 6%nat. zdiv.
  - specialize (Ho Hk). cbn [mbind outcome_bind]. eexists. split; [done|]. split; try done.
    + cbn [receive UserData sg_Kind Units]. rewrite parse_udh8. cbn [mbind outcome_bind cu_headerLen].
      rewrite slice_from_app by done. cbn [mbind outcome_bind]. by rewrite decide_False by done.
    + cbn [UserData]. rewrite length_app. change (length (BuildConcatUDH8 _ _ _)) with 6%nat. lia.
Qed.

Lemma udh16_segment_ok kind coding reference total i limit chunk :
  0 <= i < total -> total <= 255 -> is_u16 reference -> zlen chunk + 7 <= limit ->
  exists s, udh16_segment kind coding reference total i chunk = Ok s /\
    sent_as Udh16 reference kind coding total i limit chunk s.
Proof.
  intros Hi Ht Hr Hl. unfold udh16_segment. rewrite u8_small by lia. cbn zeta. eexists.
  split; [done|]. split; try done.
  - cbn [receive UserData sg_Kind Units]. rewrite parse_udh16 by done.
    cbn [mbind outcome_bind cu_headerLen]. by rewrite slice_from_app by done.
  - cbn [UserData]. rewrite length_app. change (length (BuildConcatUDH16 _ _ _)) with 7%nat. lia.
Qed.

Lemma sar_segment_ok kind coding reference total i chunk :
  0 <= i < total -> total <= 255 -> is_u16 reference ->
  (kind = KindGSM7 -> Forall is_septet chunk /\ zlen chunk <= 160) ->
  (kind <> KindGSM7 -> zlen chunk <= 140) ->
  exists s, sar_segment kind coding reference total i chunk = Ok s /\
    sent_as Sar reference kind coding total i 140 chunk s.
Proof.
  intros Hi Ht Hr Hg Ho. unfold sar_segment. rewrite u8_small by lia. cbn zeta.
  destruct (decide (kind = KindGSM7)) as [Hk|Hk].
  - destruct (Hg Hk) as [Hsep Hlen]. unfold PackSeptets.
    destruct (pack_unpack chunk 0 Hsep) as (packed & -> & Hl & Hun); [lia|].
    cbn [mbind outcome_bind]. eexists. split; [done|]. split; try done.
    + cbn [receive sg_Optional UserData sg_Kind Units]. rewrite parse_sar by (done || lia).
      cbn [mbind outcome_bind]. rewrite decide_True by done. by rewrite Hun.
    + cbn [UserData]. zdiv.
  - specialize (Ho Hk). cbn [mbind outcome_bind]. eexists. split; [done|]. split; try done.
    cbn [receive sg_Optional UserData sg_Kind Units]. rewrite parse_sar by (done || lia).
    cbn [mbind outcome_bind]. by rewrite decide_False by done.
Qed.

Lemma sar_binary_segment_ok reference total i chunk :
  0 <= i < total -> total <= 255 -> is_u16 reference -> zlen chunk <= 140 ->
  exists s, sar_binary_segment reference total i chunk = Ok s /\
    sent_as Sar reference KindBinary DataCodingOctetBinary2 total i 140 chunk s.
Proof.
  intros Hi Ht Hr Hl. unfold sar_binary_segment. rewrite u8_small by lia. cbn zeta. eexists.
  split; [done|]. split; try done.
  cbn [receive sg_Optional UserData sg_Kind]. by rewrite parse_sar by (done || lia).
Qed.

(** All the parts. *)
Record sent_all (c : carrier) (reference : Z) (kind : Kind) (coding limit : Z)
    (chunks : list bytes) (segs : list Segment) : Prop := {
  al_length : length segs = length chunks;
  al_segment : forall k s, segs !! k = Some s -> exists chunk, chunks !! k = Some chunk /\
    sent_as c reference kind coding (zlen chunks) (Z.of_nat k) limit chunk s
}.

Lemma each_chunk_ok c reference kind coding limit total segment chunks : forall i,
  0 <= i -> i + zlen chunks = total ->
  (forall j chunk, 0 <= j < total -> chunk ∈ chunks -> exists s, segment j chunk = Ok s /\
     sent_as c reference kind coding total j limit chunk s) ->
  exists segs, each_chunk segment i chunks = Ok segs /\ length segs = length chunks /\
    forall k s, segs !! k = Some s -> exists chunk, chunks !! k = Some chunk /\
      sent_as c reference kind coding total (i + Z.of_nat k) limit chunk s.
Proof.
  induction chunks as [|chunk chunks IH]; intros i Hi Ht H; cbn [each_chunk].
  - exists []. split_and!; done.
  - cbn [length] in Ht. destruct (H i chunk) as (s & -> & Hs); [lia|by left|]. cbn [mbind outcome_bind].
    destruct (IH (i + 1)) as (segs & -> & Hl & Hk); [lia|lia|intros j ch Hj Hin; apply H; [done|by right]|].
    cbn [mbind outcome_bind]. exists (s :: segs). split_and!; [done|cbn; lia|].
    intros [|k] s'; cbn [lookup list_lookup].
    + intros [= <-]. exists chunk. by rewrite Z.add_0_r.
    + intros (ch & Hch & Hsa)%Hk. exists ch. split; [done|].
      by replace (i + Z.of_nat (S k)) with (i + 1 + Z.of_nat k) by lia.
Qed.

Lemma sent_described c reference kind coding limit chunks segs :
  sent_all c reference kind coding limit chunks segs -> described reference kind coding chunks segs.
Proof.
  intros [Hl Hs]. split; [done|]. intros k s (chunk & Hc & H)%Hs. destruct H. by subst.
Qed.

Lemma DecodeTextSegments_described reference kind coding chunks segs segs' text :
  described reference kind coding chunks segs -> 1 <= zlen chunks <= 255 -> segs' ≡ₚ segs ->
  decode_kind kind (concat chunks) = Ok text -> DecodeTextSegments segs' = Ok text.
Proof.
  intros Hd Hn Hp Ht. pose proof (Reassemble_described _ _ _ _ _ _ Hd Hn Hp) as Hr.
  destruct Hd as [Hl Hs]. destruct segs' as [|s segs'].
  { apply Permutation_length in Hp. cbn in Hp. lia. }
  unfold DecodeTextSegments. rewrite Hr. cbn [mbind outcome_bind].
  assert (Hin : s ∈ segs) by (rewrite <- Hp; by left).
  apply list_elem_of_lookup in Hin as [k Hk]. destruct (Hs k s Hk) as (_ & _ & _ & -> & _).
  by destruct kind.
Qed.

(** ** The segmenters *)

Definition segment_text (c : carrier) (text : bytes) (allow : bool) (reference : Z)
    : res (list Segment) :=
  match c with
  | Udh8 => SegmentTextUDH text allow reference
  | Udh16 => SegmentTextUDH16Unpacked text allow reference
  | Sar => SegmentTextSAR text allow reference
  end.

Definition segment_binary (c : carrier) (data : bytes) (reference : Z) : res (list Segment) :=
  match c with
  | Udh8 => SegmentBinaryUDH data reference
  | Udh16 => SegmentBinaryUDH16 data reference
  | Sar => SegmentBinarySAR data reference
  end.

Definition reference_ok (c : carrier) (reference : Z) : Prop :=
  match c with Udh8 => is_u8 reference | _ => is_u16 reference end.

(** Units per part, and octets of user data per segment. *)
Definition part_units (c : carrier) (kind : Kind) : Z :=
  match c with
  | Udh8 => if decide (kind = KindGSM7) then GSM7MultipartSeptets else UCS2MultipartUnits
  | Udh16 => if decide (kind = KindGSM7) then gsm7Multipart16Septets else ucs2Multipart16Units
  | Sar => if decide (kind = KindGSM7) then GSM7SingleSeptets else UCS2SingleUnits
  end.
Definition segment_octets (c : carrier) (kind : Kind) : Z :=
  match c with Udh16 => if decide (kind = KindGSM7) then 160 else 140 | _ => 140 end.

Lemma part_units_range c kind : 66 <= part_units c kind <= 160.
Proof. destruct c; cbn; case_decide; vm_compute; split; discriminate. Qed.

(** One segment of a part of a text, by any carrier. *)
Definition text_segment (c : carrier) (kind : Kind) (coding reference total i : Z) (chunk : bytes)
    : res Segment :=
  match c with
  | Udh8 => udh_segment kind coding reference total i chunk
  | Udh16 => udh16_segment kind coding reference total i chunk
  | Sar => sar_segment kind coding reference total i chunk
  end.

Lemma text_segment_ok c kind coding reference total i chunk :
  reference_ok c reference -> 0 <= i < total -> total <= 255 ->
  (kind = KindGSM7 -> Forall is_septet chunk) -> 0 < zlen chunk <= unit_octets kind * part_units c kind ->
  exists s, text_segment c kind coding reference total i chunk = Ok s /\
    sent_as c reference kind coding total i (segment_octets c kind) chunk s.
Proof.
  intros Hr Hi Ht Hg Hl. unfold unit_octets, part_units, segment_octets in *.
  destruct c; cbn [reference_ok text_segment] in *; destruct (decide (kind = KindGSM7)) as [Hk|Hk].
  - apply udh_segment_ok; [done|done| |done]. intros. split; [auto|]. unfold GSM7MultipartSeptets in Hl. lia.
  - apply udh_segment_ok; [done|done|done|]. intros. unfold UCS2MultipartUnits in Hl. lia.
  - apply udh16_segment_ok; [done..|]. unfold gsm7Multipart16Septets in Hl. lia.
  - apply udh16_segment_ok; [done..|]. unfold ucs2Multipart16Units in Hl. lia.
  - apply sar_segment_ok; [done|done|done| |done]. intros. split; [auto|]. unfold GSM7SingleSeptets in Hl. lia.
  - apply sar_segment_ok; [done|done|done|done|]. intros. unfold UCS2SingleUnits in Hl. lia.
Qed.

(** All the segments of a text in parts. *)
Lemma text_segments_ok c kind coding reference data text units chunks :
  reference_ok c reference -> parts_of kind data text units (part_units c kind) chunks ->
  zlen chunks <= 255 ->
  exists segs, each_chunk (text_segment c kind coding reference (u8 (zlen chunks))) 0 chunks = Ok segs /\
    sent_all c reference kind coding (segment_octets c kind) chunks segs.
Proof.
  intros Hr [_ _ Hz Hsep _] Hn. rewrite u8_small by lia.
  destruct (each_chunk_ok c reference kind coding (segment_octets c kind) (zlen chunks)
    (text_segment c kind coding reference (zlen chunks)) chunks 0) as (segs & -> & Hl & Hs);
    [lia|lia| |exists segs; split; [done|]; by split].
  intros j chunk Hj Hin. rewrite Forall_forall in Hz. apply text_segment_ok; auto.
  intros Hk. specialize (Hsep Hk). rewrite Forall_forall in Hsep. auto.
Qed.

(** *** The segmenters in one shape *)

Definition text_coding (kind : Kind) : Z :=
  if decide (kind = KindGSM7) then DataCodingSMSCDefault else DataCodingUCS2.
Definition single_units (kind : Kind) : Z :=
  if decide (kind = KindGSM7) then GSM7SingleSeptets else UCS2SingleUnits.
Definition pack_text (kind : Kind) (data : bytes) : res bytes :=
  if decide (kind = KindGSM7) then PackSeptets data else Ok data.

Definition text_kind (kind : Kind) : Prop :=
  kind = KindGSM7 \/ kind = KindUCS2 \/ kind = KindUTF16BE.

Lemma SelectText_sizes text allow e : SelectText text allow = Ok e ->
  text_kind (et_Kind e) /\ zlen (et_Data e) = unit_octets (et_Kind e) * et_Units e /\
  (et_Kind e = KindGSM7 -> Forall is_septet (et_Data e)).
Proof.
  intros (rs & -> & [(-> & H & ->)|[(-> & -> & H & ->)|(-> & -> & H & ->)]])%SelectText_ok;
    unfold text_kind; rewrite ?put_units_length.
  - split_and!; [auto|change (unit_octets KindGSM7) with 1; lia|]. intros _. by eapply gsm_text_septets.
  - split_and!; [auto|done|done].
  - split_and!; [auto|done|done].
Qed.

Section OneShape.
Context (text : bytes) (allow : bool) (e : EncodedText).
Hypothesis Hsel : SelectText text allow = Ok e.
Let kind := et_Kind e.
Let coding := text_coding kind.

Lemma EncodeText_eq :
  EncodeText text allow = Ok (MkMessageText kind coding (et_Data e) (et_Units e)).
Proof. unfold EncodeText. rewrite Hsel. done. Qed.

Lemma SegmentTextUDH_eq reference : text_kind kind -> SegmentTextUDH text allow reference =
  if et_Units e <=? single_units kind then
    userData ← pack_text kind (et_Data e);
    Ok [single kind coding (et_Units e) (et_Data e) userData]
  else chunks ← split_text kind (et_Data e) (part_units Udh8 kind);
       makeUDHSegments chunks kind coding reference.
Proof.
  intros Hk. unfold SegmentTextUDH. rewrite EncodeText_eq. cbn [mbind outcome_bind mt_Kind mt_Units
    mt_Data mt_DataCoding]. by destruct Hk as [-> |[-> | ->]].
Qed.

Lemma SegmentTextUDH16_eq reference : text_kind kind ->
  SegmentTextUDH16Unpacked text allow reference =
  if et_Units e <=? single_units kind then
    Ok [single kind coding (et_Units e) (et_Data e) (et_Data e)]
  else chunks ← split_text kind (et_Data e) (part_units Udh16 kind);
       makeUDH16UnpackedSegments chunks kind coding reference.
Proof.
  intros Hk. unfold SegmentTextUDH16Unpacked. rewrite EncodeText_eq.
  cbn [mbind outcome_bind mt_Kind mt_Units mt_Data mt_DataCoding].
  destruct Hk as [-> |[-> | ->]]; cbn [split_text].
  - change (single_units KindGSM7) with GSM7SingleSeptets.
    change (part_units Udh16 KindGSM7) with gsm7Multipart16Septets. rewrite Z.ltb_antisym.
    destruct (et_Units e <=? GSM7SingleSeptets) eqn:Hl; cbn [negb mbind outcome_bind]; [by rewrite Hl|].
    by destruct (splitGSM7 _ _); cbn [mbind outcome_bind]; rewrite ?Hl.
  - change (single_units KindUCS2) with UCS2SingleUnits. rewrite Z.ltb_antisym.
    cbn [mbind outcome_bind]. by destruct (et_Units e <=? UCS2SingleUnits) eqn:Hl; rewrite ?Hl.
  - change (single_units KindUTF16BE) with UCS2SingleUnits.
    change (part_units Udh16 KindUTF16BE) with ucs2Multipart16Units. rewrite Z.ltb_antisym.
    destruct (et_Units e <=? UCS2SingleUnits) eqn:Hl; cbn [negb mbind outcome_bind]; [by rewrite Hl|].
    by destruct (splitUTF16 _ _); cbn [mbind outcome_bind]; rewrite ?Hl.
Qed.

Lemma SegmentTextSAR_eq reference : text_kind kind ->
  SegmentTextSAR text allow reference =
  chunks ← split_text kind (et_Data e) (part_units Sar kind);
  if zlen chunks <=? 1 then SegmentTextUDH text allow (u8 reference)
  else if 255 <? zlen chunks then Err (ESentinel ErrInvalidSegments)
  else each_chunk (sar_segment kind coding reference (u8 (zlen chunks))) 0 chunks.
Proof.
  intros Hk. unfold SegmentTextSAR. rewrite EncodeText_eq.
  cbn [mbind outcome_bind mt_Kind mt_Units mt_Data mt_DataCoding].
  by destruct Hk as [-> |[-> | ->]].
Qed.
End OneShape.

(** *** What the segmenters return *)

(** A message in one part, or in parts that are described and carried. *)
Inductive segmented (c : carrier) (reference : Z) (kind : Kind) (coding : Z) (data : bytes)
    : list bytes -> list Segment -> Prop :=
| segmented_one s :
    described 0 kind coding [data] [s] -> UDH s = [] -> sg_Optional s = [] ->
    zlen (UserData s) <= segment_octets c kind ->
    segmented c reference kind coding data [data] [s]
| segmented_parts chunks segs :
    concat chunks = data -> 1 <= zlen chunks <= 255 ->
    sent_all c reference kind coding (segment_octets c kind) chunks segs ->
    segmented c reference kind coding data chunks segs.

Lemma single_described kind coding units data userData :
  described 0 kind coding [data] [single kind coding units data userData].
Proof. split; [done|]. intros [|k] s; [|done]. intros [= <-]. done. Qed.

Lemma pack_single e : Forall is_septet (et_Data e) \/ et_Kind e <> KindGSM7 ->
  zlen (et_Data e) = unit_octets (et_Kind e) * et_Units e -> et_Units e <= single_units (et_Kind e) ->
  exists u, pack_text (et_Kind e) (et_Data e) = Ok u /\ zlen u <= 140.
Proof.
  unfold pack_text, unit_octets, single_units. intros Hs Hd Hu.
  destruct (decide (et_Kind e = KindGSM7)) as [Hk|Hk].
  - destruct Hs as [Hs|?]; [|done]. destruct (pack_unpack _ 0 Hs) as (u & Hu' & Hl & _); [lia|].
    exists u. split; [done|]. unfold GSM7SingleSeptets in Hu. zdiv.
  - exists (et_Data e). split; [done|]. unfold UCS2SingleUnits in Hu. lia.
Qed.

Lemma parts_nonempty kind data text units max chunks :
  parts_of kind data text units max chunks -> data <> [] -> 1 <= zlen chunks.
Proof. intros [Hc _ _ _ _] Hd. destruct chunks; [done|cbn; lia]. Qed.

(** A message of at most one part fits a single message. *)
Lemma parts_single kind data text units max chunks :
  parts_of kind data text units max chunks -> zlen data = unit_octets kind * units ->
  0 <= max -> zlen chunks <= 1 -> units <= max.
Proof.
  intros [Hc _ Hz _ _] Hd Hm Hn. assert (Hu : 0 < unit_octets kind) by (unfold unit_octets; case_decide; lia).
  destruct chunks as [|c [|]]; [| |cbn in Hn; lia].
  - subst data. cbn in Hd. nia.
  - cbn in Hc. rewrite app_nil_r in Hc. subst c. apply Forall_cons in Hz as [Hz _]. nia.
Qed.

Section Segmenters.
Context (c : carrier) (text : bytes) (allow : bool) (reference : Z) (e : EncodedText).
Hypothesis Hsel : SelectText text allow = Ok e.
Hypothesis Href : reference_ok c reference.
Let kind := et_Kind e.
Let coding := text_coding kind.

(** Too many parts is the only failure. *)
Definition segmenting (result : res (list Segment)) : Prop :=
  exists chunks, chunked kind chunks text /\ concat chunks = et_Data e /\
    (zlen chunks - 1) * 65 <= et_Units e /\
    (255 < zlen chunks /\ result = Err (ESentinel ErrInvalidSegments) \/
     exists segs, result = Ok segs /\ segmented c reference kind coding (et_Data e) chunks segs).

Lemma segmenting_one units s : described 0 kind coding [et_Data e] [s] -> UDH s = [] ->
  sg_Optional s = [] -> zlen (UserData s) <= segment_octets c kind -> 0 <= units -> et_Units e = units ->
  segmenting (Ok [s]).
Proof.
  intros Hd Hu Ho Hl Hn He. exists [et_Data e]. split_and!; [|apply app_nil_r|cbn; lia|].
  - exists [text]. split; [|apply app_nil_r]. constructor; [by apply (SelectText_decodes text allow)|done].
  - right. exists [s]. split; [done|]. by constructor.
Qed.

Lemma segmenting_parts chunks (make : res (list Segment)) :
  parts_of kind (et_Data e) text (et_Units e) (part_units c kind) chunks -> 1 <= zlen chunks ->
  (255 < zlen chunks -> make = Err (ESentinel ErrInvalidSegments)) ->
  (zlen chunks <= 255 ->
     make = each_chunk (text_segment c kind coding reference (u8 (zlen chunks))) 0 chunks) ->
  segmenting make.
Proof.
  intros Hp Hn Hbig Hok. pose proof Hp as [Hc Ht _ _ Hcount]. pose proof (part_units_range c kind).
  exists chunks. split_and!; [done|done|nia|]. destruct (Z.le_gt_cases (zlen chunks) 255) as [Hle|Hgt]; [right|left; auto].
  rewrite Hok by done. destruct (text_segments_ok c kind coding reference _ _ _ _ Href Hp Hle) as (segs & -> & Hs).
  exists segs. split; [done|]. by constructor.
Qed.
End Segmenters.

Section TextSegments.
Context (text : bytes) (allow : bool) (reference : Z) (e : EncodedText).
Hypothesis Hsel : SelectText text allow = Ok e.

Lemma units_nonneg : 0 <= et_Units e.
Proof.
  destruct (SelectText_sizes _ _ _ Hsel) as (_ & Hd & _). unfold unit_octets in Hd. case_decide; lia.
Qed.

(** The parts of the text, for any carrier. *)
Lemma split_for c : exists chunks,
  split_text (et_Kind e) (et_Data e) (part_units c (et_Kind e)) = Ok chunks /\
  parts_of (et_Kind e) (et_Data e) text (et_Units e) (part_units c (et_Kind e)) chunks /\
  (single_units (et_Kind e) < et_Units e -> 1 <= zlen chunks).
Proof.
  pose proof (part_units_range c (et_Kind e)) as Hr. destruct (SelectText_sizes _ _ _ Hsel) as (_ & Hd & _).
  destruct (split_text_ok text allow e (part_units c (et_Kind e)) Hsel) as (chunks & -> & Hp); [lia|].
  exists chunks. split_and!; [done..|]. intros Hu. eapply parts_nonempty; [exact Hp|].
  intros He. rewrite He in Hd.
  unfold single_units, unit_octets, GSM7SingleSeptets, UCS2SingleUnits in *. cbn in Hd. case_decide; lia.
Qed.

(** One part, packed when it is GSM 03.38. *)
Lemma segment_single c : c <> Udh16 -> et_Units e <= single_units (et_Kind e) ->
  segmenting c text reference e (userData ← pack_text (et_Kind e) (et_Data e);
    Ok [single (et_Kind e) (text_coding (et_Kind e)) (et_Units e) (et_Data e) userData]).
Proof.
  intros Hc Hle. destruct (SelectText_sizes _ _ _ Hsel) as (Hk & Hd & Hsep).
  destruct (pack_single e) as (u & -> & Hu); [|done|done|].
  { destruct (decide (et_Kind e = KindGSM7)); auto. }
  cbn [mbind outcome_bind].
  eapply segmenting_one; [done|apply single_described|done|done| |apply units_nonneg|done]. by destruct c.
Qed.

Lemma segment_udh_ok : is_u8 reference ->
  segmenting Udh8 text reference e (SegmentTextUDH text allow reference).
Proof.
  intros Hr. destruct (SelectText_sizes _ _ _ Hsel) as (Hk & _ & _).
  rewrite (SegmentTextUDH_eq text allow e) by done.
  destruct (Z.leb_spec (et_Units e) (single_units (et_Kind e))) as [Hle|Hgt]; [by apply segment_single|].
  destruct (split_for Udh8) as (chunks & -> & Hp & Hn). cbn [mbind outcome_bind]. specialize (Hn Hgt).
  eapply segmenting_parts; [done|done|done|..]; unfold makeUDHSegments;
    (destruct (Z.eqb_spec (zlen chunks) 0); [lia|]); intros; cbn [orb];
    destruct (Z.ltb_spec 255 (zlen chunks)); try lia; done.
Qed.

Lemma segment_udh16_ok : is_u16 reference ->
  segmenting Udh16 text reference e (SegmentTextUDH16Unpacked text allow reference).
Proof.
  intros Hr. destruct (SelectText_sizes _ _ _ Hsel) as (Hk & Hd & _).
  rewrite (SegmentTextUDH16_eq text allow e) by done.
  destruct (Z.leb_spec (et_Units e) (single_units (et_Kind e))) as [Hle|Hgt].
  { eapply segmenting_one; [done|apply single_described|done|done| |apply units_nonneg|done].
    cbn [single UserData]. rewrite Hd. unfold unit_octets, segment_octets, single_units,
      GSM7SingleSeptets, UCS2SingleUnits in *. case_decide; lia. }
  destruct (split_for Udh16) as (chunks & -> & Hp & Hn). cbn [mbind outcome_bind]. specialize (Hn Hgt).
  eapply segmenting_parts; [done|done|done|..]; unfold makeUDH16UnpackedSegments;
    (destruct (Z.eqb_spec (zlen chunks) 0); [lia|]); intros; cbn [orb];
    destruct (Z.ltb_spec 255 (zlen chunks)); try lia; done.
Qed.

Lemma segment_sar_ok : is_u16 reference ->
  segmenting Sar text reference e (SegmentTextSAR text allow reference).
Proof.
  intros Hr. destruct (SelectText_sizes _ _ _ Hsel) as (Hk & Hd & _).
  rewrite (SegmentTextSAR_eq text allow e) by done.
  destruct (split_for Sar) as (chunks & -> & Hp & _). cbn [mbind outcome_bind].
  destruct (Z.leb_spec (zlen chunks) 1) as [Hone|Hn].
  - assert (Hle : et_Units e <= single_units (et_Kind e)).
    { eapply (parts_single _ _ _ _ (single_units (et_Kind e))); [|done| |done].
      - unfold part_units, single_units in *. exact Hp.
      - unfold single_units, GSM7SingleSeptets, UCS2SingleUnits. case_decide; lia. }
    rewrite (SegmentTextUDH_eq text allow e) by done. rewrite (proj2 (Z.leb_le _ _) Hle).
    by apply segment_single.
  - eapply segmenting_parts; [done|done|lia|..]; intros;
      destruct (Z.ltb_spec 255 (zlen chunks)); try lia; done.
Qed.

Lemma segment_text_ok c : reference_ok c reference ->
  segmenting c text reference e (segment_text c text allow reference).
Proof. destruct c; [apply segment_udh_ok|apply segment_udh16_ok|apply segment_sar_ok]. Qed.
End TextSegments.

Lemma segmented_described c reference kind coding data chunks segs :
  segmented c reference kind coding data chunks segs ->
  exists reference', described reference' kind coding chunks segs /\ 1 <= zlen chunks <= 255.
Proof.
  intros [s Hd _ _ _|chunks' segs' _ Hn Hs]; eexists; (split; [|done]); [done|by eapply sent_described].
Qed.

(** C27: A text of up to 16510 septets or code units is segmented, whichever of
    the three ways its parts are numbered, and the segments decode to the text
    in whatever order they arrive.  Every segment also decodes on its own, to a
    piece of the text, so no escape pair and no surrogate pair is cut. *)
Theorem text_segments_roundtrip c text allow reference e :
  SelectText text allow = Ok e -> et_Units e <= 16510 -> reference_ok c reference ->
  exists segs, segment_text c text allow reference = Ok segs /\
    (forall segs', segs' ≡ₚ segs -> DecodeTextSegments segs' = Ok text) /\
    exists pieces, concat pieces = text /\
      Forall2 (fun s t => decode_kind (sg_Kind s) (Data s) = Ok t) segs pieces.
Proof.
  intros Hsel Hu Hr.
  destruct (segment_text_ok text allow reference e Hsel c Hr) as (chunks & Ht & Hc & Hn & H).
  destruct H as [[Hbig _]|(segs & -> & Hs)]; [lia|]. exists segs. split; [done|].
  apply segmented_described in Hs as (reference' & Hd & Hlen). split.
  - intros segs' Hp. eapply DecodeTextSegments_described; [done|done|done|]. rewrite Hc.
    by eapply SelectText_decodes.
  - destruct Ht as (texts & Hall & Htext). exists texts. split; [done|].
    destruct Hd as [Hl Hseg]. apply Forall2_same_length_lookup_2.
    + rewrite Hl. by eapply Forall2_length.
    + intros k s t Hk Htk. destruct (Hseg k s Hk) as (_ & _ & _ & -> & _ & Hck).
      apply (Forall2_lookup_lr _ _ _ _ _ _ Hall Hck Htk).
Qed.

(** 161 septets: two parts. *)
Lemma text_segments_roundtrip_witness : exists segs,
  SegmentTextUDH (replicate 161 0x41) false 7 = Ok segs /\
  DecodeTextSegments (rev segs) = Ok (replicate 161 0x41).
Proof.
  destruct (text_segments_roundtrip Udh8 (replicate 161 0x41) false 7
    (MkEncodedText KindGSM7 (replicate 161 0x41) 161)) as (segs & H1 & H2 & _).
  - vm_compute. reflexivity.
  - vm_compute. discriminate.
  - split; vm_compute; [discriminate|reflexivity].
  - exists segs. split; [done|]. apply H2. symmetry. apply Permutation_rev.
Defined.

(** Every segment of a text fits a short message (140 octets of user data; 160
    when the septets are not packed), and from those octets and the SAR
    parameters alone the receiver of a multipart message recovers the reference,
    the number of parts, the position and the content of each part. *)
Theorem segments_carried c text allow reference e segs :
  SelectText text allow = Ok e -> reference_ok c reference ->
  segment_text c text allow reference = Ok segs ->
  Forall (fun s => zlen (UserData s) <= segment_octets c (et_Kind e)) segs /\
  ((exists s, segs = [s] /\ Data s = et_Data e /\ UDH s = [] /\ sg_Optional s = []) \/
   forall k s, segs !! k = Some s -> Sequence s = Z.of_nat k + 1 /\ Total s = zlen segs /\
     receive c s = Ok (reference, Total s, Sequence s, Data s)).
Proof.
  intros Hsel Hr Hok.
  destruct (segment_text_ok text allow reference e Hsel c Hr) as (chunks & _ & _ & _ & H).
  destruct H as [[_ He]|(segs' & He & Hs)]; [congruence|].
  assert (segs' = segs) as -> by congruence. destruct Hs as [s Hd Hu Ho Hz|chunks' segs _ _ [Hl Hs]].
  - split; [by repeat constructor|]. left. exists s.
    destruct (de_segment _ _ _ _ _ Hd 0%nat s eq_refl) as (_ & _ & _ & _ & _ & [= Hdata]). done.
  - split.
    + apply Forall_forall. intros s [k Hk]%list_elem_of_lookup. destruct (Hs k s Hk) as (ch & _ & Hsa).
      by apply (sa_size _ _ _ _ _ _ _ _ _ Hsa).
    + right. intros k s Hk. destruct (Hs k s Hk) as (ch & _ & [_ Ht Hq _ _ Hdt Hrc _]).
      rewrite Ht, Hq, Hdt, Hl. done.
Qed.

Lemma segments_carried_witness : exists segs,
  SegmentTextSAR (replicate 161 0x41) false 7 = Ok segs /\
  Forall (fun s => zlen (UserData s) <= 140) segs.
Proof.
  eexists. split; [vm_compute; reflexivity|].
  apply (segments_carried Sar (replicate 161 0x41) false 7
    (MkEncodedText KindGSM7 (replicate 161 0x41) 161)).
  - vm_compute. reflexivity.
  - split; vm_compute; [discriminate|reflexivity].
  - vm_compute. reflexivity.
Defined.

(** *** Binary messages *)

Definition binary_part (c : carrier) : Z :=
  match c with
  | Udh8 => BinaryMultipartOctets | Udh16 => binaryMultipart16Bytes | Sar => BinarySingleOctets
  end.

Definition binary_segment (c : carrier) (reference total i : Z) (chunk : bytes) : res Segment :=
  match c with
  | Udh8 => udh_segment KindBinary DataCodingOctetBinary2 reference total i chunk
  | Udh16 => udh16_segment KindBinary DataCodingOctetBinary2 reference total i chunk
  | Sar => sar_binary_segment reference total i chunk
  end.

Lemma binary_segments_ok c reference chunks :
  reference_ok c reference -> Forall (fun ch => 0 < zlen ch <= binary_part c) chunks ->
  zlen chunks <= 255 ->
  exists segs, each_chunk (binary_segment c reference (u8 (zlen chunks))) 0 chunks = Ok segs /\
    sent_all c reference KindBinary DataCodingOctetBinary2 140 chunks segs.
Proof.
  intros Hr Hz Hn. rewrite u8_small by lia.
  destruct (each_chunk_ok c reference KindBinary DataCodingOctetBinary2 140 (zlen chunks)
    (binary_segment c reference (zlen chunks)) chunks 0) as (segs & -> & Hl & Hs);
    [lia|lia| |exists segs; split; [done|]; by split].
  intros j chunk Hj Hin. rewrite Forall_forall in Hz. specialize (Hz chunk Hin).
  unfold BinaryMultipartOctets, binaryMultipart16Bytes, BinarySingleOctets in *.
  destruct c; cbn [binary_segment binary_part reference_ok] in *;
    unfold BinaryMultipartOctets, binaryMultipart16Bytes, BinarySingleOctets in *.
  - apply udh_segment_ok; [done|lia|done|lia].
  - apply udh16_segment_ok; [done|lia|done|lia].
  - apply sar_binary_segment_ok; [done|lia|done|lia].
Qed.

(** A binary payload in one part, or in parts; too many parts is the only failure. *)
Definition segmenting_binary (c : carrier) (reference : Z) (data : bytes) (result : res (list Segment))
    : Prop :=
  exists chunks, (zlen chunks - 1) * 132 <= zlen data /\
    (255 < zlen chunks /\ result = Err (ESentinel ErrInvalidSegments) \/
     exists segs, result = Ok segs /\
       segmented c reference KindBinary DataCodingOctetBinary2 data chunks segs).

Lemma binary_single c reference data : zlen data <= 140 ->
  segmenting_binary c reference data (Ok [single KindBinary DataCodingOctetBinary2 (zlen data) data data]).
Proof.
  intros Hl. exists [data]. split; [cbn; lia|]. right. eexists. split; [done|].
  constructor; [apply single_described|done|done|]. by destruct c.
Qed.

Lemma binary_parts c reference data make :
  reference_ok c reference -> data <> [] -> let chunks := splitBytes data (binary_part c) in
  (255 < zlen chunks -> make = Err (ESentinel ErrInvalidSegments)) ->
  (1 <= zlen chunks <= 255 -> make = each_chunk (binary_segment c reference (u8 (zlen chunks))) 0 chunks) ->
  segmenting_binary c reference data make.
Proof.
  intros Hr Hne chunks Hbig Hok. assert (Hb : 133 <= binary_part c) by (destruct c; vm_compute; discriminate).
  destruct (splitBytes_ok data (binary_part c)) as [Hc Hz Hn]; [lia|]. fold chunks in Hc, Hz, Hn.
  assert (H1 : 1 <= zlen chunks) by (destruct chunks; [by subst data|cbn; lia]).
  exists chunks. split; [nia|]. destruct (Z.le_gt_cases (zlen chunks) 255) as [Hle|Hgt]; [right|left; auto].
  rewrite Hok by lia. destruct (binary_segments_ok c reference chunks Hr Hz Hle) as (segs & -> & Hs).
  exists segs. split; [done|]. apply segmented_parts; [done|lia|by destruct c].
Qed.

Lemma long_nonempty (data : bytes) n : 0 <= n < zlen data -> data <> [].
Proof. intros H ->. cbn in H. lia. Qed.

Lemma segment_binary_ok c data reference : reference_ok c reference ->
  segmenting_binary c reference data (segment_binary c data reference).
Proof.
  intros Hr. destruct c; cbn [segment_binary].
  - unfold SegmentBinaryUDH. change BinarySingleOctets with 140.
    destruct (Z.leb_spec (zlen data) 140) as [Hle|Hgt]; [by apply binary_single|].
    apply binary_parts; [done|apply (long_nonempty _ 140); lia|..]; intros H; unfold makeUDHSegments;
      cbn [binary_part] in H; destruct (Z.eqb_spec (zlen (splitBytes data BinaryMultipartOctets)) 0);
      try lia; cbn [orb]; destruct (Z.ltb_spec 255 (zlen (splitBytes data BinaryMultipartOctets))); try lia; done.
  - unfold SegmentBinaryUDH16. change BinarySingleOctets with 140.
    destruct (Z.leb_spec (zlen data) 140) as [Hle|Hgt]; [by apply binary_single|].
    apply binary_parts; [done|apply (long_nonempty _ 140); lia|..]; intros H; unfold makeUDH16UnpackedSegments;
      cbn [binary_part] in H; destruct (Z.eqb_spec (zlen (splitBytes data binaryMultipart16Bytes)) 0);
      try lia; cbn [orb]; destruct (Z.ltb_spec 255 (zlen (splitBytes data binaryMultipart16Bytes))); try lia; done.
  - unfold SegmentBinarySAR. destruct (splitBytes_ok data 140) as [Hc Hz _]; [lia|].
    change BinarySingleOctets with 140. destruct (Z.leb_spec (zlen (splitBytes data 140)) 1) as [Hle|Hgt].
    + assert (Hd : zlen data <= 140).
      { rewrite <- Hc. destruct (splitBytes data 140) as [|ch [|]]; [done| |cbn in Hle; lia].
        apply Forall_cons in Hz as [Hz _]. cbn. rewrite app_nil_r. lia. }
      unfold SegmentBinaryUDH. change BinarySingleOctets with 140.
      rewrite (proj2 (Z.leb_le _ _) Hd). by apply binary_single.
    + apply binary_parts; [done|intros ->; by vm_compute in Hgt|..]; cbn [binary_part];
        change BinarySingleOctets with 140; intros H;
        destruct (Z.ltb_spec 255 (zlen (splitBytes data 140))); try lia; done.
Qed.

(** A binary payload of up to 33528 octets is segmented, whichever way its
    parts are numbered, into segments of at most 140 octets of user data that
    reassemble to the payload in whatever order they arrive. *)
Theorem binary_segments_roundtrip c data reference :
  zlen data <= 33528 -> reference_ok c reference ->
  exists segs, segment_binary c data reference = Ok segs /\
    Forall (fun s => zlen (UserData s) <= 140) segs /\
    forall segs', segs' ≡ₚ segs -> Reassemble segs' = Ok data.
Proof.
  intros Hl Hr. destruct (segment_binary_ok c data reference Hr) as (chunks & Hn & H).
  destruct H as [[Hbig _]|(segs & -> & Hs)]; [lia|]. exists segs.
  pose proof (segmented_described _ _ _ _ _ _ _ Hs) as (reference' & Hd & Hlen).
  assert (Hcat : concat chunks = data) by (destruct Hs; [apply app_nil_r|done]).
  split_and!; [done| |].
  - assert (H140 : segment_octets c KindBinary = 140) by by destruct c.
    destruct Hs as [s _ _ _ Hz|chunks segs _ _ [_ Hs]]; rewrite H140 in *; [by repeat constructor|].
    apply Forall_forall. intros s [k Hk]%list_elem_of_lookup. destruct (Hs k s Hk) as (ch & _ & Hsa).
    by apply (sa_size _ _ _ _ _ _ _ _ _ Hsa).
  - intros segs' Hp. rewrite <- Hcat. by eapply Reassemble_described.
Qed.

Lemma binary_segments_roundtrip_witness : exists segs,
  SegmentBinaryUDH16 (replicate 300 0xff) 4660 = Ok segs /\
  Reassemble (rev segs) = Ok (replicate 300 0xff).
Proof.
  destruct (binary_segments_roundtrip Udh16 (replicate 300 0xff) 4660) as (segs & H1 & _ & H2).
  - vm_compute. discriminate.
  - split; vm_compute; [discriminate|reflexivity].
  - exists segs. split; [done|]. apply H2. symmetry. apply Permutation_rev.
Defined.

(** Two parts out of order. *)
Definition sample_parts : list Segment :=
  [MkSegment 9 2 2 KindBinary 4 1 [2] [] [] []; MkSegment 9 2 1 KindBinary 4 1 [1] [] [] []].

Lemma Reassemble_exact_witness : Reassemble sample_parts = Ok [1; 2].
Proof.
  apply (Reassemble_exact sample_parts [1; 2]).
  - repeat constructor; cbn; lia.
  - exists (rev sample_parts), 9, KindBinary, 4. split_and!; [by apply Permutation_swap|done| |done].
    split; [done|]. intros [|[|k]] s; [..|done]; intros [= <-]; done.
Defined.

(** *** Parsing a user data header *)

(** An information element on the wire. *)
Definition element (ie : Z * bytes) : bytes := fst ie :: zlen (snd ie) :: snd ie.
Definition elements (ies : list (Z * bytes)) : bytes := concat (map element ies).

(** Not one of the two concatenation elements. *)
Definition other_element (ie : Z * bytes) : Prop := fst ie <> 0x00 /\ fst ie <> 0x08.

Lemma index_app {E} (a : bytes) x b n : n = length a -> @index E (a ++ x :: b) n = Ok x.
Proof. intros ->. unfold index. by rewrite list_lookup_middle. Qed.

(** One element read at its place. *)
Lemma parse_element fuel pre iei value rest headerLen :
  let userData := pre ++ element (iei, value) ++ rest in
  let off := zlen pre in
  off + 2 + zlen value <= headerLen ->
  parse_elements (S fuel) userData headerLen off =
  if iei =? 0x00 then
    if negb (zlen value =? 3) then Err (ESentinel ErrInvalidUDH)
    else v0 ← index value 0; v1 ← index value 1; v2 ← index value 2; Ok (MkConcat v0 v1 v2 headerLen)
  else if iei =? 0x08 then
    if negb (zlen value =? 4) then Err (ESentinel ErrInvalidUDH)
    else reference ← (two ← slice_to value 2; Uint16 two);
         v2 ← index value 2; v3 ← index value 3; Ok (MkConcat reference v2 v3 headerLen)
  else parse_elements fuel userData headerLen (off + 2 + zlen value).
Proof.
  cbn zeta. intros Hl. set (userData := pre ++ element (iei, value) ++ rest).
  cbn [parse_elements]. destruct (Z.ltb_spec headerLen (zlen pre + 2)); [lia|].
  assert (@index GoError userData (Z.to_nat (zlen pre)) = Ok iei) as ->
    by (apply index_app; lia).
  assert (@index GoError userData (Z.to_nat (zlen pre + 1)) = Ok (zlen value)) as ->.
  { replace userData with ((pre ++ [iei]) ++ zlen value :: value ++ rest)
      by (unfold userData, element; cbn; by rewrite <- app_assoc).
    apply index_app. len. }
  cbn [mbind outcome_bind]. destruct (Z.ltb_spec headerLen (zlen pre + 2 + zlen value)); [lia|].
  assert ((rest0 ← @slice_from GoError userData (Z.to_nat (zlen pre + 2));
           slice_to rest0 (Z.to_nat (zlen value))) = Ok value) as ->.
  { replace userData with ((pre ++ [iei; zlen value]) ++ value ++ rest)
      by (unfold userData, element; cbn; by rewrite <- app_assoc).
    rewrite slice_from_app by len. cbn [mbind outcome_bind]. unfold slice_to.
    rewrite decide_True by len. by rewrite Nat2Z.id, take_app_length. }
  done.
Qed.

Lemma parse_others fuel ies : forall pre rest headerLen,
  Forall other_element ies -> zlen pre + zlen (elements ies) <= headerLen ->
  parse_elements (length ies + fuel) (pre ++ elements ies ++ rest) headerLen (zlen pre) =
  parse_elements fuel (pre ++ elements ies ++ rest) headerLen (zlen pre + zlen (elements ies)).
Proof.
  induction ies as [|[iei value] ies IH]; intros pre rest headerLen Hall Hl.
  - cbn [length elements map concat Nat.add]. by rewrite Z.add_0_r.
  - apply Forall_cons in Hall as [[H0 H8] Hall]. cbn in H0, H8. unfold elements in *. cbn [map concat] in *.
    assert (Hel : zlen (element (iei, value)) = 2 + zlen value) by (unfold element; cbn; lia).
    rewrite length_app in Hl. cbn [length Nat.add]. rewrite <- app_assoc.
    rewrite parse_element by lia. destruct (Z.eqb_spec iei 0); [done|]. destruct (Z.eqb_spec iei 8); [done|].
    specialize (IH (pre ++ element (iei, value)) rest headerLen Hall).
    rewrite length_app, <- app_assoc in IH.
    replace (zlen pre + 2 + zlen value) with (Z.of_nat (length pre + length (element (iei, value)))) by lia.
    rewrite IH by lia. f_equal. rewrite length_app. lia.
Qed.

(** Reading stays in bounds whatever the octets are. *)
Lemma parse_elements_safe fuel : forall userData headerLen off,
  bytes_ok userData -> headerLen <= zlen userData -> 0 <= off ->
  parse_elements fuel userData headerLen off <> Panic /\
  forall h, parse_elements fuel userData headerLen off = Ok h -> cu_headerLen h = headerLen.
Proof.
  induction fuel as [|fuel IH]; intros userData headerLen off Hok Hh Hoff; cbn [parse_elements];
    (destruct (Z.ltb_spec headerLen (off + 2)); [done|]); [done|].
  destruct (lookup_lt_is_Some_2 userData (Z.to_nat off)) as [iei Hi]; [lia|].
  destruct (lookup_lt_is_Some_2 userData (Z.to_nat (off + 1))) as [l Hl]; [lia|].
  unfold index. rewrite Hi, Hl. cbn [mbind outcome_bind].
  assert (Hlen : is_u8 l) by (eapply (Forall_lookup_1 _ _ _ _ Hok); exact Hl).
  destruct (Z.ltb_spec headerLen (off + 2 + l)); [done|].
  unfold slice_from, slice_to. rewrite decide_True by lia. cbn [mbind outcome_bind].
  rewrite decide_True by (rewrite length_drop; lia). cbn [mbind outcome_bind].
  set (value := take (Z.to_nat l) (drop (Z.to_nat (off + 2)) userData)).
  assert (Hv : zlen value = l) by (unfold value; rewrite length_take, length_drop; lia).
  destruct (iei =? 0); [|destruct (iei =? 8); [|by apply IH; [done|done|lia]]].
  - destruct (Z.eqb_spec l 3); cbn [negb]; [|done].
    destruct value as [|v0 [|v1 [|v2 [|]]]]; cbn in Hv; try lia. cbn. split; [done|]. by intros h [= <-].
  - destruct (Z.eqb_spec l 4); cbn [negb]; [|done].
    destruct value as [|v0 [|v1 [|v2 [|v3 [|]]]]]; cbn in Hv; try lia. cbn. split; [done|]. by intros h [= <-].
Qed.

(** The concatenation element, with a reference of 8 or of 16 bits. *)
Definition concat_element (wide : bool) (reference total sequence : Z) : Z * bytes :=
  if wide then (0x08, [u8 (Z.shiftr reference 8); u8 reference; total; sequence])
  else (0x00, [reference; total; sequence]).

Lemma elements_app a b : elements (a ++ b) = elements a ++ elements b.
Proof. unfold elements. by rewrite map_app, concat_app. Qed.
Lemma elements_cons ie ies : elements (ie :: ies) = element ie ++ elements ies.
Proof. done. Qed.
Lemma elements_length ies : zlen ies <= zlen (elements ies).
Proof.
  induction ies as [|ie ies IH]; [done|]. rewrite elements_cons, length_app. cbn [length element]. lia.
Qed.

Lemma parse_concat fuel wide reference total sequence pre rest headerLen :
  is_u16 reference ->
  zlen pre + zlen (element (concat_element wide reference total sequence)) <= headerLen ->
  parse_elements (S fuel) (pre ++ element (concat_element wide reference total sequence) ++ rest)
    headerLen (zlen pre) = Ok (MkConcat reference total sequence headerLen).
Proof.
  intros Hr Hl. destruct wide; cbn [concat_element] in *; rewrite parse_element by (cbn in *; lia).
  - transitivity (@Ok GoError _ (MkConcat (be16_get (u8 (Z.shiftr reference 8)) (u8 reference))
      total sequence headerLen)); [reflexivity|by rewrite be16_shiftr].
  - done.
Qed.

(** [ParseConcatUDH] never reads outside the message, whatever its octets, and
    the header it accepts lies inside it; and it finds the concatenation element
    of a header, 8 or 16 bits wide, behind any other elements and whatever
    follows. *)
Theorem ParseConcatUDH_correct userData :
  bytes_ok userData ->
  ParseConcatUDH userData <> Panic /\
  (forall h, ParseConcatUDH userData = Ok h -> 6 <= cu_headerLen h <= zlen userData) /\
  (forall before after content wide reference total sequence,
     let header := elements (before ++ concat_element wide reference total sequence :: after) in
     userData = zlen header :: header ++ content ->
     Forall other_element before -> is_u16 reference ->
     exists h, ParseConcatUDH userData = Ok h /\
       cu_reference h = reference /\ cu_total h = total /\ cu_sequence h = sequence /\
       drop (Z.to_nat (cu_headerLen h)) userData = content).
Proof.
  intros Hok.
  assert (Hsafe : forall b rest, userData = b :: rest -> b + 1 <= zlen userData ->
    parse_elements (length userData) userData (b + 1) 1 <> Panic /\
    forall h, parse_elements (length userData) userData (b + 1) 1 = Ok h -> cu_headerLen h = b + 1).
  { intros b rest -> Hl. by apply parse_elements_safe. }
  split_and!.
  - unfold ParseConcatUDH. destruct userData as [|b rest]; [done|].
    destruct (Z.ltb_spec (zlen (b :: rest)) (b + 1)); [done|]. destruct (b + 1 <? 6); [done|].
    by apply (Hsafe b rest).
  - intros h. unfold ParseConcatUDH. destruct userData as [|b rest]; [done|].
    destruct (Z.ltb_spec (zlen (b :: rest)) (b + 1)); [done|]. destruct (Z.ltb_spec (b + 1) 6); [done|].
    cbn [orb]. intros ->%(Hsafe b rest); [lia|done|lia].
  - clear Hsafe. intros before after content wide reference total sequence header -> Hall Hr.
    set (ce := concat_element wide reference total sequence) in *.
    assert (Hhd : header = elements before ++ element ce ++ elements after)
      by (unfold header; by rewrite elements_app, elements_cons).
    assert (Hce : 5 <= zlen (element ce)) by (unfold ce; destruct wide; vm_compute; discriminate).
    assert (Hlen : zlen header = zlen (elements before) + zlen (element ce) + zlen (elements after))
      by (rewrite Hhd; len).
    pose proof (elements_length before) as Hb.
    exists (MkConcat reference total sequence (zlen header + 1)). split_and!; [|done..|].
    + unfold ParseConcatUDH. rewrite length_cons, length_app.
      destruct (Z.ltb_spec (Z.of_nat (S (length header + length content))) (zlen header + 1)); [lia|].
      destruct (Z.ltb_spec (zlen header + 1) 6); [lia|]. cbn [orb].
      replace (S (length header + length content))%nat
        with (length before + S (length header + length content - length before))%nat by lia.
      assert (header ++ content = elements before ++ element ce ++ elements after ++ content) as ->
        by (rewrite Hhd; by rewrite <- !app_assoc).
      change (parse_elements ?f (?x :: ?l)) with (parse_elements f ([x] ++ l)).
      change 1 with (zlen [zlen header]). rewrite parse_others by (done || (cbn [length]; lia)).
      rewrite (app_assoc [zlen header] (elements before)).
      replace (zlen [zlen header] + zlen (elements before)) with (zlen ([zlen header] ++ elements before)) by len.
      apply parse_concat; [done|fold ce; len].
    + cbn [cu_headerLen]. replace (Z.to_nat (zlen header + 1)) with (S (length header)) by lia.
      cbn [drop]. apply drop_app_length.
Qed.

(** A header with an application port element before the concatenation. *)
Lemma ParseConcatUDH_correct_witness : exists h,
  ParseConcatUDH [12; 5; 4; 11; 132; 35; 240; 8; 4; 1; 2; 3; 1; 65] = Ok h /\ cu_reference h = 258.
Proof.
  destruct (ParseConcatUDH_correct [12; 5; 4; 11; 132; 35; 240; 8; 4; 1; 2; 3; 1; 65])
    as (_ & _ & H); [repeat constructor; lia|].
  destruct (H [(5, [11; 132; 35; 240])] [] [65] true 258 3 1) as (h & H1 & H2 & _).
  - reflexivity.
  - repeat constructor; discriminate.
  - lia.
  - by exists h.
Defined.
