(* ===== verification/Receipt.v ===== *)
(** * Delivery receipts (src/message/delivery_receipt.go)

    A message centre reports the fate of a message in a deliver_sm: as text, in
    optional parameters, or both.  [ParseDeliveryReceipt] extracts what it says.
    What the code uses of Go's [strings] comes first; a string is its octets, which
    need not be valid UTF-8. *)

From S2P Require Import Prelude Protocol Bodies Fields Encoding.

(** ** Go strings *)

(** The runes that [range] visits, each with its octets; an octet that starts no
    valid sequence is U+FFFD. *)
Fixpoint spelled (text : bytes) : list (Z * bytes) :=
  match text with
  | [] => []
  | b0 :: t1 =>
      if (0 <=? b0) && (b0 <? 0x80) then (b0, [b0]) :: spelled t1
      else match t1 with
      | [] => (0xfffd, [b0]) :: spelled t1
      | b1 :: t2 =>
          if valid2 b0 b1 then (rune2 b0 b1, [b0; b1]) :: spelled t2
          else match t2 with
          | [] => (0xfffd, [b0]) :: spelled t1
          | b2 :: t3 =>
              if valid3 b0 b1 b2 then (rune3 b0 b1 b2, [b0; b1; b2]) :: spelled t3
              else match t3 with
              | [] => (0xfffd, [b0]) :: spelled t1
              | b3 :: t4 =>
                  if valid4 b0 b1 b2 b3 then (rune4 b0 b1 b2 b3, [b0; b1; b2; b3]) :: spelled t4
                  else (0xfffd, [b0]) :: spelled t1
              end
          end
      end
  end.

(** [unicode.IsSpace]. *)
Definition isSpace (r : Z) : bool :=
  ((0x09 <=? r) && (r <=? 0x0d)) || (r =? 0x20) || (r =? 0x85) || (r =? 0xa0) || (r =? 0x1680) ||
  ((0x2000 <=? r) && (r <=? 0x200a)) || (r =? 0x2028) || (r =? 0x2029) || (r =? 0x202f) ||
  (r =? 0x205f) || (r =? 0x3000).

(** [strings.Fields]; [word] is the field being read. *)
Fixpoint split_fields (word : bytes) (text : list (Z * bytes)) : list bytes :=
  match text with
  | [] => if decide (word = []) then [] else [word]
  | (r, octets) :: text =>
      if isSpace r
      then if decide (word = []) then split_fields [] text else word :: split_fields [] text
      else split_fields (word ++ octets) text
  end.
Definition strings_Fields (text : bytes) : list bytes := split_fields [] (spelled text).

(** Two runes equal under [unicode.SimpleFold], the second one ASCII: letters of
    both cases, and the two other runes that fold to a letter. *)
Definition lower (c : Z) : Z := if (0x41 <=? c) && (c <=? 0x5a) then c + 32 else c.
Definition fold_eq (r c : Z) : bool :=
  (lower r =? lower c) || ((r =? 0x212a) && (lower c =? 0x6b)) || ((r =? 0x17f) && (lower c =? 0x73)).

(** [strings.EqualFold(s, t)] for an ASCII [t]. *)
Fixpoint fold_match (s t : list Z) : bool :=
  match s, t with
  | [], [] => true
  | r :: s, c :: t => fold_eq r c && fold_match s t
  | _, _ => false
  end.
Definition EqualFold (s t : bytes) : bool := fold_match (spelled s).*1 t.

Definition ContainsRune (s : bytes) (c : Z) : bool := existsb (Z.eqb c) s.

(** ** The source's definitions *)

Inductive ReceiptFieldSource : Set := ReceiptSourceNone | ReceiptSourceText | ReceiptSourceTLV.

Record DeliveryReceipt := MkDeliveryReceipt {
  MessageID : bytes;
  MessageIDSource : ReceiptFieldSource;
  TextMessageID : bytes;
  TLVMessageID : bytes;
  MessageIDConflict : bool;
  dr_State : Z;
  HasState : bool;
  StateSource : ReceiptFieldSource;
  TextStatus : bytes;
  TextState : Z;
  HasTextState : bool;
  TLVState : Z;
  HasTLVState : bool;
  StateConflict : bool
}.

(** The labels, in ASCII. *)
Definition label_text : bytes := [0x74; 0x65; 0x78; 0x74; 0x3a].
Definition label_id : bytes := [0x69; 0x64; 0x3a].
Definition label_stat : bytes := [0x73; 0x74; 0x61; 0x74; 0x3a].
Definition colon : Z := 0x3a.

Definition state_names : list (Z * bytes) :=
  [(1, [0x45; 0x4e; 0x52; 0x4f; 0x55; 0x54; 0x45]);
   (2, [0x44; 0x45; 0x4c; 0x49; 0x56; 0x52; 0x44]);
   (3, [0x45; 0x58; 0x50; 0x49; 0x52; 0x45; 0x44]);
   (4, [0x44; 0x45; 0x4c; 0x45; 0x54; 0x45; 0x44]);
   (5, [0x55; 0x4e; 0x44; 0x45; 0x4c; 0x49; 0x56]);
   (6, [0x41; 0x43; 0x43; 0x45; 0x50; 0x54; 0x44]);
   (7, [0x55; 0x4e; 0x4b; 0x4e; 0x4f; 0x57; 0x4e]);
   (8, [0x52; 0x45; 0x4a; 0x45; 0x43; 0x54; 0x44])].

(** [None] is [(0, false)]. *)
Definition receiptTextState (status : bytes) : option Z :=
  fst <$> List.find (fun p => EqualFold status p.2) state_names.

Definition invalid : GoError := ESentinel ErrInvalidDeliveryReceipt.

Definition receiptTLVMessageID (value : bytes) : res bytes :=
  match last value with
  | None => Err invalid
  | Some b =>
      let value := if b =? 0 then take (length value - 1) value else value in
      if decide (value = []) then Err invalid
      else match IndexByte value 0 with
           | Some _ => Err invalid
           | None => Ok value
           end
  end.

Inductive field : Set := FieldID | FieldStat.

(** The [switch] on the label: the field and the rest of the word. *)
Definition field_of (word : bytes) : option (field * bytes) :=
  if (3 <=? length word)%nat && EqualFold (take 3 word) label_id then Some (FieldID, drop 3 word)
  else if (5 <=? length word)%nat && EqualFold (take 5 word) label_stat
  then Some (FieldStat, drop 5 word)
  else None.
Definition ends_metadata (word : bytes) : bool :=
  (5 <=? length word)%nat && EqualFold (take 5 word) label_text.

(** The last [switch]: a second, different value is a conflict. *)
Definition set_field (f : field) (word : bytes) (id status : bytes) : res (bytes * bytes) :=
  match f with
  | FieldID => if decide (id <> [] /\ id <> word) then Err invalid else Ok (word, status)
  | FieldStat => if decide (status <> [] /\ status <> word) then Err invalid else Ok (id, word)
  end.

Fixpoint extract_loop (id status : bytes) (words : list bytes) : res (bytes * bytes) :=
  match words with
  | [] => Ok (id, status)
  | word :: rest =>
      if ends_metadata word then Ok (id, status)
      else match field_of word with
      | None => extract_loop id status rest
      | Some (f, []) =>
          match rest with
          | [] => Ok (id, status)
          | next :: rest' =>
              if ContainsRune next colon then extract_loop id status rest
              else if decide (next = []) then extract_loop id status rest'
              else '(id, status) ← set_field f next id status; extract_loop id status rest'
          end
      | Some (f, w) => '(id, status) ← set_field f w id status; extract_loop id status rest
      end
  end.
Definition extractReceiptTextFields (text : bytes) : res (bytes * bytes) :=
  extract_loop [] [] (strings_Fields text).

(** What the loop over the optional parameters collects. *)
Record tlv_fields := MkTlvFields {
  tf_id : bytes; tf_state : option Z; tf_payload : option bytes
}.

Definition tlv_field (t : tlv_fields) (item : OptionalParameter) : res tlv_fields :=
  if op_Tag item =? TLVTagReceiptedMessageID then
    id ← receiptTLVMessageID (op_Value item);
    if decide (tf_id t <> [] /\ tf_id t <> id) then Err invalid
    else Ok (MkTlvFields id (tf_state t) (tf_payload t))
  else if op_Tag item =? TLVTagMessageState then
    match op_Value item with
    | [b] =>
        if (b <? 1) || (8 <? b) then Err invalid
        else if match tf_state t with Some b' => negb (b' =? b) | None => false end then Err invalid
        else Ok (MkTlvFields (tf_id t) (Some b) (tf_payload t))
    | _ => Err invalid
    end
  else if op_Tag item =? TLVTagMessagePayload then
    if match tf_payload t with Some p => negb (bool_decide (p = op_Value item)) | None => false end
    then Err invalid
    else Ok (MkTlvFields (tf_id t) (tf_state t) (Some (op_Value item)))
  else Ok t.

Fixpoint tlv_loop (t : tlv_fields) (items : list OptionalParameter) : res tlv_fields :=
  match items with
  | [] => Ok t
  | item :: items => t ← tlv_field t item; tlv_loop t items
  end.

(** The text of the receipt: decoded UCS-2, or the octets as they are. *)
Definition receipt_text (deliver : DeliverSM) (raw : bytes) : res bytes :=
  if decide (raw = []) then Ok []
  else if dsm_DataCoding deliver =? DataCodingUCS2
  then match DecodeUCS2 raw with
       | Ok text => Ok text | Err _ => Err invalid | Panic => Panic end
  else if dsm_DataCoding deliver =? DataCodingSMSCDefault then Ok raw
  else Ok [].

(** The fields that are derived from the collected ones. *)
Definition assemble (id status : bytes) (t : tlv_fields) : DeliveryReceipt :=
  let '(messageID, idSource) :=
    if negb (bool_decide (id = [])) then (id, ReceiptSourceText)
    else if negb (bool_decide (tf_id t = [])) then (tf_id t, ReceiptSourceTLV)
    else ([], ReceiptSourceNone) in
  let textState := if negb (bool_decide (status = [])) then receiptTextState status else None in
  let '(state, hasState, stateSource) :=
    match tf_state t, textState with
    | Some st, _ => (st, true, ReceiptSourceTLV)
    | None, Some st => (st, true, ReceiptSourceText)
    | None, None => (0, false, ReceiptSourceNone)
    end in
  MkDeliveryReceipt messageID idSource id (tf_id t)
    (negb (bool_decide (id = [])) && negb (bool_decide (tf_id t = [])) &&
     negb (bool_decide (id = tf_id t)))
    state hasState stateSource status
    (default 0 textState) (match textState with Some _ => true | None => false end)
    (default 0 (tf_state t)) (match tf_state t with Some _ => true | None => false end)
    match textState, tf_state t with Some a, Some b => negb (a =? b) | _, _ => false end.

Definition ParseDeliveryReceipt (deliver : DeliverSM) : res DeliveryReceipt :=
  t ← tlv_loop (MkTlvFields [] None None) (dsm_Optional deliver);
  if match tf_payload t with Some _ => true | None => false end &&
     (0 <? zlen (dsm_ShortMessage deliver))
  then Err invalid
  else
    let raw := match dsm_ShortMessage deliver, tf_payload t with
               | [], Some payload => payload
               | short, _ => short
               end in
    text ← receipt_text deliver raw;
    '(id, status) ← extractReceiptTextFields text;
    let receipt := assemble id status t in
    let markedReceipt := Z.land (dsm_ESMClass deliver) 0x3c =? 0x04 in
    let hasTLVReceipt := negb (bool_decide (TLVMessageID receipt = [])) || HasTLVState receipt in
    let textReceipt := negb (bool_decide (TextStatus receipt = [])) &&
      (negb (bool_decide (TextMessageID receipt = [])) || HasTextState receipt) in
    if negb markedReceipt && negb hasTLVReceipt && negb textReceipt
    then Err (ESentinel ErrNotDeliveryReceipt)
    else if bool_decide (MessageID receipt = []) && bool_decide (TextStatus receipt = []) &&
            negb (HasTLVState receipt)
    then Err (ESentinel ErrNotDeliveryReceipt)
    else Ok receipt.

(** ** The optional parameters *)

Lemma receiptTLVMessageID_spec value :
  match receiptTLVMessageID value with
  | Ok id => id <> [] /\ Forall (fun b => b <> 0) id /\ (value = id \/ value = id ++ [0])
  | Err e => e = invalid
  | Panic => False
  end.
Proof.
  unfold receiptTLVMessageID. destruct (last value) as [b|] eqn:Hl; [|done].
  apply last_Some in Hl as [v ->].
  assert (Ht : take (length (v ++ [b]) - 1) (v ++ [b]) = v).
  { rewrite length_app. cbn. replace (length v + 1 - 1)%nat with (length v) by lia. apply take_app_length. }
  rewrite Ht. destruct (Z.eqb_spec b 0) as [->|Hb].
  - destruct (decide (v = [])); [done|]. destruct (IndexByte v 0) as [i|] eqn:Hi; [done|].
    split_and!; [done|by apply IndexByte_none|by right].
  - destruct (decide (v ++ [b] = [])); [done|]. destruct (IndexByte (v ++ [b]) 0) as [i|] eqn:Hi; [done|].
    split_and!; [done|by apply IndexByte_none|by left].
Qed.

(** [t] agrees with the parameter [item]. *)
Definition agree (t : tlv_fields) (item : OptionalParameter) : Prop :=
  (op_Tag item = TLVTagReceiptedMessageID ->
   tf_id t <> [] /\ (op_Value item = tf_id t \/ op_Value item = tf_id t ++ [0])) /\
  (op_Tag item = TLVTagMessageState -> exists b, tf_state t = Some b /\ op_Value item = [b]) /\
  (op_Tag item = TLVTagMessagePayload -> tf_payload t = Some (op_Value item)).
Definition tagged (tag : Z) (items : list OptionalParameter) : Prop :=
  Exists (fun item => op_Tag item = tag) items.

(** [t] is what the parameters [items] say; they all say the same. *)
Record tlv_says (t : tlv_fields) (items : list OptionalParameter) : Prop := {
  ts_agree : Forall (agree t) items;
  ts_id : tf_id t <> [] ->
    Forall (fun b => b <> 0) (tf_id t) /\ tagged TLVTagReceiptedMessageID items;
  ts_state b : tf_state t = Some b -> 1 <= b <= 8 /\ tagged TLVTagMessageState items;
  ts_payload p : tf_payload t = Some p -> tagged TLVTagMessagePayload items
}.

(** [t'] keeps what [t] has. *)
Definition extends (t t' : tlv_fields) : Prop :=
  (tf_id t = [] \/ tf_id t' = tf_id t) /\ (tf_state t = None \/ tf_state t' = tf_state t) /\
  (tf_payload t = None \/ tf_payload t' = tf_payload t).

Lemma agree_extends t t' item : extends t t' -> agree t item -> agree t' item.
Proof.
  intros (He & Hs & Hp) (A1 & A2 & A3). split_and!; intros Ht.
  - destruct (A1 Ht) as [Hne Hv]. destruct He as [?| ->]; [done|]. auto.
  - destruct (A2 Ht) as (b & Hb & Hv). destruct Hs as [?|Hs]; [congruence|]. exists b. by rewrite Hs.
  - specialize (A3 Ht). destruct Hp as [?|Hp]; congruence.
Qed.

Lemma tagged_app tag l1 l2 : tagged tag (l1 ++ l2) <-> tagged tag l1 \/ tagged tag l2.
Proof. apply Exists_app. Qed.

(** One parameter more: it agrees with [t'], which extends [t]. *)
Lemma tlv_says_snoc t t' items item : tlv_says t items -> extends t t' -> agree t' item ->
  (tf_id t' <> [] -> tf_id t' = tf_id t \/
   Forall (fun b => b <> 0) (tf_id t') /\ op_Tag item = TLVTagReceiptedMessageID) ->
  (forall b, tf_state t' = Some b -> tf_state t' = tf_state t \/
   1 <= b <= 8 /\ op_Tag item = TLVTagMessageState) ->
  (tf_payload t' = tf_payload t \/ op_Tag item = TLVTagMessagePayload) ->
  tlv_says t' (items ++ [item]).
Proof.
  intros [Ha Hi Hs Hp] He Hg H1 H2 H3.
  assert (Hone : forall tag, op_Tag item = tag -> tagged tag [item]) by (intros tag Ht; by constructor).
  split.
  - apply Forall_app. split; [|by constructor]. eapply Forall_impl; [exact Ha|].
    intros x. by apply agree_extends.
  - intros Hne. rewrite tagged_app. destruct (H1 Hne) as [Heq|[Hz Ht]]; [|auto].
    rewrite Heq in Hne |- *. destruct (Hi Hne). auto.
  - intros b Hb. rewrite tagged_app. destruct (H2 b Hb) as [Heq|[Hz Ht]]; [|auto].
    rewrite Heq in Hb. destruct (Hs b Hb). auto.
  - intros p Hpp. rewrite tagged_app. destruct H3 as [Heq|Ht]; [|auto]. rewrite Heq in Hpp. eauto.
Qed.

Lemma tlv_field_says t item items : tlv_says t items ->
  match tlv_field t item with
  | Ok t' => tlv_says t' (items ++ [item]) | Err e => e = invalid | Panic => False end.
Proof.
  intros Hsay. unfold tlv_field.
  destruct (Z.eqb_spec (op_Tag item) TLVTagReceiptedMessageID) as [Ht|Ht1].
  { pose proof (receiptTLVMessageID_spec (op_Value item)) as Hr.
    destruct (receiptTLVMessageID _) as [id| |]; cbn; [|done..].
    destruct Hr as (Hne & H0 & Hv). destruct (decide _) as [|Hsame]; [done|].
    apply (tlv_says_snoc t); cbn; auto.
    - split_and!; cbn; auto. destruct (decide (tf_id t = [])); [by left|right].
      destruct (decide (tf_id t = id)); [done|tauto].
    - split_and!; cbn; rewrite Ht; [auto|done..]. }
  destruct (Z.eqb_spec (op_Tag item) TLVTagMessageState) as [Ht|Ht2].
  { destruct (op_Value item) as [|b [|]] eqn:Hv; [done| |done].
    destruct ((b <? 1) || (8 <? b)) eqn:Hb; [done|].
    destruct (match tf_state t with Some b' => negb (b' =? b) | None => false end) eqn:Hc; [done|].
    apply (tlv_says_snoc t); cbn; auto.
    - split_and!; cbn; auto. destruct (tf_state t) as [b'|]; [|by left].
      apply negb_false_iff, Z.eqb_eq in Hc as ->. by right.
    - split_and!; cbn; rewrite Ht; [done|eauto|done].
    - intros b' [= <-]. right. split; [lia|done]. }
  destruct (Z.eqb_spec (op_Tag item) TLVTagMessagePayload) as [Ht|Ht3].
  { destruct (match tf_payload t with Some p => _ | None => false end) eqn:Hc; [done|].
    apply (tlv_says_snoc t); cbn; auto.
    - split_and!; cbn; auto. destruct (tf_payload t) as [p|]; [|by left].
      apply negb_false_iff, bool_decide_eq_true in Hc as ->. by right.
    - split_and!; cbn; rewrite Ht; done. }
  apply (tlv_says_snoc t); auto; split_and!; auto; done.
Qed.

Lemma tlv_loop_says items : forall t before, tlv_says t before ->
  match tlv_loop t items with
  | Ok t' => tlv_says t' (before ++ items) | Err e => e = invalid | Panic => False end.
Proof.
  induction items as [|item items IH]; intros t before Ht; cbn [tlv_loop]; [by rewrite app_nil_r|].
  pose proof (tlv_field_says t item before Ht) as Hf.
  destruct (tlv_field t item) as [t'| |]; cbn [mbind outcome_bind]; [|done..].
  specialize (IH t' _ Hf). by rewrite <- app_assoc in IH.
Qed.

(** ** The text *)

(** [x] stands in one of the words. *)
Definition from (words : list bytes) (x : bytes) : Prop :=
  x <> [] /\ Exists (fun w => x `suffix_of` w) words.

Lemma from_cons w words x : from words x -> from (w :: words) x.
Proof. intros [Hx Hw]. split; [done|]. by apply Exists_cons_tl. Qed.
Lemma from_here w words x : x <> [] -> x `suffix_of` w -> from (w :: words) x.
Proof. intros Hx Hw. split; [done|by constructor]. Qed.

(** A field keeps its value once it has one, and gets it from the words. *)
Definition filled (words : list bytes) (old new : bytes) : Prop :=
  new = old \/ old = [] /\ from words new.

Lemma filled_cons w words old new : filled words old new -> filled (w :: words) old new.
Proof. intros [->|[-> H]]; [by left|right; split; [done|by apply from_cons]]. Qed.

Lemma set_field_spec f w words id status : from words w ->
  match set_field f w id status with
  | Ok (id', status') => filled words id id' /\ filled words status status'
  | Err e => e = invalid
  | Panic => False
  end.
Proof.
  intros Hw. unfold set_field. destruct f; destruct (decide _) as [|Hd]; try done.
  - split; [|by left]. destruct (decide (id = [])) as [->|]; [by right|left].
    destruct (decide (id = w)); [done|tauto].
  - split; [by left|]. destruct (decide (status = [])) as [->|]; [by right|left].
    destruct (decide (status = w)); [done|tauto].
Qed.

Lemma filled_weaken l1 l2 old new : filled l2 old new -> filled (l1 ++ l2) old new.
Proof. intros H. induction l1; cbn; [done|by apply filled_cons]. Qed.

Lemma filled_then words old mid new : filled words old mid -> filled words mid new -> filled words old new.
Proof. intros [->|[-> Hm]] [->|[-> Hn]]; try (by left); right; done. Qed.

(** One field, then the remaining words. *)
Lemma set_then words rest f w id status (k : bytes -> bytes -> res (bytes * bytes)) :
  from words w ->
  (forall id status, match k id status with
   | Ok (id', status') => filled rest id id' /\ filled rest status status'
   | Err e => e = invalid | Panic => False end) ->
  (exists l, words = l ++ rest) ->
  match ('(id, status) ← set_field f w id status; k id status) with
  | Ok (id', status') => filled words id id' /\ filled words status status'
  | Err e => e = invalid | Panic => False end.
Proof.
  intros Hw Hk [l Hl]. pose proof (set_field_spec f w words id status Hw) as Hs.
  destruct (set_field f w id status) as [[id1 status1]| |]; cbn [mbind outcome_bind]; [|done..].
  specialize (Hk id1 status1). destruct (k id1 status1) as [[id2 status2]| |]; [|done..].
  destruct Hs as [H1 H2], Hk as [H3 H4].
  split; eapply filled_then; try done; rewrite Hl; by apply filled_weaken.
Qed.

Lemma field_of_suffix word f w : field_of word = Some (f, w) -> w `suffix_of` word.
Proof.
  unfold field_of. destruct (_ && _); [|destruct (_ && _); [|done]]; intros [= <- <-]; eexists;
    symmetry; apply take_drop.
Qed.

Lemma extract_loop_spec words : forall id status,
  match extract_loop id status words with
  | Ok (id', status') => filled words id id' /\ filled words status status'
  | Err e => e = invalid
  | Panic => False
  end.
Proof.
  induction words as [words IH] using list_short_ind. intros id status.
  destruct words as [|word rest]; cbn [extract_loop]; [by split; left|].
  destruct (ends_metadata word); [by split; left|].
  assert (Hrest : forall id status, match extract_loop id status rest with
    | Ok (id', status') => filled rest id id' /\ filled rest status status'
    | Err e => e = invalid | Panic => False end) by (intros; apply IH; cbn; lia).
  assert (Hskip : forall id status, match extract_loop id status rest with
    | Ok (id', status') => filled (word :: rest) id id' /\ filled (word :: rest) status status'
    | Err e => e = invalid | Panic => False end).
  { intros i st. specialize (Hrest i st). destruct (extract_loop i st rest) as [[]| |]; [|done..].
    destruct Hrest. split; by apply filled_cons. }
  destruct (field_of word) as [[f w]|] eqn:Hf; [|apply Hskip].
  apply field_of_suffix in Hf. destruct w as [|c w].
  - destruct rest as [|next rest']; [by split; left|].
    destruct (ContainsRune next colon); [apply Hskip|]. destruct (decide (next = [])).
    + specialize (IH rest' ltac:(cbn; lia) id status).
      destruct (extract_loop id status rest') as [[]| |]; [|done..].
      destruct IH. split; by do 2 apply filled_cons.
    + apply (set_then _ rest'); [apply from_cons; by apply from_here| |by exists [word; next]].
      intros; apply IH; cbn; lia.
  - apply (set_then _ rest); [by apply from_here|done|by exists [word]].
Qed.

Lemma receiptTextState_range status st : receiptTextState status = Some st -> 1 <= st <= 8.
Proof.
  unfold receiptTextState. destruct (List.find _ _) as [[n name]|] eqn:Hf; [|done]. intros [= <-].
  apply find_some in Hf as [Hin _]. cbn in Hin.
  repeat (destruct Hin as [[= <- <-]|Hin]; [cbn; lia|]). done.
Qed.

Lemma ucs2_runes_total data : forall rs, (zlen data mod 2 = 0) -> not_panic (ucs2_runes rs data).
Proof.
  induction data as [data IH] using list_short_ind. intros rs He.
  destruct data as [|b0 [|b1 data]]; [done|done|]. cbn [ucs2_runes]. destruct (is_surrogate _); [done|].
  apply IH; [cbn; lia|]. cbn [length] in He. rewrite <- He. rewrite !Nat2Z.inj_succ.
  replace (Z.succ (Z.succ (zlen data))) with (zlen data + 1 * 2) by lia. by rewrite Z.mod_add.
Qed.

Lemma receipt_text_total deliver raw :
  match receipt_text deliver raw with Ok _ => True | Err e => e = invalid | Panic => False end.
Proof.
  unfold receipt_text. destruct (decide (raw = [])); [done|].
  destruct (_ =? DataCodingUCS2).
  - unfold DecodeUCS2. destruct (Z.eqb_spec (zlen raw mod 2) 0) as [He|]; cbn [negb]; [|done].
    pose proof (ucs2_runes_total raw [] He) as Hp. by destruct (ucs2_runes [] raw).
  - by destruct (_ =? DataCodingSMSCDefault).
Qed.

(** ** The properties *)

(** A well-formed receipt for [deliver]: every field comes from where it says, from
    one unambiguous value, and the derived fields follow from the collected ones. *)
Record receipt_ok (deliver : DeliverSM) (r : DeliveryReceipt) : Prop := {
  ro_id : match MessageIDSource r with
    | ReceiptSourceText => MessageID r = TextMessageID r /\ TextMessageID r <> []
    | ReceiptSourceTLV => MessageID r = TLVMessageID r /\ TLVMessageID r <> [] /\ TextMessageID r = []
    | ReceiptSourceNone => MessageID r = [] /\ TLVMessageID r = [] /\ TextMessageID r = []
    end;
  ro_id_conflict : MessageIDConflict r = true <->
    TextMessageID r <> [] /\ TLVMessageID r <> [] /\ TextMessageID r <> TLVMessageID r;
  ro_tlv : exists payload, tlv_says (MkTlvFields (TLVMessageID r)
    (if HasTLVState r then Some (TLVState r) else None) payload) (dsm_Optional deliver);
  ro_text : exists raw text, receipt_text deliver raw = Ok text /\
    (raw = dsm_ShortMessage deliver \/ MkOptionalParameter TLVTagMessagePayload raw ∈ dsm_Optional deliver) /\
    filled (strings_Fields text) [] (TextMessageID r) /\ filled (strings_Fields text) [] (TextStatus r);
  ro_state : match StateSource r with
    | ReceiptSourceTLV => HasState r = true /\ HasTLVState r = true /\ dr_State r = TLVState r
    | ReceiptSourceText => HasState r = true /\ HasTLVState r = false /\
        receiptTextState (TextStatus r) = Some (dr_State r)
    | ReceiptSourceNone => HasState r = false /\ HasTLVState r = false
    end;
  ro_state_range : HasState r = true -> 1 <= dr_State r <= 8;
  ro_state_conflict : StateConflict r = true <->
    HasTextState r = true /\ HasTLVState r = true /\ TextState r <> TLVState r;
  ro_some : MessageID r <> [] \/ TextStatus r <> [] \/ HasTLVState r = true
}.

Lemma receiptTextState_empty : receiptTextState [] = None.
Proof. reflexivity. Qed.

Lemma assemble_ok deliver id status t raw text :
  tlv_says t (dsm_Optional deliver) -> receipt_text deliver raw = Ok text ->
  (raw = dsm_ShortMessage deliver \/ MkOptionalParameter TLVTagMessagePayload raw ∈ dsm_Optional deliver) ->
  filled (strings_Fields text) [] id -> filled (strings_Fields text) [] status ->
  let r := assemble id status t in
  MessageID r <> [] \/ TextStatus r <> [] \/ HasTLVState r = true -> receipt_ok deliver r.
Proof.
  intros Hsay Htext Hraw Hid Hst r Hsome.
  assert (Hts : (if negb (bool_decide (status = [])) then receiptTextState status else None) =
    receiptTextState status) by (by case_bool_decide; subst; rewrite ?receiptTextState_empty).
  unfold r, assemble in *. rewrite Hts in *. clear Hts r.
  pose proof (receiptTextState_range status) as Hrange. pose proof (ts_state _ _ Hsay) as Htr.
  destruct t as [tid tst tpl]. cbn [tf_id tf_state tf_payload] in *.
  destruct (bool_decide_reflect (id = [])), (bool_decide_reflect (tid = [])),
    tst as [b|], (receiptTextState status) as [st|] eqn:Hs; cbn [negb andb default] in *;
    (split; cbn; [..|exact Hsome]); try (by split_and!); try (by eexists); try (exists raw, text; done);
    try (intros _; apply (Htr _ eq_refl)); try (intros _; by apply Hrange); try done;
    try (split; [|tauto]; done);
    try (rewrite negb_true_iff, bool_decide_eq_false; tauto);
    try (rewrite negb_true_iff, Z.eqb_neq; tauto).
  all: try (split; [done|intros (? & ? & ?); done]).
Qed.

(** A receipt says what the message said.  [ParseDeliveryReceipt] never panics,
    and fails only with one of its two errors.  In a receipt it returns, the id is
    the text's if there is one and else the parameter's, each taken from the
    message and the same wherever it stands there; the state is the parameter's
    if there is one and else the text's, and a number from 1 to 8; the conflict
    flags are raised exactly when the two sources disagree; and the receipt is
    not empty. *)
Theorem ParseDeliveryReceipt_sound deliver :
  match ParseDeliveryReceipt deliver with
  | Ok r => receipt_ok deliver r
  | Err e => e = ESentinel ErrNotDeliveryReceipt \/ e = ESentinel ErrInvalidDeliveryReceipt
  | Panic => False
  end.
Proof.
  unfold ParseDeliveryReceipt.
  pose proof (tlv_loop_says (dsm_Optional deliver) (MkTlvFields [] None None) []) as Ht.
  destruct (tlv_loop _ _) as [t|e|]; cbn [mbind outcome_bind];
    [|by right; apply Ht; split; cbn|by apply Ht; split; cbn].
  assert (Hsay : tlv_says t (dsm_Optional deliver)) by (apply Ht; split; cbn; done). clear Ht.
  destruct (_ && _); [by right|]. set (raw := match dsm_ShortMessage deliver with [] => _ | _ => _ end).
  pose proof (receipt_text_total deliver raw) as Htot.
  destruct (receipt_text deliver raw) as [text|e|] eqn:Htext; cbn [mbind outcome_bind]; [|by right|done].
  pose proof (extract_loop_spec (strings_Fields text) [] []) as Hx. unfold extractReceiptTextFields.
  destruct (extract_loop [] [] (strings_Fields text)) as [[id status]|e|]; cbn [mbind outcome_bind];
    [|by right|done]. destruct Hx as [Hid Hst].
  destruct (_ && _); [by left|]. destruct (_ && _) eqn:Hempty; [by left|].
  apply (assemble_ok deliver id status t raw text); try done.
  - unfold raw. destruct (dsm_ShortMessage deliver); [|by left].
    destruct (tf_payload t) as [p|] eqn:Hp; [right|by left].
    pose proof (ts_payload _ _ Hsay p Hp) as Hex. apply Exists_exists in Hex as (item & Hin & Htag).
    pose proof (ts_agree _ _ Hsay) as Ha. rewrite Forall_forall in Ha.
    destruct (Ha item Hin) as (_ & _ & Hpay). specialize (Hpay Htag).
    destruct item as [tag v]; cbn in *. congruence.
  - rewrite !andb_false_iff, !bool_decide_eq_false, negb_false_iff in Hempty. tauto.
Qed.

(** ** The conventional text *)

Definition ascii_word (w : bytes) : Prop := w <> [] /\ Forall (fun b => 0x21 <= b <= 0x7e) w.
#[export] Instance ascii_word_dec w : Decision (ascii_word w).
Proof. unfold ascii_word. apply _. Defined.

(** A word with some other label, or none. *)
Definition plain_word (w : bytes) : Prop :=
  ascii_word w /\ ends_metadata w = false /\ field_of w = None.
#[export] Instance plain_word_dec w : Decision (plain_word w).
Proof. unfold plain_word. destruct (field_of w); [right; naive_solver|]. apply _. Defined.

Definition spaced (words : list bytes) : bytes := concat (map (fun w => w ++ [0x20]) words).

(** [id:ID ... stat:STATUS text:TAIL], as message centres write it; [tail] is the
    echoed message. *)
Definition receipt_of (id : bytes) (more : list bytes) (status tail : bytes) : bytes :=
  spaced ((label_id ++ id) :: more ++ [label_stat ++ status]) ++ label_text ++ tail.

Lemma spelled_ascii w t : Forall (fun b => 0 <= b < 0x80) w ->
  spelled (w ++ t) = map (fun b => (b, [b])) w ++ spelled t.
Proof.
  induction 1 as [|b w Hb _ IH]; [done|]. cbn [app spelled map].
  assert ((0 <=? b) && (b <? 128) = true) as -> by lia. by rewrite IH.
Qed.

Lemma split_ascii w : forall word l, Forall (fun b => 0x21 <= b <= 0x7e) w ->
  split_fields word (map (fun b => (b, [b])) w ++ l) = split_fields (word ++ w) l.
Proof.
  induction w as [|b w IH]; intros word l Hw; cbn; [by rewrite app_nil_r|].
  apply Forall_cons in Hw as [Hb Hw]. assert (isSpace b = false) as -> by (unfold isSpace; lia).
  by rewrite IH, <- app_assoc.
Qed.

Lemma fields_spaced ws t : Forall ascii_word ws ->
  strings_Fields (spaced ws ++ t) = ws ++ strings_Fields t.
Proof.
  unfold strings_Fields, spaced. induction 1 as [|w ws [Hne Hw] _ IH]; [done|].
  cbn [map concat]. rewrite <- !app_assoc.
  rewrite spelled_ascii by (eapply Forall_impl; [exact Hw|]; cbn; lia).
  rewrite split_ascii by done. rewrite app_nil_l.
  set (t' := _ ++ t) in *. change (spelled ([32] ++ t')) with ((32, [32]) :: spelled t').
  cbn [split_fields]. change (isSpace 32) with true. cbv iota. rewrite decide_False by done.
  by rewrite IH.
Qed.

(** The word that starts with [w] keeps it as its beginning. *)
Lemma split_begins l : forall w, w <> [] -> exists w' rest, split_fields w l = (w ++ w') :: rest.
Proof.
  induction l as [|[r o] l IH]; intros w Hw; cbn.
  - rewrite decide_False by done. exists [], []. by rewrite app_nil_r.
  - destruct (isSpace r).
    + rewrite decide_False by done. exists [], (split_fields [] l). by rewrite app_nil_r.
    + destruct (IH (w ++ o)) as (w' & rest & ->); [by destruct w|].
      exists (o ++ w'), rest. by rewrite app_assoc.
Qed.

Lemma fields_label tail : exists w rest, strings_Fields (label_text ++ tail) = (label_text ++ w) :: rest.
Proof.
  unfold strings_Fields. rewrite spelled_ascii by (repeat constructor; lia).
  rewrite split_ascii by (repeat constructor; lia). by apply split_begins.
Qed.

Lemma extract_plain more rest id status : Forall plain_word more ->
  extract_loop id status (more ++ rest) = extract_loop id status rest.
Proof.
  induction 1 as [|w more (_ & He & Hf) _ IH]; [done|]. cbn [app extract_loop]. by rewrite He, Hf.
Qed.

Lemma extract_receipt id more status tail :
  ascii_word id -> Forall plain_word more -> ascii_word status ->
  extractReceiptTextFields (receipt_of id more status tail) = Ok (id, status).
Proof.
  intros [Hid Hia] Hmore [Hst Hsa]. unfold extractReceiptTextFields, receipt_of.
  rewrite fields_spaced.
  2:{ constructor; [|apply Forall_app; split; [|constructor; [|constructor]]].
      - split; [done|]. repeat (constructor; [lia|]). done.
      - eapply Forall_impl; [exact Hmore|]. by intros w [? _].
      - split; [done|]. repeat (constructor; [lia|]). done. }
  destruct (fields_label tail) as (w & rest & ->). cbn [app extract_loop].
  change (ends_metadata (label_id ++ id)) with ((5 <=? length (label_id ++ id))%nat && false).
  rewrite andb_false_r. change (field_of (label_id ++ id)) with (Some (FieldID, id)).
  destruct id as [|c id]; [done|]. cbn [set_field]. rewrite decide_False by tauto.
  cbn [mbind outcome_bind]. rewrite <- app_assoc, extract_plain by done.
  cbn [app extract_loop]. change (ends_metadata (label_stat ++ status)) with false.
  change (field_of (label_stat ++ status)) with (Some (FieldStat, status)).
  destruct status as [|d status]; [done|]. cbn [set_field]. rewrite decide_False by tauto.
  cbn [mbind outcome_bind]. change (ends_metadata (label_text ++ w)) with true. done.
Qed.

(** A parameter that is none of the receipt's. *)
Definition unrelated (item : OptionalParameter) : Prop :=
  op_Tag item <> TLVTagReceiptedMessageID /\ op_Tag item <> TLVTagMessageState /\
  op_Tag item <> TLVTagMessagePayload.

Lemma tlv_loop_unrelated items t : Forall unrelated items -> tlv_loop t items = Ok t.
Proof.
  induction 1 as [|item items (H1 & H2 & H3) _ IH]; [done|]. cbn [tlv_loop]. unfold tlv_field.
  rewrite !(proj2 (Z.eqb_neq _ _)) by done. done.
Qed.

(** The conventional receipt is read back.  A deliver_sm whose text, as octets or
    in UCS-2, is the conventional [id:ID ... stat:STATUS text:...] gives that id
    and the state of that status, whatever words stand between them and whatever
    the echoed message after [text:] contains, fields of another receipt
    included. *)
Theorem receipt_roundtrip deliver id more status n tail :
  ascii_word id -> Forall plain_word more -> ascii_word status -> receiptTextState status = Some n ->
  Forall unrelated (dsm_Optional deliver) ->
  (dsm_DataCoding deliver = DataCodingSMSCDefault /\
     dsm_ShortMessage deliver = receipt_of id more status tail \/
   dsm_DataCoding deliver = DataCodingUCS2 /\ dsm_ShortMessage deliver <> [] /\
     DecodeUCS2 (dsm_ShortMessage deliver) = Ok (receipt_of id more status tail)) ->
  ParseDeliveryReceipt deliver =
    Ok (MkDeliveryReceipt id ReceiptSourceText id [] false n true ReceiptSourceText status n true 0
          false false).
Proof.
  intros Hid Hmore Hst Hn Hopt Htext. unfold ParseDeliveryReceipt. rewrite tlv_loop_unrelated by done.
  cbn [mbind outcome_bind tf_payload andb].
  assert (Hne : receipt_of id more status tail <> []) by done.
  replace (match dsm_ShortMessage deliver with [] => [] | z :: l => z :: l end)
    with (dsm_ShortMessage deliver) by by destruct (dsm_ShortMessage deliver).
  assert (Ht : receipt_text deliver (dsm_ShortMessage deliver) = Ok (receipt_of id more status tail)).
  { unfold receipt_text. destruct Htext as [[-> ->]|(-> & Hs & ->)]; by rewrite decide_False. }
  rewrite Ht. cbn [mbind outcome_bind]. rewrite extract_receipt by done. cbn [mbind outcome_bind].
  unfold assemble. destruct Hid as [Hid _], Hst as [Hst _].
  rewrite !(bool_decide_eq_false_2 (id = [])), !(bool_decide_eq_false_2 (status = [])) by done.
  cbn [negb tf_id tf_state]. rewrite Hn. cbn.
  rewrite (bool_decide_eq_false_2 (status = [])), (bool_decide_eq_false_2 (id = [])) by done.
  cbn. rewrite andb_false_r. done.
Qed.

Definition sample_tail : bytes := label_id ++ [0x39; 0x39].
Definition sample_deliver : DeliverSM :=
  MkDeliverSM [] 0 0 [] 0 0 [] 4 0 0 [] [] 0 0 0 0
    (receipt_of [0x30; 0x37] [[0x73; 0x75; 0x62; 0x3a; 0x31]] [0x44; 0x45; 0x4c; 0x49; 0x56; 0x52; 0x44]
       sample_tail) [].

Lemma receipt_roundtrip_witness :
  ParseDeliveryReceipt sample_deliver =
    Ok (MkDeliveryReceipt [0x30; 0x37] ReceiptSourceText [0x30; 0x37] [] false 2 true ReceiptSourceText
          [0x44; 0x45; 0x4c; 0x49; 0x56; 0x52; 0x44] 2 true 0 false false).
Proof.
  apply (receipt_roundtrip sample_deliver [0x30; 0x37] [[0x73; 0x75; 0x62; 0x3a; 0x31]]
    [0x44; 0x45; 0x4c; 0x49; 0x56; 0x52; 0x44] 2 sample_tail).
  - apply (bool_decide_unpack _); vm_compute; exact I.
  - apply (bool_decide_unpack _); vm_compute; exact I.
  - apply (bool_decide_unpack _); vm_compute; exact I.
  - reflexivity.
  - constructor.
  - left. split; reflexivity.
Defined.
