(* ===== verification/Deadline.v ===== *)
(** * Deadlines (src/session/deadline.go)

    One binary heap per session holds every timer: request timeouts and liveness
    checks.  Items are shared by pointer and know their index in the heap, which
    [cancel] relies on.  What the code uses of [container/heap] is modelled with
    it; the heap order is proved for the list algorithm first. *)

From stdpp Require Import sorting.
From S2P Require Import Prelude Protocol.

(** ** container/heap on a list, ordered by [key] *)

Section Heap.
Context (key : positive -> Z).

Definition key_at (l : list positive) (i : nat) : Z := from_option key 0 (l !! i).
Definition less_at (l : list positive) (i j : nat) : bool := key_at l i <? key_at l j.

Definition swap_at (l : list positive) (i j : nat) : list positive :=
  match l !! i, l !! j with
  | Some a, Some b => <[j := a]> (<[i := b]> l)
  | _, _ => l
  end.

Definition parent (i : nat) : nat := ((i - 1) / 2)%nat.

(** [up]; the index at least halves each round, so [j] rounds suffice. *)
Fixpoint sift_up (fuel : nat) (l : list positive) (j : nat) : list positive :=
  match fuel with
  | O => l
  | S fuel =>
      let i := parent j in
      if (i =? j)%nat || negb (less_at l j i) then l else sift_up fuel (swap_at l i j) i
  end.

(** [down] on the first [n] elements, with the final index. *)
Fixpoint sift_down (fuel : nat) (l : list positive) (i n : nat) : list positive * nat :=
  match fuel with
  | O => (l, i)
  | S fuel =>
      let j1 := (2 * i + 1)%nat in
      if (n <=? j1)%nat then (l, i) else
      let j := if (S j1 <? n)%nat && less_at l (S j1) j1 then S j1 else j1 in
      if negb (less_at l j i) then (l, i) else sift_down fuel (swap_at l i j) j n
  end.

(** *** Swapping *)

Lemma swap_lookup l i j x : (i < length l)%nat -> (j < length l)%nat ->
  swap_at l i j !! x = if decide (x = j) then l !! i else if decide (x = i) then l !! j else l !! x.
Proof.
  intros Hi Hj. destruct (lookup_lt_is_Some_2 _ _ Hi) as [a Ha], (lookup_lt_is_Some_2 _ _ Hj) as [b Hb].
  unfold swap_at. rewrite Ha, Hb. repeat case_decide; subst.
  - rewrite list_lookup_insert_eq; [done|by rewrite length_insert].
  - rewrite list_lookup_insert_ne, list_lookup_insert_eq by done. done.
  - by rewrite !list_lookup_insert_ne by done.
Qed.

Lemma swap_length l i j : length (swap_at l i j) = length l.
Proof. unfold swap_at. destruct (l !! i), (l !! j); by rewrite ?length_insert. Qed.

Lemma swap_perm l i j : swap_at l i j ≡ₚ l.
Proof.
  destruct (decide (i < length l)%nat) as [Hi|Hi]; [|unfold swap_at; rewrite (lookup_ge_None_2 l i) by lia; done].
  destruct (decide (j < length l)%nat) as [Hj|Hj];
    [|unfold swap_at; rewrite (lookup_ge_None_2 l j) by lia; by destruct (l !! i)].
  apply Permutation_inj. split; [apply swap_length|].
  exists (fun x => if decide (x = j) then i else if decide (x = i) then j else x). split.
  - intros x y. repeat case_decide; congruence.
  - intros x. rewrite swap_lookup by done. by repeat case_decide.
Qed.

Lemma swap_key l i j x : (i < length l)%nat -> (j < length l)%nat ->
  key_at (swap_at l i j) x =
  if decide (x = j) then key_at l i else if decide (x = i) then key_at l j else key_at l x.
Proof. intros Hi Hj. unfold key_at. rewrite swap_lookup by done. by repeat case_decide. Qed.

(** *** The heap order on the first [n] elements *)

Definition ordered (l : list positive) (n : nat) : Prop :=
  forall x, (0 < x < n)%nat -> key_at l (parent x) <= key_at l x.

(** All but [j] are in order with their parents, and [j]'s children with [j]'s parent. *)
Definition up_inv (l : list positive) (j n : nat) : Prop :=
  (forall x, (0 < x < n)%nat -> x <> j -> key_at l (parent x) <= key_at l x) /\
  (forall c, (0 < c < n)%nat -> parent c = j -> (0 < j)%nat -> key_at l (parent j) <= key_at l c).

(** All but [i] and its children. *)
Definition down_inv (l : list positive) (i n : nat) : Prop :=
  (forall x, (0 < x < n)%nat -> parent x <> i -> x <> i -> key_at l (parent x) <= key_at l x) /\
  (forall c, (0 < c < n)%nat -> parent c = i -> (0 < i)%nat -> key_at l (parent i) <= key_at l c).

Lemma parent_lt x : (0 < x)%nat -> (parent x < x)%nat.
Proof. intros. unfold parent. apply Nat.Div0.div_lt_upper_bound. lia. Qed.

Lemma parent_child c i : (0 < c)%nat -> parent c = i <-> c = (2 * i + 1)%nat \/ c = (2 * i + 2)%nat.
Proof.
  intros Hc. unfold parent. split.
  - intros <-. pose proof (Nat.div_mod_eq (c - 1) 2). pose proof (Nat.mod_upper_bound (c - 1) 2). lia.
  - intros [-> | ->]; symmetry; [apply (Nat.div_unique _ 2 i 0)|apply (Nat.div_unique _ 2 i 1)]; lia.
Qed.

Lemma up_step l j n : (j < n <= length l)%nat -> (0 < j)%nat -> up_inv l j n ->
  key_at l j < key_at l (parent j) -> up_inv (swap_at l (parent j) j) (parent j) n.
Proof.
  intros Hn Hj [H1 H2] Hlt. set (i := parent j) in *. assert (Hij : (i < j)%nat) by by apply parent_lt.
  assert (Hk : forall x, key_at (swap_at l i j) x =
    if decide (x = j) then key_at l i else if decide (x = i) then key_at l j else key_at l x)
    by (intros; apply swap_key; lia).
  split.
  - intros x Hx Hxi. rewrite !Hk. pose proof (parent_lt x ltac:(lia)).
    destruct (decide (x = j)) as [-> |Hxj].
    + fold i. rewrite decide_False, decide_True by (done || lia). lia.
    + rewrite (decide_False (P := x = i)) by done. destruct (decide (parent x = j)) as [Hp|Hp].
      * by apply H2; [..|lia].
      * destruct (decide (parent x = i)) as [Hp'|Hp'].
        -- specialize (H1 x Hx Hxj). rewrite Hp' in H1. lia.
        -- by apply H1.
  - intros c Hc Hp Hi. rewrite !Hk. pose proof (parent_lt i Hi).
    rewrite (decide_False (P := parent i = j)), (decide_False (P := parent i = i)) by lia.
    assert (Hii : key_at l (parent i) <= key_at l i) by (apply H1; lia).
    destruct (decide (c = j)) as [|Hcj]; [done|]. pose proof (parent_lt c ltac:(lia)).
    rewrite decide_False by lia. specialize (H1 c Hc Hcj). rewrite Hp in H1. lia.
Qed.

Lemma sift_up_ok fuel : forall l j n, (j < n <= length l)%nat -> (j < fuel)%nat -> up_inv l j n ->
  ordered (sift_up fuel l j) n /\ sift_up fuel l j ≡ₚ l /\
  forall x, (n <= x)%nat -> sift_up fuel l j !! x = l !! x.
Proof.
  induction fuel as [|fuel IH]; intros l j n Hn Hf Hu; [lia|]. cbn [sift_up].
  destruct (Nat.eqb_spec (parent j) j) as [He|He]; cbn [orb].
  { assert (j = 0%nat) as -> by (destruct j; [done|]; pose proof (parent_lt (S j)); lia).
    split_and!; [|done|done]. intros x Hx. apply Hu; lia. }
  assert (Hj : (0 < j)%nat) by (destruct j; [done|lia]). pose proof (parent_lt j Hj) as Hp.
  unfold less_at. destruct (Z.ltb_spec (key_at l j) (key_at l (parent j))) as [Hlt|Hge]; cbn [negb].
  - destruct (IH (swap_at l (parent j) j) (parent j) n) as (H1 & H2 & H3);
      [rewrite swap_length; lia|lia|by apply up_step|].
    split_and!; [done|by rewrite H2, swap_perm|]. intros x Hx. rewrite H3 by done.
    rewrite swap_lookup by lia. by rewrite !decide_False by lia.
  - split_and!; [|done|done]. intros x Hx. destruct (decide (x = j)) as [-> |]; [done|]. by apply Hu.
Qed.

(** The smaller child. *)
Lemma smaller_child l i n : let j1 := (2 * i + 1)%nat in (j1 < n)%nat ->
  let j := if (S j1 <? n)%nat && less_at l (S j1) j1 then S j1 else j1 in
  (i < j < n)%nat /\ parent j = i /\
  forall c, (0 < c < n)%nat -> parent c = i -> key_at l j <= key_at l c.
Proof.
  intros j1 Hj1 j. assert (Hj : j = j1 \/ j = S j1 /\ (S j1 < n)%nat).
  { unfold j. destruct (Nat.ltb_spec (S j1) n); cbn [andb]; [|auto]. destruct (less_at _ _ _); auto. }
  split_and!; [lia|lia| |].
  - apply parent_child; lia.
  - intros c Hc Hp. apply parent_child in Hp; [|lia]. unfold j, less_at.
    destruct (Nat.ltb_spec (S j1) n); cbn [andb].
    + replace (2 * i + 2)%nat with (S j1) in Hp by lia. fold j1 in Hp.
      destruct (Z.ltb_spec (key_at l (S j1)) (key_at l j1)); destruct Hp as [-> | ->]; lia.
    + destruct Hp as [-> | ->]; [fold j1; lia|lia].
Qed.

Lemma down_step l i j n : (i < j < n)%nat -> (n <= length l)%nat -> parent j = i ->
  (forall c, (0 < c < n)%nat -> parent c = i -> key_at l j <= key_at l c) ->
  down_inv l i n -> key_at l j < key_at l i ->
  down_inv (swap_at l i j) j n /\ key_at (swap_at l i j) i <= key_at (swap_at l i j) j /\
  ((0 < i)%nat -> key_at (swap_at l i j) (parent i) <= key_at (swap_at l i j) i).
Proof.
  intros Hij Hn Hpj Hmin [H1 H2] Hlt.
  assert (Hk : forall x, key_at (swap_at l i j) x =
    if decide (x = j) then key_at l i else if decide (x = i) then key_at l j else key_at l x)
    by (intros; apply swap_key; lia).
  split_and!.
  - split.
    + intros x Hx Hpx Hxj. rewrite !Hk. rewrite (decide_False (P := parent x = j)), (decide_False (P := x = j)) by done.
      destruct (decide (x = i)) as [-> |Hxi].
      * pose proof (parent_lt i ltac:(lia)). rewrite decide_False by lia. apply H2; [lia|done|lia].
      * destruct (decide (parent x = i)) as [Hp|Hp]; [by apply Hmin|by apply H1].
    + intros c Hc Hp _. rewrite Hpj, !Hk. pose proof (parent_lt c ltac:(lia)).
      rewrite (decide_False (P := i = j)), (decide_True (P := i = i)), (decide_False (P := c = j)),
        (decide_False (P := c = i)) by (done || lia).
      rewrite <- Hp. apply H1; [done|lia|lia].
  - rewrite !Hk. rewrite (decide_False (P := i = j)), !decide_True by (done || lia). lia.
  - intros Hi. pose proof (parent_lt i Hi). rewrite !Hk.
    rewrite (decide_False (P := parent i = j)), (decide_False (P := parent i = i)), (decide_False (P := i = j)),
      decide_True by (done || lia).
    apply H2; [lia|done|done].
Qed.

Lemma sift_down_ok fuel : forall l i n, (n <= length l)%nat -> (i < n)%nat -> (n - i <= fuel)%nat ->
  down_inv l i n ->
  let '(l', i') := sift_down fuel l i n in
  l' ≡ₚ l /\ (forall x, (n <= x)%nat -> l' !! x = l !! x) /\
  ((i' = i /\ l' = l /\ up_inv l i n) \/ ((i < i')%nat /\ ordered l' n)) /\
  (((0 < i)%nat -> key_at l (parent i) <= key_at l i) -> ordered l' n).
Proof.
  induction fuel as [|fuel IH]; intros l i n Hl Hi Hf Hd; [lia|]. cbn [sift_down].
  assert (Hstop : (forall c, (0 < c < n)%nat -> parent c = i -> key_at l i <= key_at l c) ->
    up_inv l i n /\ (((0 < i)%nat -> key_at l (parent i) <= key_at l i) -> ordered l n)).
  { intros Hc. destruct Hd as [H1 H2].
    assert (Hall : forall x, (0 < x < n)%nat -> x <> i -> key_at l (parent x) <= key_at l x).
    { intros x Hx Hxi. destruct (decide (parent x = i)) as [Hp|Hp]; [rewrite Hp; by apply Hc|by apply H1]. }
    split; [split; [done|intros c Hc' Hp Hpos; by apply H2]|]. intros Hpar x Hx.
    destruct (decide (x = i)) as [-> |]; [apply Hpar; lia|by apply Hall]. }
  destruct (Nat.leb_spec n (2 * i + 1)) as [Hge|Hlt].
  { destruct Hstop as [Hu Ho]; [intros c Hc Hp; apply parent_child in Hp; lia|].
    split_and!; auto. }
  destruct (smaller_child l i n Hlt) as (Hij & Hpj & Hmin).
  set (j := if (S (2 * i + 1) <? n)%nat && less_at l (S (2 * i + 1)) (2 * i + 1) then S (2 * i + 1) else (2 * i + 1)%nat) in *.
  unfold less_at at 1. destruct (Z.ltb_spec (key_at l j) (key_at l i)) as [Hless|Hge]; cbn [negb].
  - destruct (down_step l i j n Hij Hl Hpj Hmin Hd Hless) as (Hd' & Hle & Hpar).
    specialize (IH (swap_at l i j) j n). rewrite swap_length in IH. specialize (IH Hl ltac:(lia) ltac:(lia) Hd').
    destruct (sift_down fuel (swap_at l i j) j n) as [l' i'] eqn:Hs.
    destruct IH as (Hp & Hout & Hmove & Hord).
    assert (Ho : ordered l' n) by (apply Hord; intros _; by rewrite Hpj).
    split_and!; [by rewrite Hp, swap_perm| |right; split; [|done]|done].
    + intros x Hx. rewrite Hout by done. rewrite swap_lookup by lia. by rewrite !decide_False by lia.
    + destruct Hmove as [(-> & _)|[? _]]; lia.
  - destruct Hstop as [Hu Ho]; [intros c Hc Hp; specialize (Hmin c Hc Hp); lia|]. split_and!; auto.
Qed.
End Heap.

(** ** deadline.go *)

Inductive TimeoutKind := TimeoutResponse | TimeoutSessionInit | TimeoutEnquireLink | TimeoutInactivity.

Definition TimeoutKind_String (k : TimeoutKind) : string :=
  match k with
  | TimeoutResponse => "response" | TimeoutSessionInit => "session_init"
  | TimeoutEnquireLink => "enquire_link" | TimeoutInactivity => "inactivity"
  end%string.

(** Items are heap objects named by an address; their [index] field is kept in a
    map of its own because [container/heap] only changes that. *)
Record deadlineItem := MkItem {
  di_at : Z; di_after : Z; di_kind : TimeoutKind; di_command : Z; di_sequence : Z
}.

(** [wake] says whether the one-element channel holds a token. *)
Record deadlineManager := MkManager {
  heap : list positive;
  items : gmap positive deadlineItem;
  indexes : gmap positive Z;
  wake : bool
}.

Definition newDeadlineManager : deadlineManager := MkManager [] ∅ ∅ false.

Definition at_of (items : gmap positive deadlineItem) (p : positive) : Z :=
  from_option di_at 0 (items !! p).

Definition Less (m : deadlineManager) (i j : nat) : bool := less_at (at_of (items m)) (heap m) i j.

(** [container/heap] passes indices below [Len] only. *)
Definition Swap (m : deadlineManager) (i j : nat) : deadlineManager :=
  match heap m !! i, heap m !! j with
  | Some a, Some b =>
      MkManager (<[j := a]> (<[i := b]> (heap m))) (items m)
        (<[a := Z.of_nat j]> (<[b := Z.of_nat i]> (indexes m))) (wake m)
  | _, _ => m
  end.

Definition Push (m : deadlineManager) (item : positive) : deadlineManager :=
  MkManager (heap m ++ [item]) (items m) (<[item := Z.of_nat (length (heap m))]> (indexes m)) (wake m).

Definition Pop (m : deadlineManager) : deadlineManager * option positive :=
  match last (heap m) with
  | None => (m, None)
  | Some item =>
      (MkManager (removelast (heap m)) (items m) (<[item := -1]> (indexes m)) (wake m), Some item)
  end.

(** *** container/heap *)

Fixpoint heap_up (fuel : nat) (m : deadlineManager) (j : nat) : deadlineManager :=
  match fuel with
  | O => m
  | S fuel =>
      let i := parent j in
      if (i =? j)%nat || negb (Less m j i) then m else heap_up fuel (Swap m i j) i
  end.

Fixpoint heap_down (fuel : nat) (m : deadlineManager) (i n : nat) : deadlineManager * nat :=
  match fuel with
  | O => (m, i)
  | S fuel =>
      let j1 := (2 * i + 1)%nat in
      if (n <=? j1)%nat then (m, i) else
      let j := if (S j1 <? n)%nat && Less m (S j1) j1 then S j1 else j1 in
      if negb (Less m j i) then (m, i) else heap_down fuel (Swap m i j) j n
  end.

Definition heap_Push (m : deadlineManager) (item : positive) : deadlineManager :=
  heap_up (length (heap (Push m item))) (Push m item) (length (heap m)).

Definition heap_Pop (m : deadlineManager) : deadlineManager * option positive :=
  let n := (length (heap m) - 1)%nat in
  Pop (fst (heap_down n (Swap m 0 n) 0 n)).

Definition heap_Remove (m : deadlineManager) (i : nat) : deadlineManager * option positive :=
  let n := (length (heap m) - 1)%nat in
  if (n =? i)%nat then Pop m else
  let '(m', i') := heap_down n (Swap m i n) i n in
  Pop (if (i <? i')%nat then m' else heap_up (S i) m' i).

(** *** The manager *)

Definition signal (m : deadlineManager) : deadlineManager :=
  MkManager (heap m) (items m) (indexes m) true.

Definition scheduleItemAt (m : deadlineManager) (item : option positive) (dispatchedAt after : Z)
    (kind : TimeoutKind) (command sequence : Z) : deadlineManager * option positive :=
  match item with
  | Some item =>
      if after <=? 0 then (m, None) else
      let data := MkItem (dispatchedAt + after) after kind command sequence in
      let m := MkManager (heap m) (<[item := data]> (items m)) (<[item := -1]> (indexes m)) (wake m) in
      let wasFirst := match heap m with
                      | [] => true
                      | first :: _ => di_at data <? at_of (items m) first
                      end in
      let m := heap_Push m item in
      (if wasFirst then signal m else m, Some item)
  | None => (m, None)
  end.

Definition cancel (m : deadlineManager) (item : option positive) : deadlineManager :=
  match item with
  | None => m
  | Some item =>
      let idx := default 0 (indexes m !! item) in
      let wasFirst := idx =? 0 in
      let m := if (0 <=? idx) && (idx <? Z.of_nat (length (heap m))) &&
                  bool_decide (heap m !! Z.to_nat idx = Some item)
               then fst (heap_Remove m (Z.to_nat idx)) else m in
      if wasFirst then signal m else m
  end.

Definition deadline_len (m : deadlineManager) : Z := Z.of_nat (length (heap m)).

(** The loop of [expireReady]; every round pops an item.  The callback runs on
    the list it returns, after the lock is released. *)
Fixpoint expire_loop (fuel : nat) (m : deadlineManager) (now : Z) (expired : list positive)
    : deadlineManager * list positive :=
  match fuel, heap m with
  | S fuel, first :: _ =>
      if now <? at_of (items m) first then (m, expired)
      else match heap_Pop m with
           | (m, Some item) => expire_loop fuel m now (expired ++ [item])
           | (m, None) => (m, expired)
           end
  | _, _ => (m, expired)
  end.

Definition expireReady (m : deadlineManager) (now : Z) : deadlineManager * list positive :=
  expire_loop (length (heap m)) m now [].

(** *** The list algorithm with indexes *)

(** Every item of the heap knows where it is. *)
Definition indexed (m : deadlineManager) : Prop :=
  forall i p, heap m !! i = Some p -> indexes m !! p = Some (Z.of_nat i).

Lemma indexed_inj m i j p : indexed m -> heap m !! i = Some p -> heap m !! j = Some p -> i = j.
Proof. intros H Hi%H Hj%H. rewrite Hi in Hj. injection Hj as ?. lia. Qed.

(** [m'] differs from [m] in the order of the heap only. *)
Definition rearranged (m m' : deadlineManager) (l : list positive) : Prop :=
  heap m' = l /\ items m' = items m /\ wake m' = wake m /\ (indexed m -> indexed m').

Lemma Swap_ok m i j : rearranged m (Swap m i j) (swap_at (heap m) i j).
Proof.
  unfold Swap, swap_at. destruct (heap m !! i) as [a|] eqn:Ha; [|by repeat split].
  destruct (heap m !! j) as [b|] eqn:Hb; [|by repeat split]. split_and!; [done..|].
  intros Hx x p Hp. cbn [heap indexes] in *.
  destruct (decide (x = j)) as [-> |Hj].
  - rewrite list_lookup_insert_eq in Hp by (rewrite length_insert; by eapply lookup_lt_Some).
    injection Hp as <-. apply lookup_insert_eq.
  - rewrite list_lookup_insert_ne in Hp by done. destruct (decide (x = i)) as [-> |Hi].
    + rewrite list_lookup_insert_eq in Hp by (by eapply lookup_lt_Some). injection Hp as <-.
      rewrite lookup_insert_ne, lookup_insert_eq; [done|]. intros ->.
      by pose proof (indexed_inj m i j b Hx Ha Hb).
    + rewrite list_lookup_insert_ne in Hp by done.
      assert (p <> a) by (intros ->; by pose proof (indexed_inj m x i a Hx Hp Ha)).
      assert (p <> b) by (intros ->; by pose proof (indexed_inj m x j b Hx Hp Hb)).
      rewrite !lookup_insert_ne by done. by apply Hx.
Qed.

Lemma rearranged_trans m m' m'' l l' : rearranged m m' l -> rearranged m' m'' l' -> rearranged m m'' l'.
Proof. intros (_ & H2 & H3 & H4) (H5 & H6 & H7 & H8). split_and!; [done|congruence..|auto]. Qed.

Lemma heap_up_ok fuel : forall m j,
  rearranged m (heap_up fuel m j) (sift_up (at_of (items m)) fuel (heap m) j).
Proof.
  induction fuel as [|fuel IH]; intros m j; cbn [heap_up sift_up]; [by repeat split|].
  unfold Less. destruct (_ || _); [by repeat split|]. pose proof (Swap_ok m (parent j) j) as Hs.
  eapply rearranged_trans; [exact Hs|]. destruct Hs as (Hh & Hi & _ & _).
  specialize (IH (Swap m (parent j) j) (parent j)). by rewrite Hh, Hi in IH.
Qed.

Lemma heap_down_ok fuel : forall m i n,
  rearranged m (fst (heap_down fuel m i n)) (fst (sift_down (at_of (items m)) fuel (heap m) i n)) /\
  snd (heap_down fuel m i n) = snd (sift_down (at_of (items m)) fuel (heap m) i n).
Proof.
  induction fuel as [|fuel IH]; intros m i n; cbn [heap_down sift_down]; [by repeat split|].
  unfold Less. destruct (n <=? _)%nat; [by repeat split|].
  set (j := if _ && _ then _ else _). destruct (negb _); [by repeat split|].
  pose proof (Swap_ok m i j) as Hs. pose proof Hs as (Hh & Hi & _ & _).
  specialize (IH (Swap m i j) j n). rewrite Hh, Hi in IH. destruct IH as [IH1 IH2].
  split; [|done]. by eapply rearranged_trans.
Qed.

(** *** The invariant *)

Record dl_inv (m : deadlineManager) : Prop := {
  dl_indexed : indexed m;
  dl_ordered : ordered (at_of (items m)) (heap m) (length (heap m));
  dl_known : forall p, p ∈ heap m -> is_Some (items m !! p)
}.

Section Ordered.
Context (key : positive -> Z).

Lemma ordered_ext l l' n : (forall x, (x < n)%nat -> l' !! x = l !! x) -> ordered key l n -> ordered key l' n.
Proof.
  intros H Ho x Hx. unfold key_at. pose proof (parent_lt x ltac:(lia)).
  rewrite !H by lia. apply (Ho x Hx).
Qed.

Lemma ordered_min l n x : ordered key l n -> (x < n)%nat -> key_at key l 0 <= key_at key l x.
Proof.
  intros Ho. induction x as [x IH] using lt_wf_ind. intros Hx.
  destruct (decide (x = 0%nat)) as [-> |]; [lia|]. pose proof (parent_lt x ltac:(lia)).
  specialize (IH (parent x) ltac:(lia) ltac:(lia)). specialize (Ho x ltac:(lia)). lia.
Qed.

Lemma push_up_inv l p : ordered key l (length l) -> up_inv key (l ++ [p]) (length l) (S (length l)).
Proof.
  intros Ho. split.
  - intros x Hx Hne. assert (Ho' : ordered key (l ++ [p]) (length l)); [|apply Ho'; lia].
    eapply ordered_ext; [|exact Ho]. intros y Hy. by apply lookup_app_l.
  - intros c Hc Hp Hpos. apply parent_child in Hp; lia.
Qed.

Lemma swap_down_inv l i n : ordered key l (S n) -> length l = S n -> (i < n)%nat ->
  down_inv key (swap_at l i n) i n.
Proof.
  intros Ho Hl Hi.
  assert (Hk : forall x, (x < n)%nat -> x <> i -> key_at key (swap_at l i n) x = key_at key l x).
  { intros x Hx Hne. rewrite swap_key by lia. by rewrite !decide_False by lia. }
  split.
  - intros x Hx Hp Hne. pose proof (parent_lt x ltac:(lia)). rewrite !Hk by lia. apply Ho. lia.
  - intros c Hc Hp Hpos. pose proof (parent_lt c ltac:(lia)). pose proof (parent_lt i Hpos). rewrite !Hk by lia.
    pose proof (Ho i ltac:(lia)). pose proof (Ho c ltac:(lia)). rewrite Hp in *. lia.
Qed.
End Ordered.

(** Dropping the last element of a heap that is in order before it. *)
Lemma Pop_ok m n p : indexed m -> length (heap m) = S n -> heap m !! n = Some p ->
  ordered (at_of (items m)) (heap m) n -> (forall q, q ∈ heap m -> is_Some (items m !! q)) ->
  exists m', Pop m = (m', Some p) /\ dl_inv m' /\ p :: heap m' ≡ₚ heap m /\
    items m' = items m /\ wake m' = wake m.
Proof.
  intros Hx Hl Hp Ho Hk. assert (Hs : heap m = take n (heap m) ++ [p]).
  { rewrite <- (take_drop n (heap m)) at 1. f_equal. rewrite (drop_S _ p) by done.
    by rewrite drop_ge by lia. }
  unfold Pop. rewrite Hs. rewrite last_snoc, removelast_last. eexists. split; [done|].
  assert (Hlk : forall i q, take n (heap m) !! i = Some q -> (i < n)%nat /\ heap m !! i = Some q).
  { intros i q Hi. split; [apply lookup_lt_Some in Hi; rewrite length_take in Hi; lia|].
    rewrite Hs. by apply lookup_app_l_Some. }
  split_and!; [|cbn [heap]; apply Permutation_cons_append|done|done]. split; cbn [heap indexes items].
  - intros i q Hi. cbn [heap indexes] in *. apply Hlk in Hi as [Hi Hq]. rewrite lookup_insert_ne; [by apply Hx|].
    intros ->. pose proof (indexed_inj m i n q Hx Hq Hp). lia.
  - rewrite length_take, Hl. replace (n `min` S n)%nat with n by lia.
    eapply ordered_ext; [|exact Ho]. intros x Hlt. by rewrite lookup_take_lt.
  - intros q Hq. apply Hk. rewrite Hs. apply elem_of_app. by left.
Qed.

Lemma heap_Push_ok m p :
  dl_inv m -> p ∉ heap m -> is_Some (items m !! p) ->
  dl_inv (heap_Push m p) /\ heap (heap_Push m p) ≡ₚ p :: heap m /\
  items (heap_Push m p) = items m /\ wake (heap_Push m p) = wake m.
Proof.
  intros [Hx Ho Hk] Hp Hin. unfold heap_Push.
  pose proof (heap_up_ok (length (heap (Push m p))) (Push m p) (length (heap m))) as (Hh & Hi & Hw & Hix).
  cbn [Push heap items wake] in *. rewrite length_app in *. cbn [length] in *.
  destruct (sift_up_ok (at_of (items m)) (length (heap m) + 1) (heap m ++ [p]) (length (heap m)) (S (length (heap m))))
    as (H1 & H2 & _); [len|lia|by apply push_up_inv|].
  set (m' := heap_up _ _ _) in *. assert (Hperm : heap m' ≡ₚ p :: heap m).
  { rewrite Hh, H2. symmetry. apply Permutation_cons_append. }
  split_and!; [|done|done|done]. split.
  - apply Hix. intros i q Hq. cbn [Push heap indexes] in *.
    apply lookup_app_Some in Hq as [Hq|[Hge Hq]].
    + rewrite lookup_insert_ne; [by apply Hx|]. intros ->. apply Hp. by eapply list_elem_of_lookup_2.
    + apply list_lookup_singleton_Some in Hq as [Hi0 <-]. rewrite lookup_insert_eq. do 2 f_equal. lia.
  - pose proof (Permutation_length Hperm) as Hlen. cbn [length] in Hlen. by rewrite Hi, Hlen, Hh.
  - intros q Hq. rewrite Hi. rewrite Hperm in Hq. apply elem_of_cons in Hq as [-> |Hq]; auto.
Qed.

(** Settling the element swapped in at [i] and dropping the one swapped out. *)
Lemma heap_Remove_ok m i p : dl_inv m -> heap m !! i = Some p ->
  exists m', heap_Remove m i = (m', Some p) /\ dl_inv m' /\ p :: heap m' ≡ₚ heap m /\
    items m' = items m /\ wake m' = wake m.
Proof.
  intros [Hx Ho Hk] Hp. pose proof (lookup_lt_Some _ _ _ Hp) as Hlt. unfold heap_Remove.
  destruct (length (heap m)) as [|n] eqn:Hl; [lia|]. replace (S n - 1)%nat with n by lia.
  destruct (Nat.eqb_spec n i) as [<-|Hne].
  { apply (Pop_ok m n); [done..| |done]. intros x Hx'. apply Ho. lia. }
  pose proof (Swap_ok m i n) as Hs. pose proof Hs as (Hh & Hi & _ & _).
  pose proof (heap_down_ok n (Swap m i n) i n) as [Hd1 Hd2]. rewrite Hh, Hi in Hd1, Hd2.
  pose proof (sift_down_ok (at_of (items m)) n (swap_at (heap m) i n) i n) as Hsd.
  rewrite swap_length in Hsd. specialize (Hsd ltac:(lia) ltac:(lia) ltac:(lia)
    (swap_down_inv (at_of (items m)) (heap m) i n Ho Hl ltac:(lia))).
  destruct (heap_down n (Swap m i n) i n) as [m1 i1].
  destruct (sift_down (at_of (items m)) n (swap_at (heap m) i n) i n) as [l1 i1']. cbn [fst snd] in *. subst i1'.
  destruct Hsd as (Hp1 & Hout & Hmove & _). pose proof (rearranged_trans _ _ _ _ _ Hs Hd1) as Hr1.
  assert (Hn : l1 !! n = Some p).
  { rewrite Hout, swap_lookup by lia. by rewrite decide_True by done. }
  (* the state handed to [Pop]: ordered before [n], the removed item at [n] *)
  assert (Hfin : exists l2, rearranged m (if (i <? i1)%nat then m1 else heap_up (S i) m1 i) l2 /\
    l2 ≡ₚ heap m /\ l2 !! n = Some p /\ ordered (at_of (items m)) l2 n).
  { destruct Hmove as [(-> & Hl1 & Hu)|[Hlt' Hord]].
    - rewrite Nat.ltb_irrefl. exists (sift_up (at_of (items m)) (S i) l1 i).
      pose proof (heap_up_ok (S i) m1 i) as Hup. destruct Hr1 as (Hh1 & Hi1 & ? & ?). rewrite Hh1, Hi1 in Hup.
      destruct (sift_up_ok (at_of (items m)) (S i) l1 i n) as (H1 & H2 & H3).
      + rewrite Hl1, swap_length. lia. + lia. + by rewrite Hl1.
      + split_and!; [eapply rearranged_trans; [|exact Hup]; by repeat split|by rewrite H2, Hp1, swap_perm| |done].
        by rewrite H3.
    - rewrite (proj2 (Nat.ltb_lt _ _) Hlt'). exists l1. split_and!; [done|by rewrite Hp1, swap_perm|done|done]. }
  destruct Hfin as (l2 & (Hh2 & Hi2 & Hw2 & Hx2) & Hp2 & Hn2 & Ho2).
  set (m2 := if (i <? i1)%nat then m1 else heap_up (S i) m1 i) in *.
  destruct (Pop_ok m2 n p) as (m' & H1 & H2 & H3 & H4 & H5).
  - auto. - rewrite Hh2, <- Hl. by apply Permutation_length. - by rewrite Hh2.
  - by rewrite Hi2, Hh2. - intros q Hq. rewrite Hi2. apply Hk. by rewrite <- Hp2, <- Hh2.
  - exists m'. split_and!; [done|done|by rewrite H3, Hh2|congruence|congruence].
Qed.

Lemma heap_Pop_ok m p rest : dl_inv m -> heap m = p :: rest ->
  exists m', heap_Pop m = (m', Some p) /\ dl_inv m' /\ p :: heap m' ≡ₚ heap m /\
    items m' = items m /\ wake m' = wake m.
Proof.
  intros [Hx Ho Hk] Hh0. unfold heap_Pop. destruct (length (heap m)) as [|n] eqn:Hl; [by rewrite Hh0 in Hl|].
  replace (S n - 1)%nat with n by lia. assert (Hp : heap m !! 0%nat = Some p) by by rewrite Hh0.
  pose proof (Swap_ok m 0 n) as Hs. pose proof Hs as (Hh & Hi & _ & _).
  pose proof (heap_down_ok n (Swap m 0 n) 0 n) as [Hd1 _]. rewrite Hh, Hi in Hd1.
  assert (Hsd : exists l1, fst (sift_down (at_of (items m)) n (swap_at (heap m) 0 n) 0 n) = l1 /\
    l1 ≡ₚ heap m /\ l1 !! n = Some p /\ ordered (at_of (items m)) l1 n).
  { destruct n as [|n].
    - exists (swap_at (heap m) 0 0). cbn [sift_down fst]. split_and!; [done|apply swap_perm| |intros x Hx'; lia].
      rewrite swap_lookup by lia. by rewrite decide_True by done.
    - pose proof (sift_down_ok (at_of (items m)) (S n) (swap_at (heap m) 0 (S n)) 0 (S n)) as Hsd.
      rewrite swap_length in Hsd.
      specialize (Hsd ltac:(lia) ltac:(lia) ltac:(lia)
        (swap_down_inv (at_of (items m)) (heap m) 0 (S n) Ho Hl ltac:(lia))).
      destruct (sift_down _ _ _ _ _) as [l1 i1]. destruct Hsd as (Hp1 & Hout & _ & Hord). exists l1.
      split_and!; [done|by rewrite Hp1, swap_perm| |apply Hord; lia].
      rewrite Hout, swap_lookup by lia. by rewrite decide_True by done. }
  destruct Hsd as (l1 & Hl1 & Hp1 & Hn1 & Ho1). rewrite Hl1 in Hd1.
  pose proof (rearranged_trans _ _ _ _ _ Hs Hd1) as (Hh1 & Hi1 & Hw1 & Hx1).
  set (m1 := fst (heap_down n (Swap m 0 n) 0 n)) in *.
  destruct (Pop_ok m1 n p) as (m' & H1 & H2 & H3 & H4 & H5).
  - auto. - rewrite Hh1, <- Hl. by apply Permutation_length. - by rewrite Hh1.
  - by rewrite Hi1, Hh1. - intros q Hq. rewrite Hi1. apply Hk. by rewrite <- Hp1, <- Hh1.
  - exists m'. split_and!; [done|done|by rewrite H3, Hh1|congruence|congruence].
Qed.

(** *** The operations *)

Lemma signal_inv m : dl_inv m -> dl_inv (signal m).
Proof. intros [H1 H2 H3]. by split. Qed.

(** The new item is not in the heap yet, so its time does not matter there. *)
Lemma schedule_inv m item d after kind command sequence :
  dl_inv m -> item ∉ heap m -> 0 < after ->
  let '(m', r) := scheduleItemAt m (Some item) d after kind command sequence in
  r = Some item /\ dl_inv m' /\ heap m' ≡ₚ item :: heap m /\
  items m' = <[item := MkItem (d + after) after kind command sequence]> (items m) /\
  (wake m' = wake m /\ (exists first, first ∈ heap m /\ at_of (items m) first <= d + after) \/ wake m' = true).
Proof.
  intros [Hx Ho Hk] Hn Ha. unfold scheduleItemAt. destruct (Z.leb_spec after 0); [lia|].
  set (data := MkItem (d + after) after kind command sequence).
  set (m0 := MkManager (heap m) (<[item := data]> (items m)) (<[item := -1]> (indexes m)) (wake m)).
  assert (Hat : forall p, p ∈ heap m -> at_of (items m0) p = at_of (items m) p).
  { intros p Hp. unfold at_of, m0. cbn [items]. rewrite lookup_insert_ne; [done|]. by intros ->. }
  assert (H0 : dl_inv m0).
  { split.
    - intros i p Hi. unfold m0 in *. cbn [heap indexes] in *. rewrite lookup_insert_ne; [by apply Hx|].
      intros ->. apply Hn. by eapply list_elem_of_lookup_2.
    - intros x Hx'. specialize (Ho x Hx'). unfold key_at in *. pose proof (parent_lt x ltac:(lia)).
      unfold m0 in *. cbn [heap items length] in *.
      destruct (lookup_lt_is_Some_2 (heap m) x) as [q Hq]; [lia|].
      destruct (lookup_lt_is_Some_2 (heap m) (parent x)) as [q' Hq']; [lia|].
      rewrite Hq, Hq' in *. cbn [from_option] in *.
      rewrite !Hat by (by eapply list_elem_of_lookup_2). done.
    - intros p Hp. unfold m0. cbn [items]. apply lookup_insert_is_Some. right.
      split; [by intros ->|by apply Hk]. }
  destruct (heap_Push_ok m0 item H0) as (H1 & H2 & H3 & H4);
    [done|unfold m0; cbn [items]; rewrite lookup_insert_eq; by eexists|].
  change (heap m0) with (heap m) in *.
  assert (Hfirst : forall first rest, heap m = first :: rest -> first ∈ heap m)
    by (intros first rest ->; by left).
  destruct (heap m) as [|first rest] eqn:Hh; cbn [signal heap items wake].
  - split_and!; [done|by apply signal_inv|done|done|by right].
  - pose proof (Hfirst first rest eq_refl) as Hf. rewrite Hat by done. destruct (Z.ltb_spec (di_at data) (at_of (items m) first)).
    + split_and!; [done|by apply signal_inv|done|done|by right].
    + split_and!; [done..|]. left. split; [done|]. exists first. split; [done|]. cbn in *. lia.
Qed.

Lemma cancel_inv m item : dl_inv m ->
  let m' := cancel m (Some item) in
  dl_inv m' /\ items m' = items m /\ (wake m = true -> wake m' = true) /\
  (item ∈ heap m -> item :: heap m' ≡ₚ heap m) /\ (item ∉ heap m -> heap m' = heap m).
Proof.
  intros Hi. cbn zeta. unfold cancel.
  set (m1 := if (0 <=? _) && _ && _ then _ else m).
  assert (H : dl_inv m1 /\ items m1 = items m /\ (wake m = true -> wake m1 = true) /\
    (item ∈ heap m -> item :: heap m1 ≡ₚ heap m) /\ (item ∉ heap m -> heap m1 = heap m)).
  { unfold m1. destruct (_ && _ && _) eqn:Hc.
    - apply andb_true_iff in Hc as [_ Hp%bool_decide_eq_true].
      destruct (heap_Remove_ok m _ item Hi Hp) as (m' & -> & H1 & H2 & H3 & H4). cbn [fst].
      split_and!; [done|done|congruence|done|]. intros Hn. destruct Hn. by eapply list_elem_of_lookup_2.
    - split_and!; [done|done|done| |done]. intros [i Hin]%list_elem_of_lookup. exfalso.
      pose proof (dl_indexed _ Hi i item Hin) as Hidx. rewrite Hidx in Hc. cbn [default from_option id] in Hc.
      pose proof (lookup_lt_Some _ _ _ Hin).
      rewrite Nat2Z.id, bool_decide_eq_true_2, andb_true_r in Hc by done. lia. }
  destruct (_ =? 0); [|done]. destruct H as (H1 & H2 & H3 & H4 & H5). split_and!; try done. by apply signal_inv.
Qed.

Lemma expire_loop_ok fuel : forall m now expired, dl_inv m -> (length (heap m) <= fuel)%nat ->
  let '(m', r) := expire_loop fuel m now expired in
  exists e, r = expired ++ e /\ dl_inv m' /\ items m' = items m /\ wake m' = wake m /\
    e ++ heap m' ≡ₚ heap m /\ Forall (fun p => at_of (items m) p <= now) e /\
    Forall (fun p => now < at_of (items m) p) (heap m') /\
    StronglySorted (fun a b => at_of (items m) a <= at_of (items m) b) e.
Proof.
  induction fuel as [|fuel IH]; intros m now expired Hi Hf.
  { destruct (heap m) eqn:Hh; [|cbn in Hf; lia]. cbn [expire_loop]. exists [].
    rewrite app_nil_r, Hh. split_and!; [done..|constructor|constructor|constructor]. }
  cbn [expire_loop]. destruct (heap m) as [|first rest] eqn:Hh.
  { exists []. rewrite app_nil_r, Hh. split_and!; [done..|constructor|constructor|constructor]. }
  assert (Hmin : forall p, p ∈ heap m -> at_of (items m) first <= at_of (items m) p).
  { intros p [x Hx]%list_elem_of_lookup. pose proof (lookup_lt_Some _ _ _ Hx).
    pose proof (ordered_min _ _ _ x (dl_ordered _ Hi) ltac:(done)) as Hm. unfold key_at in Hm.
    rewrite Hx, Hh in Hm. exact Hm. }
  destruct (Z.ltb_spec now (at_of (items m) first)) as [Hlt|Hge].
  { exists []. rewrite app_nil_r. split_and!; [done..|by rewrite Hh|constructor| |constructor].
    apply Forall_forall. intros p Hp%Hmin. lia. }
  destruct (heap_Pop_ok m first rest Hi Hh) as (m1 & -> & Hi1 & Hp1 & Hit1 & Hw1).
  specialize (IH m1 now (expired ++ [first]) Hi1). rewrite Hit1 in IH.
  assert (Hlen : (length (heap m1) <= fuel)%nat).
  { apply Permutation_length in Hp1. rewrite Hh in Hp1. cbn in *. lia. }
  specialize (IH Hlen). destruct (expire_loop fuel m1 now (expired ++ [first])) as [m' r].
  destruct IH as (e & -> & H1 & H2 & H3 & H4 & H5 & H6 & H7). exists (first :: e). rewrite <- app_assoc.
  split_and!; [done|done|done|congruence| |by constructor|done|].
  - rewrite <- Hh, <- Hp1, <- H4. done.
  - constructor; [done|]. apply Forall_forall. intros p Hp. apply Hmin.
    rewrite <- Hp1, <- H4. right. apply elem_of_app. by left.
Qed.

(** C28: The deadline heap is a set of timers.  In a well-formed manager scheduling a
    new item adds exactly that item with its time, cancelling removes exactly
    that item if it is scheduled and otherwise nothing, and [expireReady] takes
    out exactly the items whose time has come, earliest first; the heap order and
    the items' own indexes, which [cancel] trusts, are kept. *)
Theorem deadlines_refine_set m :
  dl_inv m ->
  (forall item d after kind command sequence, item ∉ heap m -> 0 < after ->
     let '(m', r) := scheduleItemAt m (Some item) d after kind command sequence in
     dl_inv m' /\ r = Some item /\ heap m' ≡ₚ item :: heap m /\
     items m' !! item = Some (MkItem (d + after) after kind command sequence)) /\
  (forall item, let m' := cancel m (Some item) in
     dl_inv m' /\ (item ∈ heap m -> item :: heap m' ≡ₚ heap m) /\ (item ∉ heap m -> heap m' = heap m)) /\
  (forall now, let '(m', expired) := expireReady m now in
     dl_inv m' /\ expired ++ heap m' ≡ₚ heap m /\
     Forall (fun p => at_of (items m) p <= now) expired /\
     Forall (fun p => now < at_of (items m) p) (heap m') /\
     StronglySorted (fun a b => at_of (items m) a <= at_of (items m) b) expired).
Proof.
  intros Hi. split_and!.
  - intros item d after kind command sequence Hn Ha.
    pose proof (schedule_inv m item d after kind command sequence Hi Hn Ha) as H.
    destruct (scheduleItemAt _ _ _ _ _ _ _) as [m' r]. destruct H as (H1 & H2 & H3 & H4 & _).
    split_and!; [done..|]. by rewrite H4, lookup_insert_eq.
  - intros item. destruct (cancel_inv m item Hi) as (H1 & _ & _ & H4 & H5). by split_and!.
  - intros now. unfold expireReady. pose proof (expire_loop_ok (length (heap m)) m now [] Hi ltac:(lia)) as H.
    destruct (expire_loop _ _ _ _) as [m' r]. destruct H as (e & -> & H1 & _ & _ & H4 & H5 & H6 & H7).
    by split_and!.
Qed.

(** Three timers. *)
Definition sample_manager : deadlineManager :=
  foldl (fun m p => fst (scheduleItemAt m (Some p) 0 (100 - Z.pos p) TimeoutResponse 4 (Z.pos p)))
    newDeadlineManager [10; 30; 20]%positive.

Lemma sample_inv : dl_inv sample_manager.
Proof.
  split.
  - intros i p Hi. destruct i as [|[|[|i]]]; vm_compute in Hi; [..|done]; injection Hi as <-; reflexivity.
  - intros x Hx. vm_compute in Hx. destruct x as [|[|[|x]]]; vm_compute; [lia|discriminate..|lia].
  - intros p Hp. change (heap sample_manager) with [30; 10; 20]%positive in Hp.
    rewrite !elem_of_cons in Hp.
    destruct Hp as [-> |[-> |[-> |?%elem_of_nil]]]; [by eexists..|done].
Qed.

Lemma deadlines_refine_set_witness :
  dl_inv sample_manager /\ snd (expireReady sample_manager 80) ++ heap (fst (expireReady sample_manager 80))
    ≡ₚ heap sample_manager.
Proof.
  split; [apply sample_inv|].
  destruct (deadlines_refine_set sample_manager sample_inv) as (_ & _ & H). specialize (H 80).
  by destruct (expireReady sample_manager 80) as [m' e], H as (_ & H & _).
Defined.

(** *** The loop

    [run] waits for a wake-up when the heap is empty, else arms a timer for the
    earliest deadline and waits for the timer or a wake-up.  [Armed a t]: armed
    at time [a], to fire at [t].  Between its steps other goroutines schedule
    and cancel. *)
Inductive runner := Looping | Idle | Armed (a t : Z).

Definition run_step (m : deadlineManager) (now : Z) : runner :=
  match heap m with
  | [] => Idle
  | first :: _ => Armed now (now + (if at_of (items m) first - now <? 0 then 0 else at_of (items m) first - now))
  end.

Inductive rstep : deadlineManager * runner -> deadlineManager * runner -> Prop :=
| r_loop m now : rstep (m, Looping) (m, run_step m now)
| r_wake m r : wake m = true -> r <> Looping ->
    rstep (m, r) (MkManager (heap m) (items m) (indexes m) false, Looping)
| r_fire m a t now : t <= now -> rstep (m, Armed a t) (fst (expireReady m now), Looping)
| r_schedule m r item d after kind command sequence : item ∉ heap m -> 0 < after ->
    rstep (m, r) (fst (scheduleItemAt m (Some item) d after kind command sequence), r)
| r_cancel m r item : rstep (m, r) (cancel m (Some item), r).

(** A wait is either about to end, or not longer than any deadline allows. *)
Definition waits_ok (m : deadlineManager) (r : runner) : Prop :=
  match r with
  | Looping => True
  | Idle => wake m = true \/ heap m = []
  | Armed a t => wake m = true \/ forall p, p ∈ heap m -> t <= Z.max a (at_of (items m) p)
  end.

Lemma run_step_ok m now : dl_inv m -> waits_ok m (run_step m now).
Proof.
  intros Hi. unfold run_step. destruct (heap m) as [|first rest] eqn:Hh; cbn [waits_ok]; [by right|].
  right. intros p [x Hx]%list_elem_of_lookup.
  pose proof (ordered_min _ _ _ x (dl_ordered _ Hi) ltac:(by eapply lookup_lt_Some)) as Hm.
  unfold key_at in Hm. rewrite Hx, Hh in Hm. cbn in Hm. fold (at_of (items m) p) in Hm.
  destruct (Z.ltb_spec (at_of (items m) first - now) 0); lia.
Qed.

Lemma waits_schedule m r item d after kind command sequence :
  dl_inv m -> waits_ok m r -> item ∉ heap m -> 0 < after ->
  waits_ok (fst (scheduleItemAt m (Some item) d after kind command sequence)) r.
Proof.
  intros Hi Hw Hn Ha. pose proof (schedule_inv m item d after kind command sequence Hi Hn Ha) as H.
  destruct (scheduleItemAt _ _ _ _ _ _ _) as [m' x]. destruct H as (_ & _ & Hp & Hit & H). cbn [fst].
  destruct r as [| |a t]; cbn [waits_ok] in *; [done|..]; (destruct H as [[Hw' (first & Hf & Hle)]|Hw']; [|by left]).
  - destruct Hw as [Hw|Hw]; [left; congruence|]. rewrite Hw in Hf. by apply elem_of_nil in Hf.
  - destruct Hw as [Hw|Hw]; [left; congruence|]. right. intros p. rewrite Hp, elem_of_cons. unfold at_of. rewrite Hit.
    destruct (decide (p = item)) as [-> |Hne].
    + intros _. rewrite lookup_insert_eq. cbn [from_option di_at]. specialize (Hw first Hf). lia.
    + intros [?|Hin]; [done|]. rewrite lookup_insert_ne by done. by apply Hw.
Qed.

Lemma waits_cancel m r item : dl_inv m -> waits_ok m r -> waits_ok (cancel m (Some item)) r.
Proof.
  intros Hi Hw. destruct (cancel_inv m item Hi) as (_ & Hit & Hwk & H1 & H2).
  assert (Hsub : forall p, p ∈ heap (cancel m (Some item)) -> p ∈ heap m).
  { intros p Hp. destruct (decide (item ∈ heap m)) as [Hin|Hn].
    - rewrite <- (H1 Hin). by right. - by rewrite <- (H2 Hn). }
  destruct r as [| |a t]; cbn [waits_ok] in *; [done|..]; (destruct Hw as [Hw|Hw]; [left; auto|]).
  - right. destruct (heap (cancel m (Some item))) as [|p l]; [done|].
    specialize (Hsub p ltac:(by left)). rewrite Hw in Hsub. by apply elem_of_nil in Hsub.
  - right. intros p Hp. rewrite Hit. auto.
Qed.

(** No deadline is missed.  In every state the manager reaches, when [run]
    waits and no wake-up is pending, either nothing is scheduled, or the timer
    fires no later than any scheduled deadline (or at once, for one that was
    overdue when the timer was armed). *)
Theorem deadline_never_missed m r :
  rtc rstep (newDeadlineManager, Looping) (m, r) -> dl_inv m /\ waits_ok m r.
Proof.
  intros H.
  assert (Hgen : forall s s', rtc rstep s s' -> dl_inv (fst s) /\ waits_ok (fst s) (snd s) ->
    dl_inv (fst s') /\ waits_ok (fst s') (snd s')).
  { clear. induction 1 as [|s1 s2 s3 Hs _ IH]; [done|]. intros [Hi Hw]. apply IH. clear IH.
    destruct Hs as [m now|m r Hwk Hr|m a t now Ht|m r item d after kind c sq Hn Ha|m r item]; cbn [fst snd] in *.
    - split; [done|]. by apply run_step_ok.
    - split; [|done]. destruct Hi. by split.
    - split; [|done]. unfold expireReady.
      pose proof (expire_loop_ok (length (heap m)) m now [] Hi ltac:(lia)) as H.
      by destruct (expire_loop _ _ _ _) as [m' e], H as (? & _ & H & _).
    - split; [|by apply waits_schedule].
      pose proof (schedule_inv m item d after kind c sq Hi Hn Ha) as H.
      by destruct (scheduleItemAt _ _ _ _ _ _ _) as [m' x], H as (_ & H & _).
    - split; [|by apply waits_cancel]. by apply (cancel_inv m item Hi). }
  apply (Hgen (newDeadlineManager, Looping) (m, r) H). split; [|done].
  split; [by intros i p Hp|intros x Hx; cbn in Hx; lia|]. by intros p ?%elem_of_nil.
Qed.

(** A timer is armed for 90, then an earlier one is scheduled: a wake-up is pending. *)
Lemma deadline_never_missed_witness : exists m, rtc rstep (newDeadlineManager, Looping) (m, Armed 0 90) /\
  waits_ok m (Armed 0 90).
Proof.
  assert (H : exists m, rtc rstep (newDeadlineManager, Looping) (m, Armed 0 90)).
  { eexists. eapply rtc_l; [by apply (r_schedule _ _ 1 0 90 TimeoutResponse 4 1); [apply not_elem_of_nil|]|].
    eapply rtc_l; [apply (r_loop _ 0)|]. apply rtc_once.
    apply (r_schedule _ _ 2 0 50 TimeoutResponse 4 2); [|done].
    change (2%positive ∉ [1%positive]). by intros [|?%elem_of_nil]%elem_of_cons. }
  destruct H as [m Hm]. exists m. split; [done|]. by apply (deadline_never_missed m (Armed 0 90) Hm).
Defined.
