(* ===== verification/Host.v ===== *)
(** * Remote addresses (src/server/unbound.go: hostKey, exemptFromUnboundCap)

    The server counts sessions and failed binds per remote host.  [hostKey] reduces
    an address to that host: without port and zone, and with an IPv4-mapped IPv6
    address as its IPv4 form.  What the code uses of Go's [net/netip] comes first.
    Addresses as text are left to parameters: [Addr_String], [ParseAddr],
    [SplitHostPort] and the [String] method of a [net.Addr]. *)

From S2P Require Import Prelude.

(** ** net/netip *)

(** A valid [netip.Addr]: 32 bits, or 128 bits and a zone. *)
Inductive Addr : Set := V4 (bits : Z) | V6 (bits : Z) (zone : string).
#[export] Instance Addr_eq_dec : EqDecision Addr.
Proof. solve_decision. Defined.

Definition be_value (l : bytes) : Z := foldl (fun acc b => 256 * acc + b) 0 l.

Definition AddrFromSlice (ip : bytes) : option Addr :=
  if (length ip =? 4)%nat then Some (V4 (be_value ip))
  else if (length ip =? 16)%nat then Some (V6 (be_value ip) "")
  else None.

Definition WithZone (a : Addr) (zone : string) : Addr :=
  match a with V4 _ => a | V6 bits _ => V6 bits zone end.

Definition Is4In6 (a : Addr) : bool :=
  match a with V4 _ => false | V6 bits _ => Z.shiftr bits 32 =? 0xffff end.
Definition Unmap (a : Addr) : Addr :=
  match a with
  | V6 bits _ => if Is4In6 a then V4 (Z.land bits 0xffffffff) else a
  | V4 _ => a
  end.

(** A prefix with a negative length is invalid. *)
Record Prefix := MkPrefix { pf_addr : Addr; pf_bits : Z }.

Definition Contains (p : Prefix) (a : Addr) : bool :=
  if pf_bits p <? 0 then false else
  match pf_addr p, a with
  | V4 net, V4 host => Z.shiftr (Z.lxor host net) (32 - pf_bits p) =? 0
  | V6 net _, V6 host zone =>
      bool_decide (zone = "") && (Z.shiftr (Z.lxor host net) (128 - pf_bits p) =? 0)
  | _, _ => false
  end.

(** ** net.Addr

    A [*net.TCPAddr], or an implementation of which only the text is known. *)
Inductive NetAddr : Set := TCPAddr (IP : bytes) (port : Z) (zone : string) | OtherAddr (id : Z).

(** The address of [tcp.AddrPort()], if it is valid. *)
Definition AddrPort_Addr (IP : bytes) (zone : string) : option Addr :=
  (fun a => WithZone a zone) <$> AddrFromSlice IP.

Section host.
Context (Addr_String : Addr -> string) (ParseAddr : string -> option Addr).
Context (SplitHostPort : string -> option string) (NetAddr_String : NetAddr -> string).

Definition plain (a : Addr) : string := Addr_String (WithZone (Unmap a) "").

Definition hostKey (addr : option NetAddr) : string :=
  match addr with
  | None => ""
  | Some addr =>
      match match addr with TCPAddr IP _ zone => AddrPort_Addr IP zone | OtherAddr _ => None end with
      | Some a => plain a
      | None =>
          let host := match SplitHostPort (NetAddr_String addr) with
                      | Some host => host | None => NetAddr_String addr end in
          match ParseAddr host with Some a => plain a | None => host end
      end
  end.

Definition exemptFromUnboundCap (UnboundCapExempt : list Prefix) (host : string) : bool :=
  if (length UnboundCapExempt =? 0)%nat then false
  else match ParseAddr host with
       | None => false
       | Some a => existsb (fun p => Contains p a) UnboundCapExempt
       end.

(** ** One peer is one key *)

(** The documented round trip of [ParseAddr] and [String]. *)
Hypothesis parse_string : forall a, ParseAddr (Addr_String a) = Some a.

Lemma be_value_snoc l b : be_value (l ++ [b]) = 256 * be_value l + b.
Proof. unfold be_value. by rewrite foldl_app. Qed.

Lemma be_value_app l1 l2 : be_value (l1 ++ l2) = be_value l1 * 256 ^ zlen l2 + be_value l2.
Proof.
  induction l2 as [|b l2 IH] using rev_ind; [rewrite app_nil_r; cbn; lia|].
  rewrite app_assoc, !be_value_snoc, IH, length_app.
  replace (Z.of_nat (length l2 + length [b])) with (Z.succ (zlen l2)) by (cbn [length]; lia).
  rewrite Z.pow_succ_r by lia. lia.
Qed.

Lemma be_value_range l : bytes_ok l -> 0 <= be_value l < 256 ^ zlen l.
Proof.
  induction l as [|b l IH] using rev_ind; [cbn; lia|].
  intros [Hl Hb]%bytes_ok_app. apply Forall_cons in Hb as [Hb _].
  rewrite be_value_snoc, length_app.
  replace (Z.of_nat (length l + length [b])) with (Z.succ (zlen l)) by (cbn [length]; lia).
  rewrite Z.pow_succ_r by lia. specialize (IH Hl). lia.
Qed.

(** Neither the port nor the zone nor the IPv6 form of an IPv4 address matters. *)
Lemma hostKey_peer ip port port' zone zone' : bytes_ok ip -> length ip = 4%nat ->
  hostKey (Some (TCPAddr ip port zone)) =
  hostKey (Some (TCPAddr (replicate 10 0 ++ [0xff; 0xff] ++ ip) port' zone')).
Proof.
  intros Hok Hlen. unfold hostKey, AddrPort_Addr, AddrFromSlice.
  rewrite !length_app, Hlen. cbn [length replicate Nat.add Nat.eqb fmap option_fmap option_map WithZone].
  unfold plain. do 2 f_equal. unfold Unmap, Is4In6.
  rewrite (be_value_app (replicate 10 0)), (be_value_app [0xff; 0xff]), Hlen.
  change (be_value (replicate 10 0)) with 0. change (be_value [0xff; 0xff]) with 0xffff.
  rewrite Z.mul_0_l, Z.add_0_l. pose proof (be_value_range ip Hok) as Hr. rewrite Hlen in Hr.
  change (256 ^ Z.of_nat 4) with (2 ^ 32) in *.
  rewrite Z.shiftr_div_pow2 by lia. change 0xffffffff with (Z.ones 32). rewrite Z.land_ones by lia.
  replace ((0xffff * 2 ^ 32 + be_value ip) / 2 ^ 32) with 0xffff by zdiv.
  rewrite Z.eqb_refl. f_equal. zdiv.
Qed.

Lemma hostKey_port ip port port' zone zone' :
  AddrFromSlice ip <> None ->
  hostKey (Some (TCPAddr ip port zone)) = hostKey (Some (TCPAddr ip port' zone')).
Proof.
  intros Hv. unfold hostKey, AddrPort_Addr. destruct (AddrFromSlice ip) as [a|]; [|done].
  cbn. unfold plain. f_equal. destruct a as [b|b z]; cbn; [done|].
  by destruct (Z.shiftr b 32 =? 65535).
Qed.

(** An address is exempt when one of the networks contains it. *)
Lemma exempt_spec nets ip port zone a : AddrFromSlice ip = Some a ->
  exemptFromUnboundCap nets (hostKey (Some (TCPAddr ip port zone))) = true <->
  Exists (fun p => Contains p (WithZone (Unmap a) "") = true) nets.
Proof.
  intros Ha. unfold hostKey, AddrPort_Addr, exemptFromUnboundCap. rewrite Ha. cbn [fmap option_fmap option_map].
  replace (plain (WithZone a zone)) with (Addr_String (WithZone (Unmap a) "")).
  - rewrite parse_string. rewrite Exists_exists. destruct nets as [|p nets]; cbn [length Nat.eqb].
    + split; [done|]. intros (p & Hp%elem_of_nil & _). done.
    + rewrite existsb_exists. split; intros (q & Hq & Hc); exists q; (split; [|done]); by apply list_elem_of_In.
  - unfold plain. f_equal. destruct a as [b|b z]; cbn; [done|]. by destruct (Z.shiftr b 32 =? 65535).
Qed.
End host.
