(* ===== verification/Throttle.v ===== *)
(** * Bind throttling (src/server/ratelimit.go)

    The default policy against credential guessing: a remote host that fails too
    many binds within a window is refused for a while.  Hosts are the strings
    [hostKey] reduces an address to.  The table is guarded by a mutex, so every
    method is one step. *)

From S2P Require Import Prelude Protocol.

Record BindThrottleConfig := MkThrottleConfig {
  MaxFailures : Z; tc_Window : Z; Lockout : Z; MaxTracked : Z
}.

(** [lockedUntil] is [None] for the zero time. *)
Record throttleEntry := MkEntry {
  failures : Z; windowStart : Z; lastFailure : Z; lockedUntil : option Z
}.

Record bindThrottle := MkThrottle {
  th_config : BindThrottleConfig;
  entries : gmap string throttleEntry
}.

Definition minute : Z := 60000000000.

Definition or_default (v d : Z) : Z := if v <=? 0 then d else v.

Definition NewBindThrottle (config : BindThrottleConfig) : bindThrottle :=
  MkThrottle
    (MkThrottleConfig (or_default (MaxFailures config) 5) (or_default (tc_Window config) minute)
       (or_default (Lockout config) minute) (or_default (MaxTracked config) 10000)) ∅.

(** [now.Before(e.lockedUntil)]. *)
Definition locked (e : throttleEntry) (now : Z) : bool :=
  match lockedUntil e with Some until => now <? until | None => false end.

Definition AllowBind (t : bindThrottle) (key : string) (now : Z) : bindThrottle * bool :=
  match entries t !! key with
  | None => (t, true)
  | Some e =>
      if locked e now then (t, false)
      else if bool_decide (lockedUntil e <> None) || (tc_Window (th_config t) <=? now - windowStart e)
      then (MkThrottle (th_config t) (delete key (entries t)), true)
      else (t, true)
  end.

(** The loop of [evictLocked] over the map, in the order of this run: the first
    expired entry, else the oldest so far. *)
Fixpoint evict_loop (t : bindThrottle) (now : Z) (order : list string) (oldest : option (string * Z))
    : option string :=
  match order with
  | [] => fst <$> oldest
  | k :: order =>
      match entries t !! k with
      | None => evict_loop t now order oldest
      | Some e =>
          if negb (locked e now) && (tc_Window (th_config t) <=? now - windowStart e) then Some k
          else evict_loop t now order
                 (match oldest with
                  | Some (_, at') => if lastFailure e <? at' then Some (k, lastFailure e) else oldest
                  | None => Some (k, lastFailure e)
                  end)
      end
  end.

Definition evictLocked (t : bindThrottle) (now : Z) (order : list string) : bindThrottle :=
  match evict_loop t now order None with
  | Some k => MkThrottle (th_config t) (delete k (entries t))
  | None => t
  end.

(** One more failure of a host, in a window that may have lapsed. *)
Definition bump (config : BindThrottleConfig) (e : throttleEntry) (now : Z) : throttleEntry :=
  let '(n, start) := if tc_Window config <=? now - windowStart e then (0, now)
                     else (failures e, windowStart e) in
  let n := n + 1 in
  MkEntry n start now
    (if MaxFailures config <=? n then Some (now + Lockout config) else lockedUntil e).

Definition RecordBind (t : bindThrottle) (key : string) (success : bool) (now : Z)
    (order : list string) : bindThrottle :=
  if success then t else
  let '(t, e) := match entries t !! key with
                 | Some e => (t, e)
                 | None =>
                     let t := if MaxTracked (th_config t) <=? Z.of_nat (size (entries t))
                              then evictLocked t now order else t in
                     (t, MkEntry 0 now 0 None)
                 end in
  MkThrottle (th_config t) (<[key := bump (th_config t) e now]> (entries t)).

(** ** Runs

    [history] are the failed binds recorded so far, as host and time; the clock
    does not go back. *)
Record throttle_run := MkRun { rn_throttle : bindThrottle; rn_now : Z; rn_history : list (string * Z) }.

Inductive tstep : throttle_run -> throttle_run -> Prop :=
| t_allow r key now : rn_now r <= now ->
    tstep r (MkRun (fst (AllowBind (rn_throttle r) key now)) now (rn_history r))
| t_success r key now order : rn_now r <= now ->
    tstep r (MkRun (RecordBind (rn_throttle r) key true now order) now (rn_history r))
| t_failure r key now order : rn_now r <= now ->
    order ≡ₚ (map_to_list (entries (rn_throttle r))).*1 ->
    tstep r (MkRun (RecordBind (rn_throttle r) key false now order) now (rn_history r ++ [(key, now)])).

(** Failed binds of a host within a window. *)
Definition failures_in (window : Z) (h : list (string * Z)) (key : string) (start : Z) : Z :=
  zlen (filter (fun p => p.1 = key /\ start <= p.2 < start + window) h).

(** What an entry stands for. *)
Record entry_ok (c : BindThrottleConfig) (now : Z) (h : list (string * Z)) (key : string)
    (e : throttleEntry) : Prop := {
  eo_start : windowStart e <= now;
  eo_failures : failures e <= failures_in (tc_Window c) h key (windowStart e);
  eo_locked : forall until, lockedUntil e = Some until -> exists start last,
    until = last + Lockout c /\ (key, last) ∈ h /\
    MaxFailures c <= failures_in (tc_Window c) h key start
}.

Record run_ok (c : BindThrottleConfig) (r : throttle_run) : Prop := {
  ro_config : th_config (rn_throttle r) = c;
  ro_entries : forall key e, entries (rn_throttle r) !! key = Some e ->
    entry_ok c (rn_now r) (rn_history r) key e;
  ro_size : Z.of_nat (size (entries (rn_throttle r))) <= MaxTracked c
}.

Lemma failures_in_app window h h' key start :
  failures_in window h key start <= failures_in window (h ++ h') key start.
Proof. unfold failures_in. rewrite filter_app, length_app. lia. Qed.

Lemma entry_ok_mono c now now' h h' key e :
  now <= now' -> entry_ok c now h key e -> entry_ok c now' (h ++ h') key e.
Proof.
  intros Hn [H1 H2 H3]. split.
  - lia. - pose proof (failures_in_app (tc_Window c) h h' key (windowStart e)). lia.
  - intros u Hu. destruct (H3 u Hu) as (start & last & -> & Hl & Hm). exists start, last.
    split_and!; [done|apply elem_of_app; by left|].
    pose proof (failures_in_app (tc_Window c) h h' key start). lia.
Qed.

Lemma evict_loop_known t now order : forall oldest,
  (forall k at', oldest = Some (k, at') -> is_Some (entries t !! k)) ->
  (oldest <> None \/ exists k, k ∈ order /\ is_Some (entries t !! k)) ->
  exists k, evict_loop t now order oldest = Some k /\ is_Some (entries t !! k).
Proof.
  induction order as [|k order IH]; intros oldest Ho Hex; cbn [evict_loop].
  - destruct Hex as [Hn|(k & ?%elem_of_nil & _)]; [|done]. destruct oldest as [[k at']|]; [|done].
    exists k. split; [done|]. by eapply Ho.
  - destruct (entries t !! k) as [e|] eqn:He.
    + destruct (_ && _); [by exists k; rewrite He|]. apply IH.
      * intros k' at'. destruct oldest as [[k0 a0]|]; [destruct (_ <? _)|]; intros [= <- <-];
          [by rewrite He|by eapply Ho|by rewrite He].
      * left. destruct oldest as [[k0 a0]|]; [destruct (_ <? _)|]; done.
    + apply IH; [done|]. destruct Hex as [?|(k' & [-> |Hin]%elem_of_cons & Hk)]; [by left| |right; eauto].
      rewrite He in Hk. by destruct Hk.
Qed.

(** Eviction removes one entry. *)
Lemma evictLocked_ok t now order :
  order ≡ₚ (map_to_list (entries t)).*1 -> entries t <> ∅ ->
  th_config (evictLocked t now order) = th_config t /\
  entries (evictLocked t now order) ⊆ entries t /\
  S (size (entries (evictLocked t now order))) = size (entries t).
Proof.
  intros Hord Hne. unfold evictLocked.
  destruct (evict_loop_known t now order None) as (k & -> & [e He]).
  - done.
  - right. destruct (map_choose (entries t) Hne) as (k & e & He). exists k. split; [|by eexists].
    rewrite Hord, list_elem_of_fmap. exists (k, e). split; [done|by apply elem_of_map_to_list].
  - cbn [th_config entries]. split_and!; [done|apply delete_subseteq|].
    rewrite <- (insert_delete_id (entries t) k e He) at 2. rewrite map_size_insert_None; [done|].
    apply lookup_delete_eq.
Qed.

Lemma failures_in_now window h key start now : start <= now < start + window ->
  failures_in window (h ++ [(key, now)]) key start = failures_in window h key start + 1.
Proof.
  intros H. unfold failures_in. rewrite filter_app, length_app, filter_cons_True by done.
  rewrite filter_nil. cbn [length]. lia.
Qed.

Lemma bump_ok c now now' h key e : 0 < tc_Window c -> now <= now' -> entry_ok c now h key e ->
  entry_ok c now' (h ++ [(key, now')]) key (bump c e now').
Proof.
  intros Hw Hn He. pose proof (entry_ok_mono c now now' h [(key, now')] key e Hn He) as [_ _ Hlock].
  destruct He as [H1 H2 _]. unfold bump.
  assert (Hnew : exists n start, (if tc_Window c <=? now' - windowStart e then (0, now')
      else (failures e, windowStart e)) = (n, start) /\ start <= now' < start + tc_Window c /\
      n <= failures_in (tc_Window c) h key start).
  { destruct (Z.leb_spec (tc_Window c) (now' - windowStart e)); eexists _, _; (split; [done|]);
      (split; [lia|]); [unfold failures_in; lia|done]. }
  destruct Hnew as (n & start & -> & Hs & Hf). split; cbn [windowStart failures lockedUntil].
  - lia. - rewrite failures_in_now by done. lia.
  - intros u. destruct (Z.leb_spec (MaxFailures c) (n + 1)) as [Hm|]; [|apply Hlock].
    intros [= <-]. exists start, now'. split_and!; [done|apply elem_of_app; right; by left|].
    rewrite failures_in_now by done. lia.
Qed.

Lemma run_ok_later c r t now : run_ok c r -> rn_now r <= now ->
  th_config t = c -> entries t ⊆ entries (rn_throttle r) -> run_ok c (MkRun t now (rn_history r)).
Proof.
  intros [Hc He Hz] Hn Ht Hsub. split; cbn [rn_throttle rn_now rn_history]; [done| |].
  - intros k e Hk. rewrite <- (app_nil_r (rn_history r)). eapply entry_ok_mono; [done|].
    apply He. by eapply lookup_weaken.
  - apply map_subseteq_size in Hsub. lia.
Qed.

(** The table and the entry a failure is counted in. *)
Lemma record_prepare c r key now order :
  run_ok c r -> 0 < MaxTracked c -> rn_now r <= now ->
  order ≡ₚ (map_to_list (entries (rn_throttle r))).*1 ->
  exists t e, match entries (rn_throttle r) !! key with
      | Some e => (rn_throttle r, e)
      | None => (if MaxTracked (th_config (rn_throttle r)) <=? Z.of_nat (size (entries (rn_throttle r)))
                 then evictLocked (rn_throttle r) now order else rn_throttle r, MkEntry 0 now 0 None)
      end = (t, e) /\ th_config t = c /\ entries t ⊆ entries (rn_throttle r) /\
    entry_ok c now (rn_history r) key e /\
    Z.of_nat (size (<[key := bump (th_config t) e now]> (entries t))) <= MaxTracked c.
Proof.
  intros [Hc He Hz] Hmt Hn Hord. destruct (entries (rn_throttle r) !! key) as [e|] eqn:Hk.
  - eexists _, _. split; [done|]. split_and!; [done|done| |].
    + rewrite <- (app_nil_r (rn_history r)). eapply entry_ok_mono; eauto.
    + by rewrite map_size_insert, Hk.
  - assert (Hfresh : entry_ok c now (rn_history r) key (MkEntry 0 now 0 None))
      by (split; cbn; [lia|unfold failures_in; lia|done]).
    eexists _, _. split; [done|]. rewrite Hc.
    destruct (Z.leb_spec (MaxTracked c) (Z.of_nat (size (entries (rn_throttle r))))) as [Hfull|].
    + destruct (evictLocked_ok (rn_throttle r) now order Hord) as (E1 & E2 & E3).
      { intros He0. rewrite He0, map_size_empty in Hfull. lia. }
      split_and!; [congruence|done|done|]. rewrite map_size_insert.
      destruct (entries (evictLocked _ _ _) !! key); unfold id; lia.
    + split_and!; [done|done|done|]. rewrite map_size_insert, Hk. lia.
Qed.

Lemma tstep_ok c r r' : 0 < tc_Window c -> 0 < MaxTracked c -> tstep r r' -> run_ok c r -> run_ok c r'.
Proof.
  intros Hw Hmt Hs Hr. destruct Hs as [r key now Hn|r key now order Hn|r key now order Hn Hord].
  - apply run_ok_later; [done|done|..]; unfold AllowBind; destruct Hr as [Hc _ _];
      (destruct (entries (rn_throttle r) !! key) as [e|]; [|done]);
      (destruct (locked e now); [done|]); (destruct (_ || _); [|done]); cbn [fst]; [done|apply delete_subseteq].
  - apply run_ok_later; [done|done|by destruct Hr|done].
  - destruct (record_prepare c r key now order Hr Hmt Hn Hord) as (t & e & Hprep & Ht & Hsub & Hok & Hsz).
    unfold RecordBind. rewrite Hprep. destruct Hr as [_ He _].
    split; cbn [rn_throttle rn_now rn_history th_config entries]; [done| |done].
    intros k e' [[<- <-]|[_ Hk']]%lookup_insert_Some.
    + rewrite Ht. eapply bump_ok; [done| |done]. lia.
    + eapply entry_ok_mono; [done|]. apply He. by eapply lookup_weaken.
Qed.

Definition start_run (config : BindThrottleConfig) (now : Z) : throttle_run :=
  MkRun (NewBindThrottle config) now [].

Lemma or_default_pos v d : 0 < d -> 0 < or_default v d.
Proof. intros. unfold or_default. destruct (Z.leb_spec v 0); lia. Qed.

Lemma tsteps_ok config now r : rtc tstep (start_run config now) r ->
  run_ok (th_config (NewBindThrottle config)) r.
Proof.
  intros H. assert (H0 : run_ok (th_config (NewBindThrottle config)) (start_run config now)).
  { split; cbn; [done|done|]. rewrite map_size_empty. pose proof (or_default_pos (MaxTracked config) 10000). lia. }
  revert H0. induction H as [|x y z Hs _ IH]; intros H0; [done|]. apply IH.
  eapply tstep_ok; [| |exact Hs|exact H0]; cbn; apply or_default_pos; unfold minute; lia.
Qed.

(** A host the throttle refuses has failed often enough. *)
Lemma throttle_refuses config now0 r key now :
  rtc tstep (start_run config now0) r ->
  snd (AllowBind (rn_throttle r) key now) = false ->
  exists start last, (key, last) ∈ rn_history r /\ now < last + Lockout (th_config (NewBindThrottle config)) /\
    MaxFailures (th_config (NewBindThrottle config)) <=
      failures_in (tc_Window (th_config (NewBindThrottle config))) (rn_history r) key start.
Proof.
  intros [_ He _]%tsteps_ok. unfold AllowBind.
  destruct (entries (rn_throttle r) !! key) as [e|] eqn:Hk; [|done].
  destruct (locked e now) eqn:Hl; [|by destruct (_ || _)]. intros _. unfold locked in Hl.
  destruct (lockedUntil e) as [u|] eqn:Hu; [|done].
  destruct (eo_locked _ _ _ _ _ (He key e Hk) u Hu) as (start & last & -> & Hin & Hm).
  exists start, last. split_and!; [done|lia|done].
Qed.

(** Nobody is locked out without cause, and the table stays bounded.  After any
    sequence of binds a host is refused only when at least [MaxFailures] of its
    own binds failed within one window and the lockout counted from one of them
    has not passed; and no more than [MaxTracked] hosts are remembered. *)
Theorem throttle_sound config now0 r key now :
  rtc tstep (start_run config now0) r -> rn_now r <= now ->
  let c := th_config (NewBindThrottle config) in
  Z.of_nat (size (entries (rn_throttle r))) <= MaxTracked c /\
  (snd (AllowBind (rn_throttle r) key now) = false ->
   exists start last, (key, last) ∈ rn_history r /\ now < last + Lockout c /\
     MaxFailures c <= failures_in (tc_Window c) (rn_history r) key start).
Proof.
  intros H Hn c. split; [by apply tsteps_ok in H as [_ _ Hz]|]. by eapply throttle_refuses.
Qed.

(** The failed binds of a host at the given times. *)
Definition fail_at (t : bindThrottle) (key : string) (times : list Z) : bindThrottle :=
  foldl (fun t now => RecordBind t key false now (map_to_list (entries t)).*1) t times.

Lemma fail_at_entry key times : forall t e,
  entries t !! key = Some e -> Forall (fun now => now - windowStart e < tc_Window (th_config t)) times ->
  exists e', entries (fail_at t key times) !! key = Some e' /\
    th_config (fail_at t key times) = th_config t /\
    failures e' = failures e + zlen times /\ windowStart e' = windowStart e /\
    (times <> [] -> MaxFailures (th_config t) <= failures e' ->
     lockedUntil e' = Some (default 0 (last times) + Lockout (th_config t))).
Proof.
  induction times as [|now times IH] using rev_ind; intros t e He Hall.
  - exists e. cbn. split_and!; [done|done|lia|done|done].
  - apply Forall_app in Hall as [Hall [Hnow _]%Forall_cons].
    destruct (IH t e He Hall) as (e1 & H1 & H2 & H3 & H4 & _).
    unfold fail_at. rewrite foldl_app. cbn [foldl]. fold (fail_at t key times).
    unfold RecordBind. rewrite H1. cbn [entries th_config]. rewrite lookup_insert_eq.
    eexists. split; [done|]. unfold bump. rewrite H2, H4.
    destruct (Z.leb_spec (tc_Window (th_config t)) (now - windowStart e)); [lia|].
    cbn [failures windowStart lockedUntil]. rewrite length_app, last_snoc. cbn [length default from_option id].
    split_and!; [done|lia|done|]. intros _ Hm. destruct (Z.leb_spec (MaxFailures (th_config t)) (failures e1 + 1)); [done|lia].
Qed.

(** Guessing is stopped.  A host without a record whose [MaxFailures] binds
    fail within one window is refused from then on until the lockout, counted
    from the last failure, has passed; a successful bind records nothing. *)
Theorem throttle_locks_out t key first times now :
  entries t !! key = None -> 0 < tc_Window (th_config t) ->
  Z.of_nat (size (entries t)) < MaxTracked (th_config t) ->
  times <> [] -> MaxFailures (th_config t) <= zlen (first :: times) ->
  Forall (fun s => s - first < tc_Window (th_config t)) times ->
  default 0 (last times) <= now < default 0 (last times) + Lockout (th_config t) ->
  AllowBind (fail_at t key (first :: times)) key now = (fail_at t key (first :: times), false) /\
  forall order, RecordBind (fail_at t key (first :: times)) key true now order = fail_at t key (first :: times).
Proof.
  intros Hk Hw Hz Hne Hm Hall Hnow. split; [|done]. set (t1 := RecordBind t key false first (map_to_list (entries t)).*1).
  assert (Ht1 : exists e, entries t1 !! key = Some e /\ th_config t1 = th_config t /\
    failures e = 1 /\ windowStart e = first).
  { unfold t1, RecordBind. rewrite Hk. destruct (Z.leb_spec (MaxTracked (th_config t)) (Z.of_nat (size (entries t)))); [lia|].
    cbn [entries th_config]. eexists. split; [apply lookup_insert_eq|]. unfold bump. cbn [windowStart failures].
    destruct (Z.leb_spec (tc_Window (th_config t)) (first - first)); [lia|]. done. }
  destruct Ht1 as (e & He & Hc & Hf & Hs).
  change (fail_at t key (first :: times)) with (fail_at t1 key times).
  destruct (fail_at_entry key times t1 e He) as (e' & H1 & H2 & H3 & _ & H5); [by rewrite Hs, Hc|].
  unfold AllowBind. rewrite H1. unfold locked. rewrite H5 by (done || (rewrite Hc; cbn [length] in Hm; lia)).
  rewrite Hc. destruct (Z.ltb_spec now (default 0 (last times) + Lockout (th_config t))); [done|lia].
Qed.

Definition sample_throttle : bindThrottle := NewBindThrottle (MkThrottleConfig 3 100 50 10).

Lemma throttle_locks_out_witness :
  snd (AllowBind (fail_at sample_throttle "10.0.0.1" [0; 10; 20]) "10.0.0.1" 60) = false.
Proof.
  destruct (throttle_locks_out sample_throttle "10.0.0.1" 0 [10; 20] 60) as [-> _].
  - reflexivity.
  - vm_compute. reflexivity.
  - vm_compute. reflexivity.
  - discriminate.
  - vm_compute. discriminate.
  - repeat constructor.
  - split; vm_compute; [discriminate|reflexivity].
  - reflexivity.
Defined.

(** One failure does not lock out. *)
Lemma throttle_sound_witness : exists r, rtc tstep (start_run (MkThrottleConfig 3 100 50 10) 0) r /\
  Z.of_nat (size (entries (rn_throttle r))) <= 10.
Proof.
  assert (H : exists r, rtc tstep (start_run (MkThrottleConfig 3 100 50 10) 0) r /\ rn_now r = 5).
  { eexists. split.
    - eapply rtc_l; [apply (t_allow _ "10.0.0.1" 5); done|].
      apply rtc_once. by apply (t_failure _ "10.0.0.1" 5 []).
    - reflexivity. }
  destruct H as (r & Hr & Hn). exists r. split; [done|].
  by apply (throttle_sound (MkThrottleConfig 3 100 50 10) 0 r "10.0.0.1" 5 Hr ltac:(lia)).
Defined.
