(* ===== verification/Receive.v ===== *)
(** * The receive path of a session (src/session/rx.go, tx.go, negotiate.go,
    own.go, inbound_reply.go, session.go)

    What the receive loop does with a frame: decode it, complete the request a
    response answers, or check, handle and answer a request.  Metrics, events,
    logs and the pool of frame buffers are left out; they do not feed back into
    what is modelled.

    The loop runs beside the application and the transmit loop.  They act while
    the loop calls the handler and while it waits for room in the transmit queue:
    [handler] and [select_tx] below return the session as they leave it. *)

From S2P Require Import Prelude Protocol Bodies Fields BodySpec Body34 Registry Pdu Framer StateMachine Pending.

(** ** negotiate.go *)

(** [None] is [(0, false)]. *)
Definition bindRequestVersion (body : any) : option Z :=
  match body with
  | AVal (VBindRequest b) | APtr (VBindRequest b) => Some (brq_InterfaceVersion b)
  | _ => None
  end.

Definition bindNegotiationProfile (local : Profile) (advertised : Z) : Profile * bool :=
  if advertised =? InterfaceVersion34 then (SMPP34Profile, true)
  else if advertised =? InterfaceVersion50
  then if IsSMPP50 local then (SMPP50Profile, true) else (MkProfile 0, false)
  else (MkProfile 0, false).

Definition appendIfMissing (version : Z) (response : BindResponse) : BindResponse :=
  if existsb (fun p => op_Tag p =? TLVTagSCInterfaceVersion) (brs_Optional response) then response
  else MkBindResponse (brs_SystemID response)
         (brs_Optional response ++ [MkOptionalParameter TLVTagSCInterfaceVersion [u8 version]]).

Definition ensureSCInterfaceVersion (body : any) (version : Z) : any :=
  match body with
  | AVal (VBindResponse r) | APtr (VBindResponse r) => AVal (VBindResponse (appendIfMissing version r))
  | _ => body
  end.

Definition requiresSMPP50 (command : Z) : bool :=
  (command =? CommandBroadcastSM) || (command =? CommandBroadcastSMResp) ||
  (command =? CommandQueryBroadcastSM) || (command =? CommandQueryBroadcastSMResp) ||
  (command =? CommandCancelBroadcastSM) || (command =? CommandCancelBroadcastSMResp).

(** ** own.go

    A decoded body borrows its octets from the framer's buffer.  [responseArena]
    is one block of memory, [a_mem], with the next unused octet at [a_pos]; a
    copied field is a view into the block, or fresh memory of its own when the
    block is too short.  The fields of the copy are read from the block as it is
    at the end, so a later write over an earlier field would show. *)
Record responseArena := MkArena { a_mem : bytes; a_pos : nat }.
Inductive region := Fresh (b : bytes) | View (off len : nat).

Definition newResponseArena (size : nat) : responseArena := MkArena (replicate size 0) 0.

Definition take_ (a : responseArena) (src : bytes) : responseArena * region :=
  if (length src =? 0)%nat then (a, Fresh [])
  else if (length (a_mem a) - a_pos a <? length src)%nat then (a, Fresh src)
  else (MkArena (take (a_pos a) (a_mem a) ++ src ++ drop (a_pos a + length src) (a_mem a))
          (a_pos a + length src), View (a_pos a) (length src)).

Fixpoint takeOptional (a : responseArena) (src : list OptionalParameter)
    : responseArena * list (Z * region) :=
  match src with
  | [] => (a, [])
  | p :: src =>
      let '(a, v) := take_ a (op_Value p) in
      let '(a, vs) := takeOptional a src in (a, (op_Tag p, v) :: vs)
  end.

Definition read (a : responseArena) (v : region) : bytes :=
  match v with Fresh b => b | View off len => take len (drop off (a_mem a)) end.
Definition read_optional (a : responseArena) (vs : list (Z * region)) : list OptionalParameter :=
  map (fun '(tag, v) => MkOptionalParameter tag (read a v)) vs.

Definition optionalCloneSize (opts : list OptionalParameter) : nat :=
  sum_list (map (fun p => length (op_Value p)) opts).

(** The two passes every body with one text field and parameters takes. *)
Definition own_text (text : bytes) (o : list OptionalParameter) : bytes * list OptionalParameter :=
  let a := newResponseArena (length text + optionalCloneSize o) in
  let '(a, v) := take_ a text in
  let '(a, vs) := takeOptional a o in (read a v, read_optional a vs).

Fixpoint take_all (a : responseArena) (srcs : list bytes) : responseArena * list region :=
  match srcs with
  | [] => (a, [])
  | src :: srcs =>
      let '(a, v) := take_ a src in let '(a, vs) := take_all a srcs in (a, v :: vs)
  end.

Definition own_entry (a : responseArena) (e : UnsuccessfulSME) (v : region) : UnsuccessfulSME :=
  MkUnsuccessfulSME (use_DestAddrTON e) (use_DestAddrNPI e) (read a v) (use_ErrorStatusCode e).

Definition own_multi (b : SubmitMultiResp) : SubmitMultiResp :=
  let a := newResponseArena (length (smr_MessageID b) + optionalCloneSize (smr_Optional b) +
             sum_list (map (fun e => length (use_DestinationAddr e)) (smr_Unsuccessful b))) in
  let '(a, v) := take_ a (smr_MessageID b) in
  let '(a, vs) := takeOptional a (smr_Optional b) in
  let '(a, es) := take_all a (map use_DestinationAddr (smr_Unsuccessful b)) in
  MkSubmitMultiResp (read a v) (zip_with (own_entry a) (smr_Unsuccessful b) es)
    (read_optional a vs).

Definition own_query (b : QuerySMResp) : QuerySMResp :=
  let a := newResponseArena (length (qsr_MessageID b) + length (qsr_FinalDate b) +
             optionalCloneSize (qsr_Optional b)) in
  let '(a, v) := take_ a (qsr_MessageID b) in
  let '(a, d) := take_ a (qsr_FinalDate b) in
  let '(a, vs) := takeOptional a (qsr_Optional b) in
  MkQuerySMResp (read a v) (read a d) (qsr_MessageState b) (qsr_ErrorCode b) (read_optional a vs).

Definition own_optional (o : list OptionalParameter) : list OptionalParameter :=
  let '(a, vs) := takeOptional (newResponseArena (optionalCloneSize o)) o in read_optional a vs.

Definition own_body (v : pdu_value) : pdu_value :=
  match v with
  | VBindResponse b =>
      let '(t, o) := own_text (brs_SystemID b) (brs_Optional b) in VBindResponse (MkBindResponse t o)
  | VSubmitSMResp b =>
      let '(t, o) := own_text (ssr_MessageID b) (ssr_Optional b) in VSubmitSMResp (MkSubmitSMResp t o)
  | VDeliverSMResp b =>
      let '(t, o) := own_text (dsr_MessageID b) (dsr_Optional b) in VDeliverSMResp (MkDeliverSMResp t o)
  | VDataSMResp b =>
      let '(t, o) := own_text (dar_MessageID b) (dar_Optional b) in VDataSMResp (MkDataSMResp t o)
  | VSubmitMultiResp b => VSubmitMultiResp (own_multi b)
  | VQuerySMResp b => VQuerySMResp (own_query b)
  | VBroadcastSMResp b =>
      let '(t, o) := own_text (bsr_MessageID b) (bsr_Optional b) in VBroadcastSMResp (MkBroadcastSMResp t o)
  | VQueryBroadcastSMResp b =>
      let '(t, o) := own_text (qbr_MessageID b) (qbr_Optional b) in
      VQueryBroadcastSMResp (MkQueryBroadcastSMResp t o)
  | VOptionalResponse b => VOptionalResponse (MkOptionalResponse (own_optional (or_Optional b)))
  | _ => v
  end.

Definition ownDecodedPDU (pdu : DecodedPDU) : DecodedPDU :=
  match pdu_Body pdu with
  | AVal v => MkDecodedPDU (pdu_Header pdu) (AVal (own_body v))
  | _ => pdu
  end.

Definition responseOptionalParameters (body : any) : list OptionalParameter :=
  match body with
  | AVal (VBindResponse v) => brs_Optional v
  | AVal (VSubmitSMResp v) => ssr_Optional v
  | AVal (VDeliverSMResp v) => dsr_Optional v
  | AVal (VDataSMResp v) => dar_Optional v
  | AVal (VSubmitMultiResp v) => smr_Optional v
  | AVal (VQuerySMResp v) => qsr_Optional v
  | AVal (VBroadcastSMResp v) => bsr_Optional v
  | AVal (VQueryBroadcastSMResp v) => qbr_Optional v
  | AVal (VOptionalResponse v) => or_Optional v
  | _ => []
  end.

(** ** The session *)

Definition ResponseImmediate : Z := 0.
Definition ResponseSuppress : Z := 1.
Definition ResponseDeferred : Z := 2.

Record Response := MkResponse { rsp_Status : Z; rsp_Body : any; rsp_Action : Z }.

Inductive txKind : Set := txRequest | txResponse | txOneWay.
#[export] Instance txKind_eq_dec : EqDecision txKind.
Proof. solve_decision. Defined.

Record txItem := MkItem {
  kind : txKind;
  header : Header;
  frame : bytes;
  sequence : Z;
  it_requestID : Z;
  responseTo : Z;
  status : Z
}.

(** Which goroutine queued an item; only the statements below look at it. *)
Inductive origin : Set := ByReceiver | ByOthers.

(** [tx] lists every item the transmit queue admitted, oldest first; the transmit
    loop takes them in that order.  [closeErr] is the error the session ended
    with, [None] while it runs, [done] whether its channel is closed.
    [congested] are the calls of the flow controller. *)
Record Session := MkSession {
  machine : StateMachine;
  table : Table.pendingTable;
  peerCaps : PeerCapabilities;
  tx : list (origin * txItem);
  deferredReplies : gmap Z bool;
  closeErr : option GoError;
  done : bool;
  lastActivity : Z;
  lastInbound : Z;
  congested : list Z
}.

Definition set_machine (s : Session) (m : StateMachine) : Session :=
  MkSession m (table s) (peerCaps s) (tx s) (deferredReplies s) (closeErr s) (done s)
    (lastActivity s) (lastInbound s) (congested s).
Definition set_table (s : Session) (t : Table.pendingTable) : Session :=
  MkSession (machine s) t (peerCaps s) (tx s) (deferredReplies s) (closeErr s) (done s)
    (lastActivity s) (lastInbound s) (congested s).
Definition set_caps (s : Session) (c : PeerCapabilities) : Session :=
  MkSession (machine s) (table s) c (tx s) (deferredReplies s) (closeErr s) (done s)
    (lastActivity s) (lastInbound s) (congested s).
Definition push_tx (s : Session) (o : origin) (item : txItem) : Session :=
  MkSession (machine s) (table s) (peerCaps s) (tx s ++ [(o, item)]) (deferredReplies s)
    (closeErr s) (done s) (lastActivity s) (lastInbound s) (congested s).
Definition set_deferred (s : Session) (d : gmap Z bool) : Session :=
  MkSession (machine s) (table s) (peerCaps s) (tx s) d (closeErr s) (done s)
    (lastActivity s) (lastInbound s) (congested s).
Definition note_inbound (s : Session) (now : Z) : Session :=
  MkSession (machine s) (table s) (peerCaps s) (tx s) (deferredReplies s) (closeErr s) (done s)
    now now (congested s).
Definition note_congestion (s : Session) (state : Z) : Session :=
  MkSession (machine s) (table s) (peerCaps s) (tx s) (deferredReplies s) (closeErr s) (done s)
    (lastActivity s) (lastInbound s) (congested s ++ [state]).

(** The order in which [failAll] visits the table is the map's. *)
Definition terminate (s : Session) (cause : GoError) : Session :=
  match closeErr s with
  | Some _ => s
  | None =>
      let pendingErr := if is_sentinel ErrSessionClosed cause then ESentinel ErrSessionClosed
                        else ELoss cause in
      MkSession (sm_Close (machine s))
        (Table.failAll (table s) (map_to_list (Table.m (table s))).*2 pendingErr)
        (peerCaps s) (tx s) ∅ (Some cause) true (lastActivity s) (lastInbound s) (congested s)
  end.

Definition requestCloseError (s : Session) : GoError :=
  match closeErr s with
  | None => ESentinel ErrSessionClosed
  | Some e => if is_sentinel ErrSessionClosed e then ESentinel ErrSessionClosed else ELoss e
  end.

Definition noHandlerResponse (command : Z) : Response :=
  if isBindRequest command then MkResponse StatusBindFailed (AVal VEmptyBody) ResponseImmediate
  else MkResponse StatusSystemError (AVal VEmptyBody) ResponseImmediate.

Definition isBoundState (state : SessionState) : bool :=
  bool_decide (state = StateBoundTX) || bool_decide (state = StateBoundRX) ||
  bool_decide (state = StateBoundTRX).

Definition isOneWayCommand (command : Z) : bool :=
  (command =? CommandOutbind) || (command =? CommandAlertNotification).

Definition isLifecycleRequest (command : Z) : bool :=
  isBindRequest command || (command =? CommandUnbind).

Definition actorMatchesRole (actor : Z) (role : Role) : bool :=
  if actor =? ActorESME then bool_decide (role = RoleESME)
  else if actor =? ActorSMSC then bool_decide (role = RoleSMSC)
  else true.

(** [io.EOF], and [errors.Is(err, io.EOF)]. *)
Definition EOF : GoError := EOther 0 None.
Fixpoint is_eof (e : GoError) : bool :=
  match e with
  | EOther id None => id =? 0
  | EOther _ (Some e') | ELoss e' | ESemantic _ _ _ (Some e') => is_eof e'
  | _ => false
  end.

(** The result of a step of the receive loop: the session and what the call
    returned; a panic ends the loop. *)
Abbreviation rx := (Session * outcome GoError unit)%type.

Section receive.
Context (registry : option Registry).
Context (profile : Profile) (MaxDeferredResponses : Z) (flowController : bool).
(** The spare octets of a pooled buffer. *)
Context (stale : bytes).
(** The application's handler: the session when it returns, with what the other
    goroutines did meanwhile, and the response, error or panic. *)
Context (handler : option (Session -> DecodedPDU -> Session * res Response)).
(** The [select] of [queueResponse]: the session when it fires, and whether the
    item was admitted (otherwise the session's [done] was closed). *)
Context (select_tx : Session -> Session * bool).

(** *** tx.go *)

Definition response_item (request : Header) (responseID st : Z) (fr : bytes) : txItem :=
  MkItem txResponse (ResponseHeader request responseID st) fr (SequenceNumber request) 0
    (if responseID =? CommandGenericNACK then 0 else CommandID request) st.

Definition queueResponse (o : origin) (s : Session) (request : Header) (responseID st : Z)
    (body : any) : rx :=
  match EncodePDU stale (ResponseHeader request responseID st) body registry [] with
  | Panic => (s, Panic)
  | Err (_, e) => (s, Err e)
  | Ok fr =>
      let '(s, admitted) := select_tx s in
      if admitted then (push_tx s o (response_item request responseID st fr), Ok tt)
      else (s, Err (requestCloseError s))
  end.

Definition queueGenericNACK (o : origin) (s : Session) (request : Header) (st : Z) : rx :=
  queueResponse o s request CommandGenericNACK st (AVal VEmptyBody).

(** *** inbound_reply.go *)

Definition registerDeferredReply (s : Session) (request : Header) : rx :=
  match deferredReplies s !! SequenceNumber request with
  | Some _ => (s, Err (ESentinel ErrDeferredResponseBusy))
  | None =>
      if MaxDeferredResponses <=? Z.of_nat (size (deferredReplies s))
      then (s, Err (ESentinel ErrDeferredResponseLimit))
      else (set_deferred s (<[SequenceNumber request := false]> (deferredReplies s)), Ok tt)
  end.

Definition PendingDeferredResponses (s : Session) : Z := Z.of_nat (size (deferredReplies s)).

(** The critical section before the response is queued, and the one after it. *)
Definition respond_begin (s : Session) (seq : Z) : rx :=
  match deferredReplies s !! seq with
  | None => (s, Err (ESentinel ErrDeferredResponseUnknown))
  | Some true => (s, Err (ESentinel ErrDeferredResponseBusy))
  | Some false => (set_deferred s (<[seq := true]> (deferredReplies s)), Ok tt)
  end.

Definition respond_end (s : Session) (seq : Z) (ok : bool) : Session :=
  if ok then set_deferred s (delete seq (deferredReplies s))
  else match deferredReplies s !! seq with
       | Some _ => set_deferred s (<[seq := false]> (deferredReplies s))
       | None => s
       end.

Definition RespondDeferred (s : Session) (request : Header) (response : Response) : rx :=
  if negb (CommandID request =? CommandDeliverSM) || negb (ValidInbound (SequenceNumber request)) ||
     negb (rsp_Action response =? ResponseImmediate)
  then (s, Err (ESentinel ErrInvalidResponseAction))
  else if done s then (s, Err (requestCloseError s))
  else
    match respond_begin s (SequenceNumber request) with
    | (s, Ok _) =>
        let '(s, r) := queueResponse ByOthers s request CommandDeliverSMResp (rsp_Status response)
                         (rsp_Body response) in
        match r with
        | Panic => (s, Panic)
        | r => (respond_end s (SequenceNumber request) (is_ok r), r)
        end
    | r => r
    end.

Definition AbandonDeferredResponse (s : Session) (request : Header) : Session * bool :=
  if negb (CommandID request =? CommandDeliverSM) || negb (ValidInbound (SequenceNumber request))
  then (s, false)
  else match deferredReplies s !! SequenceNumber request with
       | Some false => (set_deferred s (delete (SequenceNumber request) (deferredReplies s)), true)
       | _ => (s, false)
       end.

(** *** rx.go *)

Definition beginInbound (s : Session) (command : Z) : smres Session :=
  let peerRole := peer (sm_role (machine s)) in
  let state := sm_state (machine s) in
  if IsStandardCommand command
  then m ← BeginInbound (Some (machine s)) command; Ok (set_machine s m)
  else
    match Command registry command with
    | Some def =>
        if negb (length (cd_AllowedStates def) =? 0)%nat
        then if actorMatchesRole (cd_Actor def) peerRole && AllowsState def state
             then Ok s else Err (StateError state command peerRole)
        else if isBoundState state then Ok s else Err (StateError state command peerRole)
    | None => if isBoundState state then Ok s else Err (StateError state command peerRole)
    end.

(** A panic of the handler is a [PanicError]. *)
Definition callHandler (h : Session -> DecodedPDU -> Session * res Response) (s : Session)
    (pdu : DecodedPDU) : Session * (GoError + Response) :=
  match h s pdu with
  | (s, Ok response) => (s, inr response)
  | (s, Err e) => (s, inl e)
  | (s, Panic) => (s, inl (EPanic "session.Handler"))
  end.

(** The answer to a request that passed the checks. *)
Definition respond_to (s : Session) (pdu : DecodedPDU) : Session * Response :=
  let command := CommandID (pdu_Header pdu) in
  if (command =? CommandEnquireLink) || (command =? CommandUnbind)
  then (s, MkResponse StatusOK (AVal VEmptyBody) ResponseImmediate)
  else match handler with
       | None => (s, noHandlerResponse command)
       | Some h =>
           match callHandler h s pdu with
           | (s, inr response) => (s, response)
           | (s, inl _) => (s, MkResponse StatusSystemError (AVal VEmptyBody) ResponseImmediate)
           end
       end.

(** What a successful bind request stores about the peer, and its response. *)
Definition negotiate_bind (s : Session) (pdu : DecodedPDU) (response : Response)
    : Session * any :=
  if OK (rsp_Status response) && isBindRequest (CommandID (pdu_Header pdu)) then
    match pdu_Body pdu with
    | AVal (VBindRequest bind) =>
        let version := brq_InterfaceVersion bind in
        let s := set_caps s (NegotiatePeerCapabilities profile version true) in
        if (version =? InterfaceVersion34) || (version =? InterfaceVersion50)
        then (s, ensureSCInterfaceVersion (rsp_Body response) (InterfaceVersion profile))
        else (s, rsp_Body response)
    | _ => (s, rsp_Body response)
    end
  else (s, rsp_Body response).

(** The last part of [handleRequest]: queue the response. *)
Definition queue_answer (s : Session) (pdu : DecodedPDU) (st : Z) (body : any) : rx :=
  let request := pdu_Header pdu in
  let '(s, r) := queueResponse ByReceiver s request (ResponseID (CommandID request)) st body in
  let '(s, r) := match r with
                 | Err e => if is_panic e then queueGenericNACK ByReceiver s request StatusSystemError
                            else (s, r)
                 | _ => (s, r)
                 end in
  match r with
  | Err e =>
      (if isLifecycleRequest (CommandID request)
       then set_machine s (CancelInbound (machine s) (CommandID request)) else s, Err e)
  | r => (s, r)
  end.

(** The suppressed and deferred responses to a deliver_sm. *)
Definition answer_later (s : Session) (request : Header) (action : Z) : rx :=
  if negb (CommandID request =? CommandDeliverSM) then (s, Err (ESentinel ErrInvalidResponseAction))
  else if action =? ResponseSuppress then (s, Ok tt)
  else if action =? ResponseDeferred then registerDeferredReply s request
  else (s, Err (ESentinel ErrInvalidResponseAction)).

Definition handleRequest (s : Session) (pdu : DecodedPDU) : rx :=
  let request := pdu_Header pdu in
  let command := CommandID request in
  if negb (ValidInbound (SequenceNumber request))
  then queueGenericNACK ByReceiver s request StatusSystemError
  else match Command registry command with
  | None => queueGenericNACK ByReceiver s request StatusInvalidCommandID
  | Some _ =>
      if requiresSMPP50 command && negb (SupportsSMPP50 (peerCaps s))
      then queueGenericNACK ByReceiver s request StatusInvalidCommandID
      else match beginInbound s command with
      | Panic => (s, Panic)
      | Err _ =>
          if isOneWayCommand command
          then queueGenericNACK ByReceiver s request StatusInvalidBindState
          else queueResponse ByReceiver s request (ResponseID command) StatusInvalidBindState
                 (AVal VEmptyBody)
      | Ok s =>
          if isOneWayCommand command then
            match handler with
            | None => (s, Ok tt)
            | Some h => (fst (callHandler h s pdu), Ok tt)
            end
          else
            let '(s, response) := respond_to s pdu in
            if negb (rsp_Action response =? ResponseImmediate)
            then answer_later s request (rsp_Action response)
            else let '(s, body) := negotiate_bind s pdu response in
                 queue_answer s pdu (rsp_Status response) body
      end
  end.

Definition observeCongestion (s : Session) (pdu : DecodedPDU) : Session :=
  if negb (SupportsSMPP50 (peerCaps s)) then s
  else match CongestionStateFromOptional (responseOptionalParameters (pdu_Body pdu)) with
       | (state, true, None) => if flowController then note_congestion s state else s
       | _ => s
       end.

(** What a successful bind response stores about the peer. *)
Definition negotiate_response (s : Session) (request : Table.pendingRequest) (pdu : DecodedPDU)
    : Session :=
  if OK (CommandStatus (pdu_Header pdu)) && isBindRequest (Table.requestID request) then
    match pdu_Body pdu with
    | AVal (VBindResponse body) =>
        let '(peerVersion, advertised) := match SCInterfaceVersion (brs_Optional body) with
                                          | Some v => (v, true) | None => (0, false) end in
        let '(localProfile, negotiable) := bindNegotiationProfile profile (Table.bindVersion request) in
        let localProfile := if negotiable then localProfile else MkProfile 0 in
        set_caps s (NegotiatePeerCapabilities localProfile peerVersion advertised)
    | _ => s
    end
  else s.

Definition handleResponse (s : Session) (pdu : DecodedPDU) (receivedAt : Z) : Session :=
  let h := pdu_Header pdu in
  match Table.takeResponse (table s) (SequenceNumber h) (CommandID h) with
  | (t, None) => set_table s t
  | (t, Some p) =>
      match Table.reqs t !! p with
      | None => set_table s t
      | Some request =>
          let request := fst (Table.markResponseAt request receivedAt (CommandID h) (CommandStatus h)) in
          let s := set_table s (Table.set_req t p request) in
          let s := set_machine s (CompleteOutbound (machine s) (Table.requestID request) (CommandStatus h)) in
          let s := negotiate_response s request pdu in
          let s := observeCongestion s pdu in
          let s := set_table s (Table.send_done (table s) p
                     (Table.MkResult (Some (ownDecodedPDU pdu)) None)) in
          if (Table.requestID request =? CommandUnbind) && OK (CommandStatus h)
          then terminate s (ESentinel ErrSessionClosed) else s
      end
  end.

(** The status of the generic_nack for a decoding error. *)
Definition nack_status (e : GoError) : Z :=
  match as_semantic e with
  | Some st => if st =? 0 then StatusInvalidMessageLength else st
  | None => StatusInvalidMessageLength
  end.

Definition processFrame (now : Z) (s : Session) (fr : bytes) : rx :=
  match DecodePDU fr registry with
  | Panic => (s, Panic)
  | Err e =>
      if is_fatal e then (s, Err e) else
      match DecodeHeader fr with
      | Panic => (s, Panic)
      | Err he => (s, Err he)
      | Ok h =>
          match queueGenericNACK ByReceiver s h (nack_status e) with
          | (s, Panic) => (s, Panic)
          | (s, _) => (s, Ok tt)
          end
      end
  | Ok pdu =>
      let s := note_inbound s now in
      if IsResponse (CommandID (pdu_Header pdu)) then (handleResponse s pdu now, Ok tt)
      else handleRequest s pdu
  end.

(** The clock reads some time for each frame. *)
Context (clock : Session -> Z).

(** The loop over one read: [Feed] with [processFrame] as callback.  A panic
    unwinds to [recoverLoop], which ends the session with it; so does an error. *)
Definition rx_callback (s : Session) (fr : bytes) : Session * option GoError :=
  match processFrame (clock s) s fr with
  | (s, Ok _) => (s, None)
  | (s, Err e) => (s, Some e)
  | (s, Panic) => (s, Some (EPanic "session.rxLoop"))
  end.

Definition rx_read (grow : Z -> Z -> Z) (f : Framer) (s : Session) (data : bytes)
    : outcome GoError (Framer * Session * option GoError) :=
  match Feed grow (Some rx_callback) (Some f) s data with
  | Ok (Some f, s, None) => Ok (f, s, None)
  | Ok (Some f, s, Some e) => Ok (f, terminate s e, Some e)
  | _ => Panic
  end.

(** The loop over the reads: it stops at the first error, and when the session is
    over. *)
Fixpoint rxLoop (grow : Z -> Z -> Z) (f : Framer) (s : Session) (reads : list bytes)
    : outcome GoError (Framer * Session * option GoError) :=
  match reads with
  | [] => Ok (f, s, None)
  | data :: reads =>
      '(f, s, e) ← rx_read grow f s data;
      match e with
      | None => if done s then Ok (f, s, None) else rxLoop grow f s reads
      | Some e => Ok (f, s, Some e)
      end
  end.

(** A read that failed with [readErr]. *)
Definition rx_end (f : Framer) (s : Session) (readErr : GoError) : Session :=
  if is_eof readErr then
    match Finalize (Some f) with
    | (_, Some e) => terminate s e
    | (_, None) => terminate s EOF
    end
  else terminate s readErr.
End receive.

(** ** The owned copy *)

Definition inside (n : nat) (v : region) : Prop :=
  match v with Fresh _ => True | View off len => (off + len <= n)%nat end.
(** [a'] kept everything [a] had handed out. *)
Definition keeps (a a' : responseArena) : Prop :=
  (a_pos a <= a_pos a')%nat /\ take (a_pos a) (a_mem a') = take (a_pos a) (a_mem a).

Lemma keeps_refl a : keeps a a.
Proof. done. Qed.
Lemma keeps_trans a b c : keeps a b -> keeps b c -> keeps a c.
Proof.
  intros [H1 H2] [H3 H4]. split; [lia|]. rewrite <- H2.
  replace (take (a_pos a) (a_mem c)) with (take (a_pos a) (take (a_pos b) (a_mem c)))
    by (rewrite take_take; f_equal; lia).
  rewrite H4, take_take. f_equal. lia.
Qed.
Lemma read_keeps a a' v : inside (a_pos a) v -> keeps a a' -> read a' v = read a v.
Proof.
  intros Hi [_ Hk]. destruct v as [b|off len]; cbn in *; [done|].
  rewrite !take_drop_commute. f_equal.
  transitivity (take (off + len) (take (a_pos a) (a_mem a'))); [rewrite take_take; f_equal; lia|].
  rewrite Hk, take_take. f_equal. lia.
Qed.

(** A field the arena has room for is copied into it, and used up. *)
Definition copied (n : nat) (a a' : responseArena) : Prop :=
  keeps a a' /\ a_pos a' = (a_pos a + n)%nat /\ length (a_mem a') = length (a_mem a).

Lemma copied_trans n m a b c : copied n a b -> copied m b c -> copied (n + m) a c.
Proof. intros (H1 & H2 & H3) (H4 & H5 & H6). split_and!; [by eapply keeps_trans|lia|lia]. Qed.

Lemma take_copied a src :
  (a_pos a + length src <= length (a_mem a))%nat ->
  exists a' v, take_ a src = (a', v) /\ copied (length src) a a' /\ inside (a_pos a') v /\
    read a' v = src /\ (src <> [] -> v = View (a_pos a) (length src)).
Proof.
  intros Hl. unfold take_. destruct (Nat.eqb_spec (length src) 0) as [H0|H0].
  - apply length_zero_iff_nil in H0 as ->. exists a, (Fresh []). cbn. split_and!; done || (cbn; lia).
  - destruct (Nat.ltb_spec (length (a_mem a) - a_pos a) (length src)); [lia|].
    eexists _, _. split; [done|]. cbn. split_and!; [|lia| |done].
    + split_and!; cbn; [split; cbn; [lia|]|done|len].
      rewrite take_app_le by len. rewrite take_take. f_equal. lia.
    + rewrite drop_app_ge by len. replace (a_pos a - length (take (a_pos a) (a_mem a)))%nat with 0%nat by len.
      rewrite drop_0. by rewrite take_app_length.
Qed.

Lemma takeOptional_copied o : forall a,
  (a_pos a + optionalCloneSize o <= length (a_mem a))%nat ->
  exists a' vs, takeOptional a o = (a', vs) /\ copied (optionalCloneSize o) a a' /\
    Forall (fun v => inside (a_pos a') v.2) vs /\ read_optional a' vs = o.
Proof.
  unfold optionalCloneSize. induction o as [|p o IH]; intros a Hl; cbn in *.
  - exists a, []. split_and!; done || (cbn; lia).
  - destruct (take_copied a (op_Value p)) as (a1 & v & -> & Hc & Hi & Hr & _); [lia|].
    pose proof Hc as (Hk & Hp & Hm).
    destruct (IH a1) as (a2 & vs & -> & Hc2 & Hi2 & Hr2); [lia|].
    pose proof Hc2 as (Hk2 & Hp2 & _).
    exists a2, ((op_Tag p, v) :: vs). split_and!; [done|by eapply copied_trans| |].
    + constructor; [|done]. destruct v; cbn in *; lia.
    + change (MkOptionalParameter (op_Tag p) (read a2 v) :: read_optional a2 vs = p :: o).
      rewrite (read_keeps a1 a2), Hr, Hr2 by done. by destruct p.
Qed.

Lemma take_all_copied l : forall a,
  (a_pos a + sum_list (map length l) <= length (a_mem a))%nat ->
  exists a' vs, take_all a l = (a', vs) /\ copied (sum_list (map length l)) a a' /\
    map (read a') vs = l.
Proof.
  induction l as [|b l IH]; intros a Hl; cbn in *.
  - exists a, []. split_and!; done || (cbn; lia).
  - destruct (take_copied a b) as (a1 & v & -> & Hc & Hi & Hr & _); [lia|].
    pose proof Hc as (Hk & Hp & Hm).
    destruct (IH a1) as (a2 & vs & -> & Hc2 & Hr2); [lia|].
    pose proof Hc2 as (Hk2 & Hp2 & _).
    exists a2, (v :: vs). split_and!; [done|by eapply copied_trans|].
    cbn. by rewrite (read_keeps a1 a2), Hr, Hr2.
Qed.

Lemma arena_length n : length (a_mem (newResponseArena n)) = n.
Proof. apply length_replicate. Qed.

Lemma own_text_id t o : own_text t o = (t, o).
Proof.
  unfold own_text.
  destruct (take_copied (newResponseArena (length t + optionalCloneSize o)) t)
    as (a1 & v & -> & (Hk & Hp & Hm) & Hi & Hr & _); [rewrite arena_length; cbn; lia|].
  rewrite arena_length in Hm. cbn in Hp.
  destruct (takeOptional_copied o a1) as (a2 & vs & -> & (Hk2 & _) & _ & Hr2); [lia|].
  by rewrite (read_keeps a1 a2), Hr, Hr2.
Qed.

Lemma own_optional_id o : own_optional o = o.
Proof.
  unfold own_optional.
  destruct (takeOptional_copied o (newResponseArena (optionalCloneSize o)))
    as (a & vs & -> & _ & _ & Hr); [rewrite arena_length; cbn; lia|done].
Qed.

Lemma own_query_id b : own_query b = b.
Proof.
  destruct b as [t d ms ec o]. unfold own_query; cbn [qsr_MessageID qsr_FinalDate qsr_Optional qsr_MessageState qsr_ErrorCode].
  destruct (take_copied (newResponseArena (length t + length d + optionalCloneSize o)) t)
    as (a1 & v & -> & (Hk & Hp & Hm) & Hi & Hr & _); [rewrite arena_length; cbn; lia|].
  rewrite arena_length in Hm. cbn in Hp.
  destruct (take_copied a1 d) as (a2 & w & -> & (Hk2 & Hp2 & Hm2) & Hi2 & Hr2 & _); [lia|].
  destruct (takeOptional_copied o a2) as (a3 & vs & -> & (Hk3 & _) & _ & Hr3); [lia|].
  rewrite (read_keeps a1 a3), (read_keeps a2 a3), Hr, Hr2, Hr3 by (done || by eapply keeps_trans). done.
Qed.

Lemma own_entries a l : forall vs, map (read a) vs = map use_DestinationAddr l ->
  zip_with (own_entry a) l vs = l.
Proof.
  induction l as [|e l IH]; intros [|v vs] H; cbn in *; try done.
  injection H as Hv Hvs. rewrite IH by done. unfold own_entry. rewrite Hv. by destruct e.
Qed.

Lemma own_multi_id b : own_multi b = b.
Proof.
  destruct b as [t l o]. unfold own_multi; cbn [smr_MessageID smr_Unsuccessful smr_Optional].
  replace (map (fun e => length (use_DestinationAddr e)) l)
    with (map (@length Z) (map use_DestinationAddr l)) by apply map_map.
  set (n := sum_list _).
  destruct (take_copied (newResponseArena (length t + optionalCloneSize o + n)) t)
    as (a1 & v & -> & (Hk & Hp & Hm) & Hi & Hr & _); [rewrite arena_length; cbn; lia|].
  rewrite arena_length in Hm. cbn in Hp.
  destruct (takeOptional_copied o a1) as (a2 & vs & -> & (Hk2 & Hp2 & Hm2) & Hi2 & Hr2); [lia|].
  destruct (take_all_copied (map use_DestinationAddr l) a2) as (a3 & es & -> & (Hk3 & _) & Hr3);
    [fold n; lia|].
  rewrite own_entries by done. rewrite (read_keeps a1 a3), Hr by (done || by eapply keeps_trans).
  f_equal. rewrite <- Hr2. apply map_ext_in. intros [tag w] Hw%list_elem_of_In.
  rewrite Forall_forall in Hi2. by rewrite (read_keeps a2 a3) by (done || by apply (Hi2 _ Hw)).
Qed.

(** The copy a caller gets has the contents of the received PDU. *)
Lemma ownDecodedPDU_id pdu : ownDecodedPDU pdu = pdu.
Proof.
  destruct pdu as [h [|v|v|k]]; unfold ownDecodedPDU; cbn; [done| |done..]. f_equal. f_equal.
  destruct v as [|[]| |[]| |[]| |[]| |[]| |[]| |[]| | | | | |[]| |[]| | |]; cbn;
    rewrite ?own_text_id, ?own_multi_id, ?own_query_id, ?own_optional_id; done.
Qed.

(** ** Answers that can always be sent *)

(** An error response with an empty body can be encoded. *)
Definition refusable (r : Registry) (id : Z) : Prop :=
  exists def enc, Command (Some r) id = Some def /\ cd_Encode def = Some enc /\
    is_ok (enc (AVal VEmptyBody) []) = true.
(** So can any response with an empty body, which takes no octets. *)
Definition acknowledgeable (r : Registry) (id : Z) : Prop :=
  exists def enc, Command (Some r) id = Some def /\ cd_Encode def = Some enc /\
    forall dst, enc (AVal VEmptyBody) dst = Ok dst.

(** A registry a session can answer with: the library's own answers can be
    encoded, and an encoder that succeeds has only appended. *)
Class Answering (r : Registry) : Prop := {
  answer_nack : acknowledgeable r CommandGenericNACK;
  answer_enquire : is_Some (Command (Some r) CommandEnquireLink) ->
    acknowledgeable r CommandEnquireLinkResp;
  answer_unbind : is_Some (Command (Some r) CommandUnbind) -> acknowledgeable r CommandUnbindResp;
  answer_request c : is_Some (Command (Some r) c) -> IsResponse c = false ->
    isOneWayCommand c = false -> refusable r (ResponseID c);
  answer_appends id def enc body dst d : Command (Some r) id = Some def ->
    cd_Encode def = Some enc -> typed body -> enc body dst = Ok d -> dst `prefix_of` d
}.

(** The frame of a response with an empty body. *)
Definition empty_answer (request : Header) (id st : Z) : bytes :=
  wire_pdu (ResponseHeader request id st) [].

Lemma finish_empty stale h : finish_pdu h 0 (grow_header stale []) = Ok (wire_pdu h []).
Proof.
  pose proof (finish_pdu_spec h [] (resize HeaderSize 0 stale) []) as H.
  rewrite !app_nil_r in H. apply H; [apply grow_header_room|cbn; lia].
Qed.

Lemma acknowledge_encodes stale r request id st : acknowledgeable r id ->
  EncodePDU stale (ResponseHeader request id st) (AVal VEmptyBody) (Some r) [] =
    Ok (empty_answer request id st).
Proof.
  intros (def & enc & Hc & He & Hemp). unfold EncodePDU, ResolveCommand.
  cbn [CommandID ResponseHeader]. rewrite Hc. cbn [encodable]. rewrite He.
  unfold appendErrorResponseBody, encodeBody. rewrite He, !Hemp. cbn.
  destruct (IsResponse id && negb (OK st)); apply finish_empty.
Qed.

Lemma refuse_encodes stale r request id st : refusable r id -> IsResponse id = true -> st <> 0 ->
  EncodePDU stale (ResponseHeader request id st) (AVal VEmptyBody) (Some r) [] =
    Ok (empty_answer request id st).
Proof.
  intros (def & enc & Hc & He & Hemp) Hr Hs. unfold EncodePDU, ResolveCommand.
  cbn [CommandID ResponseHeader]. rewrite Hc. cbn [encodable]. rewrite He.
  unfold OK, StatusOK. cbn [CommandStatus ResponseHeader]. rewrite Hr, (proj2 (Z.eqb_neq st 0)) by done. cbn [negb andb].
  unfold appendErrorResponseBody, encodeBody. rewrite He.
  destruct (enc (AVal VEmptyBody) []); [|done..]. cbn. apply finish_empty.
Qed.

(** What any successful [EncodePDU] appended starts with the header. *)
Definition framed (h : Header) (fr : bytes) : Prop :=
  exists b, zlen fr = 16 + zlen b /\ (16 + zlen b < 4294967296 -> fr = wire_pdu h b).

Lemma framed_empty request id st : framed (ResponseHeader request id st) (empty_answer request id st).
Proof. exists []. split; [apply (wire_pdu_length _ [])|done]. Qed.

Lemma IsResponse_ResponseID c : IsResponse (ResponseID c) = true.
Proof.
  unfold IsResponse, ResponseID. apply negb_true_iff, Z.eqb_neq. rewrite Z.land_lor_distr_l, Z.land_diag.
  intros H%Z.lor_eq_0_iff. by destruct H.
Qed.

Lemma finish_framed stale h b :
  match finish_pdu h 0 (grow_header stale [] ++ b) with
  | Ok fr => framed h fr | Err _ => True | Panic => False end.
Proof.
  pose proof (grow_header_room stale) as Hroom.
  destruct (finish_pdu_cases h [] _ b Hroom) as [(d & Hd & Hl)|Hd]; cbn [length app] in Hd;
    unfold grow_header; rewrite app_nil_l, Hd; [|done].
  exists b. split; [cbn in Hl; lia|]. intros Hb.
  pose proof (finish_pdu_spec h [] _ b Hroom Hb) as Hs. cbn [length app] in Hs. congruence.
Qed.

(** The two writers of [EncodePDU] do not panic, and only append. *)
Definition appends (w : W) : Prop :=
  forall dst, match w dst with Ok d => dst `prefix_of` d | Err _ => True | Panic => False end.

Lemma encodeBody_appends r id def body `{!Answering r} :
  Command (Some r) id = Some def -> is_Some (cd_Encode def) -> typed body ->
  appends (encodeBody def body).
Proof.
  intros Hc [enc He] Ht dst. unfold encodeBody. rewrite He.
  destruct (enc body dst) as [d|[d e]|] eqn:Hd; [|done..]. by eapply answer_appends.
Qed.

Lemma error_body_appends def body : typed body -> appends (appendErrorResponseBody def body).
Proof.
  intros Ht dst. unfold appendErrorResponseBody.
  assert (Ho : Forall (fun p => is_u16 (op_Tag p)) (optionalParametersOf body))
    by (destruct body; try apply Ht; constructor).
  pose proof (wspec_optional _ Ho dst) as Hopt.
  destruct (encodeBody def body []) as [d|[d e]|] eqn:Hb; [|done|].
  - destruct (appendOptional _ dst) as [d'|[d' e]|]; [|done..].
    destruct Hopt as [_ ->]. by apply prefix_app_r.
  - unfold encodeBody in Hb. by destruct (match cd_Encode def with Some f => f body [] | None => Panic end).
Qed.

Lemma encode_framed stale r request id st body `{!Answering r} : typed body ->
  match EncodePDU stale (ResponseHeader request id st) body (Some r) [] with
  | Ok fr => framed (ResponseHeader request id st) fr | Err _ => True | Panic => False end.
Proof.
  intros Ht. set (h := ResponseHeader request id st). unfold EncodePDU, ResolveCommand.
  change (CommandID h) with id. destruct (Command (Some r) id) as [def|] eqn:Hc.
  - cbn [encodable]. destruct (cd_Encode def) as [enc|] eqn:He.
    + assert (Hw : forall b : bool, appends (if b then appendErrorResponseBody def body
                                             else encodeBody def body)).
      { intros []; [by apply error_body_appends|]. eapply encodeBody_appends; eauto. }
      specialize (Hw (error_response h) (grow_header stale [])). unfold error_response in Hw.
      change (CommandID h) with id in Hw. destruct (IsResponse id && negb (OK (CommandStatus h)));
        [destruct (appendErrorResponseBody _ _ _) as [d|[d e]|]
        |destruct (encodeBody _ _ _) as [d|[d e]|]]; try done;
        destruct Hw as [b ->]; apply finish_framed.
    + destruct body as [|[]|[]|[]]; try done. apply finish_framed.
  - destruct (r_mode r =? RegistryStrict); [done|]. cbn [encodable].
    destruct body as [|[]|[]|[]]; try done. apply finish_framed.
Qed.

(** ** Every request is answered *)

(** What the handler, its callers and the transmit loop may do meanwhile: queue
    items of their own, and end the session. *)
Record others (s s' : Session) : Prop := {
  others_tx : exists l, tx s' = tx s ++ l /\ Forall (fun x => x.1 = ByOthers) l;
  others_done : done s = true -> done s' = true
}.

#[export] Instance others_preorder : PreOrder others.
Proof.
  split.
  - intros s. split; [exists []; by rewrite app_nil_r|done].
  - intros s1 s2 s3 [(l1 & H1 & F1) D1] [(l2 & H2 & F2) D2]. split; [|auto].
    exists (l1 ++ l2). split; [by rewrite H2, H1, app_assoc|by apply Forall_app].
Qed.

(** The items the receive loop queued. *)
Fixpoint received (l : list (origin * txItem)) : list txItem :=
  match l with
  | [] => []
  | (ByReceiver, item) :: l => item :: received l
  | (ByOthers, _) :: l => received l
  end.
Definition rx_items (s : Session) : list txItem := received (tx s).

Lemma received_app l1 l2 : received (l1 ++ l2) = received l1 ++ received l2.
Proof. induction l1 as [|[[] i] l1 IH]; cbn; congruence. Qed.
Lemma others_items s s' : others s s' -> rx_items s' = rx_items s.
Proof.
  intros [(l & Hl & F) _]. unfold rx_items. rewrite Hl, received_app.
  replace (received l) with (@nil txItem); [by rewrite app_nil_r|].
  clear Hl. induction F as [|[o i] l Ho _ IH]; [done|]. cbn in Ho. by subst o.
Qed.
Lemma push_items s item : rx_items (push_tx s ByReceiver item) = rx_items s ++ [item].
Proof. unfold rx_items. cbn. by rewrite received_app. Qed.

(** [item] answers the request [h]: with its own response or a generic_nack, under
    its sequence number. *)
Definition answers (h : Header) (item : txItem) : Prop :=
  exists id st fr, item = response_item h id st fr /\ framed (ResponseHeader h id st) fr /\
    (id = ResponseID (CommandID h) \/ (id = CommandGenericNACK /\ st <> 0)).

Section answered.
Context (r : Registry) `{!Answering r} (profile : Profile) (limit : Z) (flow : bool) (stale : bytes).
Context (handler : option (Session -> DecodedPDU -> Session * res Response)).
Context (select_tx : Session -> Session * bool).

(** The application and Go's [select] behave. *)
Definition handler_ok : Prop :=
  match handler with
  | None => True
  | Some h => forall s pdu, others s (h s pdu).1 /\
      (forall response, (h s pdu).2 = Ok response -> typed (rsp_Body response))
  end.
Definition select_ok : Prop :=
  forall s, others s (select_tx s).1 /\ ((select_tx s).2 = false -> done (select_tx s).1 = true).

Hypothesis Hhandler : handler_ok.
Hypothesis Hselect : select_ok.

(** The outcomes of queueing: exactly one item, the session over, or a body that
    cannot be encoded. *)
Lemma queueResponse_spec s req id st body : typed body ->
  match queueResponse (Some r) stale select_tx ByReceiver s req id st body with
  | (s', Ok _) => exists fr, framed (ResponseHeader req id st) fr /\
      rx_items s' = rx_items s ++ [response_item req id st fr]
  | (s', Err e) => others s s' /\
      (done s' = true \/
       exists d, EncodePDU stale (ResponseHeader req id st) body (Some r) [] = Err (d, e))
  | (_, Panic) => False
  end.
Proof.
  intros Ht. unfold queueResponse. pose proof (encode_framed stale r req id st body Ht) as He.
  destruct (EncodePDU _ _ _ _ _) as [fr|[d e]|]; [| |done].
  - destruct (Hselect s) as [Ho Hd]. destruct (select_tx s) as [s1 []]; cbn in Ho, Hd.
    + exists fr. split; [done|]. by rewrite push_items, (others_items s s1 Ho).
    + split; [done|]. left; auto.
  - split; [done|]. right. eauto.
Qed.

(** An answer the registry can always encode is queued unless the session is over. *)
Lemma queue_empty_spec s req id st :
  EncodePDU stale (ResponseHeader req id st) (AVal VEmptyBody) (Some r) [] =
    Ok (empty_answer req id st) ->
  match queueResponse (Some r) stale select_tx ByReceiver s req id st (AVal VEmptyBody) with
  | (s', Ok _) => rx_items s' = rx_items s ++ [response_item req id st (empty_answer req id st)]
  | (s', Err e) => others s s' /\ done s' = true
  | (_, Panic) => False
  end.
Proof.
  intros He. unfold queueResponse. rewrite He.
  destruct (Hselect s) as [Ho Hd]. destruct (select_tx s) as [s1 []]; cbn in Ho, Hd; [|auto].
  by rewrite push_items, (others_items s s1 Ho).
Qed.

(** What a step that must answer [h] may do; [fault] says why it may fail although
    the session is not over. *)
Definition answered (s : Session) (h : Header) (silent : Session -> Prop) (fault : GoError -> Prop)
    (r : rx) : Prop :=
  match r with
  | (s', Ok _) => (exists item, rx_items s' = rx_items s ++ [item] /\ answers h item) \/
      (rx_items s' = rx_items s /\ silent s')
  | (s', Err e) => rx_items s' = rx_items s /\ (done s' = true \/ fault e)
  | (_, Panic) => False
  end.

Lemma answered_others s0 s h silent fault x : others s0 s ->
  answered s h silent fault x -> answered s0 h silent fault x.
Proof.
  intros Ho. unfold answered. by rewrite (others_items s0 s Ho).
Qed.

Lemma nack_answered s h st silent fault : st <> 0 ->
  answered s h silent fault (queueGenericNACK (Some r) stale select_tx ByReceiver s h st).
Proof.
  intros Hs. unfold queueGenericNACK.
  pose proof (queue_empty_spec s h CommandGenericNACK st
    (acknowledge_encodes stale r h _ st answer_nack)) as H.
  destruct (queueResponse _ _ _ _ _ _ _ _ _) as [s' [[]|e|]]; cbn; [| |done].
  - left. eexists. split; [exact H|]. exists CommandGenericNACK, st, (empty_answer h CommandGenericNACK st).
    split_and!; [done|apply framed_empty|by right].
  - destruct H as [Ho Hd]. split; [by apply others_items|by left].
Qed.

(** The last part of [handleRequest]; an encoder's panic is answered too. *)
Lemma queue_answer_answered s pdu st body silent : typed body ->
  answered s (pdu_Header pdu) silent
    (fun e => is_panic e = false /\ exists d, EncodePDU stale (ResponseHeader (pdu_Header pdu)
       (ResponseID (CommandID (pdu_Header pdu))) st) body (Some r) [] = Err (d, e))
    (queue_answer (Some r) stale select_tx s pdu st body).
Proof.
  intros Ht. unfold queue_answer. set (h := pdu_Header pdu).
  pose proof (queueResponse_spec s h (ResponseID (CommandID h)) st body Ht) as H.
  destruct (queueResponse _ _ _ _ _ _ _ _ _) as [s1 [[]|e|]]; [| |done].
  - destruct H as (fr & Hf & Hi). left. eexists. split; [exact Hi|]. eexists _, _, _. eauto.
  - destruct H as [Ho Hd]. destruct (is_panic e) eqn:He.
    + pose proof (nack_answered s1 h StatusSystemError silent
        (fun e => is_panic e = false /\ exists d, EncodePDU stale (ResponseHeader h
           (ResponseID (CommandID h)) st) body (Some r) [] = Err (d, e))) as Hn.
      specialize (Hn ltac:(done)). apply (answered_others s s1) in Hn; [|done].
      destruct (queueGenericNACK _ _ _ _ _ _ _) as [s2 [[]|e2|]]; [done| |done].
      by destruct (isLifecycleRequest _).
    + destruct (isLifecycleRequest _); cbn; (split; [by apply others_items|]);
        (destruct Hd as [Hd|Hd]; [by left|by right]).
Qed.

(** An empty body that can be encoded leaves no room for a fault. *)
Lemma empty_answered s pdu st silent fault :
  (exists fr, EncodePDU stale (ResponseHeader (pdu_Header pdu) (ResponseID (CommandID (pdu_Header pdu)))
     st) (AVal VEmptyBody) (Some r) [] = Ok fr) ->
  answered s (pdu_Header pdu) silent fault
    (queue_answer (Some r) stale select_tx s pdu st (AVal VEmptyBody)).
Proof.
  intros [fr He]. pose proof (queue_answer_answered s pdu st (AVal VEmptyBody) silent) as H.
  destruct (queue_answer _ _ _ _ _ _ _) as [s' [[]|e|]]; cbn in *; [by apply H; repeat constructor| |by apply H; repeat constructor].
  destruct H as (Hi & [Hd|(_ & d & Hd)]); [by repeat constructor|by split; [|left]|congruence].
Qed.

Definition library_answer (pdu : DecodedPDU) (response : Response) : Prop :=
  rsp_Body response = AVal VEmptyBody /\ rsp_Action response = ResponseImmediate /\
  exists fr, EncodePDU stale (ResponseHeader (pdu_Header pdu) (ResponseID (CommandID (pdu_Header pdu)))
     (rsp_Status response)) (AVal VEmptyBody) (Some r) [] = Ok fr.
Definition handler_answer (pdu : DecodedPDU) (response : Response) : Prop :=
  exists h s, handler = Some h /\ (h s pdu).2 = Ok response.

Lemma refuse_answer pdu st :
  is_Some (Command (Some r) (CommandID (pdu_Header pdu))) ->
  IsResponse (CommandID (pdu_Header pdu)) = false -> isOneWayCommand (CommandID (pdu_Header pdu)) = false ->
  st <> 0 -> library_answer pdu (MkResponse st (AVal VEmptyBody) ResponseImmediate).
Proof.
  intros Hc Hr Ho Hs. split_and!; [done..|]. eexists. apply refuse_encodes; [|apply IsResponse_ResponseID|done].
  by apply answer_request.
Qed.

Lemma respond_to_spec s pdu :
  is_Some (Command (Some r) (CommandID (pdu_Header pdu))) ->
  IsResponse (CommandID (pdu_Header pdu)) = false -> isOneWayCommand (CommandID (pdu_Header pdu)) = false ->
  let '(s1, response) := respond_to handler s pdu in
  others s s1 /\ typed (rsp_Body response) /\
  (library_answer pdu response \/ handler_answer pdu response).
Proof.
  intros Hc Hr Ho. unfold respond_to.
  destruct (Z.eqb_spec (CommandID (pdu_Header pdu)) CommandEnquireLink) as [He|_].
  { cbn [orb]. split_and!; [done|by repeat constructor|]. left. split_and!; [done..|].
    rewrite He. eexists. apply acknowledge_encodes, answer_enquire. by rewrite <- He. }
  destruct (Z.eqb_spec (CommandID (pdu_Header pdu)) CommandUnbind) as [He|_].
  { cbn [orb]. split_and!; [done|by repeat constructor|]. left. split_and!; [done..|].
    rewrite He. eexists. apply acknowledge_encodes, answer_unbind. by rewrite <- He. }
  cbn [orb]. unfold handler_ok in Hhandler. destruct handler as [hd|] eqn:Hhd.
  - unfold callHandler. destruct (Hhandler s pdu) as [Hs Ht].
    destruct (hd s pdu) as [s1 [response|e|]] eqn:Hcall; cbn [fst snd] in Hs, Ht.
    + split_and!; [done|by apply Ht|]. right. exists hd, s. by rewrite Hcall.
    + split_and!; [done|by repeat constructor|left; by apply refuse_answer].
    + split_and!; [done|by repeat constructor|left; by apply refuse_answer].
  - unfold noHandlerResponse. destruct (isBindRequest _);
      (split_and!; [done|by repeat constructor|left; by apply refuse_answer]).
Qed.

Lemma ensure_typed body v : typed body -> typed (ensureSCInterfaceVersion body v).
Proof.
  destruct body as [|[]|[]|]; try done; intros [Ht _]; (split; [|done]); cbn in *;
    unfold appendIfMissing; (destruct (existsb _ _); [done|]); cbn;
    apply Forall_app; (split; [done|]); repeat constructor; cbn; unfold TLVTagSCInterfaceVersion; lia.
Qed.

Lemma negotiate_bind_spec s pdu response : typed (rsp_Body response) ->
  let '(s1, body) := negotiate_bind profile s pdu response in
  others s s1 /\ typed body /\
  (body = rsp_Body response \/
   body = ensureSCInterfaceVersion (rsp_Body response) (InterfaceVersion profile)).
Proof.
  intros Ht. unfold negotiate_bind. destruct (_ && _); [|by split_and!; [..|left]].
  destruct (pdu_Body pdu) as [|[]|[]|]; try by split_and!; [..|left]. cbv zeta.
  destruct (_ || _); (split_and!; [split; [by exists []; rewrite app_nil_r|done]| |]);
    auto using ensure_typed.
Qed.

(** A request that is legal and has no answer: a one-way command, or a deliver_sm
    whose handler suppressed or deferred its acknowledgement. *)
Definition silent (pdu : DecodedPDU) (s' : Session) : Prop :=
  isOneWayCommand (CommandID (pdu_Header pdu)) = true \/
  CommandID (pdu_Header pdu) = CommandDeliverSM /\
  exists response, handler_answer pdu response /\
    (rsp_Action response = ResponseSuppress \/
     rsp_Action response = ResponseDeferred /\
     deferredReplies s' !! SequenceNumber (pdu_Header pdu) = Some false).

(** The handler's own fault: an action it may not take, or has no room to take, or
    a body the encoder rejects. *)
Definition handler_fault (pdu : DecodedPDU) (e : GoError) : Prop :=
  exists response, handler_answer pdu response /\
    (rsp_Action response <> ResponseImmediate \/
     is_panic e = false /\ exists body d,
       (body = rsp_Body response \/
        body = ensureSCInterfaceVersion (rsp_Body response) (InterfaceVersion profile)) /\
       EncodePDU stale (ResponseHeader (pdu_Header pdu) (ResponseID (CommandID (pdu_Header pdu)))
         (rsp_Status response)) body (Some r) [] = Err (d, e)).

Lemma answer_later_answered s pdu response : handler_answer pdu response ->
  rsp_Action response <> ResponseImmediate ->
  answered s (pdu_Header pdu) (silent pdu) (handler_fault pdu)
    (answer_later limit s (pdu_Header pdu) (rsp_Action response)).
Proof.
  intros Hh Ha. assert (Hf : forall e, handler_fault pdu e) by (intros e; exists response; auto).
  unfold answer_later. destruct (Z.eqb_spec (CommandID (pdu_Header pdu)) CommandDeliverSM) as [Hd|];
    cbn [negb]; [|by split; [|right]].
  destruct (Z.eqb_spec (rsp_Action response) ResponseSuppress) as [Hs|].
  { right. split; [done|]. right. eauto. }
  destruct (Z.eqb_spec (rsp_Action response) ResponseDeferred) as [Hdef|]; [|by split; [|right]].
  unfold registerDeferredReply. destruct (deferredReplies s !! _); [by split; [|right]|].
  destruct (limit <=? _); [by split; [|right]|]. right. split; [done|]. right. split; [done|].
  exists response. split; [done|]. right. split; [done|]. cbn. apply lookup_insert_eq.
Qed.

Lemma same_tx s s' : tx s' = tx s -> done s' = done s -> others s s'.
Proof. intros Ht Hd. split; [exists []; by rewrite app_nil_r|congruence]. Qed.

Lemma beginInbound_others s c :
  match beginInbound (Some r) s c with Ok s1 => others s s1 | Err _ => True | Panic => False end.
Proof.
  unfold beginInbound. destruct (IsStandardCommand c).
  - unfold BeginInbound. destruct (negb _); [done|]. destruct (_ && _); [done|]. by apply same_tx.
  - destruct (Command (Some r) c) as [def|]; [destruct (negb _); [destruct (_ && _)|]|];
      try destruct (isBoundState _); done.
Qed.

Lemma answer_answered s pdu :
  is_Some (Command (Some r) (CommandID (pdu_Header pdu))) ->
  IsResponse (CommandID (pdu_Header pdu)) = false ->
  isOneWayCommand (CommandID (pdu_Header pdu)) = false ->
  answered s (pdu_Header pdu) (silent pdu) (handler_fault pdu)
    (let '(s, response) := respond_to handler s pdu in
     if negb (rsp_Action response =? ResponseImmediate)
     then answer_later limit s (pdu_Header pdu) (rsp_Action response)
     else let '(s, body) := negotiate_bind profile s pdu response in
          queue_answer (Some r) stale select_tx s pdu (rsp_Status response) body).
Proof.
  intros Hc Hr Ho. pose proof (respond_to_spec s pdu Hc Hr Ho) as H.
  destruct (respond_to handler s pdu) as [s1 response]. destruct H as (Hs & Ht & Hcase).
  apply (answered_others s s1); [done|].
  destruct (Z.eqb_spec (rsp_Action response) ResponseImmediate) as [Ha|Ha]; cbn [negb].
  - pose proof (negotiate_bind_spec s1 pdu response Ht) as Hn.
    destruct (negotiate_bind _ _ _ _) as [s2 body]. destruct Hn as (Hs2 & Hb & Hbody).
    apply (answered_others s1 s2); [done|]. destruct Hcase as [(Hl & _ & He)|Hh].
    + replace body with (AVal VEmptyBody) by (destruct Hbody as [->| ->]; by rewrite Hl).
      by apply empty_answered.
    + pose proof (queue_answer_answered s2 pdu (rsp_Status response) body (silent pdu) Hb) as Hq.
      destruct (queue_answer _ _ _ _ _ _ _) as [s3 [[]|e|]]; cbn in *; [done| |done].
      destruct Hq as (Hi & [Hd|(Hp & d & Hd)]); (split; [done|]); [by left|right].
      exists response. split; [done|]. right. split; [done|]. by exists body, d.
  - destruct Hcase as [(_ & Hl & _)|Hh]; [done|]. by apply answer_later_answered.
Qed.

Lemma handleRequest_answered s pdu :
  IsResponse (CommandID (pdu_Header pdu)) = false ->
  answered s (pdu_Header pdu) (silent pdu) (handler_fault pdu)
    (handleRequest (Some r) profile limit stale handler select_tx s pdu).
Proof.
  intros Hr. unfold handleRequest. destruct (ValidInbound _); [|by apply nack_answered].
  cbn [negb]. destruct (Command (Some r) _) as [def|] eqn:Hc; [|by apply nack_answered].
  destruct (_ && _); [by apply nack_answered|].
  pose proof (beginInbound_others s (CommandID (pdu_Header pdu))) as Hb.
  destruct (beginInbound _ _ _) as [s1|e|]; [| |done].
  - apply (answered_others s s1); [done|]. destruct (isOneWayCommand _) eqn:Ho.
    + assert (Hone : forall s2, others s1 s2 ->
        answered s1 (pdu_Header pdu) (silent pdu) (handler_fault pdu) (s2, Ok tt))
        by (intros s2 Hs2; right; split; [by apply others_items|by left]).
      unfold handler_ok in Hhandler. destruct handler as [hd|]; [|by apply Hone].
      destruct (Hhandler s1 pdu) as [Hs _]. unfold callHandler.
      by destruct (hd s1 pdu) as [s2 [response|e|]]; apply Hone.
    + apply answer_answered; [by eexists|done..].
  - destruct (isOneWayCommand _) eqn:Ho; [by apply nack_answered|].
    pose proof (queue_empty_spec s (pdu_Header pdu) _ StatusInvalidBindState
      (refuse_encodes stale r (pdu_Header pdu) _ StatusInvalidBindState
        (answer_request _ (ex_intro _ def Hc) Hr Ho) (IsResponse_ResponseID _) ltac:(done))) as H.
    destruct (queueResponse _ _ _ _ _ _ _ _ _) as [s' [[]|e'|]]; cbn; [| |done].
    + left. eexists. split; [exact H|]. eexists _, _, _. split_and!; [done|apply framed_empty|by left].
    + destruct H as [Hs Hd]. split; [by apply others_items|by left].
Qed.
End answered.

(** ** The standard registries answer *)

Definition refusable_b (r : Registry) (id : Z) : bool :=
  match Command (Some r) id with
  | Some def => match cd_Encode def with
                | Some enc => is_ok (enc (AVal VEmptyBody) []) | None => false end
  | None => false
  end.
Definition answering_b (r : Registry) : bool :=
  forallb (fun x => IsResponse x.1 || isOneWayCommand x.1 || refusable_b r (ResponseID x.1))
    (map_to_list (r_commands r)).

Lemma answering_b_spec r c : answering_b r = true -> is_Some (Command (Some r) c) ->
  IsResponse c = false -> isOneWayCommand c = false -> refusable r (ResponseID c).
Proof.
  intros Hb [def Hd] Hr Ho. unfold answering_b in Hb. rewrite forallb_forall in Hb.
  specialize (Hb (c, def)). cbn in Hb. rewrite Hr, Ho in Hb. unfold refusable, refusable_b in *.
  destruct (Command (Some r) (ResponseID c)) as [d|].
  - destruct (cd_Encode d) as [enc|] eqn:He.
    + exists d, enc. split_and!; [done..|]. apply Hb. by apply list_elem_of_In, elem_of_map_to_list.
    + discriminate Hb. by apply list_elem_of_In, elem_of_map_to_list.
  - discriminate Hb. by apply list_elem_of_In, elem_of_map_to_list.
Qed.

Lemma standard_appends r id def enc body dst d `{!StandardRegistry r} :
  Command (Some r) id = Some def -> cd_Encode def = Some enc -> typed body ->
  enc body dst = Ok d -> dst `prefix_of` d.
Proof.
  intros Hc He Ht Hd. destruct (standard_command r _ def Hc) as (spec & dec & enc' & _ & _ & He' & Hbc).
  rewrite He in He'. injection He' as <-.
  assert (Hw : exists P out, wspec (enc body) P out).
  { destruct (view spec body) as [v|] eqn:Hv; [eauto using bc_encode|].
    destruct (bc_other (dec:=dec) body Ht Hv) as [?|[_ ?]]; eauto. }
  destruct Hw as (P & out & Hw). specialize (Hw dst). rewrite Hd in Hw. destruct Hw as [_ ->].
  by apply prefix_app_r.
Qed.

Lemma standard_acknowledges r id `{!StandardRegistry r} :
  is_Some (Command (Some r) id) -> command_spec id = Some spec_ResponseEmpty -> acknowledgeable r id.
Proof.
  intros [def Hc] Hid. destruct (standard_command r _ def Hc) as (spec & dec & enc & HS & _ & He & Hbc).
  rewrite Hid in HS. injection HS as <-.
  exists def, enc. split_and!; [done..|]. intros dst.
  pose proof (bc_encode (dec:=dec) (AVal VEmptyBody) [] ltac:(by repeat constructor) eq_refl dst) as Hw.
  destruct (enc _ dst) as [d|[d e]|]; [|exfalso; destruct Hw as [Hn _]; apply Hn; constructor|done].
  destruct Hw as [_ ->]. by rewrite app_nil_r.
Qed.

(** The registries a session is given by default, and their strict variants. *)
Lemma standard_answering r `{!StandardRegistry r} :
  answering_b r = true -> is_Some (Command (Some r) CommandGenericNACK) ->
  is_Some (Command (Some r) CommandEnquireLinkResp) -> is_Some (Command (Some r) CommandUnbindResp) ->
  Answering r.
Proof.
  intros Hb Hn He Hu. split; [..|intros id def enc body dst d; by apply standard_appends].
  - by apply standard_acknowledges.
  - intros _. by apply standard_acknowledges.
  - intros _. by apply standard_acknowledges.
  - intros c. by apply answering_b_spec.
Qed.

Lemma is_Some_b {A} (o : option A) : match o with Some _ => true | None => false end = true -> is_Some o.
Proof. destruct o; [eauto|done]. Qed.

Lemma smpp34_registry_answering mode :
  RegistryModeValid mode = true -> Answering (smpp34_registry mode).
Proof.
  intros Hm. pose proof (NewSMPP34Registry_standard _ _ (NewSMPP34Registry_ok mode Hm)) as Hs.
  unfold RegistryModeValid in Hm. apply orb_true_iff in Hm as [->%Z.eqb_eq| ->%Z.eqb_eq];
    (apply (standard_answering _ (StandardRegistry0:=Hs));
       [vm_compute; reflexivity|apply is_Some_b; vm_compute; reflexivity..]).
Qed.
Lemma smpp50_registry_answering mode :
  RegistryModeValid mode = true -> Answering (smpp50_registry mode).
Proof.
  intros Hm. pose proof (NewSMPP50Registry_standard _ _ (NewSMPP50Registry_ok mode Hm)) as Hs.
  unfold RegistryModeValid in Hm. apply orb_true_iff in Hm as [->%Z.eqb_eq| ->%Z.eqb_eq];
    (apply (standard_answering _ (StandardRegistry0:=Hs));
       [vm_compute; reflexivity|apply is_Some_b; vm_compute; reflexivity..]).
Qed.

(** ** The properties *)

Lemma terminate_tx s e : tx (terminate s e) = tx s.
Proof. unfold terminate. by destruct (closeErr s). Qed.

Lemma handleResponse_tx profile flow s pdu at' :
  tx (handleResponse profile flow s pdu at') = tx s.
Proof.
  assert (Hc : forall s, tx (observeCongestion flow s pdu) = tx s).
  { intros s1. unfold observeCongestion. destruct (negb _); [done|].
    destruct (CongestionStateFromOptional _) as [[st []] [e|]]; by destruct flow. }
  assert (Hn : forall s request, tx (negotiate_response profile s request pdu) = tx s).
  { intros s1 request. unfold negotiate_response. destruct (_ && _); [|done].
    destruct (pdu_Body pdu) as [|[]|[]|]; try done. destruct (SCInterfaceVersion _);
      by destruct (bindNegotiationProfile _ _). }
  unfold handleResponse. destruct (Table.takeResponse _ _ _) as [t [p|]]; [|done].
  destruct (Table.reqs t !! p) as [request|]; [|done]. cbv zeta.
  destruct (_ && _); rewrite ?terminate_tx; cbn [tx set_table]; by rewrite Hc, Hn.
Qed.

(** C9: Every frame gets its answer.  With a registry that can answer (the standard
    ones can) and for any handler, the receive step never panics, and:
    a frame that cannot be decoded ends the session when the error is fatal, and
    otherwise one generic_nack with its sequence number and a non-zero status is
    queued, unless the session is over; a response queues nothing; a request
    queues exactly one answer, its own response or a generic_nack under the
    request's sequence number, except for a one-way command and for a deliver_sm
    whose handler suppressed or deferred the acknowledgement.  A request fails
    the loop without an answer only when the session is over or the handler
    returned a response that cannot be sent. *)
Theorem frames_answered r profile limit flow stale handler select_tx now s fr :
  Answering r -> handler_ok handler -> select_ok select_tx ->
  let result := processFrame (Some r) profile limit flow stale handler select_tx now s fr in
  match DecodePDU fr (Some r) with
  | Ok pdu =>
      if IsResponse (CommandID (pdu_Header pdu))
      then rx_items result.1 = rx_items s /\ result.2 = Ok tt
      else answered s (pdu_Header pdu) (silent handler pdu) (handler_fault r profile stale handler pdu)
             result
  | Err e =>
      if is_fatal e then result = (s, Err e)
      else exists h st, DecodeHeader fr = Ok h /\ st <> 0 /\ result.2 = Ok tt /\
        (rx_items result.1 = rx_items s ++ [response_item h CommandGenericNACK st
           (empty_answer h CommandGenericNACK st)] \/
         rx_items result.1 = rx_items s /\ done result.1 = true)
  | Panic => False
  end.
Proof.
  intros Hr Hh Ha. cbv zeta. unfold processFrame. pose proof (DecodePDU_total fr (Some r)) as Hd.
  destruct (DecodePDU fr (Some r)) as [pdu|e|]; [| |done].
  - destruct (IsResponse _) eqn:Hresp.
    + split; [|done]. cbn [fst]. unfold rx_items. by rewrite handleResponse_tx.
    + by apply (handleRequest_answered r profile limit stale handler select_tx Hh Ha (note_inbound s now) pdu).
  - destruct (is_fatal e) eqn:Hf; [done|]. destruct Hd as [?|[h ->]]; [congruence|].
    exists h, (nack_status e). assert (Hs : nack_status e <> 0).
    { unfold nack_status. destruct (as_semantic e) as [st|]; [|done].
      by destruct (Z.eqb_spec st 0). }
    unfold queueGenericNACK. pose proof (queue_empty_spec r stale select_tx Ha s h CommandGenericNACK
      (nack_status e) (acknowledge_encodes stale r h _ _ answer_nack)) as H.
    destruct (queueResponse _ _ _ _ _ _ _ _ _) as [s' [[]|e'|]]; cbn [fst snd]; [| |done];
      (split_and!; [done..|]); [by left|]. destruct H as [Ho Hdone]. right.
    split; [by apply others_items|done].
Qed.

Lemma terminate_closed s e : closeErr (terminate s e) <> None.
Proof. unfold terminate. destruct (closeErr s) eqn:H; [by rewrite H|done]. Qed.

Section stream.
Context (r : option Registry) (profile : Profile) (limit : Z) (flow : bool) (stale : bytes).
Context (handler : option (Session -> DecodedPDU -> Session * res Response)).
Context (select_tx : Session -> Session * bool) (clock : Session -> Z) (grow : Z -> Z -> Z).
Abbreviation callback := (rx_callback r profile limit flow stale handler select_tx clock).

Definition ended (x : outcome GoError (Framer * Session * option GoError))
    : outcome GoError (Framer * Session * option GoError) :=
  match x with
  | Ok (f, s, Some e) => Ok (f, terminate s e, Some e)
  | Ok (f, s, None) => Ok (f, s, None)
  | _ => Panic
  end.

Lemma rxLoop_feed_all reads : forall f s,
  exists n, rxLoop r profile limit flow stale handler select_tx clock grow f s reads =
    ended (feed_all grow (Some callback) f s (take n reads)) /\
    forall f' s', rxLoop r profile limit flow stale handler select_tx clock grow f s reads =
      Ok (f', s', None) -> (n < length reads)%nat -> done s' = true.
Proof.
  induction reads as [|data reads IH]; intros f s; [exists 0%nat; split; [done|cbn; lia]|].
  cbn [rxLoop]. unfold rx_read.
  destruct (Feed grow (Some callback) (Some f) s data) as [[[[f1|] s1] [e|]]|e|] eqn:Hf;
    try by exists 1%nat; cbn [firstn take feed_all]; rewrite Hf.
  cbn [mbind outcome_bind]. destruct (done s1) eqn:Hd.
  - exists 1%nat. cbn [firstn take feed_all]. rewrite Hf. split; [done|]. by intros f' s' [= <- <-].
  - destruct (IH f1 s1) as (n & Hn & Hlt). exists (S n). cbn [firstn take feed_all]. rewrite Hf.
    split; [done|]. intros f' s' Hr Hl. apply (Hlt f' s' Hr). cbn in Hl. lia.
Qed.
(** From any point of the stream: the octets of the unfinished PDU come first. *)
Lemma rxLoop_frames f s reads : wf f -> no_complete f -> failed f = None ->
  exists n f' s' e, rxLoop r profile limit flow stale handler select_tx clock grow f s reads = Ok (f', s', e) /\
    ((n < length reads)%nat -> e <> None \/ done s' = true) /\
    (e <> None -> closeErr s' <> None) /\
    let (frames, t) := deframe (maxPDUSize f) (pending f ++ concat (take n reads)) in
    let (s1, err) := run_frames
      (Some (rx_callback r profile limit flow stale handler select_tx clock)) s frames in
    match err, t with
    | Some err, _ => e = Some err /\ s' = terminate s1 err
    | None, Partial rest => e = None /\ s' = s1 /\ pending f' = rest
    | None, Bad k l => exists command sequence,
        e = Some (EFatal (MkFatalError k l command sequence)) /\
        s' = terminate s1 (EFatal (MkFatalError k l command sequence))
    end.
Proof.
  intros Hwf Hnc Hf. destruct (rxLoop_feed_all reads f s) as (n & Hloop & Hdone). exists n.
  destruct (feed_all_spec grow (Some (rx_callback r profile limit flow stale handler select_tx clock))
    (take n reads) f s Hwf Hf Hnc) as (f' & s' & e & Hall & Hok).
  rewrite Hall in Hloop.
  destruct (deframe _ (pending f ++ concat (take n reads))) as [frames t]. destruct Hok as (_ & _ & Hs & Hcase).
  destruct (run_frames _ s frames) as [s1 [err|]]; cbn [fst snd] in *; subst s1.
  - destruct Hcase as [-> _]. eexists f', _, (Some err). split; [exact Hloop|].
    split; [by left|]. split; [intros _; apply terminate_closed|done].
  - destruct t as [rest|k l].
    + destruct Hcase as (-> & _ & Hrest & _). exists f', s', None. split_and!; try done.
      intros Hl. right. by apply (Hdone f' s').
    + destruct Hcase as (command & seq & -> & _). eexists f', _, (Some _). split; [exact Hloop|].
      split; [by left|]. split; [intros _; apply terminate_closed|]. eauto.
Qed.
End stream.

(** C10: The stream decides, not its reads.  However the transport cuts the octets
    into reads, the receive loop hands the session exactly the PDUs that the
    command_lengths of the octets read delimit, in order; it ends the session at
    the first PDU the session refuses, with that error, or at a malformed
    command_length, with the fatal error for it, and otherwise keeps the octets
    of the unfinished PDU.  It leaves octets unread only after such an error or
    when the session is over. *)
Theorem rxLoop_stream r profile limit flow stale handler select_tx clock grow max f s reads :
  NewFramer max = Ok f ->
  exists n f' s' e,
    rxLoop r profile limit flow stale handler select_tx clock grow f s reads = Ok (f', s', e) /\
    ((n < length reads)%nat -> e <> None \/ done s' = true) /\
    (e <> None -> closeErr s' <> None) /\
    let (frames, t) := deframe (maxPDUSize f) (concat (take n reads)) in
    let (s1, err) := run_frames
      (Some (rx_callback r profile limit flow stale handler select_tx clock)) s frames in
    match err, t with
    | Some err, _ => e = Some err /\ s' = terminate s1 err
    | None, Partial rest => e = None /\ s' = s1 /\ pending f' = rest
    | None, Bad k l => exists command sequence,
        e = Some (EFatal (MkFatalError k l command sequence)) /\
        s' = terminate s1 (EFatal (MkFatalError k l command sequence))
    end.
Proof.
  intros Hn. destruct (NewFramer_wf max f Hn) as (Hwf & Hnc & Hf & Hp & _).
  pose proof (rxLoop_frames r profile limit flow stale handler select_tx clock grow f s reads Hwf Hnc Hf) as H.
  by rewrite Hp in H.
Qed.

(** A receiver that is bound, a handler that accepts everything and a queue with
    room. *)
Definition sample_session : Session :=
  MkSession (MkStateMachine RoleSMSC StateBoundTRX 0 0 StateClosed StateClosed)
    (Table.newPendingTable 4 (Window.newRequestWindow 2)) zeroCapabilities [] ∅ None false 0 0 [].
Definition sample_handler (s : Session) (pdu : DecodedPDU) : Session * res Response :=
  (s, Ok (MkResponse StatusOK (AVal VEmptyBody) ResponseImmediate)).
Definition sample_enquire : bytes :=
  be32_put 16 ++ be32_put CommandEnquireLink ++ be32_put 0 ++ be32_put 7.

Lemma frames_answered_witness :
  let pdu := MkDecodedPDU (MkHeader 16 CommandEnquireLink 0 7) (AVal VEmptyBody) in
  let reg := smpp34_registry RegistryStrict in
  answered sample_session (pdu_Header pdu) (silent (Some sample_handler) pdu)
    (handler_fault reg SMPP34Profile [] (Some sample_handler) pdu)
    (processFrame (Some reg) SMPP34Profile 8 false [] (Some sample_handler) (fun s => (s, true)) 5
       sample_session sample_enquire).
Proof.
  cbv zeta.
  pose proof (frames_answered (smpp34_registry RegistryStrict) SMPP34Profile 8 false []
    (Some sample_handler) (fun s => (s, true)) 5 sample_session sample_enquire
    (smpp34_registry_answering RegistryStrict eq_refl)) as H.
  replace (DecodePDU sample_enquire (Some (smpp34_registry RegistryStrict))) with
    (Ok (E:=GoError) (MkDecodedPDU (MkHeader 16 CommandEnquireLink 0 7) (AVal VEmptyBody))) in H
    by (vm_compute; reflexivity).
  apply H.
  - intros s pdu. split; [done|]. intros response [= <-]. by repeat constructor.
  - intros s. by split.
Defined.

(** Two requests in three reads. *)
Lemma rxLoop_stream_witness :
  let reads := [take 5 sample_enquire; drop 5 sample_enquire ++ take 3 sample_enquire;
                drop 3 sample_enquire] in
  let callback := rx_callback (Some (smpp34_registry RegistryStrict)) SMPP34Profile 8 false []
    (Some sample_handler) (fun s => (s, true)) (fun _ => 5) in
  exists n f' s' e, rxLoop (Some (smpp34_registry RegistryStrict)) SMPP34Profile 8 false []
      (Some sample_handler) (fun s => (s, true)) (fun _ => 5) (fun old need => Z.max old need)
      (MkFramer 1048576 [] 0 0 None) sample_session reads = Ok (f', s', e) /\
    ((n < length reads)%nat -> e <> None \/ done s' = true) /\
    (e <> None -> closeErr s' <> None) /\
    let (frames, t) := deframe 1048576 (concat (take n reads)) in
    let (s1, err) := run_frames (Some callback) sample_session frames in
    match err, t with
    | Some err, _ => e = Some err /\ s' = terminate s1 err
    | None, Partial rest => e = None /\ s' = s1 /\ pending f' = rest
    | None, Bad k l => exists command sequence,
        e = Some (EFatal (MkFatalError k l command sequence)) /\
        s' = terminate s1 (EFatal (MkFatalError k l command sequence))
    end.
Proof.
  cbv zeta. apply (rxLoop_stream (Some (smpp34_registry RegistryStrict)) SMPP34Profile 8 false []
    (Some sample_handler) (fun s => (s, true)) (fun _ => 5) (fun old need => Z.max old need) 0
    (MkFramer 1048576 [] 0 0 None) sample_session). reflexivity.
Defined.

(** What the application may call keeps to [others]. *)
Lemma terminate_others s e : others s (terminate s e).
Proof.
  split; [exists []; by rewrite terminate_tx, app_nil_r|].
  unfold terminate. by destruct (closeErr s).
Qed.
Lemma AbandonDeferredResponse_others s request : others s (AbandonDeferredResponse s request).1.
Proof.
  unfold AbandonDeferredResponse. destruct (_ || _); [done|].
  destruct (deferredReplies s !! _) as [[]|]; try done. by apply same_tx.
Qed.
Lemma RespondDeferred_others r stale select_tx s request response :
  select_ok select_tx -> others s (RespondDeferred r stale select_tx s request response).1.
Proof.
  intros Ha. unfold RespondDeferred. destruct (_ || _); [done|]. destruct (done s) eqn:Hd; [done|].
  unfold respond_begin. destruct (deferredReplies s !! _) as [[]|]; try done.
  set (s1 := set_deferred s _). assert (H1 : others s s1) by by apply same_tx.
  assert (Hend : forall s2 ok, others s2 (respond_end s2 (SequenceNumber request) ok)).
  { intros s2 []; unfold respond_end; [by apply same_tx|].
    destruct (deferredReplies s2 !! _); [by apply same_tx|done]. }
  transitivity s1; [done|]. unfold queueResponse. destruct (EncodePDU _ _ _ _ _) as [fr|[d e]|]; try done.
  - destruct (Ha s1) as [Ho _]. destruct (select_tx s1) as [s2 []]; cbn [fst] in *.
    + transitivity s2; [done|]. etransitivity; [|apply Hend].
      split; [|done]. cbn. eexists [_]. split; [done|]. by repeat constructor.
    + transitivity s2; [done|apply Hend].
  - apply Hend.
Qed.

(** ** Three behaviours worth knowing *)

(** A request that [Session.request] registers after [terminate] has emptied the
    table: it passed the checks of [done] and of the state machine before, and
    nothing settles it any more, because a second [terminate] does nothing. *)
Definition late_request : Table.pendingRequest := Table.new_request CommandEnquireLink 0.
Definition late_session : Session :=
  let s := terminate sample_session (ESentinel ErrSessionClosed) in
  match Table.insert (Table.set_req (table s) 1 late_request) 1 1%positive with
  | Ok t => set_table s t | _ => s end.

Lemma late_request_never_settles :
  is_ok (BeginOutbound (Some (machine sample_session)) CommandEnquireLink) = true /\
  done sample_session = false /\ done late_session = true /\
  Table.m (table late_session) !! 1 = Some 1%positive /\
  (forall e, terminate late_session e = late_session) /\
  Table.pdone <$> Table.reqs (table late_session) !! 1%positive = Some [].
Proof. split_and!; vm_compute; reflexivity. Qed.

(** A generic_nack with command_status 0 completes a bind: the state machine is
    bound, while the caller of [bind] is told that the bind failed. *)
Definition binding_session : Session :=
  MkSession (MkStateMachine RoleESME StateOpen CommandBindTransceiver 0 StateClosed StateClosed)
    (Table.MkTable 4 {[1 := 1%positive]} {[1%positive := Table.new_request CommandBindTransceiver 52]}
       (Window.newRequestWindow 2) [])
    zeroCapabilities [] ∅ None false 0 0 [].

Lemma zero_nack_binds :
  sm_state (machine (handleResponse SMPP34Profile false binding_session
    (MkDecodedPDU (MkHeader 16 CommandGenericNACK 0 1) (AVal VEmptyBody)) 5)) = StateBoundTRX.
Proof. vm_compute. reflexivity. Qed.

(** When the encoder of a bind response panics, the peer gets a generic_nack but
    the bind stays pending: the next bind is refused. *)
Definition panicking_registry : Registry :=
  MkRegistry RegistryStrict
    (<[CommandBindTransceiverResp := command_def CommandBindTransceiverResp "bind_transceiver_resp"
        decodeBindResponse (fun _ _ => Panic)]> (r_commands (smpp34_registry RegistryStrict))) ∅.
Definition open_session : Session :=
  MkSession (MkStateMachine RoleSMSC StateOpen 0 0 StateClosed StateClosed)
    (Table.newPendingTable 4 (Window.newRequestWindow 2)) zeroCapabilities [] ∅ None false 0 0 [].
Definition bind_pdu (command seq : Z) : DecodedPDU :=
  MkDecodedPDU (MkHeader 40 command 0 seq)
    (AVal (VBindRequest (MkBindRequest [] [] [] InterfaceVersion34 0 0 []))).

Definition bind_twice : Session :=
  let h := handleRequest (Some panicking_registry) SMPP34Profile 8 [] (Some sample_handler)
             (fun s => (s, true)) in
  (h (h open_session (bind_pdu CommandBindTransceiver 1)).1 (bind_pdu CommandBindTransmitter 2)).1.

Lemma bind_panic_sticks :
  pendingPeerBind (machine bind_twice) = CommandBindTransceiver /\
  map (fun i => (CommandID (header i), status i, sequence i)) (rx_items bind_twice) =
    [(CommandGenericNACK, StatusSystemError, 1);
     (CommandBindTransmitterResp, StatusInvalidBindState, 2)].
Proof. vm_compute. done. Qed.
