(* ===== verification/Panics.v ===== *)
(** * Containing the panics of callbacks (src/session/panic.go; emitEvent and
    tracePacket of src/session/observability.go)

    Code of the application runs on the goroutines of a session: its observer, its
    packet tracer, the handler of its logger.  A panic there is recovered and
    reported, to the counter, to the logger and to the observer; both may panic
    again while they are told. *)

From S2P Require Import Prelude Protocol.

(** The sources of a panic that matter here. *)
Inductive source : Set := SourceLogger | SourceObserver | SourceOther (name : string).

#[export] Instance source_eq_dec : EqDecision source.
Proof. solve_decision. Defined.

(** What callbacks can be seen to do: the panics counted, the records the logger and
    the events the observer accepted. *)
Record reports := MkReports {
  panicsRecovered : Z;
  logged : list source;
  emitted : list (option source)
}.
Definition count_panic (s : reports) : reports := MkReports (u64 (panicsRecovered s + 1)) (logged s) (emitted s).
Definition add_log (s : reports) (x : source) : reports := MkReports (panicsRecovered s) (logged s ++ [x]) (emitted s).
Definition add_event (s : reports) (x : option source) : reports :=
  MkReports (panicsRecovered s) (logged s) (emitted s ++ [x]).

(** [Panicked] is a call that panics. *)
Inductive call (A : Type) := Came (a : A) | Panicked.
Arguments Came {A} a.
Arguments Panicked {A}.

Section panics.
(** The configured logger's handler and the observer, [None] when there is none; what
    they do may depend on what was reported before. *)
Context (Enabled : reports -> source -> call bool) (Handle : reports -> source -> call unit).
Context (Observer : option (reports -> option source -> call unit)).

Section step.
(** [reportPanic], as far as it is needed below. *)
Context (report : source -> reports -> option reports).

(** [panicSafeHandler.Enabled] and [Handle], called by the logger. *)
Definition safe_Enabled (x : source) (s : reports) : option (reports * bool) :=
  match Enabled s x with
  | Came b => Some (s, b)
  | Panicked => s ← report SourceLogger s; Some (s, false)
  end.
Definition safe_Handle (x : source) (s : reports) : option reports :=
  match Handle s x with
  | Came _ => Some (add_log s x)
  | Panicked => report SourceLogger s
  end.
Definition log_error (x : source) (s : reports) : option reports :=
  '(s, enabled) ← safe_Enabled x s; if (enabled : bool) then safe_Handle x s else Some s.

(** [emitEvent]; the event of a recovered panic names its source. *)
Definition emitEvent (x : option source) (s : reports) : option reports :=
  match Observer with
  | None => Some s
  | Some OnEvent => match OnEvent s x with
                    | Came _ => Some (add_event s x)
                    | Panicked => report SourceObserver s
                    end
  end.
End step.

(** Go's stack bounds the depth of the recursion: [None] is a stack overflow, which no
    [recover] can catch. *)
Fixpoint reportPanic (depth : nat) (x : source) (s : reports) : option reports :=
  match depth with
  | O => None
  | S depth =>
      let s := count_panic s in
      s ← if decide (x = SourceLogger) then Some s else log_error (reportPanic depth) x s;
      if decide (x = SourceObserver) then Some s else emitEvent (reportPanic depth) (Some x) s
  end.

(** A call into the application's code, behind [recoverCallback]. *)
Definition recoverCallback (depth : nat) (x : source) (callback : reports -> call reports) (s : reports)
    : option reports :=
  match callback s with
  | Came s => Some s
  | Panicked => reportPanic depth x s
  end.
Definition guard := recoverCallback.

(** [errors.As(err, &p)], as the source of the panic. *)
Fixpoint as_panic (e : GoError) : option string :=
  match e with
  | EPanic name => Some name
  | ESemantic _ _ _ (Some e') | ELoss e' | EOther _ (Some e') => as_panic e'
  | _ => None
  end.
Definition source_of (name : string) : source :=
  if String.eqb name "session.Logger" then SourceLogger
  else if String.eqb name "session.Observer" then SourceObserver else SourceOther name.
Definition reportIfPanic (depth : nat) (err : GoError) (s : reports) : option reports :=
  match as_panic err with
  | Some name => reportPanic depth (source_of name) s
  | None => Some s
  end.

(** [tracePacket], with the tracer of the configuration; the raw octets are a copy,
    and only there when asked for. *)
Definition tracePacket (depth : nat) (tracer : option (reports -> option bytes -> call reports))
    (TraceRawPDU : bool) (frame : bytes) (s : reports) : option reports :=
  match tracer with
  | None => Some s
  | Some TracePacket =>
      recoverCallback depth (SourceOther "session.PacketTracer")
        (fun s => TracePacket s (if TraceRawPDU then Some ([] ++ frame) else None)) s
  end.

(** ** One of the two is enough *)

(** The logger never panics; the observer never panics. *)
Definition logger_safe : Prop := forall s x, Enabled s x <> Panicked /\ Handle s x <> Panicked.
Definition observer_safe : Prop :=
  forall OnEvent, Observer = Some OnEvent -> forall s x, OnEvent s x <> Panicked.

(** The panics counted by a report. *)
Definition reported (s s' : reports) (n : Z) : Prop :=
  panicsRecovered s' = u64 (panicsRecovered s + n).

Lemma count_count s : reported s (count_panic (count_panic s)) 2.
Proof.
  unfold reported, count_panic, u64. cbn [panicsRecovered]. rewrite Zplus_mod_idemp_l. f_equal. lia.
Qed.

Lemma log_safe report x s : logger_safe ->
  exists s', log_error report x s = Some s' /\ panicsRecovered s' = panicsRecovered s /\
    emitted s' = emitted s.
Proof.
  intros Hl. unfold log_error, safe_Enabled. destruct (Hl s x) as [He _].
  destruct (Enabled s x) as [b|]; [|done]. cbn. destruct b; [|eauto]. unfold safe_Handle.
  destruct (Hl s x) as [_ Hh]. destruct (Handle s x); [|done]. eauto.
Qed.

Lemma emit_safe report x s : observer_safe ->
  exists s', emitEvent report x s = Some s' /\ panicsRecovered s' = panicsRecovered s /\ logged s' = logged s.
Proof.
  intros Ho. unfold emitEvent. destruct Observer as [f|] eqn:Hf; [|eauto].
  pose proof (Ho f Hf s x). destruct (f s x); [|done]. eauto.
Qed.

(** A report to a safe logger about the observer, and to a safe observer about the
    logger, goes no deeper. *)
Lemma report_observer depth s : logger_safe ->
  exists s', reportPanic (S depth) SourceObserver s = Some s' /\ panicsRecovered s' = panicsRecovered (count_panic s).
Proof.
  intros Hl. cbn [reportPanic]. destruct (decide (SourceObserver = SourceLogger)); [done|].
  destruct (log_safe (reportPanic depth) SourceObserver (count_panic s) Hl) as (s1 & H1 & H2 & _). rewrite H1. cbn.
  destruct (decide (SourceObserver = SourceObserver)); [eauto|done].
Qed.
Lemma report_logger depth s : observer_safe ->
  exists s', reportPanic (S depth) SourceLogger s = Some s' /\ panicsRecovered s' = panicsRecovered (count_panic s).
Proof.
  intros Ho. cbn [reportPanic]. destruct (decide (SourceLogger = SourceLogger)); [|done]. cbn.
  destruct (decide (SourceLogger = SourceObserver)); [done|].
  destruct (emit_safe (reportPanic depth) (Some SourceLogger) (count_panic s) Ho) as (s' & H1 & H2 & _). eauto.
Qed.

Lemma report_returns depth x s : logger_safe \/ observer_safe ->
  exists s', reportPanic (S (S depth)) x s = Some s' /\ (reported s s' 1 \/ reported s s' 2).
Proof.
  intros Hsafe. change (reportPanic (S (S depth)) x s) with
    (s1 ← (if decide (x = SourceLogger) then Some (count_panic s)
           else log_error (reportPanic (S depth)) x (count_panic s));
     if decide (x = SourceObserver) then Some s1 else emitEvent (reportPanic (S depth)) (Some x) s1).
  assert (Hone : forall s', panicsRecovered s' = panicsRecovered (count_panic s) -> reported s s' 1) by done.
  assert (Htwo : forall s1 s', panicsRecovered s1 = panicsRecovered (count_panic s) ->
    panicsRecovered s' = panicsRecovered (count_panic s1) -> reported s s' 2).
  { intros s1 s' H1 H'. pose proof (count_count s) as Hc. unfold reported in *. rewrite H', <- Hc.
    unfold count_panic in *. cbn [panicsRecovered] in *. by rewrite H1. }
  destruct Hsafe as [Hl|Ho].
  - assert (Hlog : exists s1, (if decide (x = SourceLogger) then Some (count_panic s)
      else log_error (reportPanic (S depth)) x (count_panic s)) = Some s1 /\
      panicsRecovered s1 = panicsRecovered (count_panic s)).
    { destruct (decide (x = SourceLogger)); [eauto|].
      destruct (log_safe (reportPanic (S depth)) x (count_panic s) Hl) as (s1 & H1 & H2 & _). eauto. }
    destruct Hlog as (s1 & -> & H1). cbn. destruct (decide (x = SourceObserver)); [eauto|].
    unfold emitEvent. destruct Observer as [f|] eqn:Hf; [|eauto]. destruct (f s1 (Some x)); [eauto|].
    destruct (report_observer depth s1 Hl) as (s2 & H2 & H3). exists s2. split; [exact H2|eauto].
  - assert (Hlog : exists s1, (if decide (x = SourceLogger) then Some (count_panic s)
      else log_error (reportPanic (S depth)) x (count_panic s)) = Some s1 /\
      (reported s s1 1 \/ reported s s1 2)).
    { destruct (decide (x = SourceLogger)); [eauto|]. unfold log_error, safe_Enabled, safe_Handle.
      destruct (report_logger depth (count_panic s) Ho) as (s2 & H2 & H3).
      destruct (Enabled (count_panic s) x) as [[]|]; cbn [mbind option_bind].
      - destruct (Handle (count_panic s) x); [eauto|]. rewrite H2. eauto.
      - eauto.
      - rewrite H2. cbn [mbind option_bind]. eauto. }
    destruct Hlog as (s1 & -> & H1). cbn. destruct (decide (x = SourceObserver)); [eauto|].
    destruct (emit_safe (reportPanic (S depth)) (Some x) s1 Ho) as (s2 & H2 & H3 & _). exists s2.
    unfold reported in *. rewrite H3. eauto.
Qed.
End panics.

(** C31: Reporting a panic returns.  If the logger never panics, or the observer never
    does (or there is none), reporting a recovered panic ends after at most one nested
    report, whatever the other callback does and wherever the panic came from, and
    counts one panic or two; so a callback behind [recoverCallback], the packet tracer
    and an error that carries a panic never stop the session. *)
Theorem reportPanic_returns Enabled Handle Observer depth x s :
  logger_safe Enabled Handle \/ observer_safe Observer -> (2 <= depth)%nat ->
  (exists s', reportPanic Enabled Handle Observer depth x s = Some s' /\
     (reported s s' 1 \/ reported s s' 2)) /\
  (forall callback, is_Some (recoverCallback Enabled Handle Observer depth x callback s)) /\
  (forall tracer raw frame, is_Some (tracePacket Enabled Handle Observer depth tracer raw frame s)) /\
  (forall err, is_Some (reportIfPanic Enabled Handle Observer depth err s)).
Proof.
  intros Hsafe Hd. destruct depth as [|[|depth]]; [lia|lia|].
  assert (Hret : forall x s, is_Some (reportPanic Enabled Handle Observer (S (S depth)) x s)).
  { intros x' s'. destruct (report_returns Enabled Handle Observer depth x' s' Hsafe) as (s1 & -> & _). eauto. }
  assert (Hcall : forall x callback, is_Some (recoverCallback Enabled Handle Observer (S (S depth)) x callback s)).
  { intros x' f. unfold recoverCallback. destruct (f s); [eauto|apply Hret]. }
  split_and!; [by apply report_returns|apply Hcall| |].
  - intros [f|] raw frame; [apply Hcall|by eexists].
  - intros err. unfold reportIfPanic. destruct (as_panic err); [apply Hret|eauto].
Qed.

Definition quiet_enabled (s : reports) (x : source) : call bool := Came true.
Definition exploding {A} (s : reports) (x : A) : call unit := Panicked.

Lemma reportPanic_returns_witness : exists s',
  reportPanic quiet_enabled exploding None 2 (SourceOther "session.Handler") (MkReports 0 [] []) = Some s' /\
  (reported (MkReports 0 [] []) s' 1 \/ reported (MkReports 0 [] []) s' 2).
Proof.
  apply (reportPanic_returns quiet_enabled exploding None 2 (SourceOther "session.Handler") (MkReports 0 [] []));
    [|lia]. right. intros f Hf. discriminate Hf.
Defined.

(** When both always panic, each report of one panic makes the other panic: no stack is
    deep enough. *)
Lemma report_never_returns depth : forall x s,
  reportPanic quiet_enabled exploding (Some exploding) depth x s = None.
Proof.
  induction depth as [|depth IH]; intros x s; [done|]. cbn [reportPanic].
  destruct (decide (x = SourceLogger)) as [-> |Hx].
  - cbn. destruct (decide (SourceLogger = SourceObserver)); [done|]. unfold emitEvent, exploding. apply IH.
  - unfold log_error, safe_Enabled, safe_Handle, quiet_enabled, exploding. cbn.
    pose proof (IH SourceLogger (count_panic s)) as Hn. unfold quiet_enabled, exploding in Hn. by rewrite Hn.
Qed.
