(* ===== verification/Metrics.v ===== *)
(** * The counters of a session (src/session/observability.go)

    Counters are atomics that the goroutines of a session update without a lock, so an
    update is a sequence of single atomic steps. *)

From S2P Require Import Prelude Protocol Fields Pending Receive.

Inductive counter : Set :=
| requestsSent | requestsReceived | responsesSent | responsesReceived | responseTimeouts
| sessionInitTimeouts | inactivityTimeouts | enquireLinkSent | enquireLinkReceived
| enquireLinkResponses | enquireLinkTimeouts | decodeFailures | fatalProtocolErrors | rttSamples
| rttTotalNS | rttLastNS | rttMaxNS | congestionSamples | lastCongestion | panicsRecovered.

#[export] Instance counter_eq_dec : EqDecision counter.
Proof. solve_decision. Defined.

Definition sessionMetrics : Type := counter -> Z.
Definition no_metrics : sessionMetrics := fun _ => 0.
Definition store (c : counter) (v : Z) (m : sessionMetrics) : sessionMetrics :=
  fun c' => if decide (c = c') then v else m c'.
(** [Add(1)] of an [atomic.Uint64], [Add] of an [atomic.Int64]. *)
Definition add1 (c : counter) (m : sessionMetrics) : sessionMetrics := store c (u64 (m c + 1)) m.
Definition add_int64 (c : counter) (v : Z) (m : sessionMetrics) : sessionMetrics := store c (i64 (m c + v)) m.

Definition noteCongestion (state : Z) (m : sessionMetrics) : sessionMetrics :=
  add1 congestionSamples (store lastCongestion (u32 state) m).

(** ** noteRTT

    Where a call stands; [Loaded] has read the maximum [old]. *)
Inductive rtt_pc := Begin | Sampled | Totalled | Retry | Loaded (old : Z) | Returned.
Record rtt_call := MkCall { rc_duration : Z; rc_at : rtt_pc }.

(** One atomic step of a call. *)
Definition noteRTT_step (c : rtt_call) (m : sessionMetrics) : option (rtt_call * sessionMetrics) :=
  let value := rc_duration c in
  let goto l := MkCall value l in
  match rc_at c with
  | Begin => if value <? 0 then Some (goto Returned, m) else Some (goto Sampled, add1 rttSamples m)
  | Sampled => Some (goto Totalled, add_int64 rttTotalNS value m)
  | Totalled => Some (goto Retry, store rttLastNS value m)
  | Retry => Some (goto (Loaded (m rttMaxNS)), m)
  | Loaded old =>
      if value <=? old then Some (goto Returned, m)
      else if m rttMaxNS =? old then Some (goto Returned, store rttMaxNS value m)
      else Some (goto Retry, m)
  | Returned => None
  end.

Record rtt_world := MkRTTWorld { rw_calls : list rtt_call; rw_metrics : sessionMetrics }.
Inductive rtt_step : rtt_world -> rtt_world -> Prop :=
| RStep calls1 c calls2 m c' m' : noteRTT_step c m = Some (c', m') ->
    rtt_step (MkRTTWorld (calls1 ++ c :: calls2) m) (MkRTTWorld (calls1 ++ c' :: calls2) m').

(** One call for every duration. *)
Definition rtt_start (durations : list Z) : rtt_world :=
  MkRTTWorld (map (fun d => MkCall d Begin) durations) no_metrics.

Definition finished (w : rtt_world) : Prop := Forall (fun c => rc_at c = Returned) (rw_calls w).

(** The valid samples, and what they come to. *)
Definition samples (durations : list Z) : list Z := List.filter (Z.leb 0) durations.
Definition total (l : list Z) : Z := foldr Z.add 0 l.
Definition largest (l : list Z) : Z := foldr Z.max 0 l.

(** ** Every call returns *)

Definition sum_of {A} (f : A -> Z) (l : list A) : Z := foldr (fun x n => f x + n) 0 l.

Lemma sum_middle {A} (f : A -> Z) l1 x l2 : sum_of f (l1 ++ x :: l2) = f x + sum_of f (l1 ++ l2).
Proof. unfold sum_of. induction l1 as [|y l1 IH]; [done|]. cbn [app foldr]. rewrite IH. lia. Qed.
Lemma sum_le {A} (f g : A -> Z) l : (forall x, x ∈ l -> f x <= g x) -> sum_of f l <= sum_of g l.
Proof.
  unfold sum_of. induction l as [|x l IH]; intros H; cbn [foldr]; [lia|].
  assert (Hx : f x <= g x) by (apply H; by left).
  assert (foldr (fun x n => f x + n) 0 l <= foldr (fun x n => g x + n) 0 l).
  { apply IH. intros y Hy. apply H. by right. }
  lia.
Qed.
Lemma sum_plus {A} (f : A -> Z) k l : sum_of (fun x => f x + k) l = sum_of f l + k * zlen l.
Proof.
  unfold sum_of. induction l as [|x l IH]; cbn [foldr length]; [lia|]. rewrite IH. lia.
Qed.
Lemma sum_ext {A} (f g : A -> Z) l : (forall x, x ∈ l -> f x = g x) -> sum_of f l = sum_of g l.
Proof. intros H. apply Z.le_antisymm; apply sum_le; intros x Hx; rewrite H; (done || lia). Qed.

(** The steps a call may still take while no other call changes the maximum: one whose
    reading is out of date has to go round again. *)
Definition steps_left (max : Z) (c : rtt_call) : Z :=
  match rc_at c with
  | Begin => 6 | Sampled => 5 | Totalled => 4 | Retry => 3
  | Loaded old => if old =? max then 2 else 4
  | Returned => 0
  end.
Definition running (c : rtt_call) : Z := match rc_at c with Returned => 0 | _ => 1 end.

(** A change of the maximum sends at most every other call round again. *)
Definition steps_bound (w : rtt_world) : Z :=
  sum_of (steps_left (rw_metrics w rttMaxNS)) (rw_calls w) + 2 * zlen (rw_calls w) * sum_of running (rw_calls w).

Lemma store_eq c v m : store c v m c = v.
Proof. unfold store. by rewrite decide_True. Qed.
Lemma store_ne c v m c' : c <> c' -> store c v m c' = m c'.
Proof. intros. unfold store. by rewrite decide_False. Qed.

Lemma steps_left_other max max' c : steps_left max' c <= steps_left max c + 2.
Proof. unfold steps_left. destruct (rc_at c); try lia. repeat case_match; lia. Qed.

(** What one step does to the maximum and to the bound of the call itself. *)
Lemma noteRTT_step_bound c m c' m' : noteRTT_step c m = Some (c', m') ->
  (m' rttMaxNS = m rttMaxNS /\ running c' <= running c /\
   steps_left (m rttMaxNS) c' < steps_left (m rttMaxNS) c) \/
  (running c' = 0 /\ running c = 1 /\ steps_left (m' rttMaxNS) c' = 0 /\ 0 <= steps_left (m rttMaxNS) c).
Proof.
  destruct c as [d [| | | |old|]]; unfold noteRTT_step, add1, add_int64; cbn [rc_at rc_duration].
  - destruct (d <? 0); intros [= <- <-]; left; rewrite ?store_ne by done; cbn; lia.
  - intros [= <- <-]. left. rewrite ?store_ne by done. cbn. lia.
  - intros [= <- <-]. left. rewrite ?store_ne by done. cbn. lia.
  - intros [= <- <-]. left. cbn. rewrite Z.eqb_refl. lia.
  - destruct (d <=? old); [intros [= <- <-]; left; unfold steps_left, running; cbn; case_match; lia|].
    destruct (Z.eqb_spec (m rttMaxNS) old) as [->|Hne]; intros [= <- <-].
    + right. unfold steps_left, running. cbn. rewrite Z.eqb_refl. lia.
    + left. unfold steps_left, running. cbn. destruct (Z.eqb_spec old (m rttMaxNS)); lia.
  - done.
Qed.

Lemma length_middle {A} (l1 l2 : list A) x : zlen (l1 ++ x :: l2) = zlen (l1 ++ l2) + 1.
Proof. rewrite !length_app. cbn. lia. Qed.

Lemma rtt_step_bound w w' : rtt_step w w' -> steps_bound w' + 1 <= steps_bound w.
Proof.
  intros [l1 c l2 m c' m' Hs]. unfold steps_bound. cbn [rw_calls rw_metrics].
  rewrite !sum_middle, !length_middle. set (l := l1 ++ l2).
  assert (Hl : 0 <= zlen l) by lia.
  destruct (noteRTT_step_bound _ _ _ _ Hs) as [(Hm & Hr & Hlt)|(H0 & H1 & H2 & H3)].
  - rewrite Hm. nia.
  - rewrite H0, H1, H2.
    assert (sum_of (steps_left (m' rttMaxNS)) l <= sum_of (steps_left (m rttMaxNS)) l + 2 * zlen l).
    { rewrite <- sum_plus. apply sum_le. intros x _. apply steps_left_other. }
    lia.
Qed.

Lemma steps_bound_nonneg w : 0 <= steps_bound w.
Proof.
  assert (Hn : forall (f : rtt_call -> Z) l, (forall c, 0 <= f c) -> 0 <= sum_of f l).
  { intros f l Hf. induction l as [|c l IH]; cbn; [lia|]. pose proof (Hf c). unfold sum_of in IH. lia. }
  unfold steps_bound.
  assert (0 <= sum_of (steps_left (rw_metrics w rttMaxNS)) (rw_calls w)).
  { apply Hn. intros c. unfold steps_left. repeat case_match; lia. }
  assert (0 <= sum_of running (rw_calls w)).
  { apply Hn. intros c. unfold running. case_match; lia. }
  nia.
Qed.

Lemma rtt_run_bound k w w' : nsteps rtt_step k w w' -> Z.of_nat k + steps_bound w' <= steps_bound w.
Proof.
  induction 1 as [w|k w1 w2 w3 Hs _ IH]; [lia|]. pose proof (rtt_step_bound _ _ Hs). lia.
Qed.

Lemma rtt_progress w : finished w \/ exists w', rtt_step w w'.
Proof.
  destruct w as [calls m]. destruct (decide (Forall (fun c => running c = 0) calls)) as [H|H].
  - left. eapply Forall_impl; [exact H|]. intros [d []]; unfold running; cbn; (done || lia).
  - right. apply not_Forall_Exists in H; [|apply _]. apply Exists_exists in H as (c & Hin & Hc).
    apply list_elem_of_split in Hin as (l1 & l2 & ->).
    destruct (noteRTT_step c m) as [[c' m']|] eqn:Hs; [eexists; by eapply RStep|].
    exfalso. apply Hc. destruct c as [d []]; unfold noteRTT_step in Hs; cbn in Hs; try done.
    + by destruct (d <? 0).
    + destruct (d <=? _); [done|]. by destruct (_ =? _).
Qed.

(** ** What the counters hold *)

Lemma u64_add x y : u64 (u64 x + y) = u64 (x + y).
Proof. unfold u64. apply Zplus_mod_idemp_l. Qed.
Lemma i64_add x y : i64 (i64 x + y) = i64 (x + y).
Proof.
  unfold i64. replace ((x + 2 ^ 63) mod 2 ^ 64 - 2 ^ 63 + y + 2 ^ 63) with ((x + 2 ^ 63) mod 2 ^ 64 + y) by lia.
  rewrite Zplus_mod_idemp_l. do 2 f_equal. lia.
Qed.

Definition sampled (c : rtt_call) : Z :=
  if rc_duration c <? 0 then 0 else match rc_at c with Begin => 0 | _ => 1 end.
Definition totalled (c : rtt_call) : Z :=
  if rc_duration c <? 0 then 0 else match rc_at c with Begin | Sampled => 0 | _ => rc_duration c end.
Definition is_sample (calls : list rtt_call) (d : Z) : Prop := exists c, c ∈ calls /\ rc_duration c = d /\ 0 <= d.
(** Past the store of the last value. *)
Definition stored (c : rtt_call) : Prop :=
  0 <= rc_duration c /\ match rc_at c with Retry | Loaded _ | Returned => True | _ => False end.

Record metrics_ok (w : rtt_world) : Prop := {
  mo_valid c : c ∈ rw_calls w -> match rc_at c with Begin | Returned => True | _ => 0 <= rc_duration c end;
  mo_samples : rw_metrics w rttSamples = u64 (sum_of sampled (rw_calls w));
  mo_total : rw_metrics w rttTotalNS = i64 (sum_of totalled (rw_calls w));
  mo_last c : c ∈ rw_calls w -> stored c -> is_sample (rw_calls w) (rw_metrics w rttLastNS);
  mo_zero : 0 <= rw_metrics w rttMaxNS;
  mo_max : rw_metrics w rttMaxNS = 0 \/ is_sample (rw_calls w) (rw_metrics w rttMaxNS);
  mo_loaded c old : c ∈ rw_calls w -> rc_at c = Loaded old -> old <= rw_metrics w rttMaxNS;
  mo_returned c : c ∈ rw_calls w -> rc_at c = Returned -> 0 <= rc_duration c -> rc_duration c <= rw_metrics w rttMaxNS
}.

Lemma elem_middle {A} (l1 l2 : list A) x y : y ∈ l1 ++ x :: l2 <-> y = x \/ y ∈ l1 ++ l2.
Proof. rewrite !elem_of_app, elem_of_cons. tauto. Qed.

(** A step keeps the duration of its call, so it keeps the samples. *)
Lemma step_duration c m c' m' : noteRTT_step c m = Some (c', m') -> rc_duration c' = rc_duration c.
Proof.
  unfold noteRTT_step. destruct (rc_at c); repeat case_match; by intros [= <- <-].
Qed.
Lemma sample_kept l1 c c' l2 d : rc_duration c' = rc_duration c ->
  is_sample (l1 ++ c :: l2) d -> is_sample (l1 ++ c' :: l2) d.
Proof.
  intros He (x & [-> |Hx]%elem_middle & Hd & H0).
  - exists c'. split_and!; [apply elem_middle; by left|congruence|done].
  - exists x. split_and!; [apply elem_middle; by right|done..].
Qed.

(** One call moves on: what it must establish. *)
Lemma metrics_ok_step l1 c l2 m c' m' : metrics_ok (MkRTTWorld (l1 ++ c :: l2) m) ->
  rc_duration c' = rc_duration c ->
  match rc_at c' with Begin | Returned => True | _ => 0 <= rc_duration c end ->
  m' rttSamples = u64 (m rttSamples + (sampled c' - sampled c)) ->
  m' rttTotalNS = i64 (m rttTotalNS + (totalled c' - totalled c)) ->
  (m' rttLastNS = m rttLastNS /\ (stored c' -> stored c) \/ m' rttLastNS = rc_duration c /\ 0 <= rc_duration c) ->
  (m' rttMaxNS = m rttMaxNS \/ m rttMaxNS < rc_duration c /\ m' rttMaxNS = rc_duration c) ->
  (forall old, rc_at c' = Loaded old -> old <= m' rttMaxNS) ->
  (rc_at c' = Returned -> 0 <= rc_duration c -> rc_duration c <= m' rttMaxNS) ->
  metrics_ok (MkRTTWorld (l1 ++ c' :: l2) m').
Proof.
  intros [Hv Hs Ht Hl H0 Hm Hlo Hr] He Hv' Hs' Ht' Hl' Hm' Hlo' Hr'. cbn [rw_calls rw_metrics] in *.
  pose proof (fun d => sample_kept l1 c c' l2 d He) as Hkeep.
  assert (Hmono : m rttMaxNS <= m' rttMaxNS) by (destruct Hm'; lia).
  assert (Hown : 0 <= rc_duration c -> is_sample (l1 ++ c' :: l2) (rc_duration c)).
  { intros Hd. exists c'. split_and!; [apply elem_middle; by left|done..]. }
  split; cbn [rw_calls rw_metrics].
  - intros x [-> |Hx]%elem_middle; [by rewrite He|]. apply Hv, elem_middle. by right.
  - rewrite Hs', Hs, u64_add, !sum_middle. f_equal. lia.
  - rewrite Ht', Ht, i64_add, !sum_middle. f_equal. lia.
  - intros x Hx Hst. destruct Hl' as [[-> Hback]|[-> Hd]]; [|by apply Hown]. apply Hkeep.
    apply elem_middle in Hx as [-> |Hx]; [apply (Hl c)|apply (Hl x)]; auto; apply elem_middle; auto.
  - lia.
  - destruct Hm' as [-> |[Hgt ->]]; [destruct Hm; auto|right; apply Hown; lia].
  - intros x old [-> |Hx]%elem_middle Hat; [auto|]. transitivity (m rttMaxNS); [|done].
    apply (Hlo x); [apply elem_middle; by right|done].
  - intros x [-> |Hx]%elem_middle Hat Hd; [rewrite He in *; auto|]. transitivity (m rttMaxNS); [|done].
    apply (Hr x); [apply elem_middle; by right|done..].
Qed.

Lemma rtt_step_ok w w' : rtt_step w w' -> metrics_ok w -> metrics_ok w'.
Proof.
  intros [l1 c l2 m c' m' Hs] Hw. pose proof (step_duration _ _ _ _ Hs) as He.
  assert (Hin : c ∈ rw_calls (MkRTTWorld (l1 ++ c :: l2) m)) by (apply elem_middle; by left).
  pose proof (mo_valid _ Hw c Hin) as Hv. pose proof (fun old => mo_loaded _ Hw c old Hin) as Hlo.
  pose proof (mo_samples _ Hw) as Hsm. pose proof (mo_total _ Hw) as Htt. cbn [rw_metrics rw_calls] in *.
  assert (Hu : m rttSamples = u64 (m rttSamples + 0)) by (rewrite Hsm, u64_add; f_equal; lia).
  assert (Hi : m rttTotalNS = i64 (m rttTotalNS + 0)) by (rewrite Htt, i64_add; f_equal; lia).
  apply (metrics_ok_step l1 c l2 m); [done..| | | | | | |];
    destruct c as [d at_]; unfold noteRTT_step in Hs; cbn [rc_at rc_duration] in *;
    unfold sampled, totalled, stored, add1, add_int64 in *; cbn [rc_at rc_duration] in *;
    destruct at_ as [| | | |old|]; try discriminate Hs;
    repeat (match type of Hs with context [if ?b then _ else _] => destruct b eqn:? end);
    injection Hs as <- <-; cbn [rc_at rc_duration] in *; rewrite ?store_eq, ?store_ne by done;
    rewrite ?Z.sub_diag; try done; try lia; try tauto.
  all: repeat case_match; try lia; rewrite ?Z.sub_diag, ?Z.sub_0_r; try done; try lia.
  - intros old [= <-]. lia.
  - intros _ _. transitivity old; [lia|]. by apply Hlo.
Qed.

Lemma rtt_run_ok durations w : rtc rtt_step (rtt_start durations) w ->
  metrics_ok w /\ map rc_duration (rw_calls w) = durations.
Proof.
  intros Hr. assert (H0 : metrics_ok (rtt_start durations) /\ map rc_duration (rw_calls (rtt_start durations)) = durations).
  { assert (Hb : forall c, c ∈ rw_calls (rtt_start durations) -> rc_at c = Begin).
    { intros c (d & -> & _)%list_elem_of_fmap. done. }
    assert (Hz : forall f, (forall c, rc_at c = Begin -> f c = 0) -> sum_of f (rw_calls (rtt_start durations)) = 0).
    { intros f Hf. rewrite (sum_ext f (fun _ => 0)) by auto.
      generalize (rw_calls (rtt_start durations)). intros l. unfold sum_of. induction l as [|x l IH]; [done|]. cbn [foldr]. by rewrite IH. }
    split; [|cbn; rewrite map_map; cbn; apply map_id]. split; try done.
    - intros c Hc. by rewrite (Hb c Hc).
    - rewrite Hz; [done|]. intros c Hc. unfold sampled. rewrite Hc. by destruct (_ <? _).
    - rewrite Hz; [done|]. intros c Hc. unfold totalled. rewrite Hc. by destruct (_ <? _).
    - intros c Hc [_ Hst]. by rewrite (Hb c Hc) in Hst.
    - by left.
    - intros c old Hc. by rewrite (Hb c Hc).
    - intros c Hc. by rewrite (Hb c Hc). }
  revert H0. induction Hr as [|w1 w2 w3 Hs _ IH]; [done|]. intros [H1 H2]. apply IH. split; [by eapply rtt_step_ok|].
  destruct Hs as [l1 c l2 m c' m' Hs]. pose proof (step_duration _ _ _ _ Hs) as He. cbn [rw_calls] in *.
  rewrite <- H2, !map_app. cbn [map]. by rewrite He.
Qed.

Lemma samples_largest durations d : d ∈ samples durations -> d <= largest (samples durations).
Proof.
  unfold largest. generalize (samples durations). intros l. induction l as [|x l IH]; [by intros H%elem_of_nil|].
  cbn. intros [-> |H]%elem_of_cons; [lia|]. pose proof (IH H). lia.
Qed.
Lemma largest_sample durations : largest (samples durations) = 0 \/ largest (samples durations) ∈ samples durations.
Proof.
  unfold largest. generalize (samples durations). intros l. induction l as [|x l IH]; [by left|]. cbn.
  destruct (Z.max_spec x (foldr Z.max 0 l)) as [[_ ->]|[_ ->]]; [destruct IH; [by left|right; by right]|right; by left].
Qed.
Lemma sample_elem durations d : d ∈ samples durations <-> d ∈ durations /\ 0 <= d.
Proof.
  unfold samples. rewrite !list_elem_of_In, filter_In, Z.leb_le. done.
Qed.
Lemma is_sample_elem calls d : is_sample calls d <-> d ∈ samples (map rc_duration calls).
Proof.
  rewrite sample_elem, list_elem_of_fmap. unfold is_sample. split.
  - intros (c & Hc & <- & Hd). split; [eauto|done].
  - intros [(c & -> & Hc) Hd]. eauto.
Qed.

Lemma finished_sums w : finished w ->
  sum_of sampled (rw_calls w) = zlen (samples (map rc_duration (rw_calls w))) /\
  sum_of totalled (rw_calls w) = total (samples (map rc_duration (rw_calls w))).
Proof.
  unfold finished, samples, total. induction (rw_calls w) as [|c l IH]; intros Hf; [done|].
  apply Forall_cons in Hf as [Hc Hf]. destruct (IH Hf) as [H1 H2]. cbn [sum_of foldr map List.filter].
  unfold sampled at 1, totalled at 1. rewrite Hc. unfold sum_of in H1, H2.
  destruct (Z.ltb_spec (rc_duration c) 0), (Z.leb_spec 0 (rc_duration c)); cbn [foldr length] in *; lia.
Qed.

(** Round-trip statistics are exact without a lock.  However the steps of concurrent
    calls of [noteRTT] interleave: a run of [n] calls takes at most [n * (2 n + 6)] steps
    and never gets stuck, so every call returns although it retries; and when all have
    returned, the counter is the number of durations that are not negative, the total is
    their sum (as a 64-bit integer), the maximum is their maximum, and the last value is
    one of them. *)
Theorem rtt_statistics durations k w : nsteps rtt_step k (rtt_start durations) w ->
  Z.of_nat k <= zlen durations * (2 * zlen durations + 6) /\
  (finished w \/ exists w', rtt_step w w') /\
  (finished w ->
   rw_metrics w rttSamples = u64 (zlen (samples durations)) /\
   rw_metrics w rttTotalNS = i64 (total (samples durations)) /\
   rw_metrics w rttMaxNS = largest (samples durations) /\
   (samples durations <> [] -> rw_metrics w rttLastNS ∈ samples durations)).
Proof.
  intros Hk. destruct (rtt_run_ok durations w) as [Hok Hd]; [by eapply rtc_nsteps_2|]. split_and!.
  - pose proof (rtt_run_bound _ _ _ Hk) as Hb. pose proof (steps_bound_nonneg w) as H0.
    enough (steps_bound (rtt_start durations) <= zlen durations * (2 * zlen durations + 6)) by lia.
    unfold steps_bound, rtt_start. cbn [rw_calls rw_metrics]. rewrite length_map.
    assert (Hsum : forall f v, (forall d, f (MkCall d Begin) = v) ->
      sum_of f (map (fun d => MkCall d Begin) durations) = v * zlen durations).
    { intros f v Hf. clear -Hf. unfold sum_of. induction durations as [|d l IH]; cbn [map foldr length]; [lia|].
      rewrite Hf, IH. lia. }
    rewrite (Hsum _ 6), (Hsum _ 1) by done. lia.
  - apply rtt_progress.
  - intros Hf. destruct (finished_sums w Hf) as [H1 H2]. rewrite Hd in H1, H2.
    unfold finished in Hf. rewrite Forall_forall in Hf.
    pose proof (mo_samples _ Hok) as Hs. pose proof (mo_total _ Hok) as Ht. rewrite H1 in Hs. rewrite H2 in Ht.
    assert (Hret : forall d, d ∈ samples durations -> exists c, c ∈ rw_calls w /\ rc_at c = Returned /\
      rc_duration c = d /\ 0 <= d).
    { intros d Hd'. rewrite <- Hd in Hd'. apply is_sample_elem in Hd' as (c & Hc & <- & H0).
      exists c. split_and!; [done|by apply Hf|done..]. }
    split_and!; [done..| |].
    + apply Z.le_antisymm.
      * destruct (mo_max _ Hok) as [-> |Hx].
        { destruct (largest_sample durations) as [-> |Hl]; [lia|]. by apply sample_elem in Hl as [_ ?]. }
        apply is_sample_elem in Hx. rewrite Hd in Hx. by apply samples_largest.
      * destruct (largest_sample durations) as [-> |Hl]; [apply Hok|].
        destruct (Hret _ Hl) as (c & Hc & Hat & <- & H0). by apply (mo_returned _ Hok).
    + intros Hne. destruct (samples durations) as [|d l] eqn:Hsam; [done|].
      destruct (Hret d ltac:(by left)) as (c & Hc & Hat & Hcd & H0). rewrite <- Hsam, <- Hd. apply is_sample_elem.
      apply (mo_last _ Hok c Hc). unfold stored. rewrite Hat, Hcd. done.
Qed.

(** Two calls race: the second changes the maximum between the first one's reading and its
    exchange, so the first goes round again. *)
Lemma rtt_statistics_witness :
  exists w, nsteps rtt_step 12 (rtt_start [5; 3]) w /\ finished w /\
    rw_metrics w rttSamples = 2 /\ rw_metrics w rttTotalNS = 8 /\ rw_metrics w rttMaxNS = 5 /\
    rw_metrics w rttLastNS ∈ samples [5; 3].
Proof.
  pose (first := fun c l m => RStep [] c l m).
  pose (second := fun a c m => RStep [a] c [] m).
  assert (Hrun : exists m, nsteps rtt_step 12 (rtt_start [5; 3]) (MkRTTWorld [MkCall 5 Returned; MkCall 3 Returned] m)).
  { eexists.
    do 4 (eapply nsteps_l; [eapply (first _ _ _); reflexivity|cbn [app]]).
    do 5 (eapply nsteps_l; [eapply (second _ _ _); reflexivity|cbn [app]]).
    do 3 (eapply nsteps_l; [eapply (first _ _ _); reflexivity|cbn [app]]).
    apply nsteps_O. }
  destruct Hrun as [m Hrun]. eexists. split; [exact Hrun|].
  assert (Hf : finished (MkRTTWorld [MkCall 5 Returned; MkCall 3 Returned] m)) by by repeat constructor.
  destruct (rtt_statistics _ _ _ Hrun) as (_ & _ & H). destruct (H Hf) as (H1 & H2 & H3 & H4).
  split_and!; [exact Hf|exact H1|exact H2|exact H3|by apply H4].
Defined.
