(* ===== verification/Deferred.v ===== *)
(** * Deferred replies (src/session/inbound_reply.go)

    A handler may put off the answer to a deliver_sm; the application answers it
    later from any goroutine, with [RespondDeferred], or gives it up.  The two
    critical sections of a [RespondDeferred] and the admission of its response to
    the transmit queue between them are separate steps here, interleaved with
    those of every other caller, the receive loop and termination. *)

From S2P Require Import Prelude Protocol Bodies Fields Pdu StateMachine Pending Receive.

(** Where a call of [RespondDeferred] is: it holds the slot, its response is
    queued, or it could not be queued. *)
Inductive phase : Set := Sending | Sent | Refused.
#[export] Instance phase_eq_dec : EqDecision phase.
Proof. solve_decision. Defined.

(** [calls] are the calls between their critical sections.  The three last fields
    record the sequence numbers of the replies that were reserved, queued and
    given up. *)
Record replies := MkReplies {
  session : Session;
  calls : list (Z * phase);
  registered : list Z;
  replied : list Z;
  abandoned : list Z
}.

Section deferred.
Context (limit : Z).

Inductive dstep : replies -> replies -> Prop :=
| d_register s cs rg rp ab request s' :
    registerDeferredReply limit s request = (s', Ok tt) ->
    dstep (MkReplies s cs rg rp ab) (MkReplies s' cs (SequenceNumber request :: rg) rp ab)
| d_begin s cs rg rp ab seq s' :
    respond_begin s seq = (s', Ok tt) ->
    dstep (MkReplies s cs rg rp ab) (MkReplies s' ((seq, Sending) :: cs) rg rp ab)
| d_queued s cs1 cs2 rg rp ab request st fr :
    dstep (MkReplies s (cs1 ++ (SequenceNumber request, Sending) :: cs2) rg rp ab)
      (MkReplies (push_tx s ByOthers (response_item request CommandDeliverSMResp st fr))
         (cs1 ++ (SequenceNumber request, Sent) :: cs2) rg (SequenceNumber request :: rp) ab)
| d_refused s cs1 cs2 rg rp ab seq :
    dstep (MkReplies s (cs1 ++ (seq, Sending) :: cs2) rg rp ab)
      (MkReplies s (cs1 ++ (seq, Refused) :: cs2) rg rp ab)
| d_end_sent s cs1 cs2 rg rp ab seq :
    dstep (MkReplies s (cs1 ++ (seq, Sent) :: cs2) rg rp ab)
      (MkReplies (respond_end s seq true) (cs1 ++ cs2) rg rp ab)
| d_end_refused s cs1 cs2 rg rp ab seq :
    dstep (MkReplies s (cs1 ++ (seq, Refused) :: cs2) rg rp ab)
      (MkReplies (respond_end s seq false) (cs1 ++ cs2) rg rp ab)
| d_abandon s cs rg rp ab request s' :
    AbandonDeferredResponse s request = (s', true) ->
    dstep (MkReplies s cs rg rp ab) (MkReplies s' cs rg rp (SequenceNumber request :: ab))
| d_terminate s cs rg rp ab e :
    dstep (MkReplies s cs rg rp ab) (MkReplies (terminate s e) cs rg rp ab)
| d_other s s' cs rg rp ab :
    deferredReplies s' = deferredReplies s -> closeErr s' = closeErr s ->
    dstep (MkReplies s cs rg rp ab) (MkReplies s' cs rg rp ab).

(** ** Accounting *)

Definition count (seq : Z) (l : list Z) : Z := Z.of_nat (count_occ Z.eq_dec l seq).
Definition in_phase (seq : Z) (ph : phase) (l : list (Z * phase)) : Z :=
  Z.of_nat (count_occ (fun x y : Z * phase => decide (x = y)) l (seq, ph)).

(** A slot nobody is answering, and one somebody is. *)
Definition waiting (s : Session) (seq : Z) : Z :=
  match deferredReplies s !! seq with Some false => 1 | _ => 0 end.
Definition busy (s : Session) (seq : Z) : Z :=
  match deferredReplies s !! seq with Some true => 1 | _ => 0 end.

(** Replies reserved and neither queued nor given up. *)
Definition outstanding (w : replies) (seq : Z) : Z :=
  waiting (session w) seq + in_phase seq Sending (calls w) + in_phase seq Refused (calls w).

Record dinv (w : replies) : Prop := {
  di_size : PendingDeferredResponses (session w) <= limit;
  di_once seq : count seq (replied w) + count seq (abandoned w) + outstanding w seq
                  <= count seq (registered w);
  di_exact seq : closeErr (session w) = None ->
    count seq (replied w) + count seq (abandoned w) + outstanding w seq = count seq (registered w) /\
    busy (session w) seq = in_phase seq Sending (calls w) + in_phase seq Sent (calls w) +
                             in_phase seq Refused (calls w)
}.

Lemma count_cons seq x l : count seq (x :: l) = count seq l + (if decide (x = seq) then 1 else 0).
Proof.
  unfold count. cbn. destruct (Z.eq_dec x seq), (decide (x = seq)); try done; lia.
Qed.
Lemma in_phase_cons seq ph q ph' l :
  in_phase seq ph ((q, ph') :: l) =
    in_phase seq ph l + (if decide (q = seq) then if decide (ph' = ph) then 1 else 0 else 0).
Proof.
  unfold in_phase. cbn [count_occ].
  destruct (decide ((q, ph') = (seq, ph))), (decide (q = seq)), (decide (ph' = ph)); try lia; congruence.
Qed.
Lemma in_phase_app seq ph l1 l2 :
  in_phase seq ph (l1 ++ l2) = in_phase seq ph l1 + in_phase seq ph l2.
Proof. unfold in_phase. rewrite count_occ_app. lia. Qed.
Lemma in_phase_pos seq ph l : 0 <= in_phase seq ph l.
Proof. unfold in_phase. lia. Qed.
Lemma count_pos seq l : 0 <= count seq l.
Proof. unfold count. lia. Qed.

Lemma slot_excl s seq : 0 <= waiting s seq /\ 0 <= busy s seq /\ waiting s seq + busy s seq <= 1.
Proof. unfold waiting, busy. destruct (deferredReplies s !! seq) as [[]|]; lia. Qed.

Lemma waiting_set s seq (b : bool) q :
  waiting (set_deferred s (<[seq := b]> (deferredReplies s))) q =
    if decide (q = seq) then (if b then 0 else 1) else waiting s q.
Proof.
  unfold waiting. cbn. destruct (decide (q = seq)) as [->|Hn].
  - rewrite lookup_insert_eq. by destruct b.
  - by rewrite lookup_insert_ne.
Qed.
Lemma busy_set s seq (b : bool) q :
  busy (set_deferred s (<[seq := b]> (deferredReplies s))) q =
    if decide (q = seq) then (if b then 1 else 0) else busy s q.
Proof.
  unfold busy. cbn. destruct (decide (q = seq)) as [->|Hn].
  - rewrite lookup_insert_eq. by destruct b.
  - by rewrite lookup_insert_ne.
Qed.
Lemma waiting_delete s seq q :
  waiting (set_deferred s (delete seq (deferredReplies s))) q =
    if decide (q = seq) then 0 else waiting s q.
Proof.
  unfold waiting. cbn. destruct (decide (q = seq)) as [->|Hn]; by rewrite ?lookup_delete_eq, ?lookup_delete_ne.
Qed.
Lemma busy_delete s seq q :
  busy (set_deferred s (delete seq (deferredReplies s))) q =
    if decide (q = seq) then 0 else busy s q.
Proof.
  unfold busy. cbn. destruct (decide (q = seq)) as [->|Hn]; by rewrite ?lookup_delete_eq, ?lookup_delete_ne.
Qed.

Ltac nonneg s seq cs1 cs2 := pose proof (slot_excl s seq);
  pose proof (in_phase_pos seq Sending cs1); pose proof (in_phase_pos seq Sending cs2);
  pose proof (in_phase_pos seq Sent cs1); pose proof (in_phase_pos seq Sent cs2);
  pose proof (in_phase_pos seq Refused cs1); pose proof (in_phase_pos seq Refused cs2).
(** Split on which reply a step is about, then count. *)
Ltac tally := unfold outstanding in *; cbn [session calls registered replied abandoned] in *;
  repeat rewrite ?waiting_set, ?busy_set, ?waiting_delete, ?busy_delete, ?count_cons,
    ?in_phase_app, ?in_phase_cons in *;
  repeat match goal with
    | |- context [decide ?P] => destruct (decide P); subst; try discriminate
    | H : context [decide ?P] |- _ => destruct (decide P); subst; try discriminate
    end;
  try (lia || congruence).

Lemma slot_counts s seq :
  waiting s seq = (if decide (deferredReplies s !! seq = Some false) then 1 else 0) /\
  busy s seq = (if decide (deferredReplies s !! seq = Some true) then 1 else 0).
Proof.
  unfold waiting, busy. destruct (deferredReplies s !! seq) as [[]|];
    repeat destruct (decide _); done || congruence.
Qed.

Lemma size_delete_le (d : gmap Z bool) seq : (size (delete seq d) <= size d)%nat.
Proof.
  destruct (d !! seq) eqn:Hl.
  - rewrite (map_size_delete_Some seq d (mk_is_Some _ _ Hl)). lia.
  - by rewrite delete_id.
Qed.

Lemma register_inv s cs rg rp ab request s' :
  registerDeferredReply limit s request = (s', Ok tt) ->
  dinv (MkReplies s cs rg rp ab) -> dinv (MkReplies s' cs (SequenceNumber request :: rg) rp ab).
Proof.
  unfold registerDeferredReply. intros H [Hz Ho He]. cbn [session] in *.
  destruct (deferredReplies s !! _) eqn:Hl; [done|]. destruct (Z.leb_spec limit (Z.of_nat (size (deferredReplies s)))) as [|Hlt];
    [done|]. injection H as <-. destruct (slot_counts s (SequenceNumber request)) as [Hw Hb].
  rewrite Hl in Hw, Hb. rewrite decide_False in Hw by done. rewrite decide_False in Hb by done.
  split; cbn [session] in *.
  - unfold PendingDeferredResponses in *. cbn [deferredReplies set_deferred]. rewrite map_size_insert_None by done. lia.
  - intros q. specialize (Ho q). tally.
  - intros q Hc. specialize (He q Hc). destruct He as [He Hbq]. split; tally.
Qed.

Lemma begin_inv s cs rg rp ab seq s' :
  respond_begin s seq = (s', Ok tt) ->
  dinv (MkReplies s cs rg rp ab) -> dinv (MkReplies s' ((seq, Sending) :: cs) rg rp ab).
Proof.
  unfold respond_begin. intros H [Hz Ho He]. cbn [session] in *.
  destruct (deferredReplies s !! seq) as [[]|] eqn:Hl; try done. injection H as <-.
  destruct (slot_counts s seq) as [Hw Hb]. rewrite Hl in Hw, Hb.
  rewrite decide_True in Hw by done. rewrite decide_False in Hb by done. split; cbn [session] in *.
  - unfold PendingDeferredResponses in *. cbn [deferredReplies set_deferred]. by rewrite map_size_insert_Some.
  - intros q. specialize (Ho q). tally.
  - intros q Hc. specialize (He q Hc). destruct He as [He Hbq]. split; tally.
Qed.

Lemma end_sent_inv s cs1 cs2 rg rp ab seq :
  dinv (MkReplies s (cs1 ++ (seq, Sent) :: cs2) rg rp ab) ->
  dinv (MkReplies (respond_end s seq true) (cs1 ++ cs2) rg rp ab).
Proof.
  intros [Hz Ho He]. unfold respond_end. split; cbn [session] in *.
  - unfold PendingDeferredResponses in *. cbn [deferredReplies set_deferred]. pose proof (size_delete_le (deferredReplies s) seq). lia.
  - intros q. specialize (Ho q).
    nonneg s q cs1 cs2. tally.
  - intros q Hc. specialize (He q Hc). destruct He as [He Hbq].
    nonneg s q cs1 cs2. split; tally.
Qed.

Lemma end_refused_inv s cs1 cs2 rg rp ab seq :
  dinv (MkReplies s (cs1 ++ (seq, Refused) :: cs2) rg rp ab) ->
  dinv (MkReplies (respond_end s seq false) (cs1 ++ cs2) rg rp ab).
Proof.
  intros [Hz Ho He]. unfold respond_end. destruct (deferredReplies s !! seq) as [b|] eqn:Hl.
  - assert (Hw : waiting s seq + busy s seq = 1) by (unfold waiting, busy; rewrite Hl; by destruct b).
    split; cbn [session] in *.
    + unfold PendingDeferredResponses in *. cbn [deferredReplies set_deferred].
      by rewrite map_size_insert_Some by (by eexists).
    + intros q. specialize (Ho q).
      nonneg s seq cs1 cs2. tally.
    + intros q Hc. specialize (He q Hc). destruct He as [He Hbq].
      nonneg s seq cs1 cs2. split; tally.
  - assert (Hw : waiting s seq = 0 /\ busy s seq = 0) by (unfold waiting, busy; by rewrite Hl).
    split; cbn [session] in *; [done| |].
    + intros q. specialize (Ho q). tally.
    + intros q Hc. specialize (He q Hc). destruct He as [He Hbq].
      nonneg s seq cs1 cs2. split; tally.
Qed.

(** The steps that leave the slots alone. *)
Lemma phase_inv s s' cs1 cs2 rg rp ab seq ph :
  deferredReplies s' = deferredReplies s -> closeErr s' = closeErr s -> ph <> Sending ->
  dinv (MkReplies s (cs1 ++ (seq, Sending) :: cs2) rg rp ab) ->
  dinv (MkReplies s' (cs1 ++ (seq, ph) :: cs2) rg
          (if decide (ph = Sent) then seq :: rp else rp) ab).
Proof.
  intros Hd Hc Hph [Hz Ho He].
  assert (Hw : forall q, waiting s' q = waiting s q /\ busy s' q = busy s q)
    by (intros q; unfold waiting, busy; by rewrite Hd).
  destruct ph; [done|rewrite decide_True by done|rewrite decide_False by done];
    (split; cbn [session] in *; [unfold PendingDeferredResponses in *; by rewrite Hd| |]);
    intros q; specialize (Ho q); specialize (Hw q); try (intros Hq; rewrite Hc in Hq;
      specialize (He q Hq); destruct He as [He Hbq]; split); tally.
Qed.

Lemma abandon_inv s cs rg rp ab request s' :
  AbandonDeferredResponse s request = (s', true) ->
  dinv (MkReplies s cs rg rp ab) ->
  dinv (MkReplies s' cs rg rp (SequenceNumber request :: ab)).
Proof.
  unfold AbandonDeferredResponse. intros H [Hz Ho He]. cbn [session] in *.
  destruct (_ || _); [done|]. destruct (deferredReplies s !! _) as [[]|] eqn:Hl; try done.
  injection H as <-. assert (Hw : waiting s (SequenceNumber request) = 1 /\ busy s (SequenceNumber request) = 0)
    by (unfold waiting, busy; by rewrite Hl). split; cbn [session] in *.
  - unfold PendingDeferredResponses in *. cbn [deferredReplies set_deferred].
    pose proof (size_delete_le (deferredReplies s) (SequenceNumber request)). lia.
  - intros q. specialize (Ho q). tally.
  - intros q Hc. specialize (He q Hc). destruct He as [He Hbq]. split; tally.
Qed.

Lemma terminate_inv s cs rg rp ab e :
  0 <= limit -> dinv (MkReplies s cs rg rp ab) -> dinv (MkReplies (terminate s e) cs rg rp ab).
Proof.
  intros Hlim Hi. unfold terminate. destruct (closeErr s); [done|]. destruct Hi as [Hz Ho He].
  split; cbn [session] in *; [unfold PendingDeferredResponses; cbn; rewrite map_size_empty; lia| |done].
  intros q. specialize (Ho q). unfold outstanding in *. cbn [session calls replied abandoned registered] in *.
  pose proof (slot_excl s q). unfold waiting at 1. cbn. rewrite lookup_empty. lia.
Qed.

Lemma dstep_inv w w' : 0 <= limit -> dstep w w' -> dinv w -> dinv w'.
Proof.
  intros Hlim Hs Hi. destruct Hs.
  - by eapply register_inv.
  - by eapply begin_inv.
  - by apply (phase_inv s _ cs1 cs2 rg rp ab (SequenceNumber request) Sent).
  - by apply (phase_inv s s cs1 cs2 rg rp ab seq Refused).
  - by apply end_sent_inv.
  - by apply end_refused_inv.
  - by eapply abandon_inv.
  - by apply terminate_inv.
  - destruct Hi as [Hz Ho He]. split; cbn [session] in *.
    + unfold PendingDeferredResponses in *. by rewrite H.
    + intros q. specialize (Ho q). unfold outstanding, waiting in *. cbn in *. by rewrite H.
    + intros q Hq. rewrite H0 in Hq. specialize (He q Hq). unfold outstanding, waiting, busy in *.
      cbn in *. by rewrite H.
Qed.

Definition no_replies (s : Session) : replies := MkReplies s [] [] [] [].

Lemma no_replies_inv s : 0 <= limit -> deferredReplies s = ∅ -> dinv (no_replies s).
Proof.
  intros Hlim Hs. split; cbn [session no_replies].
  - unfold PendingDeferredResponses. rewrite Hs, map_size_empty. lia.
  - intros q. unfold outstanding, waiting. cbn. rewrite Hs, lookup_empty. done.
  - intros q _. unfold outstanding, waiting, busy. cbn. rewrite Hs, lookup_empty. done.
Qed.
End deferred.

(** C26: Deferred replies are sent at most once and are not lost.  Whatever the
    interleaving of the receive loop, any number of concurrent [RespondDeferred]
    and [AbandonDeferredResponse] calls and termination: a request is never
    answered more often than it was reserved, no more than [limit] replies are
    reserved at a time, and while the session runs every reserved reply has been
    queued, given up, or is still outstanding, in which case it is held by at
    most one call. *)
Theorem deferred_replies_once limit s w seq :
  0 <= limit -> deferredReplies s = ∅ -> rtc (dstep limit) (no_replies s) w ->
  count seq (replied w) <= count seq (registered w) /\
  PendingDeferredResponses (session w) <= limit /\
  (closeErr (session w) = None ->
   count seq (replied w) + count seq (abandoned w) + outstanding w seq = count seq (registered w) /\
   in_phase seq Sending (calls w) + in_phase seq Sent (calls w) + in_phase seq Refused (calls w) <= 1).
Proof.
  intros Hlim Hs Hr. assert (Hi : dinv limit w).
  { pose proof (no_replies_inv limit s Hlim Hs) as H0. clear Hs. revert H0.
    induction Hr as [|x y z Hxy _ IH]; [done|]. intros H0. apply IH. by eapply dstep_inv. }
  destruct Hi as [Hz Ho He]. split_and!; [|done|].
  - specialize (Ho seq). unfold outstanding in Ho. pose proof (slot_excl (session w) seq).
    pose proof (in_phase_pos seq Sending (calls w)). pose proof (in_phase_pos seq Refused (calls w)).
    pose proof (count_pos seq (abandoned w)). lia.
  - intros Hc. destruct (He seq Hc) as [H1 H2]. pose proof (slot_excl (session w) seq).
    split; [done|lia].
Qed.

Lemma deferred_replies_once_witness :
  let request := MkHeader 16 CommandDeliverSM 0 9 in
  let s1 := (registerDeferredReply 4 sample_session request).1 in
  let s2 := (respond_begin s1 9).1 in
  let w := MkReplies s2 [(9, Sending)] [9] [] [] in
  count 9 (replied w) <= count 9 (registered w) /\ PendingDeferredResponses (session w) <= 4 /\
  (closeErr (session w) = None ->
   count 9 (replied w) + count 9 (abandoned w) + outstanding w 9 = count 9 (registered w) /\
   in_phase 9 Sending (calls w) + in_phase 9 Sent (calls w) + in_phase 9 Refused (calls w) <= 1).
Proof.
  cbv zeta. apply (deferred_replies_once 4 sample_session); [lia|reflexivity|].
  eapply rtc_l; [apply (d_register 4 sample_session [] [] [] [] (MkHeader 16 CommandDeliverSM 0 9)); reflexivity|].
  eapply rtc_l; [|apply rtc_refl]. apply d_begin. vm_compute. reflexivity.
Defined.
