(* ===== verification/Dispatch.v ===== *)
(** * The server's request handler (src/server/server.go: dispatchHandler;
    ratelimit.go: BindAttempt, BindStats, bindGuard; panic.go)

    The handler a server gives to every session: a bind goes through the rate
    limiter and the authenticator, a submit_sm to the submit handler, the rest to
    the fallback handler.  These are the application's: parameters that may panic,
    and that act on a world of type [W], which holds what they and the other
    goroutines keep (the session included).

    The counters of [bindGuard] are shared by all sessions and only added to;
    additions commute, so what a call adds to the counters it is given is what it
    adds to the shared ones. *)

From S2P Require Import Prelude Protocol Bodies Fields BodySpec Registry Pdu StateMachine Pending Receive Host Throttle.

(** The result of calling code of the application. *)
Inductive called (A : Type) : Type := Returned (a : A) | Panicked.
Arguments Returned {A} a.
Arguments Panicked {A}.

Record BindResult := MkBindResult {
  bres_Status : Z; bres_SystemID : bytes; bres_Optional : list OptionalParameter
}.
Record SubmitResult := MkSubmitResult { sres_Status : Z; sres_MessageID : bytes }.
Record BindAttempt := MkAttempt { RemoteAddr : option NetAddr; att_SystemID : bytes; att_Mode : BindMode }.
Record BindStats := MkBindStats { Attempts : Z; Failures : Z; Throttled : Z; RefusedUnbound : Z }.

(** What a handler returns: both values count, as in Go. *)
Abbreviation answer := (Response * option GoError)%type.

Section dispatch.
Context {W : Type}.

(** The interfaces. *)
Definition Authenticator : Type := W -> BindMode -> BindRequest -> W * called (BindResult * option GoError).
Definition SubmitHandler : Type := W -> SubmitSM -> W * called (SubmitResult * option GoError).
Definition Handler : Type := W -> DecodedPDU -> W * called answer.
Record BindRateLimiter := MkLimiter {
  AllowBind : W -> BindAttempt -> W * called bool;
  RecordBind : W -> BindAttempt -> bool -> W * called unit
}.

(** The adapters; [None] is a nil function. *)
Definition AuthenticatorFunc (f : option Authenticator) : Authenticator := fun w mode request =>
  match f with
  | None => (w, Returned (MkBindResult StatusBindFailed [] [], None))
  | Some f => f w mode request
  end.
Definition SubmitHandlerFunc (f : option SubmitHandler) : SubmitHandler := fun w request =>
  match f with
  | None => (w, Returned (MkSubmitResult StatusSystemError [], None))
  | Some f => f w request
  end.

Record bindGuard := MkGuard {
  limiter : option BindRateLimiter; delay : Z; g_attempts : Z; g_failures : Z; g_throttled : Z
}.
Definition add_attempt (g : bindGuard) : bindGuard :=
  MkGuard (limiter g) (delay g) (u64 (g_attempts g + 1)) (g_failures g) (g_throttled g).
Definition add_failure (g : bindGuard) : bindGuard :=
  MkGuard (limiter g) (delay g) (g_attempts g) (u64 (g_failures g + 1)) (g_throttled g).
Definition add_throttled (g : bindGuard) : bindGuard :=
  MkGuard (limiter g) (delay g) (g_attempts g) (g_failures g) (u64 (g_throttled g + 1)).

Definition guard_stats (g : bindGuard) : BindStats :=
  MkBindStats (g_attempts g) (g_failures g) (g_throttled g) 0.

Record dispatchHandler := MkDispatch {
  authenticator : option Authenticator; submit_ : option SubmitHandler; fallback : option Handler
}.

(** ** panic.go *)

Definition authenticate (a : Authenticator) (w : W) (mode : BindMode) (request : BindRequest)
    : W * (BindResult * option GoError) :=
  match a w mode request with
  | (w, Returned r) => (w, r)
  | (w, Panicked) => (w, (MkBindResult StatusSystemError [] [], Some (EPanic "server.Authenticator")))
  end.

Definition allowBind (l : BindRateLimiter) (w : W) (attempt : BindAttempt) : W * (bool * option GoError) :=
  match AllowBind l w attempt with
  | (w, Returned allowed) => (w, (allowed, None))
  | (w, Panicked) => (w, (false, Some (EPanic "server.BindRateLimiter")))
  end.

Definition recordBind (l : BindRateLimiter) (w : W) (attempt : BindAttempt) (succeeded : bool)
    : W * option GoError :=
  match RecordBind l w attempt succeeded with
  | (w, Returned _) => (w, None)
  | (w, Panicked) => (w, Some (EPanic "server.BindRateLimiter"))
  end.

Definition submit (h : SubmitHandler) (w : W) (request : SubmitSM) : W * (SubmitResult * option GoError) :=
  match h w request with
  | (w, Returned r) => (w, r)
  | (w, Panicked) => (w, (MkSubmitResult StatusSystemError [], Some (EPanic "server.SubmitHandler")))
  end.

Definition panicOnly (err : option GoError) : option GoError :=
  match err with Some (EPanic source) => Some (EPanic source) | _ => None end.

(** ** server.go *)

(** What the others do while the guard holds a response back. *)
Context (pause : Z -> W -> W).

Definition wait (g : bindGuard) (w : W) : W := if delay g <=? 0 then w else pause (delay g) w.

Definition bindMode (command : Z) : BindMode :=
  if command =? CommandBindTransmitter then BindTX
  else if command =? CommandBindReceiver then BindRX
  else if command =? CommandBindTransceiver then BindTRX
  else BindNone.

Definition attemptFor (remote : option NetAddr) (mode : BindMode) (request : BindRequest) : BindAttempt :=
  MkAttempt remote (brq_SystemID request) mode.

Definition refuse (status : Z) : Response := MkResponse status (AVal VEmptyBody) ResponseImmediate.

(** A bind up to the authenticator: [None] lets it through. *)
Definition bind_enter (w : W) (g : bindGuard) (attempt : BindAttempt) : W * bindGuard * option answer :=
  let g := add_attempt g in
  match limiter g with
  | None => (w, g, None)
  | Some l =>
      let '(w, (allowed, err)) := allowBind l w attempt in
      match err with
      | Some e => (wait g w, g, Some (refuse StatusSystemError, Some e))
      | None =>
          if negb allowed
          then let g := add_throttled g in (wait g w, g, Some (refuse StatusThrottled, None))
          else (w, g, None)
      end
  end.

(** A bind from the authenticator's [result] and [err] on. *)
Definition bind_exit (w : W) (g : bindGuard) (attempt : BindAttempt) (result : BindResult)
    (err : option GoError) : W * bindGuard * answer :=
  let status := match err with
                | Some _ => if OK (bres_Status result) then StatusSystemError else bres_Status result
                | None => bres_Status result
                end in
  let '(w, recordErr) := match err, limiter g with
                         | None, Some l => recordBind l w attempt (OK status)
                         | _, _ => (w, None)
                         end in
  match recordErr with
  | Some e => (wait g w, g, (refuse StatusSystemError, Some e))
  | None =>
      if negb (OK status)
      then let g := match err with None => add_failure g | Some _ => g end in
           (wait g w, g, (refuse status, panicOnly err))
      else (w, g, (MkResponse StatusOK
              (AVal (VBindResponse (MkBindResponse (bres_SystemID result) (bres_Optional result))))
              ResponseImmediate, None))
  end.

Definition or_fallback (h : dispatchHandler) (w : W) (g : bindGuard) (pdu : DecodedPDU) (status : Z)
    : W * bindGuard * called answer :=
  match fallback h with
  | Some f => let '(w, r) := f w pdu in (w, g, r)
  | None => (w, g, Returned (refuse status, None))
  end.

Definition handle_bind (h : dispatchHandler) (remote : option NetAddr) (w : W) (g : bindGuard)
    (pdu : DecodedPDU) : W * bindGuard * called answer :=
  match pdu_Body pdu with
  | AVal (VBindRequest request) =>
      match authenticator h with
      | None => or_fallback h w g pdu StatusBindFailed
      | Some a =>
          let mode := bindMode (CommandID (pdu_Header pdu)) in
          let attempt := attemptFor remote mode request in
          let '(w, g, refused) := bind_enter w g attempt in
          match refused with
          | Some r => (w, g, Returned r)
          | None =>
              let '(w, (result, err)) := authenticate a w mode request in
              let '(w, g, r) := bind_exit w g attempt result err in (w, g, Returned r)
          end
      end
  | _ => (w, g, Returned (refuse StatusSystemError, None))
  end.

Definition handle_submit (h : dispatchHandler) (w : W) (g : bindGuard) (pdu : DecodedPDU)
    : W * bindGuard * called answer :=
  match pdu_Body pdu with
  | AVal (VSubmitSM request) =>
      match submit_ h with
      | None => or_fallback h w g pdu StatusSystemError
      | Some f =>
          let '(w, (result, err)) := submit f w request in
          let status := match err with
                        | Some _ => if OK (sres_Status result) then StatusSystemError
                                    else sres_Status result
                        | None => sres_Status result
                        end in
          if negb (OK status) then (w, g, Returned (refuse status, panicOnly err))
          else (w, g, Returned (MkResponse StatusOK
                  (AVal (VSubmitSMResp (MkSubmitSMResp (sres_MessageID result) []))) ResponseImmediate, None))
      end
  | _ => (w, g, Returned (refuse StatusSystemError, None))
  end.

Definition Handle (h : dispatchHandler) (remote : option NetAddr) (w : W) (g : bindGuard)
    (pdu : DecodedPDU) : W * bindGuard * called answer :=
  let command := CommandID (pdu_Header pdu) in
  if (command =? CommandBindTransmitter) || (command =? CommandBindReceiver) ||
     (command =? CommandBindTransceiver)
  then handle_bind h remote w g pdu
  else if command =? CommandSubmitSM then handle_submit h w g pdu
  else or_fallback h w g pdu StatusSystemError.

(** [NewWithConfig]: which handler the sessions get. *)
Definition session_Handler (a : option Authenticator) (sub : option SubmitHandler)
    (Fallback SessionHandler : option Handler) : option dispatchHandler :=
  let fallback := match Fallback with Some f => Some f | None => SessionHandler end in
  match a, sub, fallback with
  | None, None, None => None
  | _, _, _ => Some (MkDispatch a sub fallback)
  end.
(** [New]: one handler for everything. *)
Definition New_Handler (Handler_ : option Handler) : option dispatchHandler := session_Handler None None Handler_ Handler_.

(** ** A bind is granted on one path only *)

Definition allowed (g : bindGuard) (w : W) (attempt : BindAttempt) (w' : W) : Prop :=
  match limiter g with None => w' = w | Some l => AllowBind l w attempt = (w', Returned true) end.
Definition recorded (g : bindGuard) (w : W) (attempt : BindAttempt) (success : bool) (w' : W) : Prop :=
  match limiter g with None => w' = w | Some l => RecordBind l w attempt success = (w', Returned tt) end.

(** The limiter allowed the attempt, the authenticator accepted it without an
    error, and the limiter took note of the success. *)
Definition granted (a : Authenticator) (remote : option NetAddr) (g : bindGuard) (pdu : DecodedPDU)
    (w w' : W) (response : Response) : Prop :=
  exists request result w1 w2, let mode := bindMode (CommandID (pdu_Header pdu)) in
    pdu_Body pdu = AVal (VBindRequest request) /\
    allowed g w (attemptFor remote mode request) w1 /\
    a w1 mode request = (w2, Returned (result, None)) /\ bres_Status result = StatusOK /\
    recorded g w2 (attemptFor remote mode request) true w' /\
    rsp_Body response = AVal (VBindResponse (MkBindResponse (bres_SystemID result) (bres_Optional result))).

Lemma bind_enter_passes w g attempt w' g' : bind_enter w g attempt = (w', g', None) ->
  allowed g w attempt w' /\ g' = add_attempt g.
Proof.
  unfold bind_enter, allowed. cbn [limiter add_attempt]. destruct (limiter g) as [l|]; [|by intros [= -> <-]].
  unfold allowBind. destruct (AllowBind l w attempt) as [w1 [[]|]]; cbn [negb]; [|done..].
  by intros [= -> <-].
Qed.

Lemma bind_enter_refuses w g attempt w' g' response err :
  bind_enter w g attempt = (w', g', Some (response, err)) ->
  rsp_Action response = ResponseImmediate /\ rsp_Status response <> StatusOK.
Proof.
  unfold bind_enter. cbn [limiter add_attempt]. destruct (limiter g) as [l|]; [|done].
  destruct (allowBind l w attempt) as [w1 [b [e|]]]; [by intros [= _ _ <- _]|].
  destruct (negb b); by intros [= _ _ <- _].
Qed.

Lemma bind_exit_grants w g attempt result err w' g' response :
  bind_exit w g attempt result err = (w', g', (response, None)) -> rsp_Status response = StatusOK ->
  err = None /\ bres_Status result = StatusOK /\ recorded g w attempt true w' /\ g' = g /\
  rsp_Body response = AVal (VBindResponse (MkBindResponse (bres_SystemID result) (bres_Optional result))).
Proof.
  unfold bind_exit, recorded. intros He Hs. destruct err as [e|].
  - exfalso. destruct (OK (bres_Status result)) eqn:Hok.
    + cbn in He. by injection He as <- <- <- _.
    + rewrite Hok in He. cbn [negb] in He. injection He as <- <- <- _. cbn in Hs. by rewrite Hs in Hok.
  - destruct (limiter g) as [l|].
    + unfold recordBind in He. destruct (RecordBind l w attempt _) as [w1 [[]|]] eqn:Hr; [|done].
      destruct (OK (bres_Status result)) eqn:Hok; cbn [negb] in He.
      * injection He as <- <- <-. apply Z.eqb_eq in Hok. auto.
      * injection He as <- <- <-. cbn in Hs. by rewrite Hs in Hok.
    + destruct (OK (bres_Status result)) eqn:Hok; cbn [negb] in He.
      * injection He as <- <- <-. apply Z.eqb_eq in Hok. auto.
      * injection He as <- <- <-. cbn in Hs. by rewrite Hs in Hok.
Qed.

Lemma bind_exit_immediate w g attempt result err w' g' response e :
  bind_exit w g attempt result err = (w', g', (response, e)) -> rsp_Action response = ResponseImmediate.
Proof.
  unfold bind_exit. destruct (match err, limiter g with None, Some l => _ | _, _ => _ end) as [w1 [re|]];
    [by intros [= _ _ <- _]|]. destruct (negb _); by intros [= _ _ <- _].
Qed.

Lemma handle_bind_granted h a remote w g pdu : authenticator h = Some a ->
  exists w' g' response err, handle_bind h remote w g pdu = (w', g', Returned (response, err)) /\
    rsp_Action response = ResponseImmediate /\
    (err = None -> rsp_Status response = StatusOK -> granted a remote g pdu w w' response).
Proof.
  intros Ha. unfold handle_bind. destruct (pdu_Body pdu) as [|v|v|k] eqn:Hbody;
    try (by eexists _, _, _, _; split; [done|]).
  destruct v; try (by eexists _, _, _, _; split; [done|]). rewrite Ha.
  destruct (bind_enter w g _) as [[w1 g1] [[response err]|]] eqn:Hen.
  { destruct (bind_enter_refuses _ _ _ _ _ _ _ Hen). by eexists _, _, _, _. }
  apply bind_enter_passes in Hen as [Hal ->].
  destruct (authenticate a w1 _ v) as [w2 [result err]] eqn:Hau.
  destruct (bind_exit w2 _ _ result err) as [[w3 g3] [response e]] eqn:Hex.
  eexists _, _, _, _. split; [done|]. split; [by eapply bind_exit_immediate|]. intros -> Hs.
  destruct (bind_exit_grants _ _ _ _ _ _ _ _ Hex Hs) as (-> & Hok & Hrec & -> & Hb).
  unfold authenticate in Hau. destruct (a w1 _ v) as [w2' [[result' err']|]] eqn:Hcall; [|done].
  injection Hau as -> -> ->. by exists v, result, w1, w2.
Qed.

Lemma isBindRequest_dispatch command : isBindRequest command = true ->
  (command =? CommandBindTransmitter) || (command =? CommandBindReceiver) ||
  (command =? CommandBindTransceiver) = true.
Proof. unfold isBindRequest. rewrite !orb_true_iff. tauto. Qed.

Lemma Handle_granted h a remote w g pdu :
  isBindRequest (CommandID (pdu_Header pdu)) = true -> authenticator h = Some a ->
  exists w' g' response err, Handle h remote w g pdu = (w', g', Returned (response, err)) /\
    rsp_Action response = ResponseImmediate /\
    (err = None -> rsp_Status response = StatusOK -> granted a remote g pdu w w' response).
Proof.
  intros Hb Ha. unfold Handle. rewrite (isBindRequest_dispatch _ Hb). by apply handle_bind_granted.
Qed.

(** A server of [New] hands every request that was decoded as what it is to the one
    handler it was given, binds included, and leaves the answer to it. *)
Lemma New_forwards f remote w g pdu :
  (isBindRequest (CommandID (pdu_Header pdu)) = true -> exists b, pdu_Body pdu = AVal (VBindRequest b)) ->
  (CommandID (pdu_Header pdu) = CommandSubmitSM -> exists b, pdu_Body pdu = AVal (VSubmitSM b)) ->
  exists h, New_Handler (Some f) = Some h /\ Handle h remote w g pdu = ((f w pdu).1, g, (f w pdu).2).
Proof.
  intros Hb Hs. eexists. split; [done|]. unfold Handle. fold (isBindRequest (CommandID (pdu_Header pdu))).
  assert (Hf : forall h st, fallback h = Some f -> or_fallback h w g pdu st = ((f w pdu).1, g, (f w pdu).2)).
  { intros h st Hf. unfold or_fallback. rewrite Hf. by destruct (f w pdu). }
  destruct (isBindRequest _); [destruct (Hb eq_refl) as [b Hp]; unfold handle_bind; rewrite Hp; by apply Hf|].
  destruct (Z.eqb_spec (CommandID (pdu_Header pdu)) CommandSubmitSM) as [He|]; [|by apply Hf].
  destruct (Hs He) as [b Hp]. unfold handle_submit. rewrite Hp. by apply Hf.
Qed.
End dispatch.
Arguments Authenticator : clear implicits.
Arguments SubmitHandler : clear implicits.
Arguments Handler : clear implicits.
Arguments BindRateLimiter : clear implicits.
Arguments bindGuard : clear implicits.
Arguments dispatchHandler : clear implicits.

(** ** The handler in a session

    The handler as the session calls it: the world is the session and a state [A]
    of the application. *)
Section session.
Context {A : Type} (pause : Z -> Session * A -> Session * A).
Context (h : dispatchHandler (Session * A)) (remote : option NetAddr) (app : A) (g : bindGuard (Session * A)).

Definition server_handler (s : Session) (pdu : DecodedPDU) : Session * res Response :=
  let '((s, _), _, r) := Handle pause h remote (s, app) g pdu in
  (s, match r with
      | Returned (response, None) => Ok response
      | Returned (_, Some e) => Err e
      | Panicked => Panic
      end).

Context (r : option Registry) (profile : Profile) (limit : Z) (stale : bytes).
Context (select_tx : Session -> Session * bool).
Hypothesis Hhandler : forall s pdu, others s (server_handler s pdu).1.
Hypothesis Hselect : forall s, others s (select_tx s).1.

(** A step queues nothing, or one item whose status is a failure unless [P] holds. *)
Definition queues (s : Session) (P : Prop) (x : rx) : Prop :=
  rx_items x.1 = rx_items s \/
  exists item, rx_items x.1 = rx_items s ++ [item] /\ (status item = StatusOK -> P).

Lemma queues_others s0 s P x : others s0 s -> queues s P x -> queues s0 P x.
Proof. intros Ho. unfold queues. by rewrite (others_items s0 s Ho). Qed.

Lemma queueResponse_queues s req id st body (P : Prop) : (st = StatusOK -> P) ->
  queues s P (queueResponse r stale select_tx ByReceiver s req id st body).
Proof.
  intros Hst. unfold queueResponse. destruct (EncodePDU _ _ _ _ _) as [fr|[d e]|]; [|by left..].
  pose proof (Hselect s) as Ho. destruct (select_tx s) as [s1 []]; cbn [fst] in Ho.
  - right. exists (response_item req id st fr). cbn [fst]. rewrite push_items, (others_items s s1 Ho).
    split; [done|exact Hst].
  - left. cbn [fst]. by apply others_items.
Qed.

Lemma nack_queues s req st (P : Prop) : st <> StatusOK ->
  queues s P (queueGenericNACK r stale select_tx ByReceiver s req st).
Proof. intros Hs. by apply queueResponse_queues. Qed.

Lemma cancel_queues s0 P s (e : GoError) command : queues s0 P (s, Err e) ->
  queues s0 P (if isLifecycleRequest command then set_machine s (CancelInbound (machine s) command) else s, Err e).
Proof. destruct (isLifecycleRequest _); done. Qed.

Lemma queue_answer_queues s pdu st body (P : Prop) : (st = StatusOK -> P) ->
  queues s P (queue_answer r stale select_tx s pdu st body).
Proof.
  intros Hst. unfold queue_answer.
  pose proof (queueResponse_queues s (pdu_Header pdu) (ResponseID (CommandID (pdu_Header pdu))) st body P Hst) as Hq.
  assert (Hsame : forall s1 e, queueResponse r stale select_tx ByReceiver s (pdu_Header pdu)
      (ResponseID (CommandID (pdu_Header pdu))) st body = (s1, Err e) -> others s s1).
  { intros s1 e. unfold queueResponse. destruct (EncodePDU _ _ _ _ _) as [fr|[d e']|]; [|by intros [= <- _]|done].
    pose proof (Hselect s) as Ho. destruct (select_tx s) as [s2 []]; [done|by intros [= <- _]]. }
  destruct (queueResponse _ _ _ _ _ _ _ _ _) as [s1 [[]|e|]]; [done| |done].
  destruct (is_panic e); [|by apply cancel_queues].
  pose proof (queues_others s s1 P _ (Hsame s1 e eq_refl)
    (nack_queues s1 (pdu_Header pdu) StatusSystemError P ltac:(done))) as Hn.
  destruct (queueGenericNACK _ _ _ _ _ _ _) as [s2 [[]|e2|]]; [done| |done]. by apply cancel_queues.
Qed.

Lemma negotiate_bind_others s pdu response : others s (negotiate_bind profile s pdu response).1.
Proof.
  unfold negotiate_bind. destruct (_ && _); [|done]. destruct (pdu_Body pdu) as [|[]|[]|]; try done.
  destruct (_ || _); by apply same_tx.
Qed.

Lemma beginInbound_keeps s c s1 : beginInbound r s c = Ok s1 -> others s s1.
Proof.
  unfold beginInbound. destruct (IsStandardCommand c).
  - unfold BeginInbound. destruct (negb _); [done|]. destruct (_ && _); [done|].
    cbn. intros [= <-]. by apply same_tx.
  - destruct (Command r c) as [def|]; [destruct (negb _); [destruct (_ && _)|]|];
      try destruct (isBoundState _); by intros [= <-].
Qed.

(** A handler's answer that is immediate, and accepts only under [P]. *)
Lemma answer_queues s pdu (P : Prop) :
  isBindRequest (CommandID (pdu_Header pdu)) = true ->
  (forall s1 response, (server_handler s1 pdu).2 = Ok response ->
     rsp_Action response = ResponseImmediate /\ (rsp_Status response = StatusOK -> P)) ->
  queues s P (let '(s, response) := respond_to (Some server_handler) s pdu in
     if negb (rsp_Action response =? ResponseImmediate)
     then answer_later limit s (pdu_Header pdu) (rsp_Action response)
     else let '(s, body) := negotiate_bind profile s pdu response in
          queue_answer r stale select_tx s pdu (rsp_Status response) body).
Proof.
  intros Hb HP. assert (Hlater : forall s1 s2 response body, others s s1 ->
    rsp_Action response = ResponseImmediate -> (rsp_Status response = StatusOK -> P) ->
    negotiate_bind profile s1 pdu response = (s2, body) ->
    queues s P (queue_answer r stale select_tx s2 pdu (rsp_Status response) body)).
  { intros s1 s2 response body Ho _ Hst Hn. pose proof (negotiate_bind_others s1 pdu response) as Ho2.
    rewrite Hn in Ho2. apply (queues_others s s2); [by etrans|]. by apply queue_answer_queues. }
  unfold respond_to. replace (_ || _) with false.
  2: { unfold isBindRequest in Hb. unfold CommandEnquireLink, CommandUnbind, CommandBindReceiver,
         CommandBindTransmitter, CommandBindTransceiver in *. lia. }
  unfold callHandler. pose proof (Hhandler s pdu) as Ho. specialize (HP s).
  destruct (server_handler s pdu) as [s1 [response|e|]]; cbn [fst snd] in *.
  - destruct (HP response eq_refl) as [Hact Hst]. rewrite Hact. cbn [negb Z.eqb ResponseImmediate].
    destruct (negotiate_bind profile s1 pdu response) as [s2 body] eqn:Hn. by eapply Hlater.
  - cbn [rsp_Action negb Z.eqb ResponseImmediate].
    destruct (negotiate_bind profile s1 pdu _) as [s2 body] eqn:Hn. by eapply (Hlater s1 s2 (MkResponse StatusSystemError _ _)).
  - cbn [rsp_Action negb Z.eqb ResponseImmediate].
    destruct (negotiate_bind profile s1 pdu _) as [s2 body] eqn:Hn. by eapply (Hlater s1 s2 (MkResponse StatusSystemError _ _)).
Qed.

Lemma handleRequest_queues s pdu (P : Prop) :
  isBindRequest (CommandID (pdu_Header pdu)) = true ->
  (forall s1 response, (server_handler s1 pdu).2 = Ok response ->
     rsp_Action response = ResponseImmediate /\ (rsp_Status response = StatusOK -> P)) ->
  queues s P (handleRequest r profile limit stale (Some server_handler) select_tx s pdu).
Proof.
  intros Hb HP. unfold handleRequest. destruct (ValidInbound _); [|by apply nack_queues]. cbn [negb].
  destruct (Command r _) as [def|]; [|by apply nack_queues].
  destruct (_ && _); [by apply nack_queues|].
  destruct (isOneWayCommand _) eqn:Hone.
  { unfold isOneWayCommand, isBindRequest, CommandOutbind, CommandAlertNotification, CommandBindReceiver,
      CommandBindTransmitter, CommandBindTransceiver in *. lia. }
  destruct (beginInbound r s _) as [s1|e|] eqn:Hbegin; [| |by left].
  - apply (queues_others s s1); [by eapply beginInbound_keeps|]. by apply answer_queues.
  - by apply queueResponse_queues.
Qed.
End session.

(** C33: A bind is accepted on one path only.  With an authenticator configured, a
    session answers a bind with status ESME_ROK only if the rate limiter (if there
    is one) allowed the attempt, the authenticator accepted it and returned no
    error, and the limiter recorded the success; a panic of any of them, an error,
    a malformed body or a limiter that refuses leads to a failure status or no
    answer at all. *)
Theorem bind_accepted_only_if_granted {A} pause (h : dispatchHandler (Session * A)) a remote app g
    r profile limit stale select_tx s pdu :
  authenticator h = Some a -> isBindRequest (CommandID (pdu_Header pdu)) = true ->
  (forall s pdu, others s (server_handler pause h remote app g s pdu).1) ->
  (forall s, others s (select_tx s).1) ->
  queues s (exists s1 w' response, granted a remote g pdu (s1, app) w' response)
    (handleRequest r profile limit stale (Some (server_handler pause h remote app g)) select_tx s pdu).
Proof.
  intros Ha Hb Hh Hs. apply handleRequest_queues; [done..|]. intros s1 response.
  unfold server_handler.
  destruct (Handle_granted pause h a remote (s1, app) g pdu Hb Ha) as ([s2 app'] & g' & resp & err & -> & Hact & Hg).
  destruct err as [e|]; [done|]. cbn [snd]. intros [= <-]. split; [done|]. intros Hok.
  exists s1, (s2, app'), resp. auto.
Qed.

(** ** Binds of many sessions, with the default throttle

    The sessions share the throttle and the counters.  Between its two parts a bind
    is with the authenticator, which takes any time and answers anything; the parts
    of different binds interleave in any order.  The delay of a refused bind is at
    the end of a part, where the other binds may step anyway. *)
Section throttled.
Context (Addr_String : Addr -> string) (ParseAddr : string -> option Addr).
Context (SplitHostPort : string -> option string) (NetAddr_String : NetAddr -> string).

Definition attempt_host (a : BindAttempt) : string :=
  hostKey Addr_String ParseAddr SplitHostPort NetAddr_String (RemoteAddr a).

(** The throttle, the time its clock reads and the order in which its map is
    visited. *)
Record tworld := MkTWorld { tw_throttle : bindThrottle; tw_now : Z; tw_order : list string }.

Definition throttle_limiter : BindRateLimiter tworld := {|
  AllowBind := fun w a =>
    let '(t, b) := Throttle.AllowBind (tw_throttle w) (attempt_host a) (tw_now w) in
    (MkTWorld t (tw_now w) (tw_order w), Returned b);
  RecordBind := fun w a success =>
    (MkTWorld (Throttle.RecordBind (tw_throttle w) (attempt_host a) success (tw_now w) (tw_order w))
       (tw_now w) (tw_order w), Returned tt)
|}.

Inductive event : Type :=
| Entered (a : BindAttempt) (now : Z) (refused : option answer)
| Decided (a : BindAttempt) (now : Z) (result : BindResult) (err : option GoError) (reply : answer).

Record bind_run := MkBindRun {
  run_guard : bindGuard tworld; run_throttle : bindThrottle; run_now : Z;
  run_busy : list BindAttempt; run_log : list event
}.

Definition no_pause (_ : Z) (w : tworld) : tworld := w.

Inductive bstep : bind_run -> bind_run -> Prop :=
| b_enter x a now order w' g' refused :
    run_now x <= now ->
    bind_enter no_pause (MkTWorld (run_throttle x) now order) (run_guard x) a = (w', g', refused) ->
    bstep x (MkBindRun g' (tw_throttle w') now
      (match refused with None => run_busy x ++ [a] | Some _ => run_busy x end)
      (run_log x ++ [Entered a now refused]))
| b_exit x before a after now order result err w' g' reply :
    run_busy x = before ++ a :: after -> run_now x <= now ->
    order ≡ₚ (map_to_list (entries (run_throttle x))).*1 ->
    bind_exit no_pause (MkTWorld (run_throttle x) now order) (run_guard x) a result err = (w', g', reply) ->
    bstep x (MkBindRun g' (tw_throttle w') now (before ++ after)
      (run_log x ++ [Decided a now result err reply])).

Definition start_binds (config : BindThrottleConfig) (delay now : Z) : bind_run :=
  MkBindRun (MkGuard (Some throttle_limiter) delay 0 0 0) (NewBindThrottle config) now [] [].

(** What a log shows: the binds that entered, those refused and those decided, and
    the rejections with their host and time. *)
Definition entered (e : event) : bool := match e with Entered _ _ _ => true | _ => false end.
Definition refused (e : event) : bool := match e with Entered _ _ (Some _) => true | _ => false end.
Definition decided (e : event) : bool := match e with Decided _ _ _ _ _ => true | _ => false end.
Definition number (p : event -> bool) (l : list event) : Z := zlen (List.filter p l).
Definition rejection (e : event) : list (string * Z) :=
  match e with
  | Decided a now result None _ => if OK (bres_Status result) then [] else [(attempt_host a, now)]
  | _ => []
  end.
Definition rejections (l : list event) : list (string * Z) := flat_map rejection l.

Lemma number_snoc p l e : number p (l ++ [e]) = number p l + (if p e then 1 else 0).
Proof. unfold number. rewrite List.filter_app, length_app. cbn. destruct (p e); cbn; lia. Qed.
Lemma rejections_snoc l e : rejections (l ++ [e]) = rejections l ++ rejection e.
Proof. unfold rejections. rewrite flat_map_app. cbn. by rewrite app_nil_r. Qed.

(** An event is what the code should do after the log [before]. *)
Definition event_ok (c : BindThrottleConfig) (before : list event) (e : event) : Prop :=
  match e with
  | Entered a now None => True
  | Entered a now (Some reply) => reply = (refuse StatusThrottled, None) /\
      exists start last, (attempt_host a, last) ∈ rejections before /\ now < last + Lockout c /\
        MaxFailures c <= failures_in (tc_Window c) (rejections before) (attempt_host a) start
  | Decided a now result err reply =>
      reply.2 = panicOnly err /\
      (rsp_Status reply.1 = StatusOK <-> bres_Status result = StatusOK /\ err = None)
  end.

Record binds_ok (config : BindThrottleConfig) (now0 : Z) (x : bind_run) : Prop := {
  bo_throttle : rtc tstep (start_run config now0) (MkRun (run_throttle x) (run_now x) (rejections (run_log x)));
  bo_limiter : limiter (run_guard x) = Some throttle_limiter;
  bo_stats : guard_stats (run_guard x) =
    MkBindStats (u64 (number entered (run_log x))) (u64 (zlen (rejections (run_log x))))
      (u64 (number refused (run_log x))) 0;
  bo_balance : number entered (run_log x) =
    number refused (run_log x) + number decided (run_log x) + zlen (run_busy x);
  bo_events : forall before e after, run_log x = before ++ e :: after ->
    event_ok (th_config (NewBindThrottle config)) before e
}.

Lemma u64_succ n : u64 (u64 n + 1) = u64 (n + 1).
Proof. unfold u64. by rewrite Z.add_mod_idemp_l. Qed.

(** The last event of a longer log is the only new one. *)
Lemma events_snoc c l e : (forall before e' after, l = before ++ e' :: after -> event_ok c before e') ->
  event_ok c l e ->
  forall before e' after, l ++ [e] = before ++ e' :: after -> event_ok c before e'.
Proof.
  intros Hl He before e' after Heq. destruct after as [|e2 after _] using rev_ind.
  - apply app_inj_tail in Heq as [-> ->]. done.
  - rewrite app_comm_cons, app_assoc in Heq. apply app_inj_tail in Heq as [-> _]. by eapply Hl.
Qed.

Lemma enter_ok config now0 x a now order w' g' ref :
  binds_ok config now0 x -> run_now x <= now ->
  bind_enter no_pause (MkTWorld (run_throttle x) now order) (run_guard x) a = (w', g', ref) ->
  binds_ok config now0 (MkBindRun g' (tw_throttle w') now
      (match ref with None => run_busy x ++ [a] | Some _ => run_busy x end)
      (run_log x ++ [Entered a now ref])).
Proof.
  intros [Ht Hl Hs Hb He] Hnow. unfold bind_enter. cbn [limiter add_attempt]. rewrite Hl.
  unfold allowBind. cbn [AllowBind throttle_limiter tw_throttle tw_now tw_order].
  pose proof (t_allow (MkRun (run_throttle x) (run_now x) (rejections (run_log x))) (attempt_host a) now Hnow) as Hstep.
  pose proof (throttle_refuses config now0 _ (attempt_host a) now Ht) as Href.
  cbn [rn_throttle rn_history] in Hstep, Href. injection Hs as Hs1 Hs2 Hs3.
  destruct (Throttle.AllowBind (run_throttle x) (attempt_host a) now) as [t []] eqn:Hallow;
    cbn [negb fst snd] in *; intros Heq.
  - injection Heq as <- <- <-. split; cbn [run_throttle run_now run_log run_guard run_busy tw_throttle limiter].
    + rewrite rejections_snoc, app_nil_r. eapply rtc_r; [exact Ht|exact Hstep].
    + done.
    + unfold guard_stats. cbn. rewrite !number_snoc, rejections_snoc, app_nil_r, Hs1, u64_succ, Hs2, Hs3.
      cbn [entered refused]. by rewrite Z.add_0_r.
    + rewrite !number_snoc, length_app. cbn [entered refused decided length]. lia.
    + by apply events_snoc.
  - injection Heq as <- <- <-. unfold wait, no_pause.
    replace (if delay (add_throttled (add_attempt (run_guard x))) <=? 0 then MkTWorld t now order
      else MkTWorld t now order) with (MkTWorld t now order) by (by destruct (_ <=? _)).
    split; cbn [run_throttle run_now run_log run_guard run_busy tw_throttle limiter].
    + rewrite rejections_snoc, app_nil_r. eapply rtc_r; [exact Ht|exact Hstep].
    + done.
    + unfold guard_stats. cbn. rewrite !number_snoc, rejections_snoc, app_nil_r, Hs1, Hs2, Hs3, !u64_succ. done.
    + rewrite !number_snoc. cbn [entered refused decided]. lia.
    + apply events_snoc; [done|]. cbn [event_ok]. split; [done|by apply Href].
Qed.

(** What the second part does to the throttle and the counters, and what it answers. *)
Lemma exit_result x a now order result err w' g' reply :
  limiter (run_guard x) = Some throttle_limiter ->
  bind_exit no_pause (MkTWorld (run_throttle x) now order) (run_guard x) a result err = (w', g', reply) ->
  tw_throttle w' = match err with
                   | None => Throttle.RecordBind (run_throttle x) (attempt_host a) (OK (bres_Status result)) now order
                   | Some _ => run_throttle x
                   end /\
  g' = match err with
       | None => if OK (bres_Status result) then run_guard x else add_failure (run_guard x)
       | Some _ => run_guard x
       end /\
  reply.2 = panicOnly err /\ (rsp_Status reply.1 = StatusOK <-> bres_Status result = StatusOK /\ err = None).
Proof.
  intros Hl. unfold bind_exit. rewrite Hl.
  assert (Hwait : forall g w, wait no_pause g w = w) by (intros g w; unfold wait, no_pause; by destruct (_ <=? _)).
  unfold OK. destruct err as [e|].
  - destruct (Z.eqb_spec (bres_Status result) StatusOK) as [Hok|Hok].
    + change (StatusSystemError =? StatusOK) with false. cbn [negb]. rewrite Hwait. intros [= <- <- <-]. cbn. split_and!; [done..|].
      split; [done|by intros []].
    + apply Z.eqb_neq in Hok as Hokb. rewrite Hokb. cbn [negb]. rewrite Hwait. intros [= <- <- <-]. cbn.
      split_and!; [done..|]. split; [done|by intros []].
  - unfold recordBind. cbn [RecordBind throttle_limiter tw_throttle tw_now tw_order].
    destruct (Z.eqb_spec (bres_Status result) StatusOK) as [Hok|Hok]; cbn [negb].
    + intros [= <- <- <-]. cbn. split_and!; [done..|]. by rewrite Hok.
    + rewrite Hwait. intros [= <- <- <-]. cbn. split_and!; [done..|]. split; [done|by intros []].
Qed.

Lemma exit_ok config now0 x before a after now order result err w' g' reply :
  binds_ok config now0 x -> run_busy x = before ++ a :: after -> run_now x <= now ->
  order ≡ₚ (map_to_list (entries (run_throttle x))).*1 ->
  bind_exit no_pause (MkTWorld (run_throttle x) now order) (run_guard x) a result err = (w', g', reply) ->
  binds_ok config now0 (MkBindRun g' (tw_throttle w') now (before ++ after)
      (run_log x ++ [Decided a now result err reply])).
Proof.
  intros [Ht Hl Hs Hb He] Hbusy Hnow Hord Hexit.
  destruct (exit_result _ _ _ _ _ _ _ _ _ Hl Hexit) as (Hw & Hg & Hr & Hgrant).
  injection Hs as Hs1 Hs2 Hs3. split; cbn [run_throttle run_now run_log run_guard run_busy].
  - rewrite rejections_snoc, Hw. eapply rtc_r; [exact Ht|]. cbn [rejection]. destruct err as [e|].
    + rewrite app_nil_r. by apply (t_success (MkRun _ _ _) (attempt_host a) now order).
    + destruct (OK (bres_Status result)).
      * rewrite app_nil_r. by apply (t_success (MkRun _ _ _) (attempt_host a) now order).
      * by apply (t_failure (MkRun _ _ _) (attempt_host a) now order).
  - rewrite Hg. by destruct err; [|destruct (OK _)].
  - rewrite Hg, !number_snoc, rejections_snoc, length_app. cbn [entered refused rejection].
    rewrite !Z.add_0_r. unfold guard_stats. destruct err as [e|]; [|destruct (OK _)]; cbn;
      rewrite Hs1, Hs2, Hs3, ?Nat.add_0_r, ?u64_succ; repeat f_equal; lia.
  - rewrite !number_snoc. rewrite Hbusy, !length_app in Hb. rewrite length_app. cbn [entered refused decided length] in *. lia.
  - by apply events_snoc.
Qed.
End throttled.

(** C34: Binds of all sessions against the shared throttle.  For every interleaving
    of binds, from any number of connections and with an authenticator that answers
    anything at any time: a bind is refused with ESME_RTHROTTLED only if at least
    [MaxFailures] binds of the same host were rejected by the authenticator within
    one window, with the lockout since one of these not over, so neither other hosts
    nor errors of the authenticator lock a peer out; a bind that reaches the
    authenticator is accepted exactly when the authenticator accepts it without an
    error; every bind that entered is refused, decided or still with the
    authenticator; and [BindStats] counts the attempts, the rejections and the
    refusals exactly (modulo 2^64). *)
Theorem binds_throttled text parse split name config delay now0 x :
  rtc bstep (start_binds text parse split name config delay now0) x ->
  guard_stats (run_guard x) =
    MkBindStats (u64 (number entered (run_log x)))
      (u64 (zlen (rejections text parse split name (run_log x)))) (u64 (number refused (run_log x))) 0 /\
  number entered (run_log x) =
    number refused (run_log x) + number decided (run_log x) + zlen (run_busy x) /\
  (forall before e after, run_log x = before ++ e :: after ->
     event_ok text parse split name (th_config (NewBindThrottle config)) before e).
Proof.
  intros H. assert (Hok : binds_ok text parse split name config now0 x).
  { apply (rtc_ind_r (binds_ok text parse split name config now0)
      (start_binds text parse split name config delay now0)) in H; [done| |].
    - split; cbn; [apply rtc_refl|done..|]. intros before e after Hnil. by destruct before.
    - intros y z _ Hstep Hy. destruct Hstep; [by eapply enter_ok|by eapply exit_ok]. }
  destruct Hok. auto.
Qed.

(** An authenticator that knows one name, and a session that just opened. *)
Definition sample_authenticator : Authenticator (Session * unit) := fun w _ request =>
  (w, Returned (MkBindResult (if decide (brq_SystemID request = [0x61]) then StatusOK else StatusBindFailed)
                  [0x73] [], None)).
Definition sample_dispatch : dispatchHandler (Session * unit) :=
  MkDispatch (Some sample_authenticator) None None.
Definition allow_all : BindRateLimiter (Session * unit) :=
  MkLimiter (fun w _ => (w, Returned true)) (fun w _ _ => (w, Returned tt)).
Definition sample_guard : bindGuard (Session * unit) := MkGuard (Some allow_all) 0 0 0 0.
Definition sample_registry : option Registry := Some (smpp34_registry RegistryStrict).
Definition sample_bind (name : bytes) : DecodedPDU :=
  MkDecodedPDU (MkHeader 0 CommandBindTransceiver 0 7)
    (AVal (VBindRequest (MkBindRequest name [] [] InterfaceVersion34 0 0 []))).
Definition sample_answer (name : bytes) : Session * outcome GoError unit :=
  handleRequest sample_registry SMPP34Profile 8 []
    (Some (server_handler (fun _ w => w) sample_dispatch None tt sample_guard)) (fun s => (s, true))
    open_session (sample_bind name).

Lemma server_handler_unit_others s pdu :
  others s (server_handler (fun _ w => w) sample_dispatch None tt sample_guard s pdu).1.
Proof.
  unfold server_handler, Handle. destruct (_ || _).
  - unfold handle_bind. destruct (pdu_Body pdu) as [|[]|[]|]; try done. cbn.
    unfold bind_exit. cbn. by destruct (decide _).
  - destruct (_ =? _); [|done]. unfold handle_submit. by destruct (pdu_Body pdu) as [|[]|[]|].
Qed.

(** The known name is accepted with status 0, another is not; the theorem says why. *)
Lemma bind_accepted_only_if_granted_witness :
  map status (rx_items (sample_answer [0x61]).1) = [StatusOK] /\
  map status (rx_items (sample_answer [0x62]).1) = [StatusBindFailed] /\
  exists s1 w' response, granted sample_authenticator None sample_guard (sample_bind [0x61]) (s1, tt) w' response.
Proof.
  assert (Hst : map status (rx_items (sample_answer [0x61]).1) = [StatusOK]) by (vm_compute; reflexivity).
  split_and!; [done|vm_compute; reflexivity|].
  destruct (bind_accepted_only_if_granted (fun _ w => w) sample_dispatch sample_authenticator None tt
    sample_guard sample_registry SMPP34Profile 8 [] (fun s => (s, true)) open_session (sample_bind [0x61])
    eq_refl eq_refl server_handler_unit_others (fun s => reflexivity s)) as [H|(item & H & Hs)];
    change (handleRequest _ _ _ _ _ _ _ _) with (sample_answer [0x61]) in H;
    change (rx_items open_session) with (@nil txItem) in H; rewrite H in Hst; cbn [app map] in Hst.
  - discriminate Hst.
  - apply Hs. by injection Hst.
Defined.

(** Two rejected binds of a host, and the third is refused. *)
Definition sample_attempt : BindAttempt := MkAttempt None [0x62] BindTRX.
Definition sample_texts (x : bind_run) : Prop :=
  rtc bstep (start_binds (fun _ => "a") (fun _ => None) (fun _ => None) (fun _ => "a")
    (MkThrottleConfig 2 100 50 10) 0 0) x.

Lemma binds_throttled_witness : exists x, sample_texts x /\
  guard_stats (run_guard x) = MkBindStats 3 2 1 0.
Proof.
  assert (H : exists x, sample_texts x /\ number entered (run_log x) = 3 /\ number refused (run_log x) = 1 /\
    zlen (rejections (fun _ => "a") (fun _ => None) (fun _ => None) (fun _ => "a") (run_log x)) = 2).
  { eexists. split.
    - eapply rtc_l; [eapply (b_enter _ sample_attempt 1 []); [vm_compute; discriminate|reflexivity]|].
      eapply rtc_l; [eapply (b_enter _ sample_attempt 2 []); [vm_compute; discriminate|reflexivity]|].
      eapply rtc_l; [eapply (b_exit _ [] sample_attempt [sample_attempt] 3 [] (MkBindResult StatusBindFailed [] []) None);
        [reflexivity|vm_compute; discriminate|reflexivity|reflexivity]|].
      eapply rtc_l; [eapply (b_exit _ [] sample_attempt [] 4 [""] (MkBindResult StatusBindFailed [] []) None);
        [reflexivity|vm_compute; discriminate|reflexivity|reflexivity]|].
      apply rtc_once. eapply (b_enter _ sample_attempt 5 []); [vm_compute; discriminate|reflexivity].
    - split_and!; vm_compute; reflexivity. }
  destruct H as (x & Hx & H1 & H2 & H3). exists x. split; [done|].
  destruct (binds_throttled _ _ _ _ _ _ _ x Hx) as [-> _]. by rewrite H1, H2, H3.
Defined.
