(* ===== verification/Server.v ===== *)
(** * The server (src/server/server.go, unbound.go)

    The accept loop admits connections up to a number of sessions and, per remote
    host, up to a number of sessions that are not bound; it registers each session,
    a goroutine per session takes it out again when it has ended, and [Close] ends
    them all.  The tables are guarded by a mutex: what runs under it is one step.
    Sessions are numbered; of a session only its state matters here, which it
    changes by itself, along the lifecycle of [StateMachine]. *)

From S2P Require Import Prelude Protocol StateMachine Host.

Record Config := MkConfig {
  MaxSessions : Z; MaxUnboundPerIP : Z; UnboundCapExempt : list Prefix
}.

Record Server := MkServer {
  config : Config;
  sessions : gset nat;
  byHost : gmap string (gset nat);
  serving : bool;
  closed : bool;
  refusedUnbound : Z
}.

Definition NewWithConfig (c : Config) : Server := MkServer c ∅ ∅ false false 0.

Definition set_serving (s : Server) (b : bool) : Server :=
  MkServer (config s) (sessions s) (byHost s) b (closed s) (refusedUnbound s).
Definition set_closed (s : Server) : Server :=
  MkServer (config s) (sessions s) (byHost s) (serving s) true (refusedUnbound s).
Definition set_sessions (s : Server) (l : gset nat) (m : gmap string (gset nat)) : Server :=
  MkServer (config s) l m (serving s) (closed s) (refusedUnbound s).
Definition count_refused (s : Server) : Server :=
  MkServer (config s) (sessions s) (byHost s) (serving s) (closed s) (u64 (refusedUnbound s + 1)).

Inductive serve_error : Set := ErrAlreadyServing | net_ErrClosed.

(** [Serve] before its loop, and its deferred reset. *)
Definition serve_begin (s : Server) : Server * option serve_error :=
  if serving s then (s, Some ErrAlreadyServing)
  else if closed s then (s, Some net_ErrClosed)
  else (set_serving s true, None).
Definition serve_end (s : Server) : Server := set_serving s false.

(** The sessions of a host, and those of them that are open and not bound;
    [states] are the states of the sessions. *)
Definition peers (s : Server) (host : string) : gset nat := default ∅ (byHost s !! host).
Definition unboundFromLocked (states : gmap nat SessionState) (s : Server) (host : string) : Z :=
  Z.of_nat (size (filter (fun sid => states !! sid = Some StateOpen) (peers s host))).

(** What the loop does with a connection. *)
Inductive verdict : Set := Accept | Refuse | Stop.

Section server.
Context (ParseAddr : string -> option Addr).

Definition capped (s : Server) (host : string) : bool :=
  (0 <? MaxUnboundPerIP (config s)) &&
  negb (exemptFromUnboundCap ParseAddr (UnboundCapExempt (config s)) host).

Definition atLimit (s : Server) : bool :=
  (0 <? MaxSessions (config s)) && (MaxSessions (config s) <=? Z.of_nat (size (sessions s))).

(** A new connection, before a session is made for it. *)
Definition check_connection (states : gmap nat SessionState) (s : Server) (host : string)
    : Server * verdict :=
  let tooManyUnbound := capped s host && (MaxUnboundPerIP (config s) <=? unboundFromLocked states s host) in
  if closed s || atLimit s || tooManyUnbound then
    (if negb (closed s) && tooManyUnbound && negb (atLimit s) then count_refused s else s,
     if closed s then Stop else Refuse)
  else (s, Accept).

(** A new session, to be registered; [Refuse] and [Stop] close it. *)
Definition register_session (s : Server) (host : string) (sid : nat) : Server * verdict :=
  if closed s then (s, Stop)
  else if atLimit s then (s, Refuse)
  else (set_sessions s ({[sid]} ∪ sessions s) (<[host := {[sid]} ∪ peers s host]> (byHost s)), Accept).

(** The end of [watch], when the session is over. *)
Definition watch (s : Server) (sid : nat) (host : string) : Server :=
  set_sessions s (sessions s ∖ {[sid]})
    (match byHost s !! host with
     | None => byHost s
     | Some peers =>
         let peers := peers ∖ {[sid]} in
         if decide (size peers = 0%nat) then delete host (byHost s) else <[host := peers]> (byHost s)
     end).

Definition Sessions (s : Server) : list nat := elements (sessions s).
Definition owns (s : Server) (sid : nat) : bool := bool_decide (sid ∈ sessions s).

(** [Close] under [closeOnce]: the sessions it goes on to close. *)
Definition Close (s : Server) : Server * list nat := (set_closed s, elements (sessions s)).

(** ** Runs

    Where the goroutine in [Serve] is. *)
Inductive serve_pc : Type :=
| NotServing | Accepting | Checking (host : string) | Creating (host : string)
| Registering (host : string) (sid : nat).

(** [states] are all sessions there were, [watchers] the goroutines in [watch], with
    the host they were started with, and [closing] the sessions [Close] has yet to
    close. *)
Record world := MkWorld {
  srv : Server; pc : serve_pc; states : gmap nat SessionState;
  watchers : gmap nat string; closing : list nat
}.

(** Where [Serve] goes on. *)
Definition after (v : verdict) (next : serve_pc) : serve_pc :=
  match v with Accept => next | Refuse => Accepting | Stop => NotServing end.
Definition leaving (v : verdict) (s : Server) : Server :=
  match v with Stop => serve_end s | _ => s end.

(** [reopens] says whether an outbind that was not sent may be rolled back, which
    takes a session from Outbound to Open. *)
Inductive sstep (reopens : bool) : world -> world -> Prop :=
| s_serve w s : serve_begin (srv w) = (s, None) ->
    sstep reopens w (MkWorld s Accepting (states w) (watchers w) (closing w))
| s_accept w host : pc w = Accepting ->
    sstep reopens w (MkWorld (srv w) (Checking host) (states w) (watchers w) (closing w))
| s_accept_fails w : pc w = Accepting ->
    sstep reopens w (MkWorld (serve_end (srv w)) NotServing (states w) (watchers w) (closing w))
| s_check w host s v : pc w = Checking host -> check_connection (states w) (srv w) host = (s, v) ->
    sstep reopens w (MkWorld (leaving v s) (after v (Creating host)) (states w) (watchers w) (closing w))
| s_new_fails w host : pc w = Creating host ->
    sstep reopens w (MkWorld (srv w) Accepting (states w) (watchers w) (closing w))
| s_new w host sid : pc w = Creating host -> states w !! sid = None ->
    sstep reopens w (MkWorld (srv w) (Registering host sid) (<[sid := StateOpen]> (states w))
      (watchers w) (closing w))
| s_register w host sid s v : pc w = Registering host sid -> register_session (srv w) host sid = (s, v) ->
    sstep reopens w (MkWorld (leaving v s) (after v Accepting)
      (match v with Accept => states w | _ => <[sid := StateClosed]> (states w) end)
      (match v with Accept => <[sid := host]> (watchers w) | _ => watchers w end) (closing w))
| s_session w sid st st' : states w !! sid = Some st -> st <> StateClosed ->
    lifecycle_edge st st' = true -> (reopens = true \/ st <> StateOutbound \/ st' <> StateOpen) ->
    sstep reopens w (MkWorld (srv w) (pc w) (<[sid := st']> (states w)) (watchers w) (closing w))
| s_watch w sid host : watchers w !! sid = Some host -> states w !! sid = Some StateClosed ->
    sstep reopens w (MkWorld (watch (srv w) sid host) (pc w) (states w) (delete sid (watchers w)) (closing w))
| s_close w s l : closed (srv w) = false -> Close (srv w) = (s, l) ->
    sstep reopens w (MkWorld s (pc w) (states w) (watchers w) l)
| s_close_one w sid l : closing w = sid :: l ->
    sstep reopens w (MkWorld (srv w) (pc w) (<[sid := StateClosed]> (states w)) (watchers w) l).

Definition start (c : Config) : world := MkWorld (NewWithConfig c) NotServing ∅ ∅ [].

(** ** The invariant *)

Record server_ok (c : Config) (w : world) : Prop := {
  so_config : config (srv w) = c;
  so_sessions : sessions (srv w) = dom (watchers w);
  so_hosts host sid : sid ∈ peers (srv w) host <-> watchers w !! sid = Some host;
  so_nonempty host l : byHost (srv w) !! host = Some l -> size l <> 0%nat;
  so_states sid st : states w !! sid = Some st ->
    st = StateClosed \/ is_Some (watchers w !! sid) \/ exists host, pc w = Registering host sid;
  so_known sid : is_Some (watchers w !! sid) -> is_Some (states w !! sid);
  so_new host sid : pc w = Registering host sid -> is_Some (states w !! sid) /\ watchers w !! sid = None;
  so_limit : 0 < MaxSessions c -> Z.of_nat (size (sessions (srv w))) <= MaxSessions c;
  so_serving : serving (srv w) = true <-> pc w <> NotServing;
  so_closing : closed (srv w) = false -> closing w = [];
  so_closed sid : closed (srv w) = true -> sid ∈ sessions (srv w) ->
    sid ∈ closing w \/ states w !! sid = Some StateClosed
}.

Lemma start_ok c : server_ok c (start c).
Proof.
  split; cbn; try done.
  - intros sid. by rewrite lookup_empty.
  - intros H. rewrite size_empty. lia.
Qed.

Lemma peers_insert s l host x host' :
  peers (set_sessions s l (<[host := x]> (byHost s))) host' = if decide (host = host') then x else peers s host'.
Proof.
  unfold peers. cbn [byHost set_sessions]. destruct (decide (host = host')) as [<-|Hne].
  - by rewrite lookup_insert_eq.
  - by rewrite lookup_insert_ne.
Qed.

Lemma peers_watch s sid host host' sid' :
  sid' ∈ peers (watch s sid host) host' <-> sid' ∈ peers s host' /\ ~ (host' = host /\ sid' = sid).
Proof.
  unfold peers, watch. cbn [byHost set_sessions]. destruct (byHost s !! host) as [l|] eqn:Hl.
  - destruct (decide (size (l ∖ {[sid]}) = 0%nat)) as [He|He].
    + destruct (decide (host = host')) as [<-|Hne].
      * rewrite lookup_delete_eq, Hl. cbn. apply size_empty_inv in He. set_solver.
      * rewrite lookup_delete_ne by done. naive_solver.
    + destruct (decide (host = host')) as [<-|Hne].
      * rewrite lookup_insert_eq, Hl. cbn. set_solver.
      * rewrite lookup_insert_ne by done. naive_solver.
  - split; [|naive_solver]. intros Hin. split; [done|]. intros [-> ->]. rewrite Hl in Hin. cbn in Hin. set_solver.
Qed.

Lemma watch_nonempty s sid host : (forall h l, byHost s !! h = Some l -> size l <> 0%nat) ->
  forall h l, byHost (watch s sid host) !! h = Some l -> size l <> 0%nat.
Proof.
  intros Hs h l. unfold watch. cbn [byHost set_sessions]. destruct (byHost s !! host) as [x|]; [|apply Hs].
  destruct (decide _) as [|Hne].
  - intros [_ Hl]%lookup_delete_Some. by eapply Hs.
  - intros [[_ <-]|[_ Hl]]%lookup_insert_Some; [done|by eapply Hs].
Qed.

(** A change of one session's state keeps the tables. *)
Lemma state_change_ok c w sid st : server_ok c w -> is_Some (states w !! sid) ->
  (forall host sid', pc w = Registering host sid' -> is_Some (<[sid := st]> (states w) !! sid')) ->
  (st = StateClosed \/ states w !! sid <> Some StateClosed) ->
  server_ok c (MkWorld (srv w) (pc w) (<[sid := st]> (states w)) (watchers w) (closing w)).
Proof.
  intros [] Hk Hr Hst. split; cbn; try done.
  - intros sid' st' [[<- <-]|[Hne Hl]]%lookup_insert_Some; [|by eauto].
    destruct Hst as [->|Hst]; [by left|]. destruct Hk as [st0 Hk].
    destruct (so_states0 sid st0 Hk) as [->|H]; [done|by right].
  - intros sid' Hw. destruct (decide (sid = sid')) as [<-|]; [by rewrite lookup_insert_eq|].
    rewrite lookup_insert_ne by done. auto.
  - intros host sid' Hpc. split; [by eapply Hr|by eapply so_new0].
  - intros sid' Hc Hin. destruct (so_closed0 sid' Hc Hin) as [H|H]; [by left|right].
    destruct (decide (sid = sid')) as [<-|]; [|by rewrite lookup_insert_ne].
    rewrite lookup_insert_eq. destruct Hst as [->|]; [done|congruence].
Qed.

Lemma size_register (X : gset nat) sid : sid ∉ X -> size ({[sid]} ∪ X) = S (size X).
Proof. intros H. rewrite size_union by set_solver. by rewrite size_singleton. Qed.

Lemma register_ok c w host sid s v : server_ok c w -> pc w = Registering host sid ->
  register_session (srv w) host sid = (s, v) ->
  server_ok c (MkWorld (leaving v s) (after v Accepting)
    (match v with Accept => states w | _ => <[sid := StateClosed]> (states w) end)
    (match v with Accept => <[sid := host]> (watchers w) | _ => watchers w end) (closing w)).
Proof.
  intros Hok Hpc. destruct (so_new c w Hok host sid Hpc) as [Hk Hnw]. unfold register_session.
  destruct (closed (srv w)) eqn:Hcl; [|destruct (atLimit (srv w)) eqn:Hat]; intros [= <- <-].
  - assert (H : server_ok c (MkWorld (srv w) (pc w) (<[sid := StateClosed]> (states w)) (watchers w) (closing w))).
    { apply state_change_ok; [done..| |by left]. intros ? ? [= -> ->]%(eq_trans (eq_sym Hpc)). by rewrite lookup_insert_eq. }
    destruct H. split; cbn in *; try done.
    intros sid' st [[<- <-]|[Hne Hl]]%lookup_insert_Some; [by left|].
    destruct (so_states c w Hok sid' st Hl) as [|[|(h & Hh)]]; [by left|by right; left|congruence].
  - assert (H : server_ok c (MkWorld (srv w) (pc w) (<[sid := StateClosed]> (states w)) (watchers w) (closing w))).
    { apply state_change_ok; [done..| |by left]. intros ? ? [= -> ->]%(eq_trans (eq_sym Hpc)). by rewrite lookup_insert_eq. }
    destruct H. split; cbn in *; try done.
    + intros sid' st [[<- <-]|[Hne Hl]]%lookup_insert_Some; [by left|].
      destruct (so_states c w Hok sid' st Hl) as [|[|(h & Hh)]]; [by left|by right; left|congruence].
    + rewrite (so_serving c w Hok), Hpc. done.
  - destruct Hok. assert (Hnin : sid ∉ sessions (srv w)) by (rewrite so_sessions0; by apply not_elem_of_dom).
    split; cbn in *; try done.
    + rewrite dom_insert_L. by rewrite so_sessions0.
    + intros host' sid'. rewrite peers_insert. destruct (decide (host = host')) as [<-|Hne].
      * rewrite elem_of_union, elem_of_singleton, so_hosts0, lookup_insert_Some.
        destruct (decide (sid = sid')) as [<-|]; naive_solver.
      * rewrite so_hosts0, lookup_insert_Some. split; [|naive_solver]. intros Hl. right. split; [|done].
        intros <-. congruence.
    + intros host' l [[<- <-]|[_ Hl]]%lookup_insert_Some; [|by eapply so_nonempty0].
      intros He%size_empty_inv. set_solver.
    + intros sid' st Hl. destruct (so_states0 sid' st Hl) as [|[Hw|(h & Hh)]]; [by left|right; left|right; left].
      * destruct (decide (sid = sid')) as [<-|]; [by rewrite lookup_insert_eq|by rewrite lookup_insert_ne].
      * rewrite Hpc in Hh. injection Hh as -> ->. by rewrite lookup_insert_eq.
    + intros sid' Hw. destruct (decide (sid = sid')) as [<-|]; [done|]. rewrite lookup_insert_ne in Hw by done. auto.
    + intros Hm. rewrite size_register by done. unfold atLimit in Hat. rewrite so_config0 in Hat. lia.
    + rewrite so_serving0, Hpc. done.
    + congruence.
Qed.

Lemma watch_ok c w sid host : server_ok c w -> watchers w !! sid = Some host ->
  states w !! sid = Some StateClosed ->
  server_ok c (MkWorld (watch (srv w) sid host) (pc w) (states w) (delete sid (watchers w)) (closing w)).
Proof.
  intros [] Hw Hst. split; cbn in *; try done.
  - rewrite dom_delete_L. by rewrite so_sessions0.
  - intros host' sid'. rewrite peers_watch, so_hosts0, lookup_delete_Some.
    destruct (decide (sid = sid')) as [<-|]; [|naive_solver]. rewrite Hw. naive_solver.
  - by apply watch_nonempty.
  - intros sid' st Hl. destruct (decide (sid = sid')) as [<-|]; [left; congruence|].
    rewrite lookup_delete_ne by done. eauto.
  - intros sid' [h [_ Hl]%lookup_delete_Some]. apply so_known0. by eexists.
  - intros h sid' Hpc. destruct (so_new0 h sid' Hpc) as [H1 H2]. split; [done|].
    apply lookup_delete_None. by right.
  - intros Hm. specialize (so_limit0 Hm).
    assert (size (sessions (srv w) ∖ {[sid]}) <= size (sessions (srv w)))%nat by (apply subseteq_size; set_solver). lia.
  - intros sid' Hc Hin. apply so_closed0; [done|set_solver].
Qed.

(** Steps that leave the tables and the sessions alone. *)
Lemma move_ok c w s p : server_ok c w ->
  config s = config (srv w) -> sessions s = sessions (srv w) -> byHost s = byHost (srv w) ->
  closed s = closed (srv w) -> (serving s = true <-> p <> NotServing) ->
  (forall host sid, pc w <> Registering host sid) -> (forall host sid, p <> Registering host sid) ->
  server_ok c (MkWorld s p (states w) (watchers w) (closing w)).
Proof.
  intros [] Hc Hs Hb Hcl Hsv Hp Hp'. split; cbn; rewrite ?Hc, ?Hs, ?Hb, ?Hcl; try done.
  - intros host sid. rewrite <- so_hosts0. unfold peers. by rewrite Hb.
  - intros sid st Hl. destruct (so_states0 sid st Hl) as [|[|(h & Hh)]]; [by left|by right; left|by destruct (Hp h sid)].
  - intros h sid Hh. by destruct (Hp' h sid).
Qed.

Lemma sstep_ok reopens c w w' : sstep reopens w w' -> server_ok c w -> server_ok c w'.
Proof.
  intros Hstep Hok. destruct Hstep as [w s Hs|w host Hpc|w Hpc|w host s v Hpc Hc|w host Hpc|w host sid Hpc Hn
    |w host sid s v Hpc Hr|w sid st st' Hl Hne He Hre|w sid host Hw Hst|w s l Hcl Hc|w sid l Hcl].
  - unfold serve_begin in Hs. destruct (serving (srv w)) eqn:Hsv; [done|]. destruct (closed (srv w)); [done|].
    injection Hs as <-. apply move_ok; try done. intros host sid Hpc.
    pose proof (so_serving c w Hok) as Hi. rewrite Hpc, Hsv in Hi. by destruct Hi as [_ Hi]; discriminate Hi.
  - apply move_ok; try done; [|congruence]. by rewrite (so_serving c w Hok), Hpc.
  - apply move_ok; try done; congruence.
  - unfold check_connection in Hc. pose proof (so_serving c w Hok) as Hi. rewrite Hpc in Hi.
    destruct (closed (srv w) || _ || _).
    + injection Hc as <- <-. destruct (closed (srv w)) eqn:Hcl; cbn [leaving after negb andb].
      * apply move_ok; try done; congruence.
      * destruct (_ && _ && _); apply move_ok; try done; try congruence; by rewrite Hi.
    + injection Hc as <- <-. apply move_ok; try done; try congruence. by rewrite Hi.
  - apply move_ok; try done; [|congruence]. by rewrite (so_serving c w Hok), Hpc.
  - assert (Hnw : watchers w !! sid = None).
    { apply eq_None_not_Some. intros Hw%(so_known c w Hok). rewrite Hn in Hw. by destruct Hw. }
    destruct Hok. split; cbn; try done.
    + intros sid' st [[<- <-]|[_ Hl]]%lookup_insert_Some; [right; right; eauto|].
      destruct (so_states0 sid' st Hl) as [|[|(h & Hh)]]; [by left|by right; left|congruence].
    + intros sid' Hw. rewrite lookup_insert_ne; [auto|]. intros <-. rewrite Hnw in Hw. by destruct Hw.
    + intros h sid' [= <- <-]. by rewrite lookup_insert_eq.
    + by rewrite so_serving0, Hpc.
    + intros sid' Hc Hin. destruct (so_closed0 sid' Hc Hin) as [|Hl]; [by left|right].
      rewrite lookup_insert_ne; [done|]. intros <-. congruence.
  - by eapply register_ok.
  - apply state_change_ok; [done|by eexists| |right; congruence].
    intros host sid' Hpc. destruct (decide (sid = sid')) as [<-|]; [by rewrite lookup_insert_eq|].
    rewrite lookup_insert_ne by done. by eapply so_new.
  - by apply watch_ok.
  - injection Hc as <- <-. destruct Hok. split; cbn; try done.
    intros sid _ Hin. left. by apply elem_of_elements.
  - assert (Hkn : is_Some (states w !! sid) \/ states w !! sid = None) by (destruct (states w !! sid); eauto).
    destruct Hok. split; cbn; try done.
    + intros sid' st [[<- <-]|[_ Hl]]%lookup_insert_Some; [by left|eauto].
    + intros sid' Hw. destruct (decide (sid = sid')) as [<-|]; [by rewrite lookup_insert_eq|].
      rewrite lookup_insert_ne by done. auto.
    + intros h sid' Hpc. destruct (so_new0 h sid' Hpc). split; [|done].
      destruct (decide (sid = sid')) as [<-|]; [by rewrite lookup_insert_eq|by rewrite lookup_insert_ne].
    + intros Hc. specialize (so_closing0 Hc). congruence.
    + intros sid' Hc Hin. destruct (decide (sid = sid')) as [<-|]; [right; by rewrite lookup_insert_eq|].
      rewrite lookup_insert_ne by done. destruct (so_closed0 sid' Hc Hin) as [Hc'|]; [|by right].
      rewrite Hcl in Hc'. apply elem_of_cons in Hc' as [->|]; [done|by left].
Qed.

Lemma run_ok reopens c w : rtc (sstep reopens) (start c) w -> server_ok c w.
Proof.
  intros H. apply (rtc_ind_r (server_ok c) (start c)) in H; [done|apply start_ok|].
  intros x y _ Hs Hx. by eapply sstep_ok.
Qed.

(** ** The cap on unbound sessions *)

(** The connection in the accept loop, past the check and not yet registered. *)
Definition in_flight (p : serve_pc) (host : string) : Z :=
  match p with
  | Creating h | Registering h _ => if decide (h = host) then 1 else 0
  | _ => 0
  end.
Definition cap_ok (w : world) : Prop := forall host, capped (srv w) host = true ->
  unboundFromLocked (states w) (srv w) host + in_flight (pc w) host <= MaxUnboundPerIP (config (srv w)).

Lemma unbound_mono st st' s s' host : peers s' host ⊆ peers s host ->
  (forall sid, sid ∈ peers s' host -> st' !! sid = Some StateOpen -> st !! sid = Some StateOpen) ->
  unboundFromLocked st' s' host <= unboundFromLocked st s host.
Proof.
  intros Hp Hs. unfold unboundFromLocked. apply inj_le, subseteq_size. intros sid.
  rewrite !elem_of_filter. intros [H1 H2]. auto.
Qed.

Lemma capped_config s s' host : config s' = config s -> capped s' host = capped s host.
Proof. intros H. unfold capped. by rewrite H. Qed.

(** A step that changes no count upwards. *)
Lemma cap_later w w' : cap_ok w -> config (srv w') = config (srv w) ->
  (forall host, in_flight (pc w') host <= in_flight (pc w) host) ->
  (forall host, peers (srv w') host ⊆ peers (srv w) host) ->
  (forall sid host, sid ∈ peers (srv w') host -> states w' !! sid = Some StateOpen ->
     states w !! sid = Some StateOpen) -> cap_ok w'.
Proof.
  intros Hcap Hc Hf Hp Hs host Hh. rewrite (capped_config _ _ host Hc) in Hh. rewrite Hc.
  pose proof (Hcap host Hh). specialize (Hf host).
  pose proof (unbound_mono (states w) (states w') (srv w) (srv w') host (Hp host) (fun sid => Hs sid host)). lia.
Qed.

Lemma size_filter_add (P : nat -> Prop) `{!forall x, Decision (P x)} (X : gset nat) sid :
  (size (filter P ({[sid]} ∪ X)) <= S (size (filter P X)))%nat.
Proof.
  transitivity (size ({[sid]} ∪ filter P X)).
  - apply subseteq_size. intros x. rewrite elem_of_filter, !elem_of_union, elem_of_filter. tauto.
  - rewrite size_union_alt, size_singleton. apply le_n_S, subseteq_size. set_solver.
Qed.

Lemma register_cap c w host sid s v : server_ok c w -> cap_ok w -> pc w = Registering host sid ->
  register_session (srv w) host sid = (s, v) ->
  cap_ok (MkWorld (leaving v s) (after v Accepting)
    (match v with Accept => states w | _ => <[sid := StateClosed]> (states w) end)
    (match v with Accept => <[sid := host]> (watchers w) | _ => watchers w end) (closing w)).
Proof.
  intros Hok Hcap Hpc. destruct (so_new c w Hok host sid Hpc) as [Hk Hnw]. unfold register_session.
  assert (Hstay : forall s p, config s = config (srv w) -> byHost s = byHost (srv w) -> 
    (forall h, in_flight p h <= in_flight (pc w) h) ->
    cap_ok (MkWorld s p (<[sid := StateClosed]> (states w)) (watchers w) (closing w))).
  { intros s' p Hc Hb Hf. apply (cap_later w); cbn; try done.
    - intros h. unfold peers. by rewrite Hb.
    - intros sid' h _ [[_ ?]|[_ ?]]%lookup_insert_Some; done. }
  destruct (closed (srv w)); [|destruct (atLimit (srv w))]; intros [= <- <-].
  - apply Hstay; [done..|]. intros h. rewrite Hpc. cbn. destruct (decide _); lia.
  - apply Hstay; [done..|]. intros h. rewrite Hpc. cbn. destruct (decide _); lia.
  - intros h Hh. pose proof (Hcap h Hh) as Hle. cbn in *. rewrite Hpc in Hle. cbn [in_flight] in Hle.
    revert Hle. unfold unboundFromLocked. rewrite peers_insert. destruct (decide (host = h)) as [<-|]; [|lia].
    intros Hle. pose proof (size_filter_add (fun x => states w !! x = Some StateOpen) (peers (srv w) host) sid). lia.
Qed.

Lemma sstep_cap c w w' : sstep false w w' -> server_ok c w -> cap_ok w -> cap_ok w'.
Proof.
  intros Hstep Hok Hcap. destruct Hstep as [w s Hs|w host Hpc|w Hpc|w host s v Hpc Hc|w host Hpc|w host sid Hpc Hn
    |w host sid s v Hpc Hr|w sid st st' Hl Hne He Hre|w sid host Hw Hst|w s l Hcl Hc|w sid l Hcl].
  - unfold serve_begin in Hs. destruct (serving (srv w)); [done|]. destruct (closed (srv w)); [done|].
    injection Hs as <-. apply (cap_later w); cbn; try done. intros h. destruct (pc w); cbn; try destruct (decide _); lia.
  - apply (cap_later w); cbn; try done. rewrite Hpc. cbn. lia.
  - apply (cap_later w); cbn; try done. rewrite Hpc. cbn. lia.
  - unfold check_connection in Hc. destruct (closed (srv w) || _ || _) eqn:Hrefuse.
    + injection Hc as <- <-. assert (Hs : forall p, p = Accepting \/ p = NotServing -> forall s',
        config s' = config (srv w) -> byHost s' = byHost (srv w) ->
        cap_ok (MkWorld s' p (states w) (watchers w) (closing w))).
      { intros p Hp s' Hc Hb. apply (cap_later w); cbn; try done.
        - intros h. rewrite Hpc. by destruct Hp as [->| ->].
        - intros h. unfold peers. by rewrite Hb. }
      destruct (closed (srv w)); cbn [leaving after]; [by apply Hs; auto|].
      apply Hs; [by left|..]; by destruct (_ && _ && _).
    + injection Hc as <- <-. cbn [leaving after]. intros h Hh. pose proof (Hcap h Hh) as Hle.
      cbn in *. rewrite Hpc in Hle. cbn in Hle. destruct (decide (host = h)) as [->|]; [|lia].
      rewrite Hh in Hrefuse. lia.
  - apply (cap_later w); cbn; try done. intros h. rewrite Hpc. cbn. destruct (decide _); lia.
  - apply (cap_later w); cbn; try done; [intros h; by rewrite Hpc|].
    intros sid' h Hin [[<- _]|[_ Hl]]%lookup_insert_Some; [|done].
    apply (so_hosts c w Hok) in Hin. destruct (so_known c w Hok sid) as [st Hst]; [by eexists|congruence].
  - by eapply register_cap.
  - apply (cap_later w); cbn; try done. intros sid' h _ [[<- ->]|[_ ?]]%lookup_insert_Some; [|done].
    destruct Hre as [?|Hre]; [done|]. destruct st; try done. destruct Hre; done.
  - apply (cap_later w); cbn; try done. intros h x Hx%peers_watch. apply Hx.
  - injection Hc as <- <-. by apply (cap_later w).
  - apply (cap_later w); cbn; try done. intros sid' h _ [[_ ?]|[_ ?]]%lookup_insert_Some; done.
Qed.

Lemma run_cap c w : 0 <= MaxUnboundPerIP c -> rtc (sstep false) (start c) w -> cap_ok w.
Proof.
  intros H0 H. enough (server_ok c w /\ cap_ok w) by tauto.
  apply (rtc_ind_r (fun w => server_ok c w /\ cap_ok w) (start c)) in H; [done| |].
  - split; [apply start_ok|]. intros host _. cbn. by rewrite Z.add_0_r.
  - intros x y _ Hs [Hx Hc]. split; [by eapply sstep_ok|by eapply sstep_cap].
Qed.

(** Once closed, no session is added. *)
Lemma sstep_closed reopens w w' : sstep reopens w w' -> closed (srv w) = true ->
  closed (srv w') = true /\ sessions (srv w') ⊆ sessions (srv w).
Proof.
  intros Hstep Hc. destruct Hstep as [w s Hs|w host Hpc|w Hpc|w host s v Hpc Hck|w host Hpc|w host sid Hpc Hn
    |w host sid s v Hpc Hr|w sid st st' Hl Hne He Hre|w sid host Hw Hst|w s l Hcl Hclose|w sid l Hcl]; cbn; try done.
  - unfold serve_begin in Hs. by destruct (serving (srv w)); [|rewrite Hc in Hs].
  - unfold check_connection in Hck. rewrite Hc in Hck. cbn in Hck. by injection Hck as <- <-.
  - unfold register_session in Hr. rewrite Hc in Hr. by injection Hr as <- <-.
  - split; [done|]. set_solver.
  - congruence.
Qed.
End server.

(** C35: The tables of the server.  In every run of [Serve], [Close], the watchers
    and the sessions, in any interleaving: [Sessions] are exactly the sessions that
    were registered and whose watcher has not finished; each is listed under the
    one host it came from and under no other, and a host without sessions has no
    entry; there are never more than [MaxSessions] (if that is positive); and
    [serving] is set exactly while a [Serve] runs, so there is at most one. *)
Theorem server_tables parse reopens c w : rtc (sstep parse reopens) (start c) w ->
  sessions (srv w) = dom (watchers w) /\
  (forall host sid, sid ∈ peers (srv w) host <-> watchers w !! sid = Some host) /\
  (forall host l, byHost (srv w) !! host = Some l -> l <> ∅) /\
  (0 < MaxSessions c -> Z.of_nat (size (sessions (srv w))) <= MaxSessions c) /\
  (serving (srv w) = true <-> pc w <> NotServing).
Proof.
  intros H%run_ok. destruct H. split_and!; try done. intros host l Hl ->. by apply (so_nonempty0 host ∅).
Qed.

(** C36: The cap on unbound sessions.  From a host that is not exempt there are never
    more than [MaxUnboundPerIP] registered sessions in state Open, counting the
    connection that is being admitted, however sessions bind, end and connect
    meanwhile; provided no session returns from Outbound to Open. *)
Theorem unbound_sessions_capped parse c w host :
  rtc (sstep parse false) (start c) w -> 0 <= MaxUnboundPerIP c -> capped parse (srv w) host = true ->
  unboundFromLocked (states w) (srv w) host + in_flight (pc w) host <= MaxUnboundPerIP c.
Proof.
  intros H H0 Hc. rewrite <- (so_config c w (run_ok parse false c w H)). by apply (run_cap parse c w).
Qed.

(** C37: Closing is final and complete.  Once the server is closed it stays closed and
    registers no further session; and when [Close] has gone through its list and
    the accept loop holds no unregistered session, every session there ever was is
    closed, also one that was being set up while [Close] ran. *)
Theorem close_ends_sessions parse reopens c w w' :
  rtc (sstep parse reopens) (start c) w -> closed (srv w) = true -> rtc (sstep parse reopens) w w' ->
  closed (srv w') = true /\ sessions (srv w') ⊆ sessions (srv w) /\
  (closing w' = [] -> (forall host sid, pc w' <> Registering host sid) ->
   forall sid st, states w' !! sid = Some st -> st = StateClosed).
Proof.
  intros H Hc Hrun. assert (Hok : server_ok c w') by (eapply run_ok; by etrans).
  assert (Hkeep : closed (srv w') = true /\ sessions (srv w') ⊆ sessions (srv w)).
  { clear Hok H. induction Hrun as [|x y z Hs _ IH]; [done|]. apply sstep_closed in Hs as [Hy Hsub]; [|done].
    destruct (IH Hy). split; [done|]. by etrans. }
  destruct Hkeep as [Hc' Hsub]. split_and!; [done..|]. intros Hnil Hpc sid st Hst.
  destruct (so_states c w' Hok sid st Hst) as [|[Hw|(host & Hh)]]; [done| |by destruct (Hpc host sid)].
  destruct (so_closed c w' Hok sid Hc') as [Hin|Hcl]; [|rewrite Hnil in Hin; by apply elem_of_nil in Hin|congruence].
  rewrite (so_sessions c w' Hok). by apply elem_of_dom.
Qed.

(** At most two sessions, one of them unbound per host. *)
Definition sample_config : Config := MkConfig 2 1 [].
Definition no_addr (_ : string) : option Addr := None.

(** One step of a concrete run, and one connection after another from one host. *)
Ltac evaluated := match goal with |- rtc _ ?w _ => let w' := eval vm_compute in w in change w with w' end.
Ltac one_step t := eapply rtc_l; [t|]; evaluated.
Ltac connect sid :=
  one_step ltac:(eapply (s_accept _ _ _ "a"); reflexivity);
  one_step ltac:(eapply s_check; reflexivity);
  one_step ltac:(eapply (s_new _ _ _ _ sid); reflexivity);
  one_step ltac:(eapply s_register; reflexivity).

Lemma one_session reopens : exists w, rtc (sstep no_addr reopens) (start sample_config) w /\
  pc w = Accepting /\ Sessions (srv w) = [0%nat] /\ states w !! 0%nat = Some StateOpen /\ closing w = [] /\
  closed (srv w) = false.
Proof.
  eexists. split.
  - one_step ltac:(eapply s_serve; reflexivity). connect 0%nat. apply rtc_refl.
  - split_and!; vm_compute; reflexivity.
Qed.

Lemma server_tables_witness : exists w, rtc (sstep no_addr true) (start sample_config) w /\
  Sessions (srv w) = [0%nat] /\ sessions (srv w) = dom (watchers w).
Proof.
  destruct (one_session true) as (w & Hw & _ & Hs & _). exists w. split_and!; [done..|].
  by destruct (server_tables no_addr true sample_config w Hw) as [H _].
Defined.

Lemma unbound_sessions_capped_witness : exists w, rtc (sstep no_addr false) (start sample_config) w /\
  Sessions (srv w) = [0%nat] /\ unboundFromLocked (states w) (srv w) "a" <= 1.
Proof.
  destruct (one_session false) as (w & Hw & Hpc & Hs & _). exists w. split_and!; [done..|].
  pose proof (unbound_sessions_capped no_addr sample_config w "a" Hw ltac:(vm_compute; discriminate)) as H.
  rewrite Hpc, Z.add_0_r in H. apply H. unfold capped.
  rewrite (so_config sample_config w (run_ok no_addr false _ w Hw)). reflexivity.
Defined.

Lemma close_ends_sessions_witness : exists w, rtc (sstep no_addr false) (start sample_config) w /\
  closed (srv w) = true /\ forall sid st, states w !! sid = Some st -> st = StateClosed.
Proof.
  destruct (one_session false) as (w & Hw & Hpc & Hs & Hst & _ & Hcl).
  set (w1 := MkWorld (set_closed (srv w)) (pc w) (states w) (watchers w) (Sessions (srv w))).
  assert (H1 : sstep no_addr false w w1) by (by apply (s_close _ _ w)).
  set (w2 := MkWorld (set_closed (srv w)) (pc w) (<[0%nat := StateClosed]> (states w)) (watchers w) []).
  assert (H2 : sstep no_addr false w1 w2) by (by apply (s_close_one _ _ w1)).
  exists w2. split_and!; [eapply rtc_r; [eapply rtc_r; [exact Hw|exact H1]|exact H2]|done|].
  destruct (close_ends_sessions no_addr false sample_config w1 w2) as (_ & _ & H).
  - by eapply rtc_r.
  - done.
  - by apply rtc_once.
  - apply H; [done|]. cbn. by rewrite Hpc.
Defined.

(** An outbind takes its session out of the count, and rolling it back puts it in
    again: the host then has more unbound sessions than the cap allows. *)
Lemma rolled_back_outbind_exceeds_cap : exists w, rtc (sstep no_addr true) (start sample_config) w /\
  capped no_addr (srv w) "a" = true /\
  MaxUnboundPerIP sample_config < unboundFromLocked (states w) (srv w) "a".
Proof.
  eexists. split.
  - one_step ltac:(eapply s_serve; reflexivity). connect 0%nat.
    one_step ltac:(eapply (s_session _ _ _ 0%nat StateOpen StateOutbound); [reflexivity|done|reflexivity|by left]).
    connect 1%nat.
    one_step ltac:(eapply (s_session _ _ _ 0%nat StateOutbound StateOpen); [reflexivity|done|reflexivity|by left]).
    apply rtc_refl.
  - split; vm_compute; reflexivity.
Qed.
