(* ===== verification/Buffers.v ===== *)
(** * The buffers of outbound frames (src/session/pool.go, and its users
    Session.request, SendOneWay, queueResponse and txLoop)

    Everywhere else in this development the frame of a queued item is a value.  In the
    program it is a buffer of a pool that the next request may be encoded into.  Here
    buffers have addresses, and whoever holds one reads what is in it now. *)

From S2P Require Import Prelude.

Definition defaultFramePoolCapacity : Z := 256.
Definition maxPooledFrameCapacity : Z := 64 * 1024.

(** What a [*[]byte] points to: the octets and the capacity of the slice. *)
Record buffer := MkBuffer { b_data : bytes; b_cap : Z }.

(** All buffers, those in the pool, and the next address. *)
Record framePool := MkFramePool { fp_heap : gmap positive buffer; fp_pool : list positive; fp_next : positive }.
Definition newFramePool : framePool := MkFramePool ∅ [] 1.

(** [sync.Pool.Get] returns any buffer of the pool, here the one at [pick], or a new
    one. *)
Definition pool_Get (pick : nat) (p : framePool) : framePool * positive :=
  match fp_pool p !! pick with
  | Some ptr => (MkFramePool (fp_heap p) (take pick (fp_pool p) ++ drop (S pick) (fp_pool p)) (fp_next p), ptr)
  | None => (MkFramePool (<[fp_next p := MkBuffer [] defaultFramePoolCapacity]> (fp_heap p)) (fp_pool p)
               (Pos.succ (fp_next p)), fp_next p)
  end.

Definition store (p : framePool) (ptr : positive) (b : buffer) : framePool :=
  MkFramePool (<[ptr := b]> (fp_heap p)) (fp_pool p) (fp_next p).
Definition load (p : framePool) (ptr : positive) : buffer := default (MkBuffer [] 0) (fp_heap p !! ptr).

Definition get (pick : nat) (hint : Z) (p : framePool) : framePool * positive :=
  let '(p, ptr) := pool_Get pick p in
  let cap := b_cap (load p ptr) in
  (store p ptr (MkBuffer [] (if cap <? hint then hint else cap)), ptr).

Definition put (ptr : option positive) (p : framePool) : framePool :=
  match ptr with
  | None => p
  | Some ptr =>
      if maxPooledFrameCapacity <? b_cap (load p ptr) then p
      else let p := store p ptr (MkBuffer [] (b_cap (load p ptr))) in
           MkFramePool (fp_heap p) (fp_pool p ++ [ptr]) (fp_next p)
  end.

(** [*framePtr = frame] after [EncodePDU]: the frame fits the capacity the slice has
    now. *)
Definition fill (ptr : positive) (frame : bytes) (cap : Z) (p : framePool) : framePool :=
  store p ptr (MkBuffer frame cap).

(** ** Who holds a buffer *)

(** A sender that encodes, one that has encoded [frame] and waits for room, an item of
    the queue, an item of the batch, an item that was written. *)
Inductive place := Encoding | Encoded (frame : bytes) | Queued (frame : bytes) | Batched (frame : bytes)
  | Written (frame : bytes).

(** [bw_wire] and [bw_traced]: the frame that was meant, and the octets found in the
    buffer, for every write and every trace. *)
Record bworld := MkBuffers {
  bw_pool : framePool;
  bw_claims : list (positive * place);
  bw_wire : list (bytes * bytes);
  bw_traced : list (bytes * bytes)
}.

(** The claim between [l1] and [l2] becomes another one, or ends with a [put]. *)
Definition move (w : bworld) (l1 : list (positive * place)) (ptr : positive) (x : place)
    (l2 : list (positive * place)) : bworld :=
  MkBuffers (bw_pool w) (l1 ++ (ptr, x) :: l2) (bw_wire w) (bw_traced w).
Definition give_back (w : bworld) (l1 : list (positive * place)) (ptr : positive)
    (l2 : list (positive * place)) : bworld :=
  MkBuffers (put (Some ptr) (bw_pool w)) (l1 ++ l2) (bw_wire w) (bw_traced w).

Inductive bufstep : bworld -> bworld -> Prop :=
(* request, SendOneWay, queueResponse *)
| BGet w pick hint p ptr : get pick hint (bw_pool w) = (p, ptr) ->
    bufstep w (MkBuffers p ((ptr, Encoding) :: bw_claims w) (bw_wire w) (bw_traced w))
| BEncode w l1 ptr l2 frame cap : bw_claims w = l1 ++ (ptr, Encoding) :: l2 -> zlen frame <= cap ->
    bufstep w (MkBuffers (fill ptr frame cap (bw_pool w)) (l1 ++ (ptr, Encoded frame) :: l2)
              (bw_wire w) (bw_traced w))
| BEncodeFailed w l1 ptr l2 : bw_claims w = l1 ++ (ptr, Encoding) :: l2 -> bufstep w (give_back w l1 ptr l2)
| BQueue w l1 ptr frame l2 : bw_claims w = l1 ++ (ptr, Encoded frame) :: l2 ->
    bufstep w (move w l1 ptr (Queued frame) l2)
| BNotQueued w l1 ptr frame l2 : bw_claims w = l1 ++ (ptr, Encoded frame) :: l2 ->
    bufstep w (give_back w l1 ptr l2)
(* txLoop *)
| BTake w l1 ptr frame l2 : bw_claims w = l1 ++ (ptr, Queued frame) :: l2 ->
    bufstep w (move w l1 ptr (Batched frame) l2)
| BInactive w l1 ptr frame l2 : bw_claims w = l1 ++ (ptr, Queued frame) :: l2 ->
    bufstep w (give_back w l1 ptr l2)
| BWrite w l1 ptr frame l2 : bw_claims w = l1 ++ (ptr, Batched frame) :: l2 ->
    bufstep w (MkBuffers (bw_pool w) (l1 ++ (ptr, Written frame) :: l2)
              (bw_wire w ++ [(frame, b_data (load (bw_pool w) ptr))]) (bw_traced w))
| BWriteFailed w l1 ptr frame l2 : bw_claims w = l1 ++ (ptr, Batched frame) :: l2 ->
    bufstep w (give_back w l1 ptr l2)
| BTrace w l1 ptr frame l2 : bw_claims w = l1 ++ (ptr, Written frame) :: l2 ->
    bufstep w (MkBuffers (bw_pool w) (bw_claims w) (bw_wire w)
              (bw_traced w ++ [(frame, b_data (load (bw_pool w) ptr))]))
| BDone w l1 ptr frame l2 : bw_claims w = l1 ++ (ptr, Written frame) :: l2 ->
    bufstep w (give_back w l1 ptr l2)
(* The garbage collector empties a pool; items of a session that is over are lost. *)
| BCollected w l1 ptr l2 : fp_pool (bw_pool w) = l1 ++ ptr :: l2 ->
    bufstep w (MkBuffers (MkFramePool (fp_heap (bw_pool w)) (l1 ++ l2) (fp_next (bw_pool w)))
              (bw_claims w) (bw_wire w) (bw_traced w))
| BLost w l1 x l2 : bw_claims w = l1 ++ x :: l2 ->
    bufstep w (MkBuffers (bw_pool w) (l1 ++ l2) (bw_wire w) (bw_traced w)).

Definition no_buffers : bworld := MkBuffers newFramePool [] [] [].

(** ** No buffer is in two hands *)

Definition frame_of (x : place) : option bytes :=
  match x with
  | Encoding => None
  | Encoded f | Queued f | Batched f | Written f => Some f
  end.

Definition intact (l : list (bytes * bytes)) : Prop := Forall (fun x => x.1 = x.2) l.

Record buf_ok (w : bworld) : Prop := {
  bo_disjoint : NoDup (fp_pool (bw_pool w) ++ (bw_claims w).*1);
  bo_fresh ptr : ptr ∈ fp_pool (bw_pool w) ++ (bw_claims w).*1 -> (ptr < fp_next (bw_pool w))%positive;
  bo_data ptr x frame : (ptr, x) ∈ bw_claims w -> frame_of x = Some frame ->
    b_data (load (bw_pool w) ptr) = frame;
  bo_pooled ptr : ptr ∈ fp_pool (bw_pool w) ->
    b_data (load (bw_pool w) ptr) = [] /\ b_cap (load (bw_pool w) ptr) <= maxPooledFrameCapacity;
  bo_wire : intact (bw_wire w);
  bo_traced : intact (bw_traced w)
}.

Lemma load_store p ptr b q : load (store p ptr b) q = if decide (ptr = q) then b else load p q.
Proof.
  unfold load, store. cbn [fp_heap]. destruct (decide (ptr = q)) as [-> |Hne].
  - by rewrite lookup_insert_eq.
  - by rewrite lookup_insert_ne.
Qed.

Lemma claims_middle (w : bworld) l1 ptr x l2 : bw_claims w = l1 ++ (ptr, x) :: l2 ->
  (bw_claims w).*1 = l1.*1 ++ ptr :: l2.*1.
Proof. intros ->. by rewrite fmap_app. Qed.

(** The holder of a buffer is its only one. *)
Lemma claim_alone w l1 ptr x l2 : buf_ok w -> bw_claims w = l1 ++ (ptr, x) :: l2 ->
  (ptr ∉ fp_pool (bw_pool w)) /\ (ptr ∉ (l1 ++ l2).*1) /\
  NoDup (fp_pool (bw_pool w) ++ (l1 ++ l2).*1) /\ (ptr < fp_next (bw_pool w))%positive.
Proof.
  intros Hw Hc. pose proof (bo_disjoint _ Hw) as Hn. pose proof (bo_fresh _ Hw ptr) as Hf.
  rewrite (claims_middle w l1 ptr x l2 Hc) in Hn, Hf. rewrite fmap_app.
  assert (Hp : fp_pool (bw_pool w) ++ l1.*1 ++ ptr :: l2.*1 ≡ₚ ptr :: fp_pool (bw_pool w) ++ l1.*1 ++ l2.*1).
  { rewrite !app_assoc. by rewrite <- Permutation_middle. }
  rewrite Hp in Hn, Hf. apply NoDup_cons in Hn as [Hno Hn].
  rewrite not_elem_of_app in Hno. split_and!; [tauto..|done|]. apply Hf. by left.
Qed.

Lemma claim_distinct w l1 ptr x l2 q y : buf_ok w -> bw_claims w = l1 ++ (ptr, x) :: l2 ->
  (q, y) ∈ l1 ++ l2 -> ptr <> q.
Proof.
  intros Hw Hc Hq <-. destruct (claim_alone w l1 ptr x l2 Hw Hc) as (_ & Hno & _).
  apply Hno, list_elem_of_fmap. by exists (ptr, y).
Qed.

Lemma keep_claim {A} (l1 l2 : list A) x y : y ∈ l1 ++ x :: l2 <-> y = x \/ y ∈ l1 ++ l2.
Proof. rewrite !elem_of_app, elem_of_cons. tauto. Qed.

(** The holder changes, the buffer does not. *)
Lemma claim_moves_ok w l1 ptr x y l2 : buf_ok w -> bw_claims w = l1 ++ (ptr, x) :: l2 ->
  frame_of y = frame_of x -> buf_ok (move w l1 ptr y l2).
Proof.
  intros Hw Hc Hf. pose proof (claims_middle w l1 ptr x l2 Hc) as Hm.
  assert (Hm' : (l1 ++ (ptr, y) :: l2).*1 = (bw_claims w).*1) by (by rewrite Hm, fmap_app).
  split; cbn [move bw_pool bw_claims bw_wire bw_traced]; rewrite ?Hm'; try apply Hw.
  intros q z frame Hq Hz. apply keep_claim in Hq as [[= -> ->]|Hq].
  - eapply (bo_data _ Hw); [|rewrite <- Hf; done]. rewrite Hc. apply keep_claim. by left.
  - eapply (bo_data _ Hw); [|done]. rewrite Hc. apply keep_claim. by right.
Qed.

(** A buffer is dropped. *)
Lemma lose_ok w l1 x l2 : buf_ok w -> bw_claims w = l1 ++ x :: l2 ->
  buf_ok (MkBuffers (bw_pool w) (l1 ++ l2) (bw_wire w) (bw_traced w)).
Proof.
  destruct x as [ptr x]. intros Hw Hc. destruct (claim_alone w l1 ptr x l2 Hw Hc) as (H1 & H2 & H3 & H4).
  split; cbn [bw_pool bw_claims bw_wire bw_traced]; try apply Hw; [done| |].
  - intros q Hq. apply (bo_fresh _ Hw). rewrite (claims_middle _ _ _ _ _ Hc).
    rewrite fmap_app in Hq. rewrite !elem_of_app, elem_of_cons in *. tauto.
  - intros q y frame Hq. apply (bo_data _ Hw). rewrite Hc. apply keep_claim. by right.
Qed.

(** A buffer goes back to the pool, or is too large for it. *)
Lemma give_back_ok w l1 ptr x l2 : buf_ok w -> bw_claims w = l1 ++ (ptr, x) :: l2 ->
  buf_ok (give_back w l1 ptr l2).
Proof.
  intros Hw Hc. destruct (claim_alone w l1 ptr x l2 Hw Hc) as (H1 & H2 & H3 & H4).
  pose proof (lose_ok w l1 (ptr, x) l2 Hw Hc) as Hl. unfold give_back, put.
  destruct (Z.ltb_spec maxPooledFrameCapacity (b_cap (load (bw_pool w) ptr))) as [Hb|Hb]; [done|].
  set (b := MkBuffer [] (b_cap (load (bw_pool w) ptr))).
  assert (Hload : forall q, load (MkFramePool (fp_heap (store (bw_pool w) ptr b)) (fp_pool (bw_pool w) ++ [ptr])
    (fp_next (bw_pool w))) q = load (store (bw_pool w) ptr b) q) by done.
  split; cbn [bw_pool bw_claims bw_wire bw_traced fp_pool fp_next store]; try apply Hw.
  - rewrite <- app_assoc. cbn [app]. rewrite <- Permutation_middle.
    apply NoDup_cons. split; [|done]. rewrite not_elem_of_app. tauto.
  - intros q. rewrite !elem_of_app, list_elem_of_singleton. intros [[Hq| ->]|Hq]; [|done|];
      apply (bo_fresh _ Hl); cbn; rewrite elem_of_app; tauto.
  - intros q y frame Hq Hy. change (b_data (load (store (bw_pool w) ptr b) q) = frame).
    rewrite load_store, decide_False by (apply (claim_distinct w l1 ptr x l2 q y Hw Hc Hq)).
    by apply (bo_data _ Hl q y).
  - intros q Hq. change (b_data (load (store (bw_pool w) ptr b) q) = [] /\
      b_cap (load (store (bw_pool w) ptr b) q) <= maxPooledFrameCapacity).
    rewrite load_store. destruct (decide (ptr = q)) as [-> |Hne]; [done|].
    apply (bo_pooled _ Hw). rewrite elem_of_app, list_elem_of_singleton in Hq. by destruct Hq.
Qed.

(** The holder writes into its buffer. *)
Lemma fill_ok w l1 ptr l2 frame cap : buf_ok w -> bw_claims w = l1 ++ (ptr, Encoding) :: l2 ->
  buf_ok (MkBuffers (fill ptr frame cap (bw_pool w)) (l1 ++ (ptr, Encoded frame) :: l2) (bw_wire w) (bw_traced w)).
Proof.
  intros Hw Hc. destruct (claim_alone w l1 ptr Encoding l2 Hw Hc) as (H1 & H2 & H3 & H4).
  assert (Hm : (l1 ++ (ptr, Encoded frame) :: l2).*1 = (bw_claims w).*1).
  { by rewrite (claims_middle _ _ _ _ _ Hc), fmap_app. }
  split; cbn [bw_pool bw_claims bw_wire bw_traced fill store fp_pool fp_next]; rewrite ?Hm; try apply Hw.
  - intros q y fr Hq Hy. unfold fill. rewrite load_store. apply keep_claim in Hq as [[= -> ->]|Hq].
    + rewrite decide_True by done. by injection Hy as <-.
    + rewrite decide_False by (apply (claim_distinct w l1 ptr Encoding l2 q y Hw Hc Hq)).
      eapply (bo_data _ Hw); [|done].
      rewrite Hc. apply keep_claim. by right.
  - intros q Hq. unfold fill. rewrite load_store, decide_False by (intros ->; done). by apply (bo_pooled _ Hw).
Qed.

(** [get] hands out a buffer nobody holds. *)
Lemma pool_Get_ok w pick p ptr : buf_ok w -> pool_Get pick (bw_pool w) = (p, ptr) ->
  buf_ok (MkBuffers p (bw_claims w) (bw_wire w) (bw_traced w)) /\
  (ptr ∉ fp_pool p ++ (bw_claims w).*1) /\ (ptr < fp_next p)%positive.
Proof.
  intros Hw. unfold pool_Get. destruct (fp_pool (bw_pool w) !! pick) as [q|] eqn:Hq; intros [= <- <-].
  - pose proof (take_drop_middle _ _ _ Hq) as Heq. pose proof (bo_disjoint _ Hw) as Hn.
    pose proof (bo_fresh _ Hw) as Hf. pose proof (bo_pooled _ Hw) as Hpool. rewrite <- Heq in Hn, Hf, Hpool.
    set (l := take pick (fp_pool (bw_pool w))) in *. set (l' := drop (S pick) (fp_pool (bw_pool w))) in *.
    rewrite <- app_assoc in Hn. cbn [app] in Hn. rewrite <- Permutation_middle in Hn.
    apply NoDup_cons in Hn as [Hno Hn]. rewrite app_assoc in Hno, Hn.
    split_and!; [|done|apply Hf; rewrite !elem_of_app, elem_of_cons; tauto].
    split; cbn [bw_pool bw_claims bw_wire bw_traced fp_pool fp_next]; try apply Hw; [done| |].
    + intros x Hx. apply Hf. rewrite !elem_of_app, elem_of_cons in *. tauto.
    + intros x Hx. apply Hpool. rewrite !elem_of_app, elem_of_cons in *. tauto.
  - assert (Hold : forall x, x ∈ fp_pool (bw_pool w) ++ (bw_claims w).*1 -> fp_next (bw_pool w) <> x).
    { intros x Hx <-. apply (bo_fresh _ Hw) in Hx. lia. }
    assert (Hload : forall x, x ∈ fp_pool (bw_pool w) ++ (bw_claims w).*1 ->
      load (MkFramePool (<[fp_next (bw_pool w) := MkBuffer [] defaultFramePoolCapacity]> (fp_heap (bw_pool w)))
        (fp_pool (bw_pool w)) (Pos.succ (fp_next (bw_pool w)))) x = load (bw_pool w) x).
    { intros x Hx. unfold load. cbn [fp_heap]. by rewrite lookup_insert_ne by auto. }
    split_and!; [|intros Hx; by apply (Hold _ Hx)|cbn; lia].
    split; cbn [bw_pool bw_claims bw_wire bw_traced fp_pool fp_next]; try apply Hw.
    + intros x Hx. apply (bo_fresh _ Hw) in Hx. lia.
    + intros x y frame Hx Hy. rewrite Hload; [by eapply (bo_data _ Hw)|].
      apply elem_of_app. right. apply list_elem_of_fmap. by exists (x, y).
    + intros x Hx. rewrite Hload by (apply elem_of_app; by left). by apply (bo_pooled _ Hw).
Qed.

Lemma get_ok w pick hint p ptr : buf_ok w -> get pick hint (bw_pool w) = (p, ptr) ->
  buf_ok (MkBuffers p ((ptr, Encoding) :: bw_claims w) (bw_wire w) (bw_traced w)).
Proof.
  intros Hw. unfold get. destruct (pool_Get pick (bw_pool w)) as [p1 q] eqn:Hg. intros [= <- <-].
  destruct (pool_Get_ok w pick p1 q Hw Hg) as (H1 & H2 & H3).
  assert (Hne : forall x, x ∈ fp_pool p1 ++ (bw_claims w).*1 -> q <> x) by (intros x Hx ->; done).
  split; cbn [bw_pool bw_claims bw_wire bw_traced fp_pool fp_next store]; try apply H1.
  - cbn [fmap list_fmap fst]. rewrite <- Permutation_middle. apply NoDup_cons. split; [done|apply H1].
  - intros x. cbn [fmap list_fmap fst]. rewrite elem_of_app, elem_of_cons. intros [Hx|[-> |Hx]]; [|done|];
      apply (bo_fresh _ H1); cbn; rewrite elem_of_app; tauto.
  - intros x y frame [[= -> ->]|Hx]%elem_of_cons Hy; [done|]. rewrite load_store, decide_False.
    + by eapply (bo_data _ H1).
    + apply Hne, elem_of_app. right. apply list_elem_of_fmap. by exists (x, y).
  - intros x Hx. rewrite load_store, decide_False by (apply Hne, elem_of_app; by left). by apply (bo_pooled _ H1).
Qed.

Lemma bufstep_ok w w' : bufstep w w' -> buf_ok w -> buf_ok w'.
Proof.
  intros Hs Hw. destruct Hs as [w pick hint p ptr Hg|w l1 ptr l2 fr cap Hc _|w l1 ptr l2 Hc|w l1 ptr fr l2 Hc
    |w l1 ptr fr l2 Hc|w l1 ptr fr l2 Hc|w l1 ptr fr l2 Hc|w l1 ptr fr l2 Hc|w l1 ptr fr l2 Hc|w l1 ptr fr l2 Hc
    |w l1 ptr fr l2 Hc|w l1 ptr l2 Hp|w l1 x l2 Hc]; try (by eapply give_back_ok); try (by eapply claim_moves_ok).
  - by eapply get_ok.
  - by apply fill_ok.
  - pose proof (claim_moves_ok w l1 ptr _ (Written fr) l2 Hw Hc eq_refl) as Hm. split; try apply Hm.
    apply Forall_app. split; [apply Hw|]. apply Forall_singleton. cbn. symmetry.
    apply (bo_data _ Hw ptr (Batched fr)); [|done]. rewrite Hc. apply keep_claim. by left.
  - split; try apply Hw. apply Forall_app. split; [apply Hw|]. apply Forall_singleton. cbn. symmetry.
    apply (bo_data _ Hw ptr (Written fr)); [|done]. rewrite Hc. apply keep_claim. by left.
  - pose proof (bo_disjoint _ Hw) as Hn. pose proof (bo_fresh _ Hw) as Hf. pose proof (bo_pooled _ Hw) as Hpool.
    rewrite Hp in Hn, Hf, Hpool. split; cbn [bw_pool bw_claims bw_wire bw_traced fp_pool fp_next]; try apply Hw.
    + rewrite <- app_assoc in *. cbn [app] in Hn. rewrite <- Permutation_middle in Hn. by apply NoDup_cons in Hn as [_ Hn].
    + intros x Hx. apply Hf. rewrite !elem_of_app, elem_of_cons in *. tauto.
    + intros x Hx. apply Hpool. rewrite !elem_of_app, elem_of_cons in *. tauto.
  - by eapply lose_ok.
Qed.

Lemma bufsteps_ok w : rtc bufstep no_buffers w -> buf_ok w.
Proof.
  intros H. assert (H0 : buf_ok no_buffers).
  { split; [apply NoDup_nil_2| | | |apply Forall_nil_2..].
    - intros ptr Hp. by apply elem_of_nil in Hp.
    - intros ptr x fr Hp. by apply elem_of_nil in Hp.
    - intros ptr Hp. by apply elem_of_nil in Hp. }
  induction H as [|w1 w2 w3 Hs _ IH]; [done|]. by apply IH, (bufstep_ok w1).
Qed.

(** C29: Reusing buffers does not corrupt frames.  However senders and the transmit loop
    interleave and whichever buffers the pool hands out, the octets written to the
    connection and those shown to the packet tracer are the frame that was encoded for
    that item; no buffer is held by two of them, or held and in the pool at once; and the
    pool keeps no buffer above 64 KiB. *)
Theorem frames_intact w : rtc bufstep no_buffers w ->
  (forall meant written, (meant, written) ∈ bw_wire w -> written = meant) /\
  (forall meant seen, (meant, seen) ∈ bw_traced w -> seen = meant) /\
  NoDup (fp_pool (bw_pool w) ++ (bw_claims w).*1) /\
  (forall ptr, ptr ∈ fp_pool (bw_pool w) -> b_cap (load (bw_pool w) ptr) <= maxPooledFrameCapacity).
Proof.
  intros Hr. destruct (bufsteps_ok w Hr) as [H1 _ _ H4 H5 H6]. unfold intact in *.
  rewrite Forall_forall in H5, H6. split_and!; [| |done|].
  - intros m x Hx. symmetry. by apply (H5 (m, x)).
  - intros m x Hx. symmetry. by apply (H6 (m, x)).
  - intros ptr Hp. by apply H4.
Qed.

(** A frame is sent, and its buffer used again for the next one. *)
Definition sample_buffers : bworld :=
  MkBuffers (MkFramePool {[1%positive := MkBuffer [9] 256]} [] 2) [(1%positive, Written [9])]
    [([7; 8], [7; 8]); ([9], [9])] [].

Lemma sample_reuse : rtc bufstep no_buffers sample_buffers.
Proof.
  eapply rtc_l; [by eapply (BGet _ 0 2)|].
  eapply rtc_l; [by apply (BEncode _ [] 1 [] [7; 8] 256)|].
  eapply rtc_l; [by apply (BQueue _ [] 1 [7; 8] [])|].
  eapply rtc_l; [by apply (BTake _ [] 1 [7; 8] [])|].
  eapply rtc_l; [by apply (BWrite _ [] 1 [7; 8] [])|].
  eapply rtc_l; [by apply (BDone _ [] 1 [7; 8] [])|].
  eapply rtc_l; [by eapply (BGet _ 0 1)|].
  eapply rtc_l; [by apply (BEncode _ [] 1 [] [9] 256)|].
  eapply rtc_l; [by apply (BQueue _ [] 1 [9] [])|].
  eapply rtc_l; [by apply (BTake _ [] 1 [9] [])|].
  eapply rtc_l; [by apply (BWrite _ [] 1 [9] [])|].
  vm_compute. apply rtc_refl.
Qed.

Lemma frames_intact_witness : rtc bufstep no_buffers sample_buffers /\
  (forall meant written, (meant, written) ∈ bw_wire sample_buffers -> written = meant).
Proof. split; [apply sample_reuse|]. apply (frames_intact sample_buffers). apply sample_reuse. Defined.
