(* ===== verification/Transmit.v ===== *)
(** * The transmit loop (src/session/tx.go: txLoop; src/transport/transport.go:
    WriteFull, WriteBuffers)

    One goroutine takes the queued items and writes their frames, several in one
    write when they are already there.  The queue is the list of all items it was
    given; each comes with the table of pending requests as it is when the item is
    taken, since the receive loop completes requests meanwhile.  What the others
    did to the session and the deadlines while the loop waited is part of a round.
    Metrics, events and the pool of buffers are left out; the deadline of a write is in
    WriteTimeout.v. *)

From S2P Require Import Prelude Protocol Bodies Fields Registry Pdu StateMachine Pending Receive Deadline.

(** ** transport.go *)

Definition ErrNoProgress : GoError := EOther 1 None.
Definition ErrShortWrite : GoError := EOther 2 None.

(** [conn_write p] is what [conn.Write(p)] returns; the calls of one [WriteFull] all
    have different arguments.  The result is the octets handed to the connection,
    and how the loop ended; [None] when the fuel ran out. *)
Fixpoint WriteFull (fuel : nat) (conn_write : bytes -> Z * option GoError) (p : bytes)
    : bytes * option (res unit) :=
  match p with
  | [] => ([], Some (Ok tt))
  | _ =>
      match fuel with
      | O => ([], None)
      | S fuel =>
          let '(n, err) := conn_write p in
          if zlen p <? n then ([], Some Panic) else
          let '(handed, p) := if 0 <? n then (take (Z.to_nat n) p, drop (Z.to_nat n) p) else ([], p) in
          match err with
          | Some e => (handed, Some (Err e))
          | None =>
              if n =? 0 then (handed, Some (Err ErrNoProgress))
              else let '(more, r) := WriteFull fuel conn_write p in (handed ++ more, r)
          end
      end
  end.

(** [net.Buffers.WriteTo] hands over the octets of the buffers in order and returns
    how many, and an error. *)
Definition WriteBuffers (write_to : bytes -> Z * option GoError) (buffers : list bytes)
    : bytes * option (res unit) :=
  if (length buffers =? 0)%nat then ([], Some (Ok tt))
  else
    let total := concat buffers in
    let '(written, err) := write_to total in
    let handed := take (Z.to_nat written) total in
    match err with
    | Some e => (handed, Some (Err e))
    | None => if negb (written =? zlen total) then (handed, Some (Err ErrShortWrite))
              else (handed, Some (Ok tt))
    end.

(** The contract of [io.Writer]. *)
Definition writes_ok (w : bytes -> Z * option GoError) : Prop := forall p, 0 <= (w p).1 <= zlen p.

(** ** tx.go *)

Definition txItemActive (t : Table.pendingTable) (item : txItem) : bool :=
  match kind item with txRequest => Table.exists_ t (sequence item) | _ => true end.

Definition txItemTerminatesAfterWrite (item : txItem) : bool :=
  match kind item with
  | txResponse => (responseTo item =? CommandUnbind) && OK (status item)
  | _ => false
  end.

Abbreviation queued := (Table.pendingTable * txItem)%type.

Record txState := MkTx {
  ts_session : Session;
  ts_deadlines : deadlineManager;
  ts_wire : bytes;
  ts_told : list (Z * option GoError)
}.

Section transmit.
Context (TXBatchItems TXBatchBytes ResponseTimeout EnquireLinkTimeout : Z).
(** Whether the connection is a [*net.TCPConn]. *)
Context (tcp : bool).

(** The inner loop, over the items that are ready. *)
Fixpoint fill_batch (batch : list txItem) (batchBytes : Z) (ready : list queued)
    : list txItem * list queued :=
  if (zlen batch <? TXBatchItems) && (batchBytes <? TXBatchBytes) then
    match ready with
    | [] => (batch, [])
    | (t, item) :: ready =>
        if negb (txItemActive t item) then fill_batch batch batchBytes ready
        else if txItemTerminatesAfterWrite item then (batch ++ [item], ready)
        else fill_batch (batch ++ [item]) (batchBytes + zlen (frame item)) ready
    end
  else (batch, ready).

(** One batch: what it holds and what is left of the ready items. *)
Definition next_batch (ready : list queued) : list txItem * list queued :=
  match ready with
  | [] => ([], [])
  | (t, item) :: ready =>
      if negb (txItemActive t item) then ([], ready)
      else if txItemTerminatesAfterWrite item then ([item], ready)
      else fill_batch [item] (zlen (frame item)) ready
  end.

(** The lifecycle is committed before the responses are written. *)
Definition commit_item (s : Session) (item : txItem) : Session :=
  match kind item with
  | txResponse => if negb (responseTo item =? 0)
                  then set_machine s (CompleteInbound (machine s) (responseTo item) (status item)) else s
  | _ => s
  end.

Definition write_batch (w : bytes -> Z * option GoError) (batch : list txItem) : bytes * option (res unit) :=
  match batch with
  | [item] => WriteFull (length (frame item)) w (frame item)
  | _ => if tcp && (1 <? TXBatchItems) then WriteBuffers w (map frame batch)
         else let buffer := concat (map frame batch) in WriteFull (length buffer) w buffer
  end.

Definition responseTimeoutFor (command : Z) : Z * TimeoutKind :=
  if command =? CommandEnquireLink
  then (if 0 <? EnquireLinkTimeout then EnquireLinkTimeout else ResponseTimeout, TimeoutEnquireLink)
  else (ResponseTimeout, TimeoutResponse).

(** The storage of a deadline is its owner's: the three checks of a session have one
    each, and so has every request. *)
Definition sessionInitDeadline : positive := 1.
Definition inactivityDeadline : positive := 2.
Definition enquireLinkDeadline : positive := 3.
Definition deadlineStorage (p : positive) : positive := p + 3.

(** A written request gets its response deadline. *)
Definition dispatch_request (now : Z) (s : Session) (d : deadlineManager) (item : txItem)
    : Session * deadlineManager :=
  match Table.markDispatched (table s) (sequence item) with
  | (t, None) => (set_table s t, d)
  | (t, Some p) =>
      let '(timeout, k) := responseTimeoutFor (it_requestID item) in
      let '(d, di) := scheduleItemAt d (Some (deadlineStorage p)) now timeout k (it_requestID item) (sequence item) in
      let over := match Table.reqs t !! p with Some r => Table.finished r | None => false end in
      let d := if over then cancel d di else d in
      (set_table s (Table.attachDeadline t p (Z.pos <$> di)), d)
  end.

(** The items of a written batch, in order; [true] when the session was ended. *)
Fixpoint finish_batch (now : Z) (st : txState) (batch : list txItem) : txState * bool :=
  match batch with
  | [] => (st, false)
  | item :: batch =>
      match kind item with
      | txRequest =>
          let '(s, d) := dispatch_request now (ts_session st) (ts_deadlines st) item in
          finish_batch now (MkTx s d (ts_wire st) (ts_told st)) batch
      | txOneWay =>
          finish_batch now (MkTx (ts_session st) (ts_deadlines st) (ts_wire st)
            (ts_told st ++ [(sequence item, None)])) batch
      | txResponse =>
          if txItemTerminatesAfterWrite item
          then (MkTx (terminate (ts_session st) (ESentinel ErrSessionClosed)) (ts_deadlines st)
                  (ts_wire st) (ts_told st), true)
          else finish_batch now st batch
      end
  end.

(** Who waits for a one-way item hears of a failed write. *)
Fixpoint fail_batch (e : GoError) (told : list (Z * option GoError)) (batch : list txItem)
    : list (Z * option GoError) :=
  match batch with
  | [] => told
  | item :: batch =>
      fail_batch e (match kind item with txOneWay => told ++ [(sequence item, Some e)] | _ => told end) batch
  end.

Definition note_write (s : Session) (now : Z) : Session :=
  MkSession (machine s) (table s) (peerCaps s) (tx s) (deferredReplies s) (closeErr s) (done s)
    now (lastInbound s) (congested s).

(** How the loop stands after a round. *)
Inductive tx_status : Type := Looping | Stopped | Unbound_ | WriteFailed (e : GoError) | Stuck.

(** A non-empty batch. *)
Definition send_batch (now : Z) (w : bytes -> Z * option GoError) (st : txState) (batch : list txItem)
    : txState * tx_status :=
  let s := foldl commit_item (ts_session st) batch in
  match write_batch w batch with
  | (handed, Some (Ok _)) =>
      let '(st, ended) := finish_batch now
        (MkTx (note_write s now) (ts_deadlines st) (ts_wire st ++ handed) (ts_told st)) batch in
      (st, if ended then Unbound_ else Looping)
  | (handed, Some (Err e)) =>
      (MkTx (terminate s e) (ts_deadlines st) (ts_wire st ++ handed) (fail_batch e (ts_told st) batch),
       WriteFailed e)
  | (handed, Some Panic) =>
      (MkTx (terminate s (EPanic "session.txLoop")) (ts_deadlines st) (ts_wire st ++ handed) (ts_told st),
       WriteFailed (EPanic "session.txLoop"))
  | (handed, None) => (MkTx s (ts_deadlines st) (ts_wire st ++ handed) (ts_told st), Stuck)
  end.

(** A round of the loop: what the others did before it, whether the first [select]
    took the closed [done], how many items were ready, the connection and the
    time. *)
Record round := MkRound {
  rd_others : Session * deadlineManager -> Session * deadlineManager;
  rd_done : bool;
  rd_ready : nat;
  rd_write : bytes -> Z * option GoError;
  rd_now : Z
}.

Definition tx_round (rd : round) (queue : list queued) (st : txState)
    : txState * list queued * tx_status :=
  let '(s, d) := rd_others rd (ts_session st, ts_deadlines st) in
  let st := MkTx s d (ts_wire st) (ts_told st) in
  if rd_done rd then (st, queue, Stopped) else
  let '(batch, rest) := next_batch (take (rd_ready rd) queue) in
  let queue := rest ++ drop (rd_ready rd) queue in
  match batch with
  | [] => (st, queue, Looping)
  | _ => let '(st, status) := send_batch (rd_now rd) (rd_write rd) st batch in (st, queue, status)
  end.

Fixpoint txLoop (rounds : list round) (queue : list queued) (st : txState)
    : txState * list queued * tx_status :=
  match rounds with
  | [] => (st, queue, Looping)
  | rd :: rounds =>
      match tx_round rd queue st with
      | (st, queue, Looping) => txLoop rounds queue st
      | r => r
      end
  end.

(** ** What is on the wire *)

Definition actives (l : list queued) : list txItem :=
  map snd (List.filter (fun q => txItemActive q.1 q.2) l).
Definition octets (l : list txItem) : bytes := concat (map frame l).
Definition goes_on (item : txItem) : Prop := txItemTerminatesAfterWrite item = false.
(** What the callers of [SendOneWay] are told about written or failed items. *)
Definition tells (r : option GoError) (l : list txItem) : list (Z * option GoError) :=
  flat_map (fun item => match kind item with txOneWay => [(sequence item, r)] | _ => [] end) l.

Lemma actives_app l1 l2 : actives (l1 ++ l2) = actives l1 ++ actives l2.
Proof. unfold actives. by rewrite List.filter_app, map_app. Qed.
Lemma octets_app l1 l2 : octets (l1 ++ l2) = octets l1 ++ octets l2.
Proof. unfold octets. by rewrite map_app, concat_app. Qed.
Lemma tells_app r l1 l2 : tells r (l1 ++ l2) = tells r l1 ++ tells r l2.
Proof. unfold tells. by rewrite flat_map_app. Qed.

(** At most the last item of a batch ends the session. *)
Definition batch_ok (batch : list txItem) : Prop :=
  Forall goes_on batch \/ exists front item, batch = front ++ [item] /\ Forall goes_on front /\
    txItemTerminatesAfterWrite item = true.

Lemma fill_batch_spec ready : forall batch n, Forall goes_on batch ->
  exists used rest, fill_batch batch n ready = (batch ++ actives used, rest) /\
    ready = used ++ rest /\ batch_ok (batch ++ actives used).
Proof.
  induction ready as [|[t item] ready IH]; intros batch n Hb; cbn [fill_batch].
  - exists [], []. cbn. rewrite app_nil_r. by destruct (_ && _); split_and!; auto; left.
  - destruct (_ && _); [|by exists [], ((t, item) :: ready); cbn; rewrite app_nil_r; split_and!; auto; left].
    destruct (txItemActive t item) eqn:Ha; cbn [negb].
    + assert (Hcons : forall l, actives ((t, item) :: l) = item :: actives l)
        by (intros l; unfold actives; cbn; by rewrite Ha).
      destruct (txItemTerminatesAfterWrite item) eqn:Ht.
      * exists [(t, item)], ready. rewrite Hcons. split_and!; [done..|]. right. by exists batch, item.
      * destruct (IH (batch ++ [item]) (n + zlen (frame item))) as (used & rest & -> & -> & Hok).
        { apply Forall_app. by split; [|constructor]. }
        exists ((t, item) :: used), rest. rewrite Hcons.
        by replace (batch ++ item :: actives used) with ((batch ++ [item]) ++ actives used) by (by rewrite <- app_assoc).
    + destruct (IH batch n Hb) as (used & rest & -> & -> & Hok). exists ((t, item) :: used), rest.
      unfold actives. cbn. rewrite Ha. done.
Qed.

Lemma next_batch_spec ready : exists used rest,
  next_batch ready = (actives used, rest) /\ ready = used ++ rest /\ batch_ok (actives used).
Proof.
  destruct ready as [|[t item] ready]; cbn [next_batch].
  - exists [], []. by split_and!; [..|left].
  - destruct (txItemActive t item) eqn:Ha; cbn [negb].
    + destruct (txItemTerminatesAfterWrite item) eqn:Ht.
      * exists [(t, item)], ready. unfold actives. cbn. rewrite Ha. split_and!; [done..|]. right. by exists [], item.
      * destruct (fill_batch_spec ready [item] (zlen (frame item))) as (used & rest & -> & -> & Hok); [by constructor|].
        exists ((t, item) :: used), rest. unfold actives in *. cbn in *. by rewrite Ha.
    + exists [(t, item)], ready. unfold actives. cbn. rewrite Ha. by split_and!; [..|left].
Qed.

(** The limits of a batch. *)
Lemma fill_batch_bounds ready : forall batch n b rest, fill_batch batch n ready = (b, rest) ->
  0 < zlen batch -> zlen b <= Z.max (zlen batch) TXBatchItems.
Proof.
  induction ready as [|[t item] ready IH]; intros batch n b rest; cbn [fill_batch].
  - destruct (_ && _); intros [= <- <-] _; lia.
  - destruct (_ && _) eqn:Hlim; [|intros [= <- <-] _; lia]. destruct (negb _); [by apply IH|].
    assert (zlen batch < TXBatchItems) by lia.
    destruct (txItemTerminatesAfterWrite item).
    + intros [= <- <-] _. rewrite length_app. cbn [length]. lia.
    + intros Hf H0. apply IH in Hf; rewrite length_app in *; cbn [length] in *; lia.
Qed.

Lemma WriteFull_spec w : writes_ok w -> forall fuel p, (length p <= fuel)%nat ->
  exists handed r, WriteFull fuel w p = (handed, Some r) /\ handed `prefix_of` p /\
    (r = Ok tt /\ handed = p \/ exists e, r = Err e).
Proof.
  intros Hw. induction fuel as [|fuel IH]; intros p Hp; destruct p as [|b p].
  1, 3: exists [], (Ok tt); cbn; auto using prefix_nil. { cbn in Hp. lia. }
  cbn [WriteFull]. pose proof (Hw (b :: p)) as Hn. destruct (w (b :: p)) as [n err]. cbn [fst] in Hn.
  destruct (Z.ltb_spec (zlen (b :: p)) n) as [|_]; [lia|].
  destruct (Z.ltb_spec 0 n) as [Hpos|Hz].
  - assert (Hpre : take (Z.to_nat n) (b :: p) `prefix_of` b :: p) by apply prefix_take.
    destruct err as [e|]; [exists (take (Z.to_nat n) (b :: p)), (Err e); eauto|].
    destruct (Z.eqb_spec n 0) as [|_]; [lia|].
    destruct (IH (drop (Z.to_nat n) (b :: p))) as (handed & r & -> & Hpr & Hr); [rewrite length_drop; cbn in *; lia|].
    exists (take (Z.to_nat n) (b :: p) ++ handed), r. split_and!; [done| |].
    + rewrite <- (take_drop (Z.to_nat n) (b :: p)) at 2. by apply prefix_app.
    + destruct Hr as [[-> ->]|Hr]; [left|by right]. split; [done|]. apply take_drop.
  - assert (n = 0) as -> by lia. destruct err as [e|]; [exists [], (Err e)|exists [], (Err ErrNoProgress)];
      eauto using prefix_nil.
Qed.

Lemma WriteBuffers_spec w l : writes_ok w -> l <> [] ->
  exists handed r, WriteBuffers w l = (handed, Some r) /\ handed `prefix_of` concat l /\
    (r = Ok tt /\ handed = concat l \/ exists e, r = Err e).
Proof.
  intros Hw Hl. unfold WriteBuffers. destruct l as [|x l]; [done|]. cbn [length Nat.eqb].
  pose proof (Hw (concat (x :: l))) as Hn. destruct (w (concat (x :: l))) as [n err]. cbn [fst] in Hn.
  assert (Hpre : take (Z.to_nat n) (concat (x :: l)) `prefix_of` concat (x :: l)) by apply prefix_take.
  destruct err as [e|]; [eexists _, (Err e); eauto|].
  destruct (Z.eqb_spec n (zlen (concat (x :: l)))) as [He|]; cbn [negb]; [|eexists _, (Err ErrShortWrite); eauto].
  eexists _, (Ok tt). split_and!; [done|done|]. left. split; [done|]. apply take_ge. lia.
Qed.

Lemma write_batch_spec w batch : writes_ok w -> batch <> [] ->
  exists handed r, write_batch w batch = (handed, Some r) /\ handed `prefix_of` octets batch /\
    (r = Ok tt /\ handed = octets batch \/ exists e, r = Err e).
Proof.
  intros Hw Hb. unfold write_batch. destruct batch as [|item [|item' batch]]; [done| |].
  - replace (octets [item]) with (frame item) by (unfold octets; cbn; by rewrite app_nil_r).
    by apply WriteFull_spec.
  - destruct (_ && _); [by apply WriteBuffers_spec|]. by apply WriteFull_spec.
Qed.

Lemma finish_batch_spec now batch : batch_ok batch -> forall st,
  exists s d, finish_batch now st batch =
    (MkTx s d (ts_wire st) (ts_told st ++ tells None batch), existsb txItemTerminatesAfterWrite batch) /\
    (existsb txItemTerminatesAfterWrite batch = true -> closeErr s <> None).
Proof.
  induction batch as [|item batch IH]; intros Hok st; cbn [finish_batch existsb].
  - exists (ts_session st), (ts_deadlines st). unfold tells. cbn. rewrite app_nil_r. by destruct st.
  - assert (Hlast : txItemTerminatesAfterWrite item = true -> batch = []).
    { intros Ht. destruct Hok as [[Hn _]%Forall_cons|(front & x & Heq & Hf & _)]; [by rewrite Hn in Ht|].
      destruct front as [|y front]; [by injection Heq|]. injection Heq as <- ->.
      apply Forall_cons in Hf as [Hn _]. by rewrite Hn in Ht. }
    assert (Hrest : batch_ok batch).
    { destruct Hok as [[_ Hn]%Forall_cons|(front & x & Heq & Hf & Hx)]; [by left|].
      destruct front as [|y front]; injection Heq as -> ->; [left; constructor|right].
      apply Forall_cons in Hf as [_ Hf]. by exists front, x. }
    specialize (IH Hrest). destruct (kind item) eqn:Hk.
    + replace (txItemTerminatesAfterWrite item) with false by (unfold txItemTerminatesAfterWrite; by rewrite Hk).
      destruct (dispatch_request _ _ _ item) as [s d]. unfold tells. cbn [flat_map orb]. rewrite Hk.
      apply (IH (MkTx s d (ts_wire st) (ts_told st))).
    + destruct (txItemTerminatesAfterWrite item) eqn:Ht; cbn [orb].
      * rewrite (Hlast eq_refl). eexists _, _. unfold tells. cbn. rewrite Hk, !app_nil_r.
        split; [done|]. intros _. apply terminate_closed.
      * unfold tells. cbn [flat_map]. rewrite Hk. apply IH.
    + replace (txItemTerminatesAfterWrite item) with false by (unfold txItemTerminatesAfterWrite; by rewrite Hk).
      unfold tells. cbn [flat_map orb]. rewrite Hk, (app_assoc (ts_told st)).
      apply (IH (MkTx (ts_session st) (ts_deadlines st) (ts_wire st) (ts_told st ++ [(sequence item, None)]))).
Qed.

Lemma fail_batch_spec e batch : forall told, fail_batch e told batch = told ++ tells (Some e) batch.
Proof.
  induction batch as [|item batch IH]; intros told; cbn [fail_batch]; [unfold tells; cbn; by rewrite app_nil_r|].
  rewrite IH. unfold tells. cbn [flat_map]. destruct (kind item); [done..|]. by rewrite <- app_assoc.
Qed.

Lemma batch_ok_existsb batch : batch_ok batch ->
  if existsb txItemTerminatesAfterWrite batch
  then exists front item, batch = front ++ [item] /\ Forall goes_on front /\
    txItemTerminatesAfterWrite item = true
  else Forall goes_on batch.
Proof.
  assert (Hno : forall l, Forall goes_on l -> existsb txItemTerminatesAfterWrite l = false).
  { induction 1 as [|x l Hx _ IH]; [done|]. cbn. by rewrite Hx, IH. }
  intros [H|(front & item & -> & Hf & Ht)].
  - by rewrite Hno.
  - rewrite existsb_app, Hno by done. cbn. rewrite Ht. by exists front, item.
Qed.

(** What a run wrote of the items it took, and what it told about them. *)
Definition wrote (st st' : txState) (sent : list txItem) (status : tx_status) : Prop :=
  match status with
  | Looping | Stopped => Forall goes_on sent /\
      ts_wire st' = ts_wire st ++ octets sent /\ ts_told st' = ts_told st ++ tells None sent
  | Unbound_ => (exists front item, sent = front ++ [item] /\ Forall goes_on front /\
        txItemTerminatesAfterWrite item = true) /\
      ts_wire st' = ts_wire st ++ octets sent /\ ts_told st' = ts_told st ++ tells None sent /\
      closeErr (ts_session st') <> None
  | WriteFailed e => exists front batch part, sent = front ++ batch /\ Forall goes_on front /\
      part `prefix_of` octets batch /\ ts_wire st' = ts_wire st ++ octets front ++ part /\
      ts_told st' = ts_told st ++ tells None front ++ tells (Some e) batch /\
      closeErr (ts_session st') <> None
  | Stuck => False
  end.

Lemma send_batch_wrote now w st batch : writes_ok w -> batch <> [] -> batch_ok batch ->
  let '(st', status) := send_batch now w st batch in wrote st st' batch status.
Proof.
  intros Hw Hne Hok. unfold send_batch.
  destruct (write_batch_spec w batch Hw Hne) as (handed & r & -> & Hpre & Hr).
  destruct Hr as [[-> ->]|[e ->]].
  - destruct (finish_batch_spec now batch Hok (MkTx (note_write (foldl commit_item (ts_session st) batch) now)
      (ts_deadlines st) (ts_wire st ++ octets batch) (ts_told st))) as (s & d & -> & Hcl).
    pose proof (batch_ok_existsb batch Hok) as He.
    destruct (existsb txItemTerminatesAfterWrite batch); cbn; [|done]. split_and!; auto.
  - exists [], batch, handed. rewrite fail_batch_spec. split_and!; [done|constructor|done..|]. apply terminate_closed.
Qed.

(** Runs put together. *)
Lemma wrote_trans st st1 st2 l1 l2 status : wrote st st1 l1 Looping -> wrote st1 st2 l2 status ->
  wrote st st2 (l1 ++ l2) status.
Proof.
  intros (Hg & Hw & Ht). destruct status; cbn.
  - intros (Hg2 & -> & ->). rewrite octets_app, tells_app, Hw, Ht, !app_assoc. split; [by apply Forall_app|done].
  - intros (Hg2 & -> & ->). rewrite octets_app, tells_app, Hw, Ht, !app_assoc. split; [by apply Forall_app|done].
  - intros ((front & item & -> & Hf & Hi) & -> & -> & Hc). rewrite !octets_app, !tells_app, Hw, Ht, !app_assoc.
    split_and!; [|done..]. exists (l1 ++ front), item. by rewrite Forall_app.
  - intros (front & batch & part & -> & Hf & Hp & -> & -> & Hc). exists (l1 ++ front), batch, part.
    rewrite Forall_app, octets_app, tells_app, Hw, Ht, !app_assoc. done.
  - done.
Qed.

Lemma tx_round_wrote rd queue st : writes_ok (rd_write rd) ->
  exists used rest st' status, tx_round rd queue st = (st', rest, status) /\ queue = used ++ rest /\
    wrote st st' (actives used) status.
Proof.
  intros Hw. unfold tx_round. destruct (rd_others rd _) as [s d].
  destruct (rd_done rd).
  { exists [], queue. eexists _, Stopped. split_and!; [done..|]. cbn. by rewrite !app_nil_r. }
  destruct (next_batch_spec (take (rd_ready rd) queue)) as (used & rest & -> & Hsplit & Hok).
  assert (Hq : queue = used ++ rest ++ drop (rd_ready rd) queue)
    by (by rewrite app_assoc, <- Hsplit, take_drop).
  destruct (actives used) as [|item batch] eqn:Ha.
  - exists used, (rest ++ drop (rd_ready rd) queue). eexists _, Looping. split_and!; [done..|].
    rewrite Ha. cbn. by rewrite !app_nil_r.
  - pose proof (send_batch_wrote (rd_now rd) (rd_write rd) (MkTx s d (ts_wire st) (ts_told st)) (item :: batch)
      Hw ltac:(done) Hok) as Hsend.
    destruct (send_batch _ _ _ _) as [st' status]. exists used, (rest ++ drop (rd_ready rd) queue), st', status.
    split_and!; [done..|]. by rewrite Ha.
Qed.
Lemma txLoop_wrote rounds : Forall (fun rd => writes_ok (rd_write rd)) rounds ->
  forall queue st, let '(st', rest, status) := txLoop rounds queue st in
  exists used, queue = used ++ rest /\ wrote st st' (actives used) status.
Proof.
  induction 1 as [|rd rounds Hrd _ IH]; intros queue st; cbn [txLoop].
  - exists []. split; [done|]. cbn. by rewrite !app_nil_r.
  - destruct (tx_round_wrote rd queue st Hrd) as (used & rest1 & st1 & status1 & -> & -> & H1).
    destruct status1; try by exists used.
    specialize (IH rest1 st1). destruct (txLoop rounds rest1 st1) as [[st' rest] status].
    destruct IH as (used2 & -> & H2). exists (used ++ used2).
    rewrite actives_app, app_assoc. split; [done|]. by eapply wrote_trans.
Qed.
End transmit.

(** C12: The octets on the wire.  Whatever the batch limits, the kind of connection,
    the moments at which items become ready and the sizes of the writes: the loop
    never hangs on a connection that honours [io.Writer], and writes the frames of
    the items it takes, in the order in which they were queued, each once and whole,
    leaving out exactly the requests that are no longer pending when they are taken.
    After an accepted unbind it writes nothing more and the session is over; a
    failed write ends the session too, with a prefix of one batch written.  The
    caller of each one-way item is told once how its write went. *)
Theorem tx_wire items size response_timeout enquire_timeout tcp rounds queue st st' rest status :
  Forall (fun rd => writes_ok (rd_write rd)) rounds ->
  txLoop items size response_timeout enquire_timeout tcp rounds queue st = (st', rest, status) ->
  exists used, queue = used ++ rest /\ wrote st st' (actives used) status.
Proof.
  intros Hw Hl. pose proof (txLoop_wrote items size response_timeout enquire_timeout tcp rounds Hw queue st) as H.
  by rewrite Hl in H.
Qed.

(** A written request that is still open has its deadline among the timers, counted
    from the end of the write; for one that was answered meanwhile none is left. *)
Lemma dispatch_request_deadline response_timeout enquire_timeout now s d item p r timeout k :
  dl_inv d -> deadlineStorage p ∉ heap d -> Table.m (table s) !! sequence item = Some p ->
  Table.reqs (table s) !! p = Some r ->
  responseTimeoutFor response_timeout enquire_timeout (it_requestID item) = (timeout, k) -> 0 < timeout ->
  let '(s', d') := dispatch_request response_timeout enquire_timeout now s d item in
  dl_inv d' /\ Table.m (table s') = Table.m (table s) /\
  (if Table.finished r then heap d' ≡ₚ heap d
   else heap d' ≡ₚ deadlineStorage p :: heap d /\
     items d' !! deadlineStorage p = Some (MkItem (now + timeout) timeout k (it_requestID item) (sequence item)) /\
     exists r', Table.reqs (table s') !! p = Some r' /\ Table.deadline r' = Some (Z.pos (deadlineStorage p)) /\
       Table.dispatched r' = true /\ Table.finished r' = false).
Proof.
  intros Hd Hp Hm Hr Ht Hpos. unfold dispatch_request, Table.markDispatched. rewrite Hm, Hr, Ht.
  pose proof (schedule_inv d (deadlineStorage p) now timeout k (it_requestID item) (sequence item) Hd Hp Hpos) as Hs.
  destruct (scheduleItemAt _ _ _ _ _ _ _) as [d1 di]. destruct Hs as (-> & H1 & H3 & H4 & _).
  unfold Table.attachDeadline. cbn [fmap option_fmap option_map].
  cbn [Table.set_req Table.reqs]. rewrite lookup_insert_eq. cbn [Table.finished Table.set_dispatched].
  destruct (Table.finished r) eqn:Hf.
  - destruct (cancel_inv d1 (deadlineStorage p) H1) as (C1 & _ & _ & C4 & _). cbn. split_and!; [done..|].
    assert (Hin : deadlineStorage p ∈ heap d1) by (rewrite H3; by left). specialize (C4 Hin). rewrite H3 in C4.
    by apply (Permutation_cons_inv C4).
  - cbn. split_and!; [done..|by rewrite H4, lookup_insert_eq|]. rewrite lookup_insert_eq. eauto.
Qed.

(** [WriteFull] returns.  On a connection that honours [io.Writer] it returns after
    at most as many calls of [Write] as there are octets, however short the writes
    are; it never panics; what it handed over is a prefix of the frame, and all of
    it when it reports success. *)
Theorem WriteFull_terminates w p : writes_ok w ->
  exists handed r, WriteFull (length p) w p = (handed, Some r) /\ handed `prefix_of` p /\
    (r = Ok tt -> handed = p) /\ r <> Panic.
Proof.
  intros Hw. destruct (WriteFull_spec w Hw (length p) p) as (handed & r & H & Hp & Hr); [lia|].
  exists handed, r. split_and!; [done..| |]; destruct Hr as [[-> ->]|[e ->]]; done.
Qed.

Lemma WriteFull_terminates_witness :
  let w := fun p : bytes => (Z.min 3 (zlen p), None) in
  WriteFull 7 w [1; 2; 3; 4; 5; 6; 7] = ([1; 2; 3; 4; 5; 6; 7], Some (Ok tt)) /\
  exists handed r, WriteFull 7 w [1; 2; 3; 4; 5; 6; 7] = (handed, Some r) /\
    (r = Ok tt -> handed = [1; 2; 3; 4; 5; 6; 7]).
Proof.
  intros w. split; [reflexivity|].
  destruct (WriteFull_terminates w [1; 2; 3; 4; 5; 6; 7]) as (handed & r & H & _ & Hr & _).
  - intros p. subst w. cbn [fst]. lia.
  - exists handed, r. split; assumption.
Defined.

(** Three frames in one batch and an accepted unbind that ends the session; the last
    item stays in the queue. *)
Definition sample_item (k : txKind) (to : Z) (b : Z) : txItem := Receive.MkItem k (MkHeader 0 0 0 b) [b; b] b 0 to 0.
Definition sample_table : Table.pendingTable := Table.newPendingTable 4 (Window.newRequestWindow 2).
Definition sample_queue : list queued :=
  map (fun item => (sample_table, item))
    [sample_item txOneWay 0 1; sample_item txRequest 0 2; sample_item txResponse CommandUnbind 3;
     sample_item txOneWay 0 4].
Definition sample_round : round :=
  MkRound id false 4 (fun p => (Z.min 3 (zlen p), None)) 9.
Definition sample_tx : txState := MkTx sample_session newDeadlineManager [] [].
Definition sample_run : txState * list queued * tx_status :=
  txLoop 8 1000 5 5 false [sample_round; sample_round] sample_queue sample_tx.

Lemma tx_wire_witness :
  ts_wire (sample_run.1.1) = [1; 1; 3; 3] /\ ts_told (sample_run.1.1) = [(1, None)] /\
  exists used, sample_queue = used ++ sample_run.1.2 /\ wrote sample_tx sample_run.1.1 (actives used) sample_run.2.
Proof.
  split_and!; [vm_compute; reflexivity|vm_compute; reflexivity|].
  apply (tx_wire 8 1000 5 5 false [sample_round; sample_round] sample_queue sample_tx).
  - assert (writes_ok (rd_write sample_round)) by (intros p; cbn; lia). apply Forall_cons. split; [done|]. apply Forall_cons. done.
  - fold sample_run. by destruct sample_run as [[]].
Defined.
