(* ===== verification/WriteTimeout.v ===== *)
(** * The deadline of a write (src/session/tx.go: txLoop)

    Setting a deadline on a connection costs a timer of the runtime, so the transmit
    loop sets one only when less than half of [WriteTimeout] is left of the last.  The
    other parts of the loop are in Transmit.v; here a run of it is the times at which
    its batches are written.

    Times are nanoseconds since the zero [time.Time], 1 January of the year 1. *)

From Stdlib Require Import Sorted.
From S2P Require Import Prelude.

Definition minDuration : Z := - 2 ^ 63.
Definition maxDuration : Z := 2 ^ 63 - 1.
(** [t.Sub(u)] saturates. *)
Definition Sub (t u : Z) : Z := Z.max minDuration (Z.min maxDuration (t - u)).

Lemma quot_half n : 0 < n -> 0 <= Z.quot n 2 <= n.
Proof. intros H. rewrite Z.quot_div_nonneg by lia. split; [apply Z.div_pos; lia|apply Z.div_le_upper_bound; lia]. Qed.

Section deadline.
Context (WriteTimeout : Z).

(** Before a batch: [writeArmedUntil] after it, and the argument of [SetWriteDeadline] when
    it is called. *)
Definition arm (writeArmedUntil now : Z) : Z * option Z :=
  if 0 <? WriteTimeout then
    if Sub writeArmedUntil now <? Z.quot WriteTimeout 2
    then (now + WriteTimeout, Some (now + WriteTimeout)) else (writeArmedUntil, None)
  else (writeArmedUntil, None).

(** The deadline that is set on the connection, if any, at each write. *)
Fixpoint writes (writeArmedUntil : Z) (set : option Z) (nows : list Z) : list (Z * option Z) :=
  match nows with
  | [] => []
  | now :: nows =>
      let '(armed, called) := arm writeArmedUntil now in
      let set := match called with Some d => Some d | None => set end in
      (now, set) :: writes armed set nows
  end.
(** The times at which [SetWriteDeadline] is called. *)
Fixpoint rearms (writeArmedUntil : Z) (nows : list Z) : list Z :=
  match nows with
  | [] => []
  | now :: nows =>
      let '(armed, called) := arm writeArmedUntil now in
      match called with Some _ => now :: rearms armed nows | None => rearms armed nows end
  end.

(** The clock does not go back, and shows a time after the year 293. *)
Definition clocked (nows : list Z) : Prop := StronglySorted Z.le nows /\ Forall (Z.le (2 ^ 63)) nows.

Lemma Sub_range t u : Sub t u = t - u \/ (Sub t u = minDuration /\ t - u < minDuration) \/
  (Sub t u = maxDuration /\ maxDuration < t - u).
Proof. unfold Sub, minDuration, maxDuration. lia. Qed.

Section positive.
Context (HT : 0 < WriteTimeout <= maxDuration).

(** The loop has set no deadline yet, or the last one it set. *)
Definition armed_ok (armed : Z) (set : option Z) (now : Z) : Prop :=
  (armed = 0 /\ 2 ^ 63 <= now) \/ (set = Some armed /\ armed - now <= WriteTimeout).

Lemma arm_spec armed set now : armed_ok armed set now ->
  let '(armed', called) := arm armed now in
  let set' := match called with Some d => Some d | None => set end in
  set' = Some armed' /\ Z.quot WriteTimeout 2 <= armed' - now <= WriteTimeout /\
  match called with
  | Some _ => armed' = now + WriteTimeout /\ armed - now < Z.quot WriteTimeout 2
  | None => armed' = armed
  end.
Proof.
  intros Hok. unfold arm. destruct (Z.ltb_spec 0 WriteTimeout); [|lia].
  pose proof (quot_half WriteTimeout ltac:(lia)) as Hq.
  destruct (Z.ltb_spec (Sub armed now) (Z.quot WriteTimeout 2)) as [Hlt|Hge].
  - split_and!; try done; try lia. destruct (Sub_range armed now) as [?|[[??]|[Hm ?]]]; unfold minDuration, maxDuration in *; lia.
  - destruct (Sub_range armed now) as [Hs|[[Hs ?]|[Hs ?]]]; unfold minDuration, maxDuration in *;
      (destruct Hok as [[-> ?]|[-> ?]]; split_and!; [..|done]; try done; lia).
Qed.

Lemma arm_later armed set now now' : armed_ok armed set now -> now <= now' ->
  let '(armed', called) := arm armed now in armed_ok armed' (match called with Some d => Some d | None => set end) now'.
Proof.
  intros Hok Hn. pose proof (arm_spec armed set now Hok) as H. destruct (arm armed now) as [a called].
  destruct H as (Hs & Hb & _). right. split; [done|lia].
Qed.

Lemma writes_bounded nows : forall armed set, StronglySorted Z.le nows ->
  Forall (armed_ok armed set) nows ->
  Forall (fun '(now, d) => exists a, d = Some a /\ Z.quot WriteTimeout 2 <= a - now <= WriteTimeout) (writes armed set nows).
Proof.
  induction nows as [|now nows IH]; intros armed set Hs Hok; [constructor|].
  apply StronglySorted_inv in Hs as [Hs Hle]. apply Forall_cons in Hok as [Hok _]. cbn [writes].
  pose proof (arm_spec armed set now Hok) as H.
  pose proof (fun now' => arm_later armed set now now' Hok) as Hl.
  destruct (arm armed now) as [a called]. destruct H as (Hset & Hb & _).
  constructor; [by exists a|]. apply IH; [done|]. eapply Forall_impl; [exact Hle|]. intros n Hn. by apply Hl.
Qed.

(** [a] is at least half the timeout before [b]. *)
Definition apart (a b : Z) : Prop := a + (WriteTimeout - Z.quot WriteTimeout 2) < b.

Lemma rearms_after nows : forall last set, StronglySorted Z.le nows ->
  Forall (armed_ok (last + WriteTimeout) set) nows -> set = Some (last + WriteTimeout) ->
  Forall (apart last) (rearms (last + WriteTimeout) nows) /\ StronglySorted apart (rearms (last + WriteTimeout) nows).
Proof.
  induction nows as [|now nows IH]; intros last set Hs Hok Hset; [by repeat constructor|].
  apply StronglySorted_inv in Hs as [Hs Hle]. apply Forall_cons in Hok as [Hok Hoks]. cbn [rearms].
  pose proof (arm_spec _ set now Hok) as H. pose proof (fun now' => arm_later _ set now now' Hok) as Hl.
  destruct (arm (last + WriteTimeout) now) as [a [d|]].
  - destruct H as (_ & _ & -> & Hlt). destruct (IH now (Some (now + WriteTimeout)) Hs) as [IH1 IH2]; [|done|].
    { eapply Forall_impl; [exact Hle|]. intros n Hn. right. split; [done|lia]. }
    assert (Hap : apart last now) by (unfold apart; lia).
    split; [|by constructor]. constructor; [done|]. eapply Forall_impl; [exact IH1|]. unfold apart in *. intros n Hn.
    pose proof (quot_half WriteTimeout ltac:(lia)). lia.
  - destruct H as (_ & _ & ->). by apply (IH last set).
Qed.
End positive.
End deadline.

(** C20: The deadline of a write.  Whatever the times at which the transmit loop writes its
    batches: with a [WriteTimeout], every write, the first included, begins with a
    deadline on the connection that is at least half of the timeout and at most the
    whole of it away, so that a write that makes no progress is cut off in time and none
    is cut off early; and two calls of [SetWriteDeadline] are more than half a timeout
    apart, however many batches are written.  Without a timeout none is ever set. *)
Theorem write_deadline_bounds T nows : T <= maxDuration -> clocked nows ->
  (0 < T ->
    Forall (fun '(now, d) => exists a, d = Some a /\ Z.quot T 2 <= a - now <= T) (writes T 0 None nows) /\
    StronglySorted (apart T) (rearms T 0 nows)) /\
  (T <= 0 -> Forall (fun '(_, d) => d = None) (writes T 0 None nows) /\ rearms T 0 nows = []).
Proof.
  intros Hmax [Hs Hy]. assert (Hok0 : Forall (armed_ok T 0 None) nows).
  { eapply Forall_impl; [exact Hy|]. intros n Hn. by left. }
  split.
  - intros HT. split; [by apply writes_bounded|]. destruct nows as [|now nows]; [constructor|].
    apply StronglySorted_inv in Hs as [Hs Hle]. apply Forall_cons in Hok0 as [Hok _]. cbn [rearms].
    pose proof (arm_spec T (conj HT Hmax) 0 None now Hok) as H. destruct (arm T 0 now) as [a [d|]].
    + destruct H as (_ & _ & -> & _). destruct (rearms_after T (conj HT Hmax) nows now (Some (now + T)) Hs) as [H1 H2];
        [|done|by constructor]. eapply Forall_impl; [exact Hle|]. intros n Hn. right. split; [done|lia].
    + by destruct H as (? & _).
  - intros HT. clear Hok0 Hs Hy. assert (Harm : forall a n, arm T a n = (a, None)).
    { intros a n. unfold arm. by destruct (Z.ltb_spec 0 T); [lia|]. }
    induction nows as [|now nows [IH1 IH2]]; [by repeat constructor|]. cbn [writes rearms]. rewrite Harm. by split; [constructor|].
Qed.

(** Batches every 4 units from the year 2024 on, with a timeout of 10: the deadline is set
    again at every second batch. *)
Definition sample_times : list Z := map (fun k => 63839000000000000000 + 4 * k) [0; 1; 2; 3; 4].
Lemma write_deadline_bounds_witness :
  Forall (fun '(now, d) => exists a, d = Some a /\ 5 <= a - now <= 10) (writes 10 0 None sample_times) /\
  rearms 10 0 sample_times = map (fun k => 63839000000000000000 + 4 * k) [0; 2; 4].
Proof.
  destruct (write_deadline_bounds 10 sample_times) as [H _].
  - vm_compute. discriminate.
  - split; [|repeat constructor; vm_compute; discriminate].
    repeat constructor; vm_compute; discriminate.
  - split; [by apply H|vm_compute; reflexivity].
Defined.
