(* ===== verification/Liveness.v ===== *)
(** * Timeouts of a session (src/session/liveness.go)

    All deadlines of a session are items of one [deadlineManager]: the response
    deadline of every request that was written, and one slot each for the check
    that the session binds in time, that the peer is heard of, and that a silent
    link is probed.  When an item expires, its goroutine calls [expireDeadline].
    Times are in nanoseconds. *)

From S2P Require Import Prelude Protocol Bodies Fields Registry Pdu StateMachine Pending Receive Deadline Transmit.

Definition TimeoutKind_number (k : TimeoutKind) : Z :=
  match k with
  | TimeoutResponse => 1 | TimeoutSessionInit => 2 | TimeoutEnquireLink => 3 | TimeoutInactivity => 4
  end.
Definition TimeoutError (k : TimeoutKind) (command sequence after : Z) : GoError :=
  ETimeout (TimeoutKind_number k) command sequence after.

Section liveness.
Context (SessionInitTimeout InactivityTimeout EnquireLinkInterval : Z).

Definition schedule_slot (d : deadlineManager) (slot : positive) (now after : Z) (k : TimeoutKind)
    : deadlineManager :=
  fst (scheduleItemAt d (Some slot) now after k 0 0).

Definition scheduleLivenessDeadlines (d : deadlineManager) (now : Z) : deadlineManager :=
  let d := if 0 <? SessionInitTimeout
           then schedule_slot d sessionInitDeadline now SessionInitTimeout TimeoutSessionInit else d in
  let d := if 0 <? InactivityTimeout
           then schedule_slot d inactivityDeadline now InactivityTimeout TimeoutInactivity else d in
  if 0 <? EnquireLinkInterval
  then schedule_slot d enquireLinkDeadline now EnquireLinkInterval TimeoutEnquireLink else d.

Definition fireSessionInitDeadline (s : Session) : Session :=
  if done s then s
  else match sm_state (machine s) with
       | StateOpen | StateOutbound =>
           terminate s (TimeoutError TimeoutSessionInit 0 0 SessionInitTimeout)
       | _ => s
       end.

Definition fireInactivityDeadline (now : Z) (s : Session) (d : deadlineManager) : Session * deadlineManager :=
  if done s then (s, d)
  else if negb (isBoundState (sm_state (machine s)))
  then (s, schedule_slot d inactivityDeadline now InactivityTimeout TimeoutInactivity)
  else
    let idle := now - lastInbound s in
    if idle <? InactivityTimeout
    then (s, schedule_slot d inactivityDeadline now (InactivityTimeout - idle) TimeoutInactivity)
    else (terminate s (TimeoutError TimeoutInactivity 0 0 InactivityTimeout), d).

(** The last component says whether a goroutine was started that sends an
    enquire_link; what it does with the result is [probe_result]. *)
Definition fireEnquireLinkDeadline (now : Z) (s : Session) (d : deadlineManager)
    : Session * deadlineManager * bool :=
  if done s then (s, d, false)
  else if negb (isBoundState (sm_state (machine s)))
  then (s, schedule_slot d enquireLinkDeadline now EnquireLinkInterval TimeoutEnquireLink, false)
  else
    let idle := now - lastActivity s in
    if idle <? EnquireLinkInterval
    then (s, schedule_slot d enquireLinkDeadline now (EnquireLinkInterval - idle) TimeoutEnquireLink, false)
    else (s, schedule_slot d enquireLinkDeadline now EnquireLinkInterval TimeoutEnquireLink, true).

Definition probe_result (s : Session) (err : option GoError) : Session :=
  match err with
  | None => s
  | Some e => if is_sentinel ErrWindowFull e then s else if done s then s else terminate s e
  end.

(** A request whose response did not come in time. *)
Definition expire_request (s : Session) (item : deadlineItem) : Session :=
  let err := TimeoutError (di_kind item) (di_command item) (di_sequence item) (di_after item) in
  match Table.completeError (table s) (di_sequence item) err with
  | (t, Some p) =>
      let s := set_table s t in
      match Table.reqs t !! p with
      | Some r => set_machine s (CancelOutbound (machine s) (Table.requestID r))
      | None => s
      end
  | (t, None) => set_table s t
  end.

Definition expireDeadline (now : Z) (s : Session) (d : deadlineManager) (item : positive)
    : Session * deadlineManager * bool :=
  if decide (item = sessionInitDeadline) then (fireSessionInitDeadline s, d, false)
  else if decide (item = inactivityDeadline)
  then let '(s, d) := fireInactivityDeadline now s d in (s, d, false)
  else if decide (item = enquireLinkDeadline) then fireEnquireLinkDeadline now s d
  else match items d !! item with
       | Some data => (expire_request s data, d, false)
       | None => (s, d, false)
       end.

(** ** Runs

    The goroutine of the deadlines takes the expired items out ([due]) and handles
    them one by one; meanwhile PDUs arrive and are written, the session changes its
    state or ends, requests get deadlines and lose them, and probes come back.
    [l_bound] is when the session was last bound. *)
Record live := MkLive {
  l_session : Session; l_deadlines : deadlineManager; l_due : list positive;
  l_now : Z; l_bound : Z; l_probes : nat
}.

(** When the session was bound, if [s] comes next. *)
Definition rebound (x : live) (s : Session) : Z :=
  if isBoundState (sm_state (machine s)) && negb (isBoundState (sm_state (machine (l_session x))))
  then l_now x else l_bound x.
Definition machine_step (s : Session) (op : sm_op) : Session := set_machine s (sm_step (machine s) op).

Inductive lstep : live -> live -> Prop :=
| l_time x now : l_now x <= now ->
    lstep x (MkLive (l_session x) (l_deadlines x) (l_due x) now (l_bound x) (l_probes x))
| l_inbound x : lstep x (MkLive (note_inbound (l_session x) (l_now x)) (l_deadlines x) (l_due x)
    (l_now x) (l_bound x) (l_probes x))
| l_write x : lstep x (MkLive (note_write (l_session x) (l_now x)) (l_deadlines x) (l_due x)
    (l_now x) (l_bound x) (l_probes x))
| l_machine x op : op <> OpOpen ->
    lstep x (MkLive (machine_step (l_session x) op) (l_deadlines x) (l_due x) (l_now x)
      (rebound x (machine_step (l_session x) op)) (l_probes x))
| l_end x e : lstep x (MkLive (terminate (l_session x) e) (l_deadlines x) (l_due x)
    (l_now x) (l_bound x) (l_probes x))
| l_table x t : lstep x (MkLive (set_table (l_session x) t) (l_deadlines x) (l_due x)
    (l_now x) (l_bound x) (l_probes x))
| l_schedule x p after k command sequence :
    deadlineStorage p ∉ heap (l_deadlines x) -> 0 < after ->
    lstep x (MkLive (l_session x)
      (fst (scheduleItemAt (l_deadlines x) (Some (deadlineStorage p)) (l_now x) after k command sequence))
      (l_due x) (l_now x) (l_bound x) (l_probes x))
| l_cancel x p : lstep x (MkLive (l_session x) (cancel (l_deadlines x) (Some (deadlineStorage p)))
    (l_due x) (l_now x) (l_bound x) (l_probes x))
| l_expire x : l_due x = [] ->
    lstep x (MkLive (l_session x) (fst (expireReady (l_deadlines x) (l_now x)))
      (snd (expireReady (l_deadlines x) (l_now x))) (l_now x) (l_bound x) (l_probes x))
| l_fire x item due s d probe : l_due x = item :: due ->
    expireDeadline (l_now x) (l_session x) (l_deadlines x) item = (s, d, probe) ->
    lstep x (MkLive s d due (l_now x) (rebound x s) (l_probes x + if probe then 1 else 0))
| l_probe x err : (0 < l_probes x)%nat ->
    lstep x (MkLive (probe_result (l_session x) err) (l_deadlines x) (l_due x) (l_now x)
      (l_bound x) (l_probes x - 1)).

(** A session as [New] leaves it at time [now]. *)
Definition fresh_session (s : Session) (now : Z) : Prop :=
  (exists role m, NewStateMachine role = Ok m /\ sm_Open (Some m) = Ok (machine s)) /\
  sm_state (machine s) = StateOpen /\ done s = false /\ closeErr s = None /\
  lastInbound s = now /\ lastActivity s = now.
Definition start_live (s : Session) (now : Z) : live :=
  MkLive s (scheduleLivenessDeadlines newDeadlineManager now) [] now now 0.

(** ** The slots *)

Definition is_slot (p : positive) : Prop := (p < 4)%positive.
#[export] Instance is_slot_dec p : Decision (is_slot p).
Proof. unfold is_slot. apply _. Defined.
Definition slots (l : list positive) : list positive := filter is_slot l.

Lemma storage_not_slot p : ~ is_slot (deadlineStorage p).
Proof. unfold is_slot, deadlineStorage. lia. Qed.

Lemma slots_storage p l : slots (deadlineStorage p :: l) = slots l.
Proof. unfold slots. rewrite filter_cons_False; [done|]. apply storage_not_slot. Qed.

#[export] Instance slots_perm : Proper ((≡ₚ) ==> (≡ₚ)) slots.
Proof. intros l1 l2 H. unfold slots. by rewrite H. Qed.

(** Scheduling a slot, and what an expired item does to the deadlines. *)
Lemma schedule_slot_spec d slot now after k : dl_inv d -> slot ∉ heap d -> 0 < after ->
  let d' := schedule_slot d slot now after k in
  dl_inv d' /\ heap d' ≡ₚ slot :: heap d /\ at_of (items d') slot = now + after /\
  forall p, p <> slot -> at_of (items d') p = at_of (items d) p.
Proof.
  intros Hd Hn Ha. unfold schedule_slot.
  pose proof (schedule_inv d slot now after k 0 0 Hd Hn Ha) as H.
  destruct (scheduleItemAt _ _ _ _ _ _ _) as [d' r]. destruct H as (_ & H1 & H2 & H3 & _). cbn [fst].
  split_and!; [done..| |]; unfold at_of; rewrite H3; [by rewrite lookup_insert_eq|].
  intros p Hp. by rewrite lookup_insert_ne.
Qed.

(** The deadlines after [d] lost [item]: put back at time [t], or not. *)
Inductive refired (d : deadlineManager) (item : positive) (d' : deadlineManager) : option Z -> Prop :=
| refired_no : d' = d -> refired d item d' None
| refired_at t : dl_inv d' -> heap d' ≡ₚ item :: heap d -> at_of (items d') item = t ->
    (forall p, p <> item -> at_of (items d') p = at_of (items d) p) -> refired d item d' (Some t).

Lemma refired_slot d slot now after k : dl_inv d -> slot ∉ heap d -> 0 < after ->
  refired d slot (schedule_slot d slot now after k) (Some (now + after)).
Proof. intros H1 H2 H3. destruct (schedule_slot_spec d slot now after k H1 H2 H3) as (A & B & C & D). by constructor. Qed.

(** What the check for a silent peer decides, and when it looks again. *)
Definition inactivity_next (now : Z) (s : Session) : option Z :=
  if done s then None
  else if negb (isBoundState (sm_state (machine s))) then Some (now + InactivityTimeout)
  else if now - lastInbound s <? InactivityTimeout then Some (lastInbound s + InactivityTimeout) else None.
Definition enquire_next (now : Z) (s : Session) : option Z :=
  if done s then None
  else if negb (isBoundState (sm_state (machine s))) then Some (now + EnquireLinkInterval)
  else if now - lastActivity s <? EnquireLinkInterval then Some (lastActivity s + EnquireLinkInterval)
  else Some (now + EnquireLinkInterval).

Lemma fireInactivity_spec now s d : dl_inv d -> inactivityDeadline ∉ heap d -> 0 < InactivityTimeout ->
  let '(s', d') := fireInactivityDeadline now s d in
  refired d inactivityDeadline d' (inactivity_next now s) /\
  s' = if bool_decide (inactivity_next now s = None) && negb (done s)
       then terminate s (TimeoutError TimeoutInactivity 0 0 InactivityTimeout) else s.
Proof.
  intros Hd Hn Ht. unfold fireInactivityDeadline, inactivity_next.
  destruct (done s); [split; [by constructor|done]|].
  destruct (negb (isBoundState _)); [split; [by apply refired_slot|done]|].
  destruct (Z.ltb_spec (now - lastInbound s) InactivityTimeout).
  - split; [|done]. replace (lastInbound s + InactivityTimeout)
      with (now + (InactivityTimeout - (now - lastInbound s))) by lia. apply refired_slot; [done..|lia].
  - split; [by constructor|done].
Qed.

Lemma fireEnquireLink_spec now s d : dl_inv d -> enquireLinkDeadline ∉ heap d -> 0 < EnquireLinkInterval ->
  let '(s', d', probe) := fireEnquireLinkDeadline now s d in
  refired d enquireLinkDeadline d' (enquire_next now s) /\ s' = s.
Proof.
  intros Hd Hn Ht. unfold fireEnquireLinkDeadline, enquire_next.
  destruct (done s); [split; [by constructor|done]|].
  destruct (negb (isBoundState _)); [split; [by apply refired_slot|done]|].
  destruct (Z.ltb_spec (now - lastActivity s) EnquireLinkInterval); (split; [|done]).
  - replace (lastActivity s + EnquireLinkInterval)
      with (now + (EnquireLinkInterval - (now - lastActivity s))) by lia. apply refired_slot; [done..|lia].
  - by apply refired_slot.
Qed.

(** ** The invariant *)

Lemma isBoundState_is_bound st : isBoundState st = is_bound st.
Proof. by destruct st. Qed.

Definition interval (p : positive) : Z :=
  if decide (p = sessionInitDeadline) then SessionInitTimeout
  else if decide (p = inactivityDeadline) then InactivityTimeout else EnquireLinkInterval.

(** What is known of the session itself. *)
Record session_ok (now bound : Z) (s : Session) : Prop := {
  se_machine : exists role, sm_inv role (machine s);
  se_done : done s = true <-> closeErr s <> None;
  se_inbound : lastInbound s <= now;
  se_activity : lastActivity s <= now;
  se_bound : bound <= now
}.

(** The time by which the check for a silent peer looks at the session. *)
Definition inactivity_limit (now bound : Z) (s : Session) : Z :=
  (if isBoundState (sm_state (machine s)) then Z.max (lastInbound s) bound else now) + InactivityTimeout.

(** The slots of a session that goes on: where they are and for when. *)
Record slots_ok (created now bound : Z) (s : Session) (d : deadlineManager) (due : list positive) : Prop := {
  sl_init : 0 < SessionInitTimeout -> is_open (sm_state (machine s)) = true ->
    sessionInitDeadline ∈ due ++ heap d;
  sl_inactivity : 0 < InactivityTimeout -> inactivityDeadline ∈ due \/
    inactivityDeadline ∈ heap d /\ at_of (items d) inactivityDeadline <= inactivity_limit now bound s;
  sl_enquire : 0 < EnquireLinkInterval -> enquireLinkDeadline ∈ due \/
    enquireLinkDeadline ∈ heap d /\ at_of (items d) enquireLinkDeadline <= now + EnquireLinkInterval
}.

Record deadlines_ok (created now : Z) (d : deadlineManager) (due : list positive) : Prop := {
  do_heap : dl_inv d;
  do_once : NoDup (slots (due ++ heap d));
  do_interval p : p ∈ slots (due ++ heap d) -> 0 < interval p;
  do_due p : p ∈ slots due -> at_of (items d) p <= now;
  do_init : sessionInitDeadline ∈ due ++ heap d -> at_of (items d) sessionInitDeadline = created + SessionInitTimeout
}.

Record live_ok (created : Z) (x : live) : Prop := {
  lo_session : session_ok (l_now x) (l_bound x) (l_session x);
  lo_deadlines : deadlines_ok created (l_now x) (l_deadlines x) (l_due x);
  lo_slots : done (l_session x) = false ->
    slots_ok created (l_now x) (l_bound x) (l_session x) (l_deadlines x) (l_due x)
}.

Lemma slot_elem p l : is_slot p -> p ∈ slots l <-> p ∈ l.
Proof. intros Hp. unfold slots. rewrite list_elem_of_filter. tauto. Qed.
Lemma slots_all l : (forall p, p ∈ l -> is_slot p) -> slots l = l.
Proof.
  intros H. induction l as [|p l IH]; [done|]. unfold slots in *. rewrite filter_cons_True by (apply H; by left).
  f_equal. apply IH. intros q Hq. apply H. by right.
Qed.
Lemma slots_app l1 l2 : slots (l1 ++ l2) = slots l1 ++ slots l2.
Proof. apply filter_app. Qed.

(** The session changes, the deadlines do not. *)
Lemma keep_ok created x s now bound probes : live_ok created x -> l_now x <= now -> session_ok now bound s ->
  (done s = false -> done (l_session x) = false) ->
  (done s = false -> is_open (sm_state (machine s)) = true -> is_open (sm_state (machine (l_session x))) = true) ->
  (done s = false -> inactivity_limit (l_now x) (l_bound x) (l_session x) <= inactivity_limit now bound s) ->
  live_ok created (MkLive s (l_deadlines x) (l_due x) now bound probes).
Proof.
  intros [Hs [D1 D2 D3 D4 D5] Hsl] Hn Hs' Hd Ho Hl. split; cbn [l_session l_deadlines l_due l_now l_bound]; [done| |].
  - split; [done..| |done]. intros p Hp. specialize (D4 p Hp). lia.
  - intros Hf. destruct (Hsl (Hd Hf)) as [S1 S2 S3]. split; [auto| |].
    + intros Ht. destruct (S2 Ht) as [|[H1 H2]]; [by left|right]. split; [done|]. specialize (Hl Hf). lia.
    + intros Ht. destruct (S3 Ht) as [|[H1 H2]]; [by left|right]. split; [done|]. lia.
Qed.

Lemma terminate_session_ok now bound s e : session_ok now bound s -> session_ok now bound (terminate s e).
Proof.
  intros [[role Hm] Hd Hi Ha Hb]. unfold terminate. destruct (closeErr s) eqn:Hc; [split; eauto; by rewrite Hc|].
  split; cbn; [|done..]. exists role. apply (sm_step_inv role (machine s) OpClose Hm).
Qed.
Lemma terminate_done now bound s e : session_ok now bound s -> done (terminate s e) = true.
Proof.
  intros [_ Hd _ _ _]. unfold terminate. destruct (closeErr s) eqn:Hc; [|done]. by apply Hd.
Qed.

Lemma terminate_ok created x e : live_ok created x ->
  live_ok created (MkLive (terminate (l_session x) e) (l_deadlines x) (l_due x) (l_now x) (l_bound x) (l_probes x)).
Proof.
  intros Hx. destruct (Hx) as [Hs _ _]. pose proof (terminate_done _ _ _ e Hs) as Hd.
  apply keep_ok; try done; [by apply terminate_session_ok|congruence..].
Qed.

Lemma machine_step_ok now bound s op : session_ok now bound s -> op <> OpOpen ->
  (is_open (sm_state (machine (machine_step s op))) = true -> is_open (sm_state (machine s)) = true) /\
  session_ok now bound (machine_step s op).
Proof.
  intros [[role Hm] Hd Hi Ha Hb] Hop. split; [by apply (open_before role)|].
  split; cbn; [|done..]. exists role. by apply sm_step_inv.
Qed.

(** The limit of the check never moves back. *)
Lemma limit_machine x s : l_bound x <= l_now x -> lastInbound (l_session x) <= l_now x ->
  lastInbound s = lastInbound (l_session x) ->
  inactivity_limit (l_now x) (l_bound x) (l_session x) <= inactivity_limit (l_now x) (rebound x s) s.
Proof.
  intros Hb Hi Hl. unfold inactivity_limit, rebound. rewrite Hl.
  destruct (isBoundState (sm_state (machine s))), (isBoundState (sm_state (machine (l_session x)))); cbn [andb negb]; lia.
Qed.

Lemma rebound_le x s : l_bound x <= l_now x -> rebound x s <= l_now x.
Proof. intros H. unfold rebound. destruct (_ && _); lia. Qed.

(** The deadlines change, the slots among them do not. *)
Lemma slots_keep created x d' due' : live_ok created x -> dl_inv d' ->
  slots (due' ++ heap d') ≡ₚ slots (l_due x ++ heap (l_deadlines x)) ->
  (forall p, is_slot p -> at_of (items d') p = at_of (items (l_deadlines x)) p) ->
  (forall p, p ∈ slots due' -> at_of (items d') p <= l_now x) ->
  (forall p, is_slot p -> p ∈ l_due x -> p ∈ due') ->
  live_ok created (MkLive (l_session x) d' due' (l_now x) (l_bound x) (l_probes x)).
Proof.
  intros [Hs [D1 D2 D3 D4 D5] Hsl] Hd Hp Hat Hdue Hsub.
  assert (Hin : forall p, is_slot p -> p ∈ due' ++ heap d' <-> p ∈ l_due x ++ heap (l_deadlines x)).
  { intros p Hsp. rewrite <- (slot_elem p (due' ++ heap d')), <- (slot_elem p (l_due x ++ _)) by done.
    by rewrite Hp. }
  split; cbn [l_session l_deadlines l_due l_now l_bound]; [done| |].
  - split; [done|by rewrite Hp| |done|].
    + intros p. rewrite Hp. apply D3.
    + rewrite Hin, Hat by done. done.
  - intros Hf. destruct (Hsl Hf) as [S1 S2 S3]. split.
    + intros H1 H2. rewrite Hin by done. auto.
    + intros Ht. destruct (S2 Ht) as [H|[H1 H2]]; [left; by apply Hsub|].
      assert (H : inactivityDeadline ∈ due' ++ heap d') by (apply Hin; [done|apply elem_of_app; by right]).
      apply elem_of_app in H as [H|H]; [by left|right]. by rewrite Hat.
    + intros Ht. destruct (S3 Ht) as [H|[H1 H2]]; [left; by apply Hsub|].
      assert (H : enquireLinkDeadline ∈ due' ++ heap d') by (apply Hin; [done|apply elem_of_app; by right]).
      apply elem_of_app in H as [H|H]; [by left|right]. by rewrite Hat.
Qed.

Lemma schedule_request_ok created x p after k c sq : live_ok created x ->
  deadlineStorage p ∉ heap (l_deadlines x) -> 0 < after ->
  live_ok created (MkLive (l_session x)
    (fst (scheduleItemAt (l_deadlines x) (Some (deadlineStorage p)) (l_now x) after k c sq))
    (l_due x) (l_now x) (l_bound x) (l_probes x)).
Proof.
  intros Hx Hn Ha. pose proof (do_heap _ _ _ _ (lo_deadlines _ _ Hx)) as Hd.
  pose proof (schedule_inv _ _ (l_now x) after k c sq Hd Hn Ha) as H.
  destruct (scheduleItemAt _ _ _ _ _ _ _) as [d' r]. destruct H as (_ & H1 & H2 & H3 & _). cbn [fst].
  assert (Hat : forall q, is_slot q -> at_of (items d') q = at_of (items (l_deadlines x)) q).
  { intros q Hq. unfold at_of. rewrite H3, lookup_insert_ne; [done|]. intros <-. by destruct (storage_not_slot p). }
  apply (slots_keep created x); try done.
  - by rewrite !slots_app, H2, slots_storage.
  - intros q Hq. rewrite Hat by (by apply list_elem_of_filter in Hq as [? _]).
    by apply (do_due _ _ _ _ (lo_deadlines _ _ Hx)).
Qed.

Lemma cancel_request_ok created x p : live_ok created x ->
  live_ok created (MkLive (l_session x) (cancel (l_deadlines x) (Some (deadlineStorage p)))
    (l_due x) (l_now x) (l_bound x) (l_probes x)).
Proof.
  intros Hx. destruct (lo_deadlines _ _ Hx) as [Hd _ _ Hdue _].
  destruct (cancel_inv (l_deadlines x) (deadlineStorage p) Hd) as (H1 & H2 & _ & H4 & H5).
  apply (slots_keep created x); try done; [|intros q _; by rewrite H2|intros q; rewrite H2; apply Hdue].
  rewrite !slots_app. destruct (decide (deadlineStorage p ∈ heap (l_deadlines x))) as [Hin|Hn].
  - by rewrite <- (H4 Hin), slots_storage.
  - by rewrite (H5 Hn).
Qed.

Lemma expire_ok created x : live_ok created x -> l_due x = [] ->
  live_ok created (MkLive (l_session x) (fst (expireReady (l_deadlines x) (l_now x)))
      (snd (expireReady (l_deadlines x) (l_now x))) (l_now x) (l_bound x) (l_probes x)).
Proof.
  intros Hx Hnil. pose proof (do_heap _ _ _ _ (lo_deadlines _ _ Hx)) as Hd. unfold expireReady.
  pose proof (expire_loop_ok (length (heap (l_deadlines x))) (l_deadlines x) (l_now x) [] Hd ltac:(lia)) as H.
  destruct (expire_loop _ _ _ _) as [d' due']. destruct H as (e & -> & H1 & H2 & _ & H4 & H5 & _). cbn [fst snd app].
  apply (slots_keep created x); try done.
  - by rewrite Hnil, H4.
  - intros p _. by rewrite H2.
  - intros p [_ Hp]%list_elem_of_filter. rewrite H2. rewrite Forall_forall in H5. by apply H5.
  - rewrite Hnil. by intros p _ ?%elem_of_nil.
Qed.

Lemma drop_item created now d item due : deadlines_ok created now d (item :: due) -> deadlines_ok created now d due.
Proof.
  intros [D1 D2 D3 D4 D5]. assert (Hsub : forall p, p ∈ slots (due ++ heap d) -> p ∈ slots ((item :: due) ++ heap d)).
  { intros p [Hp Hin]%list_elem_of_filter. apply list_elem_of_filter. split; [done|]. by right. }
  split; [done| |auto| |].
  - unfold slots in *. cbn [app] in D2. rewrite filter_cons in D2. destruct (decide (is_slot item)); [|done].
    by apply NoDup_cons in D2 as [_ D2].
  - intros p [Hp Hin]%list_elem_of_filter. apply D4, list_elem_of_filter. split; [done|]. by right.
  - intros H. apply D5. by right.
Qed.

Lemma refire created now d item due d' t : deadlines_ok created now d (item :: due) -> is_slot item ->
  item <> sessionInitDeadline -> refired d item d' (Some t) -> deadlines_ok created now d' due.
Proof.
  intros [D1 D2 D3 D4 D5] Hs Hne Hr. inversion Hr as [|? R1 R2 R3 R4]; subst.
  assert (Hperm : slots (due ++ heap d') ≡ₚ slots ((item :: due) ++ heap d))
    by (rewrite R2; unfold slots; apply filter_Permutation; by rewrite <- Permutation_middle).
  assert (Hnin : item ∉ slots due).
  { unfold slots in *. cbn [app] in D2. rewrite filter_cons_True in D2 by done. apply NoDup_cons in D2 as [D2 _].
    rewrite filter_app, elem_of_app in D2. tauto. }
  split; [done|by rewrite Hperm|intros p; rewrite Hperm; apply D3| |].
  - intros p Hp. rewrite R4 by (by intros ->). apply D4.
    apply list_elem_of_filter in Hp as [Hp Hin]. apply list_elem_of_filter. split; [done|by right].
  - intros Hin. rewrite R4 by done. apply D5. rewrite <- (slot_elem sessionInitDeadline) by done.
    rewrite <- Hperm. by apply slot_elem.
Qed.

Lemma due_slot created now d item due : deadlines_ok created now d (item :: due) -> is_slot item ->
  (item ∉ due) /\ (item ∉ heap d) /\ 0 < interval item /\ at_of (items d) item <= now.
Proof.
  intros [D1 D2 D3 D4 D5] Hs.
  assert (Hin : item ∈ slots ((item :: due) ++ heap d)) by (apply slot_elem; [done|by left]).
  unfold slots in D2. cbn [app] in D2. rewrite filter_cons_True in D2 by done. apply NoDup_cons in D2 as [D2 _].
  rewrite list_elem_of_filter, elem_of_app in D2.
  split_and!; [tauto|tauto|by apply D3|]. apply D4, slot_elem; [done|by left].
Qed.

Lemma completeError_session now bound s t : session_ok now bound s -> session_ok now bound (set_table s t).
Proof. intros []. by split. Qed.

(** A response deadline touches the table and the state machine only. *)
Definition cancels (s s' : Session) : Prop :=
  done s' = done s /\ closeErr s' = closeErr s /\ lastInbound s' = lastInbound s /\
  lastActivity s' = lastActivity s /\
  (machine s' = machine s \/ exists c, machine s' = sm_step (machine s) (OpCancelOutbound c)).

Lemma expire_request_cancels s item : cancels s (expire_request s item).
Proof.
  unfold expire_request. destruct (Table.completeError _ _ _) as [t [p|]]; [|by split_and!; [..|left]].
  destruct (Table.reqs t !! p) as [r|]; [|by split_and!; [..|left]]. split_and!; [done..|]. right. by exists (Table.requestID r).
Qed.

Lemma cancels_ok now bound bound' s s' : session_ok now bound s -> cancels s s' -> bound' <= now ->
  (is_open (sm_state (machine s')) = true -> is_open (sm_state (machine s)) = true) /\ session_ok now bound' s'.
Proof.
  intros [[role Hm] Hd Hi Ha Hb] (E1 & E2 & E3 & E4 & E5) Hb'. split.
  - destruct E5 as [->|[c ->]]; [done|]. by apply (open_before role).
  - split; rewrite ?E1, ?E2, ?E3, ?E4; try done. exists role. destruct E5 as [->|[c ->]]; [done|by apply sm_step_inv].
Qed.

(** An item that was handled, and the session goes on as [s]. *)
Lemma fired_ok created x item due s d probes : live_ok created x -> l_due x = item :: due ->
  session_ok (l_now x) (rebound x s) s -> deadlines_ok created (l_now x) d due ->
  (done s = false -> done (l_session x) = false /\
     inactivity_limit (l_now x) (l_bound x) (l_session x) <= inactivity_limit (l_now x) (rebound x s) s /\
     (is_open (sm_state (machine s)) = true -> is_open (sm_state (machine (l_session x))) = true) /\
     (forall p, p <> item -> is_slot p -> p ∈ due ++ heap d <-> p ∈ due ++ heap (l_deadlines x)) /\
     (forall p, p <> item -> at_of (items d) p = at_of (items (l_deadlines x)) p) /\
     (item = sessionInitDeadline -> is_open (sm_state (machine s)) = false) /\
     (item = inactivityDeadline -> item ∈ heap d /\ at_of (items d) item <= inactivity_limit (l_now x) (rebound x s) s) /\
     (item = enquireLinkDeadline -> item ∈ heap d /\ at_of (items d) item <= l_now x + EnquireLinkInterval)) ->
  live_ok created (MkLive s d due (l_now x) (rebound x s) probes).
Proof.
  intros [Hs Hdl Hsl] Hdue Hs' Hd H. split; cbn [l_session l_deadlines l_due l_now l_bound]; [done..|].
  intros Hf. destruct (H Hf) as (Hf0 & Hlim & Ho & Hin & Hat & Hi1 & Hi2 & Hi3).
  destruct (Hsl Hf0) as [S1 S2 S3]. rewrite Hdue in *. split.
  - intros Ht Hop. destruct (decide (item = sessionInitDeadline)) as [->|Hne].
    + by rewrite Hi1 in Hop.
    + apply Hin; [done..|]. specialize (S1 Ht (Ho Hop)). cbn [app] in S1.
      by apply elem_of_cons in S1 as [?|].
  - intros Ht. destruct (decide (item = inactivityDeadline)) as [->|Hne]; [right; by apply Hi2|].
    destruct (S2 Ht) as [[?|Hd1]%elem_of_cons|[Hh Hle]]; [done|by left|].
    assert (Hx : inactivityDeadline ∈ due ++ heap d) by (apply Hin; [done..|]; apply elem_of_app; by right).
    apply elem_of_app in Hx as [|Hx]; [by left|right]. split; [done|]. rewrite Hat by done. lia.
  - intros Ht. destruct (decide (item = enquireLinkDeadline)) as [->|Hne]; [right; by apply Hi3|].
    destruct (S3 Ht) as [[?|Hd1]%elem_of_cons|[Hh Hle]]; [done|by left|].
    assert (Hx : enquireLinkDeadline ∈ due ++ heap d) by (apply Hin; [done..|]; apply elem_of_app; by right).
    apply elem_of_app in Hx as [|Hx]; [by left|right]. split; [done|]. by rewrite Hat.
Qed.

Lemma refired_elem d item d' t due : refired d item d' (Some t) ->
  (forall p, p <> item -> is_slot p -> p ∈ due ++ heap d' <-> p ∈ due ++ heap d) /\
  (forall p, p <> item -> at_of (items d') p = at_of (items d) p) /\
  item ∈ heap d' /\ at_of (items d') item = t.
Proof.
  intros Hr. inversion Hr as [|? R1 R2 R3 R4]; subst. split_and!; [|done| |done].
  - intros p Hp _. rewrite R2, !elem_of_app, elem_of_cons. naive_solver.
  - rewrite R2. by left.
Qed.

Lemma rebound_same x : rebound x (l_session x) = l_bound x.
Proof. unfold rebound. by rewrite andb_negb_r. Qed.

Lemma fire_ok created x item due s d probe : live_ok created x -> l_due x = item :: due ->
  expireDeadline (l_now x) (l_session x) (l_deadlines x) item = (s, d, probe) ->
  live_ok created (MkLive s d due (l_now x) (rebound x s) (l_probes x + if probe then 1 else 0)).
Proof.
  intros Hx Hdue Hfire. pose proof (lo_session _ _ Hx) as Hs. pose proof (lo_deadlines _ _ Hx) as Hdl.
  rewrite Hdue in Hdl. unfold expireDeadline in Hfire.
  assert (Hended : forall e, session_ok (l_now x) (rebound x (terminate (l_session x) e)) (terminate (l_session x) e)).
  { intros e. destruct (terminate_session_ok (l_now x) (l_bound x) (l_session x) e Hs). split; try done.
    apply rebound_le, Hs. }
  destruct (decide (item = sessionInitDeadline)) as [->|Hn1].
  { injection Hfire as <- <- <-. unfold fireSessionInitDeadline.
    destruct (done (l_session x)) eqn:Hdone;
      [|destruct (sm_state (machine (l_session x))) eqn:Hst];
      try (apply (fired_ok created x sessionInitDeadline); rewrite ?rebound_same; try done; [by eapply drop_item|];
        intros Hf; rewrite ?Hst; split_and!; done || congruence || lia).
    all: apply (fired_ok created x sessionInitDeadline); try done; [by eapply drop_item|].
    all: rewrite (terminate_done _ _ _ _ Hs); done. }
  destruct (decide (item = inactivityDeadline)) as [->|Hn2].
  { destruct (due_slot _ _ _ _ _ Hdl ltac:(done)) as (_ & Hnin & Hiv & _).
    pose proof (fireInactivity_spec (l_now x) (l_session x) (l_deadlines x) (do_heap _ _ _ _ Hdl) Hnin Hiv) as Hsp.
    destruct (fireInactivityDeadline _ _ _) as [s' d']. injection Hfire as <- <- <-. destruct Hsp as [Hr ->].
    destruct (inactivity_next (l_now x) (l_session x)) as [t|] eqn:Hnext; cbn [bool_decide andb].
    - rewrite bool_decide_eq_false_2 by done. cbn [andb]. destruct (refired_elem _ _ _ _ due Hr) as (R1 & R2 & R3 & R4).
      apply (fired_ok created x inactivityDeadline); rewrite ?rebound_same; try done; [by eapply refire|].
      intros Hf. rewrite R4. split_and!; try done. intros _. split; [done|].
      unfold inactivity_next in Hnext. rewrite Hf in Hnext. unfold inactivity_limit.
      destruct (isBoundState _); cbn [negb] in Hnext; [|injection Hnext as <-; lia].
      destruct (_ <? _); [|done]. injection Hnext as <-. lia.
    - inversion Hr; subst. rewrite bool_decide_eq_true_2 by done. cbn [andb].
      destruct (done (l_session x)) eqn:Hdone; cbn [negb];
        apply (fired_ok created x inactivityDeadline); rewrite ?rebound_same; try done; try (by eapply drop_item);
        rewrite ?(terminate_done _ _ _ _ Hs); congruence. }
  destruct (decide (item = enquireLinkDeadline)) as [->|Hn3].
  { destruct (due_slot _ _ _ _ _ Hdl ltac:(done)) as (_ & Hnin & Hiv & _).
    pose proof (fireEnquireLink_spec (l_now x) (l_session x) (l_deadlines x) (do_heap _ _ _ _ Hdl) Hnin Hiv) as Hsp.
    rewrite Hfire in Hsp. destruct Hsp as [Hr ->].
    destruct (enquire_next (l_now x) (l_session x)) as [t|] eqn:Hnext.
    - destruct (refired_elem _ _ _ _ due Hr) as (R1 & R2 & R3 & R4).
      apply (fired_ok created x enquireLinkDeadline); rewrite ?rebound_same; try done; [by eapply refire|].
      intros Hf. rewrite R4. split_and!; try done. intros _. split; [done|].
      unfold enquire_next in Hnext. rewrite Hf in Hnext. pose proof (se_activity _ _ _ Hs).
      destruct (negb _); [injection Hnext as <-; lia|]. destruct (_ <? _); injection Hnext as <-; lia.
    - inversion Hr; subst. apply (fired_ok created x enquireLinkDeadline); rewrite ?rebound_same; try done; [by eapply drop_item|].
      intros Hf. unfold enquire_next in Hnext. rewrite Hf in Hnext. destruct (negb _); [done|]. by destruct (_ <? _). }
  assert (Hreq : forall s', cancels (l_session x) s' ->
    live_ok created (MkLive s' (l_deadlines x) due (l_now x) (rebound x s') (l_probes x))).
  { intros s' Hs'. destruct (cancels_ok _ _ (rebound x s') _ _ Hs Hs') as [O1 O2]; [apply rebound_le, Hs|].
    destruct Hs' as (E1 & _ & E3 & _). apply (fired_ok created x item); try done; [by eapply drop_item|].
    intros Hf. split_and!; try done; [congruence|]. apply limit_machine; [apply Hs..|done]. }
  destruct (items (l_deadlines x) !! item) as [data|]; injection Hfire as <- <- <-; rewrite Nat.add_0_r; apply Hreq.
  - apply expire_request_cancels.
  - by split_and!; [..|left].
Qed.

Lemma lstep_ok created x y : lstep x y -> live_ok created x -> live_ok created y.
Proof.
  intros Hstep Hx. pose proof (lo_session _ _ Hx) as Hs.
  destruct Hstep as [x now Hn|x|x|x op Hop|x e|x t|x p after k c sq Hn Ha|x p|x Hnil|x item due s d probe Hdue Hf|x err Hp].
  - apply keep_ok; try done; [destruct Hs; split; try done; lia|]. intros _. unfold inactivity_limit. destruct (isBoundState _); lia.
  - apply keep_ok; try done; [destruct Hs; split; done|]. intros _. unfold inactivity_limit. cbn.
    pose proof (se_inbound _ _ _ Hs). destruct (isBoundState _); lia.
  - apply keep_ok; try done. destruct Hs; split; done.
  - destruct (machine_step_ok _ _ _ op Hs Hop) as [M1 M2].
    apply keep_ok; try done.
    + destruct M2. split; try done. apply rebound_le, Hs.
    + intros _. apply limit_machine; [apply Hs..|done].
  - by apply terminate_ok.
  - apply keep_ok; try done. by apply completeError_session.
  - by apply schedule_request_ok.
  - by apply cancel_request_ok.
  - by apply expire_ok.
  - by eapply fire_ok.
  - unfold probe_result. assert (Hsame : live_ok created (MkLive (l_session x) (l_deadlines x) (l_due x) (l_now x)
        (l_bound x) (l_probes x - 1))) by (by apply keep_ok).
    destruct err as [e|]; [|done]. destruct (is_sentinel _ e); [done|]. destruct (done (l_session x)); [done|].
    apply (terminate_ok created (MkLive (l_session x) (l_deadlines x) (l_due x) (l_now x) (l_bound x) (l_probes x - 1))).
    done.
Qed.

(** ** The start *)

(** Exactly the slots [l] are scheduled, each for its interval after [now]. *)
Definition armed (now : Z) (l : list positive) (d : deadlineManager) : Prop :=
  dl_inv d /\ heap d ≡ₚ l /\ Forall (fun p => at_of (items d) p = now + interval p) l.

Lemma arm_slot now l d slot k : armed now l d -> slot ∉ l ->
  armed now (if 0 <? interval slot then slot :: l else l)
    (if 0 <? interval slot then schedule_slot d slot now (interval slot) k else d).
Proof.
  intros (H1 & H2 & H3) Hn. destruct (Z.ltb_spec 0 (interval slot)) as [Hp|]; [|done].
  destruct (schedule_slot_spec d slot now (interval slot) k H1) as (S1 & S2 & S3 & S4); [by rewrite H2|done|].
  split_and!; [done|by rewrite S2, H2|]. constructor; [done|]. apply Forall_forall. intros p Hp'.
  rewrite S4 by (by intros ->). rewrite Forall_forall in H3. by apply H3.
Qed.

Lemma start_armed now : exists l, armed now l (scheduleLivenessDeadlines newDeadlineManager now) /\
  NoDup l /\ forall p, p ∈ l <-> is_slot p /\ 0 < interval p.
Proof.
  assert (H0 : armed now [] newDeadlineManager).
  { split_and!; [|done|constructor]. split; [by intros i p Hp|intros y Hy; cbn in Hy; lia|]. by intros p ?%elem_of_nil. }
  pose proof (arm_slot now _ _ sessionInitDeadline TimeoutSessionInit H0) as H1.
  specialize (H1 ltac:(apply not_elem_of_nil)). change (interval sessionInitDeadline) with SessionInitTimeout in H1.
  pose proof (arm_slot now _ _ inactivityDeadline TimeoutInactivity H1) as H2.
  change (interval inactivityDeadline) with InactivityTimeout in H2.
  specialize (H2 ltac:(destruct (0 <? SessionInitTimeout); set_solver)).
  pose proof (arm_slot now _ _ enquireLinkDeadline TimeoutEnquireLink H2) as H3.
  change (interval enquireLinkDeadline) with EnquireLinkInterval in H3.
  specialize (H3 ltac:(destruct (0 <? SessionInitTimeout), (0 <? InactivityTimeout); set_solver)).
  eexists. split; [exact H3|]. clear H0 H1 H2 H3.
  assert (Hslot : forall p, is_slot p <-> p = sessionInitDeadline \/ p = inactivityDeadline \/ p = enquireLinkDeadline)
    by (intros p; unfold is_slot, sessionInitDeadline, inactivityDeadline, enquireLinkDeadline; lia).
  assert (Hiv : interval sessionInitDeadline = SessionInitTimeout /\ interval inactivityDeadline = InactivityTimeout /\
    interval enquireLinkDeadline = EnquireLinkInterval) by done. destruct Hiv as (E1 & E2 & E3).
  split.
  - destruct (0 <? SessionInitTimeout), (0 <? InactivityTimeout), (0 <? EnquireLinkInterval);
      repeat (apply NoDup_cons; split; [set_solver|]); apply NoDup_nil; done.
  - intros p. rewrite Hslot.
    destruct (Z.ltb_spec 0 SessionInitTimeout), (Z.ltb_spec 0 InactivityTimeout), (Z.ltb_spec 0 EnquireLinkInterval);
      rewrite ?elem_of_cons, elem_of_nil; split; intros Hp; destruct_and?; destruct_or?; subst;
      rewrite ?E1, ?E2, ?E3 in *; try lia; try tauto; split; try tauto; done.
Qed.

Lemma live_start_ok s now : fresh_session s now -> live_ok now (start_live s now).
Proof.
  intros ((role & m & Hnew & Hop) & Hst & Hd & Hc & Hi & Ha). destruct (start_armed now) as (l & (D1 & D2 & D3) & Hnd & Hl).
  rewrite Forall_forall in D3.
  assert (Hslots : slots (heap (scheduleLivenessDeadlines newDeadlineManager now)) ≡ₚ l).
  { rewrite D2, slots_all; [done|]. intros p Hp. by apply Hl. }
  split; cbn [l_session l_deadlines l_due l_now l_bound start_live].
  - split; [|rewrite Hd, Hc; done|lia|lia|lia]. exists role.
    replace (machine s) with (sm_step m OpOpen) by (unfold sm_step; by rewrite Hop).
    apply sm_step_inv, reachable_inv. by apply reach_new.
  - split; cbn [app]; [done|by rewrite Hslots|intros p; rewrite Hslots; apply Hl|by intros p ?%elem_of_nil|].
    rewrite D2. intros Hp. by apply D3.
  - intros _. split; cbn [app].
    + intros Ht _. rewrite D2. by apply Hl.
    + intros Ht. right. rewrite D2. assert (Hp : inactivityDeadline ∈ l) by (by apply Hl). split; [done|].
      rewrite (D3 _ Hp). unfold inactivity_limit. rewrite Hst. done.
    + intros Ht. right. rewrite D2. assert (Hp : enquireLinkDeadline ∈ l) by (by apply Hl). split; [done|].
      by rewrite (D3 _ Hp).
Qed.

Lemma live_run s now x : fresh_session s now -> rtc lstep (start_live s now) x -> live_ok now x.
Proof.
  intros Hs H. apply (rtc_ind_r (live_ok now) (start_live s now)) in H; [done|by apply live_start_ok|].
  intros y z _ Hstep Hy. by eapply lstep_ok.
Qed.
End liveness.

(** C17: Silence is noticed.  In every run of a session that is not over, whatever
    arrives, is written, binds or completes: a session that has not bound has its
    check scheduled for exactly [SessionInitTimeout] after it was created, or about
    to run; a bound session has the inactivity check scheduled for at the latest
    [InactivityTimeout] after the last PDU from the peer (or after it was bound, if
    that was later), or about to run; and the idle check is never further away than
    [EnquireLinkInterval]. *)
Theorem silence_noticed init_timeout inactivity interval s created x :
  fresh_session s created ->
  rtc (lstep init_timeout inactivity interval) (start_live init_timeout inactivity interval s created) x ->
  done (l_session x) = false ->
  let at_of p := at_of (items (l_deadlines x)) p in
  (0 < init_timeout -> is_open (sm_state (machine (l_session x))) = true ->
     sessionInitDeadline ∈ l_due x ++ heap (l_deadlines x) /\ at_of sessionInitDeadline = created + init_timeout) /\
  (0 < inactivity -> isBoundState (sm_state (machine (l_session x))) = true ->
     inactivityDeadline ∈ l_due x \/ inactivityDeadline ∈ heap (l_deadlines x) /\
     at_of inactivityDeadline <= Z.max (lastInbound (l_session x)) (l_bound x) + inactivity) /\
  (0 < interval -> enquireLinkDeadline ∈ l_due x \/ enquireLinkDeadline ∈ heap (l_deadlines x) /\
     at_of enquireLinkDeadline <= l_now x + interval).
Proof.
  intros Hs Hrun Hd. destruct (live_run _ _ _ s created x Hs Hrun) as [_ Hdl Hsl]. destruct (Hsl Hd) as [S1 S2 S3].
  cbv zeta. split_and!.
  - intros Ht Ho. specialize (S1 Ht Ho). split; [done|]. by apply (do_init _ _ _ _ _ _ _ Hdl).
  - intros Ht Hb. specialize (S2 Ht). unfold inactivity_limit in S2. by rewrite Hb in S2.
  - exact S3.
Qed.

(** Nobody is cut off early.  When an expired deadline ends a session that was
    not over, either it has not bound although [SessionInitTimeout] has passed since
    it was created, or it is bound and nothing arrived from the peer for at least
    [InactivityTimeout]; a response deadline never ends the session. *)
Theorem cut_off_only_when_due init_timeout inactivity interval s created x item due s' d' probe :
  fresh_session s created ->
  rtc (lstep init_timeout inactivity interval) (start_live init_timeout inactivity interval s created) x ->
  l_due x = item :: due ->
  expireDeadline init_timeout inactivity interval (l_now x) (l_session x) (l_deadlines x) item = (s', d', probe) ->
  done (l_session x) = false -> done s' = true ->
  (closeErr s' = Some (TimeoutError TimeoutSessionInit 0 0 init_timeout) /\
   is_open (sm_state (machine (l_session x))) = true /\ created + init_timeout <= l_now x) \/
  (closeErr s' = Some (TimeoutError TimeoutInactivity 0 0 inactivity) /\
   isBoundState (sm_state (machine (l_session x))) = true /\
   lastInbound (l_session x) + inactivity <= l_now x).
Proof.
  intros Hs Hrun Hdue Hfire Hd Hd'. destruct (live_run _ _ _ s created x Hs Hrun) as [Hse Hdl _].
  assert (Hce : closeErr (l_session x) = None).
  { destruct (closeErr (l_session x)) eqn:Hc; [|done]. enough (done (l_session x) = true) by congruence.
    apply Hse. by rewrite Hc. }
  assert (Hterm : forall e, closeErr (terminate (l_session x) e) = Some e) by (intros e; unfold terminate; by rewrite Hce).
  rewrite Hdue in Hdl. unfold expireDeadline in Hfire.
  destruct (decide (item = sessionInitDeadline)) as [->|].
  { destruct (due_slot _ _ _ _ _ _ _ _ Hdl ltac:(done)) as (_ & _ & _ & Hat).
    rewrite (do_init _ _ _ _ _ _ _ Hdl) in Hat by (by left).
    injection Hfire as <- <- <-. unfold fireSessionInitDeadline in *. rewrite Hd in *.
    destruct (sm_state (machine (l_session x))); try congruence; left; by rewrite Hterm. }
  destruct (decide (item = inactivityDeadline)) as [->|].
  { unfold fireInactivityDeadline in Hfire. rewrite Hd in Hfire.
    destruct (isBoundState (sm_state (machine (l_session x)))); cbn [negb] in Hfire; [|injection Hfire as <- <- <-; congruence].
    destruct (Z.ltb_spec (l_now x - lastInbound (l_session x)) inactivity); injection Hfire as <- <- <-; [congruence|].
    right. rewrite Hterm. split_and!; [done..|lia]. }
  destruct (decide (item = enquireLinkDeadline)) as [->|].
  { unfold fireEnquireLinkDeadline in Hfire. rewrite Hd in Hfire.
    destruct (negb _); [injection Hfire as <- <- <-; congruence|]. destruct (_ <? _); injection Hfire as <- <- <-; congruence. }
  destruct (items (l_deadlines x) !! item) as [data|]; injection Hfire as <- <- <-; [|congruence].
  destruct (expire_request_cancels (l_session x) data) as [He _]. congruence.
Qed.

Lemma expire_storage init_timeout inactivity interval now s d p :
  expireDeadline init_timeout inactivity interval now s d (deadlineStorage p) =
  match items d !! deadlineStorage p with
  | Some data => (expire_request s data, d, false)
  | None => (s, d, false)
  end.
Proof.
  unfold expireDeadline, deadlineStorage, sessionInitDeadline, inactivityDeadline, enquireLinkDeadline.
  by do 3 (rewrite decide_False by lia).
Qed.

(** A response deadline settles the request that is still pending under its number. *)
Lemma expire_request_settles s item p r :
  Table.m (table s) !! di_sequence item = Some p -> Table.reqs (table s) !! p = Some r ->
  Table.finished r = false -> Table.pdone r = [] ->
  exists r', Table.reqs (table (expire_request s item)) !! p = Some r' /\ Table.finished r' = true /\
    Table.pdone r' = [Table.MkResult None (Some (TimeoutError (di_kind item) (di_command item)
      (di_sequence item) (di_after item)))] /\
    Table.m (table (expire_request s item)) = delete (di_sequence item) (Table.m (table s)) /\
    machine (expire_request s item) = CancelOutbound (machine s) (Table.requestID r).
Proof.
  intros Hm Hr Hf Hd. unfold expire_request, Table.completeError. rewrite Hm.
  unfold Table.finish. cbn [Table.set_m Table.reqs]. rewrite Hr, Hf.
  unfold Table.send_done. cbn [Table.reqs]. rewrite lookup_insert_eq. cbn [Table.set_req Table.reqs].
  rewrite lookup_insert_eq. cbn. rewrite lookup_insert_eq, Hd. eexists. split_and!; done.
Qed.

(** C18: A request that gets no answer fails in time.  When a request was written and
    is still open, a timer stands for its timeout after the write (the one for
    enquire_link, or the general one).  When that timer expires and the request is
    still pending, the caller gets one result, a [TimeoutError] with the timeout that
    passed, the request leaves the table and the state machine is rolled back; when
    it was answered before, nothing changes. *)
Theorem unanswered_request_fails init_timeout inactivity interval response_timeout enquire_timeout
    now s d item p r timeout k s1 d1 :
  dl_inv d -> (deadlineStorage p ∉ heap d) -> Table.m (table s) !! sequence item = Some p ->
  Table.reqs (table s) !! p = Some r -> Table.finished r = false ->
  responseTimeoutFor response_timeout enquire_timeout (it_requestID item) = (timeout, k) -> 0 < timeout ->
  dispatch_request response_timeout enquire_timeout now s d item = (s1, d1) ->
  let data := MkItem (now + timeout) timeout k (it_requestID item) (sequence item) in
  deadlineStorage p ∈ heap d1 /\ items d1 !! deadlineStorage p = Some data /\
  forall now2 s2 d2, items d2 !! deadlineStorage p = Some data ->
    let '(s3, _, _) := expireDeadline init_timeout inactivity interval now2 s2 d2 (deadlineStorage p) in
    (forall r2, Table.m (table s2) !! sequence item = Some p -> Table.reqs (table s2) !! p = Some r2 ->
       Table.finished r2 = false -> Table.pdone r2 = [] ->
       exists r3, Table.reqs (table s3) !! p = Some r3 /\ Table.finished r3 = true /\
         Table.pdone r3 = [Table.MkResult None
           (Some (TimeoutError k (it_requestID item) (sequence item) timeout))] /\
         Table.m (table s3) = delete (sequence item) (Table.m (table s2)) /\
         machine s3 = CancelOutbound (machine s2) (Table.requestID r2)) /\
    (Table.m (table s2) !! sequence item = None -> s3 = s2).
Proof.
  intros Hd Hp Hm Hr Hf Ht Hpos Hdis data.
  pose proof (dispatch_request_deadline response_timeout enquire_timeout now s d item p r timeout k
    Hd Hp Hm Hr Ht Hpos) as H. rewrite Hdis, Hf in H. destruct H as (_ & _ & Hperm & Hit & _).
  split_and!; [rewrite Hperm; by left|done|]. intros now2 s2 d2 Hd2. rewrite expire_storage, Hd2. split.
  - intros r2 Hm2 Hr2 Hf2 Hp2. by apply (expire_request_settles s2 data p r2).
  - intros Hn. unfold expire_request, Table.completeError. cbn [di_sequence data]. rewrite Hn. by destruct s2.
Qed.

(** ** Samples *)

Definition fresh_sample : Session :=
  MkSession (MkStateMachine RoleSMSC StateOpen 0 0 StateClosed StateClosed)
    (Table.newPendingTable 4 (Window.newRequestWindow 2)) zeroCapabilities [] ∅ None false 100 100 [].

Lemma fresh_sample_fresh : fresh_session fresh_sample 100.
Proof.
  split_and!; [|done..]. exists RoleSMSC, (MkStateMachine RoleSMSC StateClosed 0 0 StateClosed StateClosed). done.
Qed.

(** A session that was created at 100 and is bound at 110. *)
Definition bound_sample : live :=
  MkLive (machine_step (machine_step fresh_sample (OpBeginInbound CommandBindTransceiver))
      (OpCompleteInbound CommandBindTransceiver 0))
    (scheduleLivenessDeadlines 50 30 20 newDeadlineManager 100) [] 110 110 0.

Definition binding_sample (now : Z) : live :=
  MkLive (machine_step fresh_sample (OpBeginInbound CommandBindTransceiver))
    (scheduleLivenessDeadlines 50 30 20 newDeadlineManager 100) [] now 100 0.

Lemma bound_sample_run : rtc (lstep 50 30 20) (start_live 50 30 20 fresh_sample 100) bound_sample.
Proof.
  apply (rtc_l _ _ (binding_sample 100)).
  { apply (l_machine 50 30 20 (start_live 50 30 20 fresh_sample 100) (OpBeginInbound CommandBindTransceiver)). done. }
  apply (rtc_l _ _ (binding_sample 110)); [by apply (l_time 50 30 20 (binding_sample 100) 110)|].
  apply rtc_once. by apply (l_machine 50 30 20 (binding_sample 110) (OpCompleteInbound CommandBindTransceiver 0)).
Qed.

Lemma silence_noticed_witness :
  isBoundState (sm_state (machine (l_session bound_sample))) = true /\
  (inactivityDeadline ∈ l_due bound_sample \/ inactivityDeadline ∈ heap (l_deadlines bound_sample) /\
   at_of (items (l_deadlines bound_sample)) inactivityDeadline <= 140).
Proof.
  split; [reflexivity|].
  destruct (silence_noticed 50 30 20 fresh_sample 100 bound_sample fresh_sample_fresh bound_sample_run eq_refl)
    as (_ & H & _). apply H; [lia|reflexivity].
Defined.

(** It hears nothing: at 130 the check ends it. *)
Definition silent_sample : live :=
  MkLive (l_session bound_sample) (fst (expireReady (l_deadlines bound_sample) 130))
    (snd (expireReady (l_deadlines bound_sample) 130)) 130 110 0.

Definition probing_sample : live :=
  MkLive (l_session silent_sample)
     (snd (fst (expireDeadline 50 30 20 130 (l_session silent_sample) (l_deadlines silent_sample) enquireLinkDeadline)))
     [inactivityDeadline] 130 110 1.

Lemma probing_sample_run : rtc (lstep 50 30 20) (start_live 50 30 20 fresh_sample 100) probing_sample.
Proof.
  set (later := MkLive (l_session bound_sample) (l_deadlines bound_sample) [] 130 110 0).
  apply (rtc_r _ silent_sample); [apply (rtc_r _ later); [apply (rtc_r _ bound_sample); [exact bound_sample_run|]|]|].
  - by apply (l_time 50 30 20 bound_sample 130).
  - by apply (l_expire 50 30 20 later).
  - apply (l_fire 50 30 20 silent_sample enquireLinkDeadline [inactivityDeadline] (l_session silent_sample)
      (l_deadlines probing_sample) true); reflexivity.
Qed.

Lemma cut_off_only_when_due_witness :
  lastInbound (l_session probing_sample) + 30 <= 130 /\
  done (expireDeadline 50 30 20 130 (l_session probing_sample) (l_deadlines probing_sample)
    inactivityDeadline).1.1 = true.
Proof.
  destruct (expireDeadline 50 30 20 130 (l_session probing_sample) (l_deadlines probing_sample)
    inactivityDeadline) as [[s' d'] probe] eqn:He.
  assert (Hd : done s' = true) by (change s' with (s', d', probe).1.1; rewrite <- He; vm_compute; reflexivity).
  split; [|exact Hd].
  destruct (cut_off_only_when_due 50 30 20 fresh_sample 100 probing_sample inactivityDeadline [] s' d' probe
    fresh_sample_fresh probing_sample_run eq_refl He eq_refl Hd) as [(_ & H & _)|(_ & _ & H)].
  - discriminate H.
  - exact H.
Defined.

(** A request under sequence number 7 is written at 200 and not answered. *)
Definition asking_session : Session :=
  set_table fresh_sample (Table.set_req (Table.set_m (table fresh_sample) {[7 := 1%positive]}) 1
    (Table.new_request CommandSubmitSM 0)).
Definition asking_item : txItem :=
  Receive.MkItem txRequest (MkHeader 16 CommandSubmitSM 0 7) [] 7 CommandSubmitSM 0 0.

Lemma unanswered_request_fails_witness :
  let '(s1, d1) := dispatch_request 60 20 200 asking_session newDeadlineManager asking_item in
  items d1 !! deadlineStorage 1 = Some (MkItem 260 60 TimeoutResponse CommandSubmitSM 7) /\
  let '(s3, _, _) := expireDeadline 50 30 20 260 s1 d1 (deadlineStorage 1) in
  exists r3, Table.reqs (table s3) !! 1%positive = Some r3 /\
    Table.pdone r3 = [Table.MkResult None (Some (TimeoutError TimeoutResponse CommandSubmitSM 7 60))].
Proof.
  destruct (dispatch_request 60 20 200 asking_session newDeadlineManager asking_item) as [s1 d1] eqn:He.
  destruct (unanswered_request_fails 50 30 20 60 20 200 asking_session newDeadlineManager asking_item 1
    (Table.new_request CommandSubmitSM 0) 60 TimeoutResponse s1 d1) as (_ & H1 & H2); try reflexivity.
  - split; [by intros i p Hp|intros y Hy; cbn in Hy; lia|]. by intros p ?%elem_of_nil.
  - apply not_elem_of_nil.
  - exact He.
  - split; [exact H1|]. specialize (H2 260 s1 d1 H1).
    destruct (expireDeadline 50 30 20 260 s1 d1 (deadlineStorage 1)) as [[s3 d3] pr]. destruct H2 as [H2 _].
    assert (Hs1 : s1 = fst (dispatch_request 60 20 200 asking_session newDeadlineManager asking_item)) by (by rewrite He).
    destruct (H2 (default (Table.new_request 0 0) (Table.reqs (table s1) !! 1%positive))) as (r3 & R1 & _ & R3 & _);
      [rewrite Hs1; vm_compute; reflexivity..|]. by exists r3.
Defined.
