(* ===== verification/Requests.v ===== *)
(** * Requests of a session (src/session/session.go: New, request, SendOneWay,
    waitCompleted; src/session/operations.go)

    A call of [Request] passes through places where it waits: for a slot of the
    window, for room in the transmit queue, for the response.  What the other
    goroutines do to the session there, and which way the [select] goes, are
    parameters. *)

From S2P Require Import Prelude Protocol Bodies Fields BodySpec Body34 Registry Pdu Framer StateMachine Pending Receive.

(** ** session.New *)

Record Config := MkConfig {
  cf_Role : Role; cf_Profile : Profile; cf_Registry : option Registry; cf_MaxPDUSize : Z;
  cf_MaxPending : Z; cf_MaxDeferredResponses : Z; cf_WindowSize : Z;
  cf_ResponseTimeout : Z; cf_SessionInitTimeout : Z; cf_EnquireLinkInterval : Z;
  cf_EnquireLinkTimeout : Z; cf_InactivityTimeout : Z; cf_WriteTimeout : Z;
  cf_TXQueueSize : Z; cf_TXBatchItems : Z; cf_TXBatchBytes : Z; cf_ReadBufferSize : Z
}.

Definition second : Z := 1000000000.
Definition DefaultWindowSize : Z := 1024.
Definition DefaultMaxPending : Z := 1024.
Definition DefaultMaxDeferredResponses : Z := 1024.
Definition DefaultTXQueueSize : Z := 1024.
Definition DefaultTXBatchItems : Z := 32.
Definition DefaultTXBatchBytes : Z := 65536.
Definition DefaultReadBufferSize : Z := 65536.
Definition DefaultResponseTimeout : Z := 30 * second.
Definition DefaultSessionInitTimeout : Z := 30 * second.
Definition DefaultEnquireLinkInterval : Z := 30 * second.
Definition DefaultEnquireLinkTimeout : Z := 10 * second.
Definition DefaultInactivityTimeout : Z := 120 * second.
Definition DefaultWriteTimeout : Z := 30 * second.

Definition defaultDuration (value fallback : Z) : Z :=
  if value =? 0 then fallback else if value <? 0 then 0 else value.
Definition positive_or (value fallback : Z) : Z := if value <=? 0 then fallback else value.

(** The defaults that [New] fills in, once the profile and the registry are chosen. *)
Definition with_defaults (c : Config) (profile : Profile) (registry : Registry) : Config :=
  let window := positive_or (cf_WindowSize c) DefaultWindowSize in
  let pending := positive_or (cf_MaxPending c) DefaultMaxPending in
  MkConfig (cf_Role c) profile (Some registry) (cf_MaxPDUSize c)
    (if pending <? window then window else pending)
    (positive_or (cf_MaxDeferredResponses c) DefaultMaxDeferredResponses) window
    (defaultDuration (cf_ResponseTimeout c) DefaultResponseTimeout)
    (defaultDuration (cf_SessionInitTimeout c) DefaultSessionInitTimeout)
    (defaultDuration (cf_EnquireLinkInterval c) DefaultEnquireLinkInterval)
    (defaultDuration (cf_EnquireLinkTimeout c) DefaultEnquireLinkTimeout)
    (defaultDuration (cf_InactivityTimeout c) DefaultInactivityTimeout)
    (defaultDuration (cf_WriteTimeout c) DefaultWriteTimeout)
    (positive_or (cf_TXQueueSize c) DefaultTXQueueSize)
    (positive_or (cf_TXBatchItems c) DefaultTXBatchItems)
    (positive_or (cf_TXBatchBytes c) DefaultTXBatchBytes)
    (positive_or (cf_ReadBufferSize c) DefaultReadBufferSize).

Definition of_state_error (e : sm_error) : GoError :=
  match e with SmSentinel s => ESentinel s | StateError _ _ _ => EOther 3 None end.

(** [New] on a connection, at time [now]: the configuration, the framer and the
    session. *)
Definition New (c : Config) (now : Z) : res (Config * Framer * Session) :=
  if negb (Role_valid (cf_Role c)) then Err (ESentinel ErrInvalidConfig) else
  let profile := if InterfaceVersion (cf_Profile c) =? 0 then SMPP34Profile else cf_Profile c in
  if negb (ProfileValid profile) then Err (ESentinel ErrInvalidConfig) else
  registry ← match cf_Registry c with
             | Some r => Ok r
             | None => if IsSMPP50 profile then NewSMPP50Registry RegistryCompatible
                       else NewSMPP34Registry RegistryCompatible
             end;
  let c := with_defaults c profile registry in
  framer ← NewFramer (cf_MaxPDUSize c);
  match NewStateMachine (cf_Role c) ≫= fun m => sm_Open (Some m) with
  | Ok m => Ok (c, framer, MkSession m
      (Table.newPendingTable (cf_MaxPending c) (Window.newRequestWindow (cf_WindowSize c)))
      zeroCapabilities [] ∅ None false now now [])
  | Err e => Err (of_state_error e)
  | Panic => Panic
  end.

(** ** session.request *)

(** The session, the sequence generator and the next free reference to a request. *)
Record caller := MkCaller { c_session : Session; c_seq : Z; c_fresh : positive }.
Definition in_session (c : caller) (s : Session) : caller := MkCaller s (c_seq c) (c_fresh c).
Definition in_table (c : caller) (t : Table.pendingTable) : caller :=
  in_session c (set_table (c_session c) t).

(** How a [select] ends. *)
Inductive selected : Type := Went | ContextEnded (e : GoError) | SessionEnded.

Section request.
Context (registry : option Registry) (profile : Profile) (MaxPending : Z) (stale : bytes).
(** The [select] for a slot of a full window, for room in the queue, for the result,
    and the wait for a result that is certain to come. *)
Context (for_slot for_room : caller -> caller * selected).
Context (for_result : positive -> caller -> caller * selected).
Context (for_completion : positive -> caller -> caller).

Definition acquire_window (c : caller) (waitWindow : bool) : caller * option GoError :=
  let w := Table.window (table (c_session c)) in
  let take c := in_table c (Table.with_window (table (c_session c))
                  (Window.afterAcquire (Window.send_token (Table.window (table (c_session c)))))) in
  if Window.tokens w <? Window.capacity w then (take c, None)
  else if negb waitWindow then (c, Some (ESentinel ErrWindowFull))
  else let c := in_table c (Table.with_window (table (c_session c)) (Window.add_wait w)) in
       match for_slot c with
       | (c, Went) => (take c, None)
       | (c, ContextEnded e) => (c, Some e)
       | (c, SessionEnded) => (c, Some (ESentinel ErrSessionClosed))
       end.

(** The deferred functions of [request]. *)
Definition release_window (c : caller) : caller :=
  in_table c (Table.with_window (table (c_session c)) (fst (Window.release (Table.window (table (c_session c)))))).
Definition cancel_outbound (c : caller) (command : Z) : caller :=
  in_session c (set_machine (c_session c) (CancelOutbound (machine (c_session c)) command)).

(** [result := <-request.done]; [None] when it is not there. *)
Definition receive (c : caller) (p : positive) : option (res DecodedPDU) :=
  match Table.reqs (table (c_session c)) !! p with
  | Some r => match Table.pdone r with
              | Table.MkResult _ (Some e) :: _ => Some (Err e)
              | Table.MkResult (Some pdu) None :: _ => Some (Ok pdu)
              | _ => None
              end
  | None => None
  end.
Definition waitCompleted (c : caller) (p : positive) : caller * option (res DecodedPDU) :=
  let c := for_completion p c in (c, receive c p).

(** A caller whose context ended: it fails its request, unless that is complete. *)
Definition withdraw (c : caller) (p : positive) (command sequence : Z) (e : GoError)
    : caller * option (res DecodedPDU) :=
  match Table.completeError (table (c_session c)) sequence e with
  | (t, Some _) => (cancel_outbound (in_table c t) command, Some (Err e))
  | (t, None) => waitCompleted (in_table c t) p
  end.

Definition request_item (command sequence : Z) (fr : bytes) : txItem :=
  Receive.MkItem txRequest (MkHeader 0 command StatusOK sequence) fr sequence command 0 0.

(** The request is in the table under [sequence]: encode, queue and wait. *)
Definition send_request (c : caller) (p : positive) (command sequence : Z) (body : any)
    : caller * option (res DecodedPDU) :=
  match EncodePDU stale (MkHeader 0 command StatusOK sequence) body registry [] with
  | Panic => (c, Some Panic)
  | Err (_, e) =>
      let '(t, _) := Table.completeError (table (c_session c)) sequence e in
      (cancel_outbound (in_table c t) command, Some (Err e))
  | Ok fr =>
      match for_room c with
      | (c, Went) =>
          let c := in_session c (push_tx (c_session c) ByOthers (request_item command sequence fr)) in
          match for_result p c with
          | (c, ContextEnded e) => withdraw c p command sequence e
          | (c, _) => (c, receive c p)
          end
      | (c, ContextEnded e) => withdraw c p command sequence e
      | (c, SessionEnded) => waitCompleted c p
      end
  end.

Definition bind_version (command : Z) (body : any) : Z :=
  if isBindRequest command then default 0 (bindRequestVersion body) else 0.

(** The slot is taken: reserve the operation and a sequence number. *)
Definition with_slot (c : caller) (command : Z) (body : any) : caller * option (res DecodedPDU) :=
  match BeginOutbound (Some (machine (c_session c))) command with
  | Panic => (release_window c, Some Panic)
  | Err e => (release_window c, Some (Err (of_state_error e)))
  | Ok m =>
      let c := in_session c (set_machine (c_session c) m) in
      let p := c_fresh c in
      let t := Table.set_req (table (c_session c)) p (Table.new_request command (bind_version command body)) in
      let '(v, r) := Table.allocate (Z.to_nat (MaxPending + 1)) (c_seq c) t p in
      let c := MkCaller (c_session c) v (Pos.succ p) in
      match r with
      | Ok (t, sequence) => send_request (in_table c t) p command sequence body
      | Err e => (release_window (cancel_outbound c command), Some (Err e))
      | Panic => (c, Some Panic)
      end
  end.

Definition request (waitWindow : bool) (command : Z) (body : any) (c : caller)
    : caller * option (res DecodedPDU) :=
  if IsResponse command || isOneWayCommand command then (c, Some (Err (ESentinel ErrUnexpectedPDU)))
  else if isBindRequest command &&
          match bindRequestVersion body with
          | Some v => (v =? InterfaceVersion50) && negb (IsSMPP50 profile)
          | None => false
          end
  then (c, Some (Err (ESentinel ErrUnsupportedCapability)))
  else if requiresSMPP50 command && negb (SupportsSMPP50 (peerCaps (c_session c)))
  then (c, Some (Err (ESentinel ErrUnsupportedCapability)))
  else if done (c_session c) then (c, Some (Err (requestCloseError (c_session c))))
  else match acquire_window c waitWindow with
       | (c, Some e) => (c, Some (Err (if is_sentinel ErrSessionClosed e
                                       then requestCloseError (c_session c) else e)))
       | (c, None) => with_slot c command body
       end.
Definition Request := request true.
Definition TryRequest := request false.

(** [SendOneWay]: [for_write] is the [select] for the result of the write, as the
    error it delivers. *)
Context (for_write : caller -> Z -> caller * option (option GoError)).

Definition one_way_item (command sequence : Z) (fr : bytes) : txItem :=
  Receive.MkItem txOneWay (MkHeader 0 command StatusOK sequence) fr sequence command 0 0.

Definition SendOneWay (command : Z) (body : any) (c : caller) : caller * res unit :=
  if negb (isOneWayCommand command) then (c, Err (ESentinel ErrUnexpectedPDU))
  else if done (c_session c) then (c, Err (requestCloseError (c_session c)))
  else match BeginOutbound (Some (machine (c_session c))) command with
       | Panic => (c, Panic)
       | Err e => (c, Err (of_state_error e))
       | Ok m =>
           let '(v, sequence) := Sequence.Next (c_seq c) in
           let c := MkCaller (set_machine (c_session c) m) v (c_fresh c) in
           match EncodePDU stale (MkHeader 0 command StatusOK sequence) body registry [] with
           | Panic => (cancel_outbound c command, Panic)
           | Err (_, e) => (cancel_outbound c command, Err e)
           | Ok fr =>
               match for_room c with
               | (c, Went) =>
                   let c := in_session c (push_tx (c_session c) ByOthers (one_way_item command sequence fr)) in
                   match for_write c sequence with
                   | (c, Some None) => (c, Ok tt)
                   | (c, Some (Some e)) => (c, Err e)
                   | (c, None) => (c, Err (requestCloseError (c_session c)))
                   end
               | (c, ContextEnded e) => (cancel_outbound c command, Err e)
               | (c, SessionEnded) => (cancel_outbound c command, Err (requestCloseError (c_session c)))
               end
           end
       end.
End request.

(** ** What the other goroutines do meanwhile

    Each step is one operation on the shared session: a response arrives, a request
    fails (timeout, end of a context), the session ends, another caller's request
    enters the table, is dispatched or gets its deadline, slots of the window change
    hands.  All that does not touch the table is one step. *)

Definition stamp (t : Table.pendingTable) (p : positive) (now : Z) : Table.pendingTable :=
  match Table.reqs t !! p with
  | Some r => Table.set_req t p (fst (Table.markDispatchAt r now))
  | None => t
  end.

Inductive task (registry : option Registry) (profile : Profile) (flow : bool) : caller -> caller -> Prop :=
| TResponse c fr pdu now : bytes_ok fr -> DecodePDU fr registry = Ok pdu ->
    task registry profile flow c (in_session c (handleResponse profile flow (c_session c) pdu now))
| TFail c sequence e :
    task registry profile flow c (in_table c (Table.completeError (table (c_session c)) sequence e).1)
| TTerminate c cause : task registry profile flow c (in_session c (terminate (c_session c) cause))
| TRequest c command version attempts v t sequence :
    Table.allocate attempts (c_seq c)
      (Table.set_req (table (c_session c)) (c_fresh c) (Table.new_request command version)) (c_fresh c) =
      (v, Ok (t, sequence)) ->
    task registry profile flow c (MkCaller (set_table (c_session c) t) v (Pos.succ (c_fresh c)))
| TDispatched c sequence :
    task registry profile flow c (in_table c (Table.markDispatched (table (c_session c)) sequence).1)
| TStamp c p now : task registry profile flow c (in_table c (stamp (table (c_session c)) p now))
| TDeadline c p item : task registry profile flow c (in_table c (Table.attachDeadline (table (c_session c)) p item))
| TWindow c w : task registry profile flow c (in_table c (Table.with_window (table (c_session c)) w))
| TElsewhere c s v f : table s = table (c_session c) -> (c_fresh c <= f)%positive ->
    task registry profile flow c (MkCaller s v f).

(** ** The fate of a request *)

(** The heap of requests: the table points into it, and [fresh] is beyond it. *)
Record heap_ok (t : Table.pendingTable) (fresh : positive) : Prop := {
  ho_table s p : Table.m t !! s = Some p -> is_Some (Table.reqs t !! p);
  ho_fresh p r : Table.reqs t !! p = Some r -> (p < fresh)%positive
}.

(** [pdu] answers [command] sent as [sequence]. *)
Definition answer_to (command sequence : Z) (pdu : DecodedPDU) : Prop :=
  SequenceNumber (pdu_Header pdu) = sequence /\
  (CommandID (pdu_Header pdu) = ResponseID command \/ CommandID (pdu_Header pdu) = CommandGenericNACK).

(** An error, or a PDU of which [good] holds. *)
Definition result_ok (good : DecodedPDU -> Prop) (x : Table.requestResult) : Prop :=
  match x with
  | Table.MkResult _ (Some _) => True
  | Table.MkResult (Some pdu) None => good pdu
  | Table.MkResult None None => False
  end.

(** What no operation on the table changes of a request, but the delivery of its
    result. *)
Definition kept (r r' : Table.pendingRequest) : Prop :=
  Table.requestID r' = Table.requestID r /\ Table.expectedID r' = Table.expectedID r /\
  Table.pdone r' = Table.pdone r.

(** The request at [p] waits in the table under [sequence] and nowhere else, or is
    out of it with one result. *)
Record fate (good : DecodedPDU -> Prop) (command sequence : Z) (p : positive) (t : Table.pendingTable) : Prop := {
  fa_only s : Table.m t !! s = Some p -> s = sequence;
  fa_req : exists r, Table.reqs t !! p = Some r /\ Table.requestID r = command /\
    Table.expectedID r = ResponseID command /\
    (Table.m t !! sequence = Some p /\ Table.pdone r = [] \/
     Table.m t !! sequence <> Some p /\ exists x, Table.pdone r = [x] /\ result_ok good x)
}.

Lemma kept_refl r : kept r r.
Proof. by split_and!. Qed.

Lemma finish_kept t q p r : Table.reqs t !! p = Some r ->
  exists r', Table.reqs (Table.finish t q) !! p = Some r' /\ kept r r'.
Proof.
  intros Hr. unfold Table.finish. destruct (Table.reqs t !! q) as [x|] eqn:Hx; [|eauto using kept_refl].
  destruct (Table.finished x); [eauto using kept_refl|]. cbn [Table.reqs].
  destruct (decide (q = p)) as [-> |Hne]; [|rewrite lookup_insert_ne by done; eauto using kept_refl].
  rewrite lookup_insert_eq. eexists. split; [done|]. simplify_eq. by split_and!.
Qed.

Lemma finish_m t q : Table.m (Table.finish t q) = Table.m t.
Proof. unfold Table.finish. destruct (_ !! q) as [x|]; [by destruct (Table.finished x)|done]. Qed.
Lemma send_done_m t q x : Table.m (Table.send_done t q x) = Table.m t.
Proof. unfold Table.send_done. by destruct (_ !! q). Qed.

Lemma send_done_window t q x : Table.window (Table.send_done t q x) = Table.window t.
Proof. unfold Table.send_done. by destruct (_ !! q). Qed.

Lemma send_done_other t q x p : q <> p ->
  Table.reqs (Table.send_done t q x) !! p = Table.reqs t !! p.
Proof. intros. unfold Table.send_done. destruct (_ !! q); [by apply lookup_insert_ne|done]. Qed.
Lemma send_done_own t p x r : Table.reqs t !! p = Some r ->
  exists r', Table.reqs (Table.send_done t p x) !! p = Some r' /\
    Table.requestID r' = Table.requestID r /\ Table.expectedID r' = Table.expectedID r /\
    Table.pdone r' = Table.pdone r ++ [x].
Proof. intros Hr. unfold Table.send_done. rewrite Hr. cbn. rewrite lookup_insert_eq. eauto. Qed.

(** The heap never loses a request. *)
Definition heap_grows (t t' : Table.pendingTable) : Prop :=
  Table.m t' ⊆ Table.m t /\ dom (Table.reqs t') = dom (Table.reqs t).

Lemma heap_grows_refl t : heap_grows t t.
Proof. done. Qed.
Lemma heap_grows_trans t1 t2 t3 : heap_grows t1 t2 -> heap_grows t2 t3 -> heap_grows t1 t3.
Proof. intros [H1 H2] [H3 H4]. split; [by transitivity (Table.m t2)|congruence]. Qed.
Lemma heap_grows_set t p r r' : Table.reqs t !! p = Some r -> heap_grows t (Table.set_req t p r').
Proof.
  intros Hr. split; [done|]. cbn [Table.set_req Table.reqs].
  apply dom_insert_lookup_L. eauto.
Qed.
Lemma heap_grows_finish t p : heap_grows t (Table.finish t p).
Proof.
  unfold Table.finish. destruct (_ !! p) as [r|] eqn:Hr; [|done]. destruct (Table.finished r); [done|].
  split; [done|]. cbn. apply dom_insert_lookup_L. eauto.
Qed.
Lemma heap_grows_send t p x : heap_grows t (Table.send_done t p x).
Proof. unfold Table.send_done. destruct (_ !! p) eqn:Hr; [by eapply heap_grows_set|done]. Qed.
Lemma heap_grows_m t m' : m' ⊆ Table.m t -> heap_grows t (Table.set_m t m').
Proof. by split. Qed.
Lemma heap_grows_settle t m' p x : m' ⊆ Table.m t ->
  heap_grows t (Table.send_done (Table.finish (Table.set_m t m') p) p x).
Proof.
  intros. eapply heap_grows_trans; [by apply heap_grows_m|].
  eapply heap_grows_trans; [apply heap_grows_finish|apply heap_grows_send].
Qed.
Lemma heap_grows_fail_all order e : forall t,
  heap_grows t (foldl (fun t p => Table.send_done (Table.finish t p) p (Table.MkResult None (Some e))) t order).
Proof.
  induction order as [|q order IH]; intros t; [done|]. cbn [foldl]. eapply heap_grows_trans; [|apply IH].
  eapply heap_grows_trans; [apply heap_grows_finish|apply heap_grows_send].
Qed.
#[local] Hint Resolve heap_grows_refl heap_grows_set heap_grows_finish heap_grows_send : core.

Lemma heap_ok_grows t t' f : heap_grows t t' -> heap_ok t f -> heap_ok t' f.
Proof.
  intros [Hm Hd] [H1 H2]. split.
  - intros s p Hp. apply elem_of_dom. rewrite Hd. apply elem_of_dom. eapply H1. by eapply lookup_weaken.
  - intros p r Hr. assert (is_Some (Table.reqs t !! p)) as [r0 Hr0].
    { apply elem_of_dom. rewrite <- Hd. by apply elem_of_dom_2 in Hr. }
    by eapply H2.
Qed.

Section fate.
Context (good : DecodedPDU -> Prop) (command sequence : Z) (p : positive).
Abbreviation fate := (fate good command sequence p).

(** An operation that leaves the table and this request alone. *)
Lemma fate_kept t t' : Table.m t' = Table.m t ->
  (forall r, Table.reqs t !! p = Some r -> exists r', Table.reqs t' !! p = Some r' /\ kept r r') ->
  fate t -> fate t'.
Proof.
  intros Hm Hr [Ho (r & H1 & H2 & H3 & H4)]. destruct (Hr r H1) as (r' & H1' & K1 & K2 & K3).
  split; rewrite Hm; [done|]. exists r'. by rewrite K1, K2, K3.
Qed.

Lemma fate_set t q r r' : Table.reqs t !! q = Some r -> kept r r' -> fate t -> fate (Table.set_req t q r').
Proof.
  intros Hq Hk. apply fate_kept; [done|]. intros x Hx. cbn [Table.set_req Table.reqs].
  destruct (decide (q = p)) as [-> |Hne].
  - rewrite lookup_insert_eq. simplify_eq. eauto.
  - rewrite lookup_insert_ne by done. eauto using kept_refl.
Qed.

(** A request that is taken out of the table gets its result. *)
Lemma fate_settle t s q x : Table.m t !! s = Some q ->
  (q = p -> s = sequence -> result_ok good x) ->
  fate t -> fate (Table.send_done (Table.finish (Table.set_m t (delete s (Table.m t))) q) q x).
Proof.
  intros Hq Hx [Ho (r & H1 & H2 & H3 & H4)].
  destruct (finish_kept (Table.set_m t (delete s (Table.m t))) q p r H1) as (r' & Hr' & K1 & K2 & K3).
  split; rewrite send_done_m, finish_m; cbn [Table.set_m Table.m].
  { intros s' [_ Hs']%lookup_delete_Some. by apply Ho. }
  destruct (decide (q = p)) as [-> |Hne].
  - assert (s = sequence) as -> by by apply Ho. destruct H4 as [[_ Hd]|[Hd _]]; [|done].
    destruct (send_done_own _ p x r' Hr') as (r'' & Hr'' & K1' & K2' & K3').
    exists r''. rewrite K1', K2', K3', K1, K2, K3, Hd. split_and!; [done..|]. right.
    rewrite lookup_delete_eq. split; [done|]. exists x. split; [done|]. by apply Hx.
  - exists r'. rewrite send_done_other, K1, K2, K3 by done. split_and!; [done..|].
    destruct (decide (s = sequence)) as [-> |Hs]; [|by rewrite lookup_delete_ne].
    rewrite lookup_delete_eq. destruct H4 as [[H4 _]|[_ H4]]; [congruence|by right].
Qed.

Lemma fail_others e order : forall t r, p ∉ order -> Table.reqs t !! p = Some r ->
  exists r', Table.reqs (foldl (fun t p => Table.send_done (Table.finish t p) p (Table.MkResult None (Some e))) t order)
    !! p = Some r' /\ kept r r'.
Proof.
  induction order as [|q order IH]; intros t r Hno Hr; [eauto using kept_refl|].
  apply not_elem_of_cons in Hno as [Hq Hno]. cbn [foldl].
  destruct (finish_kept t q p r Hr) as (r1 & Hr1 & K1 & K2 & K3).
  destruct (IH (Table.send_done (Table.finish t q) q (Table.MkResult None (Some e))) r1 Hno)
    as (r2 & Hr2 & L1 & L2 & L3); [by rewrite send_done_other|].
  exists r2. split; [done|]. split_and!; congruence.
Qed.

Lemma fail_all_m e order : forall t,
  Table.m (foldl (fun t p => Table.send_done (Table.finish t p) p (Table.MkResult None (Some e))) t order) = Table.m t.
Proof. induction order as [|q order IH]; intros t; [done|]. cbn [foldl]. by rewrite IH, send_done_m, finish_m. Qed.

(** The request is visited once. *)
Lemma visited_once (tab : gmap Z positive) : (forall s, tab !! s = Some p -> s = sequence) ->
  tab !! sequence = Some p ->
  exists l1 l2, (map_to_list tab).*2 = l1 ++ p :: l2 /\ (p ∉ l1) /\ (p ∉ l2).
Proof.
  intros Ho Hs. assert (Hin : p ∈ (map_to_list tab).*2).
  { apply list_elem_of_fmap. exists (sequence, p). split; [done|]. by apply elem_of_map_to_list. }
  apply list_elem_of_split_l in Hin as (l1 & l2 & Heq & H1). exists l1, l2. split_and!; [done..|].
  assert (Hp : (map_to_list tab).*2 ≡ₚ p :: (map_to_list (delete sequence tab)).*2).
  { rewrite <- (map_to_list_delete tab sequence p) by done. done. }
  rewrite Heq, <- Permutation_middle in Hp. apply Permutation_cons_inv in Hp.
  assert (Hno : p ∉ (map_to_list (delete sequence tab)).*2).
  { intros ([s q] & -> & [Hne Hq]%elem_of_map_to_list%lookup_delete_Some)%list_elem_of_fmap.
    by apply Hne; symmetry; apply Ho. }
  rewrite <- Hp in Hno. intros ?. apply Hno, elem_of_app. by right.
Qed.

Lemma fate_fail_all t e : fate t -> fate (Table.failAll t (map_to_list (Table.m t)).*2 e).
Proof.
  intros [Ho (r & H1 & H2 & H3 & H4)]. unfold Table.failAll.
  set (t0 := Table.set_m t ∅). assert (Hr0 : Table.reqs t0 !! p = Some r) by done.
  split; rewrite fail_all_m; [by intros s Hs|].
  destruct H4 as [[Hs Hd]|[Hs (x & Hx & Hg)]].
  - destruct (visited_once _ Ho Hs) as (l1 & l2 & -> & Hl1 & Hl2). rewrite foldl_app. cbn [foldl].
    destruct (fail_others e l1 t0 r Hl1 Hr0) as (r1 & Hr1 & K1 & K2 & K3).
    revert Hr1. generalize (foldl (fun t p => Table.send_done (Table.finish t p) p (Table.MkResult None (Some e))) t0 l1).
    intros t1 Hr1. destruct (finish_kept t1 p p r1 Hr1) as (r2 & Hr2 & L1 & L2 & L3).
    destruct (send_done_own _ p (Table.MkResult None (Some e)) r2 Hr2) as (r3 & Hr3 & M1 & M2 & M3).
    destruct (fail_others e l2 _ r3 Hl2 Hr3) as (r4 & Hr4 & N1 & N2 & N3).
    exists r4. split; [exact Hr4|]. rewrite N1, N2, N3, M1, M2, M3, L1, L2, L3, K1, K2, K3, Hd.
    split_and!; [done..|]. right. split; [by intros ?|]. by eexists.
  - assert (Hno : p ∉ (map_to_list (Table.m t)).*2).
    { intros ([s q] & -> & Hq%elem_of_map_to_list)%list_elem_of_fmap. cbn [snd] in *.
      apply Hs. by rewrite <- (Ho s Hq). }
    destruct (fail_others e _ t0 r Hno Hr0) as (r1 & Hr1 & K1 & K2 & K3).
    exists r1. rewrite K1, K2, K3, Hx. split_and!; [done..|]. right. split; [by intros ?|]. eauto.
Qed.
End fate.

(** *** The steps of the other goroutines *)

Section tasks.
Context (registry : option Registry) (profile : Profile) (flow : bool).

Lemma terminate_table s e : table (terminate s e) = table s \/
  exists err, table (terminate s e) = Table.failAll (table s) (map_to_list (Table.m (table s))).*2 err.
Proof. unfold terminate. destruct (closeErr s); [by left|]. right. eauto. Qed.

Lemma observe_table s pdu : table (observeCongestion flow s pdu) = table s.
Proof.
  unfold observeCongestion. destruct (negb _); [done|].
  destruct (CongestionStateFromOptional _) as [[st []] [e|]]; by destruct flow.
Qed.
Lemma negotiate_table s r pdu : table (negotiate_response profile s r pdu) = table s.
Proof.
  unfold negotiate_response. destruct (_ && _); [|done].
  destruct (pdu_Body pdu) as [|[]|[]|]; try done.
  destruct (SCInterfaceVersion _); by destruct (bindNegotiationProfile _ _).
Qed.
Lemma observe_done s pdu : done (observeCongestion flow s pdu) = done s.
Proof.
  unfold observeCongestion. destruct (negb _); [done|].
  destruct (CongestionStateFromOptional _) as [[st []] [e|]]; by destruct flow.
Qed.
Lemma negotiate_done s r pdu : done (negotiate_response profile s r pdu) = done s.
Proof.
  unfold negotiate_response. destruct (_ && _); [|done].
  destruct (pdu_Body pdu) as [|[]|[]|]; try done.
  destruct (SCInterfaceVersion _); by destruct (bindNegotiationProfile _ _).
Qed.

(** What a response does to the table: nothing, or it settles the request it
    answers; an unbind_resp also ends the session. *)
Definition delivered (t : Table.pendingTable) (pdu : DecodedPDU) (t' : Table.pendingTable) : Prop :=
  exists q r r', let s := SequenceNumber (pdu_Header pdu) in
    let t1 := Table.finish (Table.set_m t (delete s (Table.m t))) q in
    Table.m t !! s = Some q /\ Table.reqs t !! q = Some r /\
    (CommandID (pdu_Header pdu) = Table.expectedID r \/ CommandID (pdu_Header pdu) = CommandGenericNACK) /\
    (exists r0, Table.reqs t1 !! q = Some r0 /\ kept r0 r') /\
    t' = Table.send_done (Table.set_req t1 q r') q (Table.MkResult (Some pdu) None).

Lemma handleResponse_table s pdu now :
  table (handleResponse profile flow s pdu now) = table s \/
  exists t s1, delivered (table s) pdu t /\ table s1 = t /\
    (table (handleResponse profile flow s pdu now) = t \/
     exists e, table (handleResponse profile flow s pdu now) = table (terminate s1 e)).
Proof.
  unfold handleResponse, Table.takeResponse.
  destruct (Table.m (table s) !! _) as [q|] eqn:Hq; [|by left].
  destruct (Table.reqs (table s) !! q) as [r|] eqn:Hr; [|by left].
  destruct (negb _ && negb _) eqn:Hc; [by left|]. right.
  set (t1 := Table.finish _ q).
  destruct (finish_kept (Table.set_m (table s) (delete (SequenceNumber (pdu_Header pdu)) (Table.m (table s)))) q q r Hr)
    as (r1 & Hr1 & _). fold t1 in Hr1. rewrite Hr1.
  set (r2 := fst (Table.markResponseAt r1 _ _ _)). cbv zeta. rewrite ownDecodedPDU_id.
  match goal with |- context [set_table ?x (Table.send_done (table ?x) q ?y)] => set (s2 := x); set (res := y) end.
  assert (H2 : table s2 = Table.set_req t1 q r2).
  { unfold s2. by rewrite observe_table, negotiate_table. }
  exists (Table.send_done (Table.set_req t1 q r2) q res), (set_table s2 (Table.send_done (table s2) q res)).
  split_and!; [|by cbn; rewrite H2|].
  - exists q, r, r2. cbv zeta. split_and!; [done..| | |done].
    + apply andb_false_iff in Hc. rewrite !negb_false_iff, !Z.eqb_eq in Hc. done.
    + exists r1. split; [done|]. unfold r2, Table.markResponseAt, Table.claimRTT. cbn. by destruct (_ || _ || _).
  - clear Hc. destruct (_ && _); [right; eauto|left; by cbn [set_table table]; rewrite H2].
Qed.

Lemma delivered_fate good command sequence p t pdu t' :
  (Table.m t !! sequence = Some p -> answer_to command sequence pdu -> good pdu) ->
  delivered t pdu t' -> fate good command sequence p t -> fate good command sequence p t'.
Proof.
  intros Hgood (q & r & r' & Hq & Hr & Hid & (r0 & Hr0 & Hk) & ->) Hf.
  set (s := SequenceNumber (pdu_Header pdu)) in *.
  assert (Hx : q = p -> s = sequence ->
    result_ok good (Table.MkResult (Some pdu) None)).
  { intros -> Hs. destruct Hf as [_ (r1 & H1 & _ & H3 & _)]. simplify_eq. rewrite H3 in Hid.
    apply Hgood; [congruence|by split]. }
  pose proof (fate_settle _ _ _ _ t s q _ Hq Hx Hf) as Hf'. revert Hf'.
  apply fate_kept; [by rewrite !send_done_m|].
  intros x. unfold Table.send_done. cbn [Table.set_req Table.reqs]. rewrite Hr0, lookup_insert_eq. cbn.
  destruct (decide (q = p)) as [-> |Hne].
  - rewrite !lookup_insert_eq. intros [= <-]. eexists. split; [done|].
    destruct Hk as (K1 & K2 & K3). unfold kept. cbn. rewrite K1, K2, K3. done.
  - rewrite !lookup_insert_ne by done. eauto using kept_refl.
Qed.

Lemma delivered_heap t pdu t' : delivered t pdu t' -> heap_grows t t'.
Proof.
  intros (q & r & r' & Hq & Hr & _ & (r0 & Hr0 & _) & ->). cbv zeta in *.
  eapply heap_grows_trans; [apply heap_grows_m, (delete_subseteq _ (SequenceNumber (pdu_Header pdu)))|].
  eapply heap_grows_trans; [apply (heap_grows_finish _ q)|].
  eapply heap_grows_trans; [by eapply heap_grows_set|auto].
Qed.

Lemma terminate_fate s e good command sequence p : fate good command sequence p (table s) ->
  fate good command sequence p (table (terminate s e)).
Proof. destruct (terminate_table s e) as [-> |[err ->]]; [done|apply fate_fail_all]. Qed.
Lemma terminate_heap s e : heap_grows (table s) (table (terminate s e)).
Proof.
  destruct (terminate_table s e) as [-> |[err ->]]; [done|].
  eapply heap_grows_trans; [apply heap_grows_m, map_empty_subseteq|apply heap_grows_fail_all].
Qed.

Lemma allocate_inv attempts : forall v t q v' t' s, Table.allocate attempts v t q = (v', Ok (t', s)) ->
  Table.m t !! s = None /\ t' = Table.set_m t (<[s := q]> (Table.m t)).
Proof.
  induction attempts as [|n IH]; intros v t q v' t' s; [done|]. cbn [Table.allocate].
  destruct (Sequence.Next v) as [v1 s1]. unfold Table.insert. destruct (_ <=? _); [done|].
  destruct (Table.m t !! s1) eqn:Hs; [apply IH|]. by intros [= <- <- <-].
Qed.

Lemma allocate_no_panic attempts : forall v t q v', Table.allocate attempts v t q <> (v', Panic).
Proof.
  induction attempts as [|n IH]; intros v t q v'; [done|]. cbn [Table.allocate].
  destruct (Sequence.Next v) as [v1 s1]. unfold Table.insert. destruct (_ <=? _); [done|].
  destruct (Table.m t !! s1); [apply IH|done].
Qed.

(** A step that only touches requests, keeping their identity and results. *)
Inductive touched (t : Table.pendingTable) : Table.pendingTable -> Prop :=
| Touch q r r' : Table.reqs t !! q = Some r -> kept r r' -> touched t (Table.set_req t q r')
| Aside t' : Table.m t' = Table.m t -> Table.reqs t' = Table.reqs t -> touched t t'.

Lemma touched_fate good command sequence p t t' : touched t t' ->
  fate good command sequence p t -> fate good command sequence p t'.
Proof.
  destruct 1 as [q r r' Hr Hk|t' Hm Hr]; [by apply (fate_set _ _ _ _ _ _ r)|].
  apply fate_kept; [done|]. rewrite Hr. eauto using kept_refl.
Qed.
Lemma touched_heap t t' : touched t t' -> heap_grows t t'.
Proof. destruct 1 as [|t' Hm Hr]; [eauto|]. split; [by rewrite Hm|by rewrite Hr]. Qed.

Lemma dispatched_touched t s : touched t (Table.markDispatched t s).1.
Proof.
  unfold Table.markDispatched. destruct (Table.m t !! s) as [q|]; [|by apply Aside].
  destruct (Table.reqs t !! q) as [r|] eqn:Hr; [|by apply Aside]. by apply (Touch t q r).
Qed.
Lemma stamp_touched t q now : touched t (stamp t q now).
Proof.
  unfold stamp. destruct (Table.reqs t !! q) as [r|] eqn:Hr; [|by apply Aside].
  apply (Touch t q r); [done|]. unfold Table.markDispatchAt, Table.claimRTT. cbn. by destruct (_ || _ || _).
Qed.
Lemma attach_touched t q item : touched t (Table.attachDeadline t q item).
Proof.
  unfold Table.attachDeadline. destruct item as [i|]; [|by apply Aside].
  destruct (Table.reqs t !! q) as [r|] eqn:Hr; [|by apply Aside].
  destruct (Table.finished r); [by apply Aside|by apply (Touch t q r)].
Qed.

Lemma completeError_fate good command sequence p t s e :
  fate good command sequence p t -> fate good command sequence p (Table.completeError t s e).1.
Proof.
  unfold Table.completeError. destruct (Table.m t !! s) as [q|] eqn:Hq; [|done]. by apply fate_settle.
Qed.
Lemma completeError_heap t s e : heap_grows t (Table.completeError t s e).1.
Proof.
  unfold Table.completeError. destruct (Table.m t !! s) as [q|]; [|done].
  apply heap_grows_settle, delete_subseteq.
Qed.

(** A new request takes a reference of its own. *)
Lemma admitted_heap attempts v t f command version v' t' s :
  Table.allocate attempts v (Table.set_req t f (Table.new_request command version)) f = (v', Ok (t', s)) ->
  heap_ok t f -> heap_ok t' (Pos.succ f).
Proof.
  intros [_ ->]%allocate_inv [H1 H2]. split; cbn [Table.set_m Table.set_req Table.m Table.reqs].
  - intros s' q [[_ <-]|[_ Hq]]%lookup_insert_Some; [rewrite lookup_insert_eq; eauto|].
    destruct (decide (f = q)) as [-> |Hne]; [rewrite lookup_insert_eq; eauto|].
    rewrite lookup_insert_ne by done. by eapply H1.
  - intros q r [[<- _]|[_ Hr]]%lookup_insert_Some; [lia|]. pose proof (H2 q r Hr). lia.
Qed.

Lemma admitted_fate good attempts v t f command version v' t' s :
  Table.allocate attempts v (Table.set_req t f (Table.new_request command version)) f = (v', Ok (t', s)) ->
  heap_ok t f -> fate good command s f t'.
Proof.
  intros [_ ->]%allocate_inv [H1 H2]. cbn [Table.set_req Table.m].
  assert (Hf : forall s', Table.m t !! s' <> Some f).
  { intros s' Hs'. destruct (H1 _ _ Hs') as [r Hr]. pose proof (H2 _ _ Hr). lia. }
  split; cbn [Table.set_m Table.set_req Table.m Table.reqs].
  - intros s' [[<- _]|[_ Hs']]%lookup_insert_Some; [done|]. by destruct (Hf s').
  - exists (Table.new_request command version). rewrite lookup_insert_eq, lookup_insert_eq.
    split_and!; [done..|]. by left.
Qed.

Lemma admitted_other good command sequence p attempts v t f cmd version v' t' s :
  Table.allocate attempts v (Table.set_req t f (Table.new_request cmd version)) f = (v', Ok (t', s)) ->
  heap_ok t f -> fate good command sequence p t -> fate good command sequence p t'.
Proof.
  intros [Hs ->]%allocate_inv [H1 H2] [Ho (r & Hr & Hq1 & Hq2 & Hq3)]. cbn [Table.set_req Table.m] in Hs |- *.
  pose proof (H2 p r Hr) as Hlt. assert (Hne : f <> p) by lia.
  split; cbn [Table.set_m Table.set_req Table.m Table.reqs].
  - intros s' [[_ Hs']|[_ Hs']]%lookup_insert_Some; [done|by apply Ho].
  - exists r. rewrite lookup_insert_ne by done. split_and!; [done..|].
    destruct (decide (s = sequence)) as [-> |Hns]; [|by rewrite lookup_insert_ne].
    rewrite lookup_insert_eq. destruct Hq3 as [[Hq3 _]|[_ Hq3]]; [congruence|]. right.
    split; [congruence|done].
Qed.

Lemma task_heap c c' : task registry profile flow c c' ->
  heap_ok (table (c_session c)) (c_fresh c) -> heap_ok (table (c_session c')) (c_fresh c').
Proof.
  destruct 1 as [c fr pdu now _ _|c s e|c e|c cmd v n v' t s Ha|c s|c q now|c q item|c w|c s v f Hs Hf];
    cbn [in_session in_table c_session c_fresh set_table table].
  - apply heap_ok_grows. destruct (handleResponse_table (c_session c) pdu now)
      as [-> |(t & s1 & Hd & Hs1 & [-> |[e ->]])]; [done|by eapply delivered_heap|].
    eapply heap_grows_trans; [by eapply delivered_heap|]. rewrite <- Hs1. apply terminate_heap.
  - apply heap_ok_grows, completeError_heap.
  - apply heap_ok_grows, terminate_heap.
  - by eapply admitted_heap.
  - apply heap_ok_grows, touched_heap, dispatched_touched.
  - apply heap_ok_grows, touched_heap, stamp_touched.
  - apply heap_ok_grows, touched_heap, attach_touched.
  - apply heap_ok_grows, touched_heap. by apply Aside.
  - rewrite Hs. intros [H1 H2]. split; [done|]. intros p r Hr. pose proof (H2 p r Hr). lia.
Qed.

Lemma task_fate good command sequence p c c' : task registry profile flow c c' ->
  (forall fr pdu now, bytes_ok fr -> DecodePDU fr registry = Ok pdu ->
     c' = in_session c (handleResponse profile flow (c_session c) pdu now) ->
     Table.m (table (c_session c)) !! sequence = Some p -> answer_to command sequence pdu -> good pdu) ->
  heap_ok (table (c_session c)) (c_fresh c) -> fate good command sequence p (table (c_session c)) ->
  fate good command sequence p (table (c_session c')).
Proof.
  destruct 1 as [c fr pdu now Hok Hdec|c s e|c e|c cmd v n v' t s Ha|c s|c q now|c q item|c w|c s v f Hs Hf];
    cbn [in_session in_table c_session c_fresh set_table table]; intros Hgood Hh.
  - intros Hf. destruct (handleResponse_table (c_session c) pdu now)
      as [-> |(t & s1 & Hd & Hs1 & [-> |[e ->]])]; [done|eapply delivered_fate; eauto|].
    apply terminate_fate. rewrite Hs1. eapply delivered_fate; eauto.
  - apply completeError_fate.
  - apply terminate_fate.
  - by eapply admitted_other.
  - apply touched_fate, dispatched_touched.
  - apply touched_fate, stamp_touched.
  - apply touched_fate, attach_touched.
  - apply touched_fate. by apply Aside.
  - by rewrite Hs.
Qed.

(** [pdu] arrived between [c0] and [c], when the request at [p] was in the table under
    [sequence]: it was decoded from a received frame, carries that sequence number and
    is the response of [command] or a generic_nack. *)
Definition arrived (command sequence : Z) (p : positive) (c0 c : caller) (pdu : DecodedPDU) : Prop :=
  exists ca fr now, rtc (task registry profile flow) c0 ca /\
    Table.m (table (c_session ca)) !! sequence = Some p /\
    bytes_ok fr /\ DecodePDU fr registry = Ok pdu /\ answer_to command sequence pdu /\
    rtc (task registry profile flow) (in_session ca (handleResponse profile flow (c_session ca) pdu now)) c.

(** The request entered the table at [c0]. *)
Record settled_state (command sequence : Z) (p : positive) (c0 c : caller) : Prop := {
  ss_heap : heap_ok (table (c_session c)) (c_fresh c);
  ss_fate : fate (arrived command sequence p c0 c) command sequence p (table (c_session c));
  ss_since : rtc (task registry profile flow) c0 c
}.

Lemma fate_mono (good good' : DecodedPDU -> Prop) command sequence p t :
  (forall pdu, good pdu -> good' pdu) -> fate good command sequence p t -> fate good' command sequence p t.
Proof.
  intros Hg [Ho (r & H1 & H2 & H3 & H4)]. split; [done|]. exists r. split_and!; [done..|].
  destruct H4 as [?|[? (x & ? & Hx)]]; [by left|right]. split; [done|]. exists x. split; [done|].
  destruct x as [[pdu|] [e|]]; cbn [result_ok] in Hx |- *; auto.
Qed.

Lemma tasks_settled command sequence p c0 c c' : rtc (task registry profile flow) c c' ->
  settled_state command sequence p c0 c -> settled_state command sequence p c0 c'.
Proof.
  induction 1 as [|x y z Hs _ IH]; [done|]. intros [H1 H2 H3]. apply IH. split.
  - by eapply task_heap.
  - eapply (task_fate _ _ _ _ x y Hs); [|done|].
    + intros fr pdu now Hok Hdec Hy Hm Ha. exists x, fr, now. subst y. split_and!; done || apply rtc_refl.
    + eapply fate_mono; [|exact H2]. intros pdu (ca & fr & now & ? & ? & ? & ? & ? & Hr). exists ca, fr, now.
      split_and!; [done..|]. by eapply rtc_r.
  - by eapply rtc_r.
Qed.
Lemma tasks_heap c c' : rtc (task registry profile flow) c c' ->
  heap_ok (table (c_session c)) (c_fresh c) -> heap_ok (table (c_session c')) (c_fresh c').
Proof. induction 1 as [|x y z Hs _ IH]; [done|]. eauto using task_heap. Qed.

(** What the caller finds in the channel. *)
Lemma receive_settled command sequence p c0 c : settled_state command sequence p c0 c ->
  match receive c p with
  | Some (Ok pdu) => arrived command sequence p c0 c pdu
  | Some (Err _) => True
  | Some Panic => False
  | None => Table.m (table (c_session c)) !! sequence = Some p
  end.
Proof.
  intros [_ [_ (r & Hr & _ & _ & [[Hm Hd]|[Hm (x & Hd & Hx)]])] _]; unfold receive; rewrite Hr, Hd; [done|].
  destruct x as [[pdu|] [e|]]; done.
Qed.
End tasks.

(** ** A request gets its own answer *)

Section requests.
Context (registry : option Registry) (profile : Profile) (flow : bool) (MaxPending : Z) (stale : bytes).
Context (for_slot for_room : caller -> caller * selected).
Context (for_result : positive -> caller -> caller * selected).
Context (for_completion : positive -> caller -> caller).

(** While the caller waits, the others take some of their steps. *)
Definition interleaved : Prop :=
  (forall c, rtc (task registry profile flow) c (for_slot c).1) /\
  (forall c, rtc (task registry profile flow) c (for_room c).1) /\
  (forall p c, rtc (task registry profile flow) c (for_result p c).1) /\
  (forall p c, rtc (task registry profile flow) c (for_completion p c)).

(** What a caller does to the session is itself made of such steps, so that the others
    may be callers too, each at any point of its request. *)
Lemma elsewhere_tasks c c' : table (c_session c') = table (c_session c) -> (c_fresh c <= c_fresh c')%positive ->
  rtc (task registry profile flow) c c'.
Proof. destruct c' as [s v f]. intros H1 H2. by apply rtc_once, TElsewhere. Qed.
Lemma cancel_tasks c command : rtc (task registry profile flow) c (cancel_outbound c command).
Proof. by apply elsewhere_tasks. Qed.
Lemma release_tasks c : rtc (task registry profile flow) c (release_window c).
Proof. apply rtc_once, TWindow. Qed.
Lemma fail_tasks c sequence e :
  rtc (task registry profile flow) c (in_table c (Table.completeError (table (c_session c)) sequence e).1).
Proof. apply rtc_once, TFail. Qed.

Section own_steps.
Context (Hothers : interleaved).

Lemma withdraw_tasks c p command sequence e :
  rtc (task registry profile flow) c (withdraw for_completion c p command sequence e).1.
Proof.
  pose proof (fail_tasks c sequence e) as Hf. unfold withdraw.
  destruct (Table.completeError _ _ _) as [t [q|]]; cbn [fst] in Hf |- *.
  - etrans; [exact Hf|apply cancel_tasks].
  - etrans; [exact Hf|apply Hothers].
Qed.

Lemma send_tasks c p command sequence body :
  rtc (task registry profile flow) c (send_request registry stale for_room for_result for_completion c p command sequence body).1.
Proof.
  destruct Hothers as (_ & Hroom & Hres & Hcomp). unfold send_request.
  destruct (EncodePDU _ _ _ _ _) as [fr|[b e]|]; [| |done].
  - pose proof (Hroom c) as H1. destruct (for_room c) as [c1 [|e|]]; cbn [fst] in H1.
    + set (c2 := in_session c1 _). assert (H2 : rtc (task registry profile flow) c c2).
      { etrans; [exact H1|by apply elsewhere_tasks]. }
      pose proof (Hres p c2) as H3. destruct (for_result p c2) as [c3 [|e|]]; cbn [fst] in H3 |- *;
        (etrans; [exact H2|]; try exact H3).
      etrans; [exact H3|apply withdraw_tasks].
    + etrans; [exact H1|apply withdraw_tasks].
    + etrans; [exact H1|apply Hcomp].
  - pose proof (fail_tasks c sequence e) as Hf. destruct (Table.completeError _ _ _) as [t q]. cbn [fst] in Hf |- *.
    etrans; [exact Hf|apply cancel_tasks].
Qed.

Lemma slot_tasks c command body :
  rtc (task registry profile flow) c (with_slot registry MaxPending stale for_room for_result for_completion c command body).1.
Proof.
  unfold with_slot. destruct (BeginOutbound _ _) as [m|e|]; [|apply release_tasks..].
  set (c1 := in_session c _). assert (H1 : rtc (task registry profile flow) c c1) by by apply elsewhere_tasks.
  etrans; [exact H1|]. destruct (Table.allocate _ _ _ _) as [v [[t sequence]|e|]] eqn:Ha.
  - etrans; [|apply send_tasks]. apply rtc_once. by eapply (TRequest _ _ _ c1).
  - cbn [fst]. etrans; [|apply release_tasks]. etrans; [|apply cancel_tasks].
    apply elsewhere_tasks; [done|]. cbn. lia.
  - apply elsewhere_tasks; [done|]. cbn. lia.
Qed.

Lemma acquire_tasks c waitWindow : rtc (task registry profile flow) c (acquire_window for_slot c waitWindow).1.
Proof.
  unfold acquire_window. destruct (_ <? _); [apply rtc_once, TWindow|]. destruct waitWindow; [|done]. cbn [negb].
  set (c1 := in_table c _). assert (H1 : rtc (task registry profile flow) c c1) by apply rtc_once, TWindow.
  etrans; [exact H1|]. destruct Hothers as (Hslot & _). pose proof (Hslot c1) as H2.
  destruct (for_slot c1) as [c2 [|e|]]; cbn [fst] in H2 |- *; [|done..].
  etrans; [exact H2|apply rtc_once, TWindow].
Qed.

Lemma request_tasks waitWindow command body c : rtc (task registry profile flow) c
  (request registry profile MaxPending stale for_slot for_room for_result for_completion waitWindow command body c).1.
Proof.
  unfold request. destruct (_ || _); [done|]. destruct (isBindRequest command && _); [done|].
  destruct (requiresSMPP50 command && _); [done|]. destruct (done _); [done|].
  pose proof (acquire_tasks c waitWindow) as H. destruct (acquire_window _ _ _) as [c1 [e|]]; cbn [fst] in H |- *; [done|].
  etrans; [exact H|apply slot_tasks].
Qed.
End own_steps.

Definition encoded (command sequence : Z) (body : any) : wres :=
  EncodePDU stale (MkHeader 0 command StatusOK sequence) body registry [].

(** The request of this call entered the table: the session in which it did, and the
    sequence number it got. *)
Definition admitted (c : caller) (command : Z) (body : any) : option (caller * Z) :=
  match BeginOutbound (Some (machine (c_session c))) command with
  | Ok m =>
      let p := c_fresh c in
      match Table.allocate (Z.to_nat (MaxPending + 1)) (c_seq c)
              (Table.set_req (table (c_session c)) p (Table.new_request command (bind_version command body))) p with
      | (v, Ok (t, sequence)) => Some (MkCaller (set_table (set_machine (c_session c) m) t) v (Pos.succ p), sequence)
      | _ => None
      end
  | _ => None
  end.

(** Still in the table, with no result. *)
Definition unanswered (command sequence : Z) (p : positive) (c : caller) : Prop :=
  exists r, Table.m (table (c_session c)) !! sequence = Some p /\
    Table.reqs (table (c_session c)) !! p = Some r /\ Table.requestID r = command /\ Table.pdone r = [].

(** The item was put into the queue between [c0] and [c]. *)
Definition item_queued (item : txItem) (c0 c : caller) : Prop :=
  exists cq, (for_room c0 = (cq, Went)) /\
    rtc (task registry profile flow) (in_session cq (push_tx (c_session cq) ByOthers item)) c.

(** What a call does with its request, which entered the table at [c0] under
    [sequence], by the time it returns [x] in [c]. *)
Definition own_result (command sequence : Z) (body : any) (p : positive) (c0 : caller)
    (x : caller * option (res DecodedPDU)) : Prop :=
  match x with
  | (c, Some (Ok pdu)) => exists fr, encoded command sequence body = Ok fr /\
      (item_queued (request_item command sequence fr) c0 c \/ (for_room c0).2 <> Went) /\
      arrived registry profile flow command sequence p c0 c pdu
  | (_, Some (Err _)) => True
  | (_, Some Panic) => encoded command sequence body = Panic
  | (c, None) => unanswered command sequence p c
  end.

Definition returned (waitWindow : bool) (command : Z) (body : any) (c : caller)
    (x : caller * option (res DecodedPDU)) : Prop :=
  (exists e, x.2 = Some (Err e)) \/
  exists c1 c2 sequence, acquire_window for_slot c waitWindow = (c1, None) /\
    admitted c1 command body = Some (c2, sequence) /\
    own_result command sequence body (c_fresh c1) c2 x.

Lemma received_returned command sequence p c0 c fr body : encoded command sequence body = Ok fr ->
  item_queued (request_item command sequence fr) c0 c \/ (for_room c0).2 <> Went ->
  settled_state registry profile flow command sequence p c0 c ->
  own_result command sequence body p c0 (c, receive c p).
Proof.
  intros He Hq Hs. pose proof (receive_settled _ _ _ _ _ _ _ _ Hs) as Hr. unfold own_result.
  destruct (receive c p) as [[pdu|e|]|]; [eauto|done|done|].
  destruct Hs as [_ [_ (r & H1 & H2 & _ & [[_ H3]|[H3 _]])] _]; [|done]. by exists r.
Qed.

Lemma queued_later item c0 c c' : item_queued item c0 c -> rtc (task registry profile flow) c c' -> item_queued item c0 c'.
Proof. intros (cq & ? & ?) ?. exists cq. split; [done|by etrans]. Qed.

Hypothesis Htasks : interleaved.

Lemma withdraw_returned command sequence p c0 c fr body e : encoded command sequence body = Ok fr ->
  item_queued (request_item command sequence fr) c0 c \/ (for_room c0).2 <> Went ->
  settled_state registry profile flow command sequence p c0 c ->
  own_result command sequence body p c0 (withdraw for_completion c p command sequence e).
Proof.
  intros He Hq Hs. unfold withdraw. destruct (Table.completeError _ _ _) as [t [q|]] eqn:Hc; [done|].
  assert (t = table (c_session c)) as ->.
  { unfold Table.completeError in Hc. destruct (Table.m _ !! _); congruence. }
  replace (in_table c (table (c_session c))) with c by (by destruct c as [[] ? ?]).
  destruct Htasks as (_ & _ & _ & Ht). pose proof (Ht p c) as Hc'. apply (received_returned _ _ p _ _ fr); [done| |].
  - destruct Hq; [left; by eapply queued_later|by right].
  - by eapply tasks_settled.
Qed.

Lemma send_request_returned command sequence p c body :
  settled_state registry profile flow command sequence p c c ->
  own_result command sequence body p c
    (send_request registry stale for_room for_result for_completion c p command sequence body).
Proof.
  destruct Htasks as (_ & Hroom & Hres & Hcomp).
  intros Hs. unfold send_request. fold (encoded command sequence body).
  destruct (encoded command sequence body) as [fr|[d e]|] eqn:He;
    [|by destruct (Table.completeError _ _ _)|done].
  pose proof (tasks_settled registry profile flow command sequence p _ _ _ (Hroom c) Hs) as H1.
  destruct (for_room c) as [c1 sel] eqn:Hfr. cbn [fst] in H1.
  assert (Hno : sel <> Went -> (for_room c).2 <> Went) by by rewrite Hfr. destruct sel as [|e|].
  - match goal with |- context [for_result p ?x] => set (c2 := x) end.
    assert (H2 : settled_state registry profile flow command sequence p c c2).
    { eapply tasks_settled; [|exact H1]. by apply elsewhere_tasks. }
    pose proof (tasks_settled registry profile flow command sequence p _ _ _ (Hres p c2) H2) as H3.
    assert (Hq : item_queued (request_item command sequence fr) c (for_result p c2).1) by (exists c1; auto).
    destruct (for_result p c2) as [c3 [|e|]]; cbn [fst] in H3, Hq;
      [apply (received_returned _ _ _ _ _ fr)|apply (withdraw_returned _ _ _ _ _ fr)|apply (received_returned _ _ _ _ _ fr)];
      auto.
  - apply (withdraw_returned _ _ _ _ _ fr); [done|right; by apply Hno|done].
  - apply (received_returned _ _ _ _ _ fr); [done|right; by apply Hno|]. eapply tasks_settled; [apply Hcomp|done].
Qed.

Lemma heap_window t w f : heap_ok t f -> heap_ok (Table.with_window t w) f.
Proof. by apply heap_ok_grows. Qed.

Lemma acquire_heap c wait : heap_ok (table (c_session c)) (c_fresh c) ->
  heap_ok (table (c_session (acquire_window for_slot c wait).1)) (c_fresh (acquire_window for_slot c wait).1).
Proof.
  intros Hc. unfold acquire_window. destruct (_ <? _); [by apply heap_window|]. destruct (negb wait); [done|].
  destruct Htasks as (Hslot & _).
  match goal with |- context [for_slot ?x] => set (c1 := x) end.
  assert (H1 : heap_ok (table (c_session c1)) (c_fresh c1)) by by apply heap_window.
  pose proof (tasks_heap registry profile flow _ _ (Hslot c1) H1) as H2.
  destruct (for_slot c1) as [c2 []]; [by apply heap_window|done|done].
Qed.

Lemma request_returned wait command body c : heap_ok (table (c_session c)) (c_fresh c) ->
  returned wait command body c
    (request registry profile MaxPending stale for_slot for_room for_result for_completion wait command body c).
Proof.
  intros Hc. unfold request, returned. destruct (_ || _); [left; eauto|].
  destruct (isBindRequest command && _); [left; eauto|].
  destruct (requiresSMPP50 command && _); [left; eauto|]. destruct (done _); [left; eauto|].
  pose proof (acquire_heap c wait Hc) as H1. destruct (acquire_window for_slot c wait) as [c1 [e|]]; [left; eauto|].
  cbn [fst] in H1. unfold with_slot. destruct (BeginOutbound _ _) as [m|e|] eqn:Hb; [|left; eauto|].
  2: { unfold BeginOutbound in Hb. by repeat case_match. }
  cbn [in_session c_session c_fresh c_seq].
  destruct (Table.allocate _ _ _ _) as [v [[t sequence]|e|]] eqn:Ha; [|left; eauto|].
  - right. exists c1, (MkCaller (set_table (set_machine (c_session c1) m) t) v (Pos.succ (c_fresh c1))), sequence.
    split; [done|]. split.
    + unfold admitted. rewrite Hb. cbv zeta. change (table (set_machine (c_session c1) m)) with (table (c_session c1)) in Ha.
      by rewrite Ha.
    + apply send_request_returned. split; [by eapply admitted_heap|by eapply admitted_fate|apply rtc_refl].
  - by apply allocate_no_panic in Ha.
Qed.
End requests.


(** A bound ESME sends enquire_link, and the first frame that arrives answers it. *)
Definition bound_caller : caller :=
  MkCaller (MkSession (MkStateMachine RoleESME StateBoundTRX 0 0 StateClosed StateClosed)
    (Table.newPendingTable 4 (Window.newRequestWindow 4)) zeroCapabilities [] ∅ None false 0 0 []) 0 1.
Definition enquire_link_resp : bytes :=
  [0; 0; 0; 16; 128; 0; 0; 21; 0; 0; 0; 0; 0; 0; 0; 1].
Definition enquire_answer : DecodedPDU :=
  MkDecodedPDU (MkHeader 16 CommandEnquireLinkResp 0 1) (AVal VEmptyBody).
Definition sample_registry : option Registry := Some (smpp34_registry RegistryStrict).
Definition stay (c : caller) : caller * selected := (c, Went).
Definition answered_at_once (p : positive) (c : caller) : caller * selected :=
  (in_session c (handleResponse SMPP34Profile false (c_session c) enquire_answer 5), Went).

Lemma sample_interleaved :
  interleaved sample_registry SMPP34Profile false stay stay answered_at_once (fun _ c => c).
Proof.
  split_and!; [intros; constructor..| |intros; constructor]. intros p c. apply rtc_once.
  apply (TResponse _ _ _ c enquire_link_resp); [|vm_compute; reflexivity].
  by apply (bool_decide_unpack _).
Qed.


(** ** A request that is not queued leaves nothing behind *)

(** The state machine as far as it can be observed, the table, the slots in use, the
    queue and the state of the session. *)
Record same_load (c c' : caller) : Prop := {
  sl_state : sm_state (machine (c_session c')) = sm_state (machine (c_session c));
  sl_local : pendingLocalBind (machine (c_session c')) = pendingLocalBind (machine (c_session c));
  sl_peer : pendingPeerBind (machine (c_session c')) = pendingPeerBind (machine (c_session c));
  sl_table : Table.m (table (c_session c')) = Table.m (table (c_session c));
  sl_tokens : Window.tokens (Table.window (table (c_session c'))) = Window.tokens (Table.window (table (c_session c)));
  sl_window : Window.window_inv (Table.window (table (c_session c')));
  sl_tx : tx (c_session c') = tx (c_session c);
  sl_caps : peerCaps (c_session c') = peerCaps (c_session c);
  sl_done : done (c_session c') = done (c_session c)
}.

Lemma acquire_release w : Window.window_inv w -> Window.tokens w < Window.capacity w ->
  let w' := fst (Window.release (Window.afterAcquire (Window.send_token w))) in
  Window.tokens w' = Window.tokens w /\ Window.window_inv w'.
Proof.
  intros Hw Hlt. cbv zeta. pose proof (Window.afterAcquire_inv w Hw Hlt) as Ha.
  destruct Hw as ((Ht & _) & _).
  destruct (Window.release_inv _ Ha) as (Hr & _ & Hr' & _); [cbn; lia|]. split; [|done].
  rewrite Hr'. cbn. lia.
Qed.

Section unsent.
Context (registry : option Registry) (profile : Profile) (MaxPending : Z) (stale : bytes).
Context (for_slot for_room : caller -> caller * selected).
Context (for_result : positive -> caller -> caller * selected).
Context (for_completion : positive -> caller -> caller).
Context (for_write : caller -> Z -> caller * option (option GoError)).
(** The queue stays full until the caller's context ends or the session is over. *)
Hypothesis Hroom : forall c, exists e, for_room c = (c, ContextEnded e).

(** A request just admitted, with the slot it took, fails: as before. *)
Lemma fail_admitted t p s command version e : Window.window_inv (Table.window t) ->
  Window.tokens (Table.window t) < Window.capacity (Table.window t) -> Table.m t !! s = None ->
  let w := Window.afterAcquire (Window.send_token (Table.window t)) in
  let t1 := Table.set_req (Table.with_window t w) p (Table.new_request command version) in
  exists t2, Table.completeError (Table.set_m t1 (<[s := p]> (Table.m t1))) s e = (t2, Some p) /\
    Table.m t2 = Table.m t /\ Table.window t2 = fst (Window.release w).
Proof.
  intros Hw Hlt Hs. cbv zeta. unfold Table.completeError. cbn [Table.set_m Table.m Table.set_req Table.with_window].
  rewrite lookup_insert_eq. eexists. split; [reflexivity|]. rewrite send_done_m, finish_m.
  cbn [Table.set_m Table.m]. split; [by apply delete_insert_id|].
  rewrite send_done_window. unfold Table.finish. cbn [Table.set_m Table.set_req Table.reqs].
  by rewrite lookup_insert_eq.
Qed.

(** Not queued, the request is completed with an error and the operation cancelled. *)
Lemma unsent_send command sequence body c p q : Table.m (table (c_session c)) !! sequence = Some q ->
  (exists e, send_request registry stale for_room for_result for_completion c p command sequence body =
     (cancel_outbound (in_table c (Table.completeError (table (c_session c)) sequence e).1) command, Some (Err e))) \/
  encoded registry stale command sequence body = Panic /\
  send_request registry stale for_room for_result for_completion c p command sequence body = (c, Some Panic).
Proof.
  intros Hq. unfold send_request. fold (encoded registry stale command sequence body).
  destruct (encoded registry stale command sequence body) as [fr|[d e]|]; [| |by right].
  - left. destruct (Hroom c) as [e ->]. exists e. unfold withdraw, Table.completeError. by rewrite Hq.
  - left. exists e. unfold Table.completeError. by rewrite Hq.
Qed.

Definition undone (command : Z) (body : any) (c : caller) (x : caller * option (res DecodedPDU)) : Prop :=
  match x with
  | (c', Some (Err _)) => same_load c c'
  | (_, Some Panic) => exists sequence, encoded registry stale command sequence body = Panic
  | _ => False
  end.

Lemma same_load_refl c : Window.window_inv (Table.window (table (c_session c))) -> same_load c c.
Proof. by split. Qed.

Lemma unsent_with_slot command body c : Window.window_inv (Table.window (table (c_session c))) ->
  Window.tokens (Table.window (table (c_session c))) < Window.capacity (Table.window (table (c_session c))) ->
  undone command body c
    (with_slot registry MaxPending stale for_room for_result for_completion
      (in_table c (Table.with_window (table (c_session c))
         (Window.afterAcquire (Window.send_token (Table.window (table (c_session c))))))) command body).
Proof.
  intros Hw Hlt. destruct (acquire_release _ Hw Hlt) as [Htok Hinv]. unfold with_slot.
  cbn [in_table in_session c_session set_table machine].
  destruct (BeginOutbound _ _) as [m|e|] eqn:Hb; [|by split|].
  2: { unfold BeginOutbound in Hb. destruct (negb _); [discriminate Hb|]. destruct (_ && negb _); discriminate Hb. }
  destruct (cancel_rolls_back (machine (c_session c)) command) as [Hroll _].
  specialize (Hroll m Hb). cbv zeta in Hroll. destruct Hroll as (K1 & K2 & K3).
  cbn [in_session in_table c_session c_fresh c_seq set_machine table set_table].
  destruct (Table.allocate _ _ _ _) as [v [[t s]|e|]] eqn:Ha; [|by split|].
  - apply allocate_inv in Ha as [Hs ->]. cbn [Table.set_req Table.with_window Table.m] in Hs.
    match goal with |- undone _ _ _ (send_request _ _ _ _ _ ?x _ _ _ _) => set (c1 := x) end.
    destruct (unsent_send command s body c1 (c_fresh c) (c_fresh c)) as [[e ->]|[He ->]];
      [apply lookup_insert_eq| |by exists s].
    destruct (fail_admitted (table (c_session c)) (c_fresh c) s command (bind_version command body) e Hw Hlt Hs)
      as (t2 & Ht2 & Hm & Hwin).
    unfold undone. change (table (c_session c1)) with (Table.set_m
      (Table.set_req (Table.with_window (table (c_session c)) (Window.afterAcquire (Window.send_token (Table.window (table (c_session c))))))
        (c_fresh c) (Table.new_request command (bind_version command body))) (<[s := c_fresh c]> (Table.m (table (c_session c))))).
    cbv zeta in Ht2. cbn [Table.set_req Table.with_window Table.m] in Ht2 |- *. rewrite Ht2.
    by split; cbn [cancel_outbound in_table in_session c_session set_machine set_table machine table fst tx peerCaps done];
      rewrite ?Hm, ?Hwin.
  - by apply allocate_no_panic in Ha.
Qed.

Lemma unsent_request command body c : Window.window_inv (Table.window (table (c_session c))) ->
  undone command body c
    (TryRequest registry profile MaxPending stale for_slot for_room for_result for_completion command body c).
Proof.
  intros Hw. pose proof (same_load_refl c Hw) as Hc. unfold TryRequest, request.
  destruct (_ || _); [done|]. destruct (_ && _); [done|]. destruct (_ && _); [done|]. destruct (done _); [done|].
  unfold acquire_window. destruct (Z.ltb_spec (Window.tokens (Table.window (table (c_session c))))
    (Window.capacity (Table.window (table (c_session c))))); [by apply unsent_with_slot|done].
Qed.

Definition undone_one_way (command : Z) (body : any) (c : caller) (x : caller * res unit) : Prop :=
  match x with
  | (c', Err _) => same_load c c'
  | (_, Panic) => exists sequence, encoded registry stale command sequence body = Panic
  | (_, Ok _) => False
  end.

Lemma unsent_one_way command body c : Window.window_inv (Table.window (table (c_session c))) ->
  undone_one_way command body c (SendOneWay registry stale for_room for_write command body c).
Proof.
  intros Hw. pose proof (same_load_refl c Hw) as Hc. unfold SendOneWay.
  destruct (negb _); [done|]. destruct (done _); [done|].
  destruct (BeginOutbound _ _) as [m|e|] eqn:Hb; [|done|].
  2: { unfold BeginOutbound in Hb. destruct (negb _); [discriminate Hb|]. destruct (_ && negb _); discriminate Hb. }
  destruct (cancel_rolls_back (machine (c_session c)) command) as [Hroll _].
  specialize (Hroll m Hb). cbv zeta in Hroll. destruct Hroll as (K1 & K2 & K3).
  destruct (Sequence.Next (c_seq c)) as [v s]. fold (encoded registry stale command s body).
  destruct (encoded registry stale command s body) as [fr|[d e]|] eqn:He; [|by split|by exists s].
  match goal with |- context [for_room ?x] => destruct (Hroom x) as [e ->] end. by split.
Qed.
End unsent.

(** C19: A request that never reaches the transmit queue leaves nothing behind.  When the
    context of the caller ends while the queue is full, and all the more when the
    command, the state, the window, the table or the encoder refuses the request,
    [TryRequest] and [SendOneWay] return an error with the state of the session, the
    pending binds, the table of requests, the number of slots in use and the queue as
    they were; the only other outcome is a panic of a registered encoder. *)
Theorem unsent_leaves_nothing registry profile MaxPending stale for_slot for_room for_result for_completion
    for_write command body c :
  (forall c, exists e, for_room c = (c, ContextEnded e)) ->
  Window.window_inv (Table.window (table (c_session c))) ->
  undone registry stale command body c
    (TryRequest registry profile MaxPending stale for_slot for_room for_result for_completion command body c) /\
  undone_one_way registry stale command body c
    (SendOneWay registry stale for_room for_write command body c).
Proof. intros Hr Hw. split; [by apply unsent_request|by apply unsent_one_way]. Qed.

(** An unbind that finds the queue full: the session stays bound. *)
Definition full_queue (c : caller) : caller * selected := (c, ContextEnded (ESentinel ErrWindowFull)).
Lemma unsent_leaves_nothing_witness :
  sm_state (machine (c_session (TryRequest sample_registry SMPP34Profile 4 [] stay full_queue
    answered_at_once (fun _ c => c) CommandUnbind (AVal VEmptyBody) bound_caller).1)) = StateBoundTRX /\
  undone sample_registry [] CommandUnbind (AVal VEmptyBody) bound_caller
    (TryRequest sample_registry SMPP34Profile 4 [] stay full_queue answered_at_once (fun _ c => c)
      CommandUnbind (AVal VEmptyBody) bound_caller).
Proof.
  split; [vm_compute; reflexivity|].
  apply (unsent_leaves_nothing sample_registry SMPP34Profile 4 [] stay full_queue answered_at_once
    (fun _ c => c) (fun c _ => (c, None))); [by eexists|].
  apply Window.newRequestWindow_inv. lia.
Defined.

(** ** New *)

(** A value that was not positive is the default. *)
Definition defaulted (value fallback value' : Z) : Prop :=
  0 < value' /\ (0 < value -> value' = value) /\ (value <= 0 -> value' = fallback).
(** A duration: zero is the default, a negative one turns the timer off. *)
Definition defaulted_duration (value fallback value' : Z) : Prop :=
  0 <= value' /\ (0 < value -> value' = value) /\ (value = 0 -> value' = fallback) /\ (value < 0 -> value' = 0).

Lemma positive_or_spec v d : 0 < d -> defaulted v d (positive_or v d).
Proof. intros. unfold defaulted, positive_or. destruct (Z.leb_spec v 0); lia. Qed.
Lemma defaultDuration_spec v d : 0 <= d -> defaulted_duration v d (defaultDuration v d).
Proof.
  intros. unfold defaulted_duration, defaultDuration. destruct (Z.eqb_spec v 0); [lia|].
  destruct (Z.ltb_spec v 0); lia.
Qed.

(** The configuration a session runs with. *)
Record normalized (c c' : Config) : Prop := {
  nz_profile : ProfileValid (cf_Profile c') = true /\
    (InterfaceVersion (cf_Profile c) <> 0 -> cf_Profile c' = cf_Profile c);
  nz_registry : exists r, cf_Registry c' = Some r /\
    match cf_Registry c with
    | Some r0 => r = r0
    | None => r = if IsSMPP50 (cf_Profile c') then smpp50_registry RegistryCompatible
                  else smpp34_registry RegistryCompatible
    end;
  nz_window : defaulted (cf_WindowSize c) DefaultWindowSize (cf_WindowSize c');
  nz_pending : cf_WindowSize c' <= cf_MaxPending c' /\
    (cf_WindowSize c' <= cf_MaxPending c -> cf_MaxPending c' = cf_MaxPending c);
  nz_deferred : defaulted (cf_MaxDeferredResponses c) DefaultMaxDeferredResponses (cf_MaxDeferredResponses c');
  nz_queue : defaulted (cf_TXQueueSize c) DefaultTXQueueSize (cf_TXQueueSize c');
  nz_items : defaulted (cf_TXBatchItems c) DefaultTXBatchItems (cf_TXBatchItems c');
  nz_bytes : defaulted (cf_TXBatchBytes c) DefaultTXBatchBytes (cf_TXBatchBytes c');
  nz_read : defaulted (cf_ReadBufferSize c) DefaultReadBufferSize (cf_ReadBufferSize c');
  nz_response : defaulted_duration (cf_ResponseTimeout c) DefaultResponseTimeout (cf_ResponseTimeout c');
  nz_init : defaulted_duration (cf_SessionInitTimeout c) DefaultSessionInitTimeout (cf_SessionInitTimeout c');
  nz_enquire : defaulted_duration (cf_EnquireLinkInterval c) DefaultEnquireLinkInterval (cf_EnquireLinkInterval c');
  nz_enquire_timeout :
    defaulted_duration (cf_EnquireLinkTimeout c) DefaultEnquireLinkTimeout (cf_EnquireLinkTimeout c');
  nz_inactivity : defaulted_duration (cf_InactivityTimeout c) DefaultInactivityTimeout (cf_InactivityTimeout c');
  nz_write : defaulted_duration (cf_WriteTimeout c) DefaultWriteTimeout (cf_WriteTimeout c')
}.

#[local] Hint Extern 1 (defaulted _ _ _) => (apply positive_or_spec; reflexivity) : core.
#[local] Hint Extern 1 (defaulted_duration _ _ _) => (apply defaultDuration_spec; done) : core.

Lemma with_defaults_normalized c profile r :
  ProfileValid profile = true -> (InterfaceVersion (cf_Profile c) <> 0 -> profile = cf_Profile c) ->
  match cf_Registry c with
  | Some r0 => r = r0
  | None => r = if IsSMPP50 profile then smpp50_registry RegistryCompatible
                else smpp34_registry RegistryCompatible
  end ->
  normalized c (with_defaults c profile r).
Proof.
  intros Hv Hp Hr. pose proof (positive_or_spec (cf_WindowSize c) DefaultWindowSize eq_refl) as Hw.
  pose proof (positive_or_spec (cf_MaxPending c) DefaultMaxPending eq_refl) as Hm.
  split; cbn [with_defaults cf_Profile cf_Registry cf_WindowSize cf_MaxPending cf_MaxDeferredResponses
    cf_TXQueueSize cf_TXBatchItems cf_TXBatchBytes cf_ReadBufferSize cf_ResponseTimeout
    cf_SessionInitTimeout cf_EnquireLinkInterval cf_EnquireLinkTimeout cf_InactivityTimeout cf_WriteTimeout]; eauto.
  unfold defaulted in Hw, Hm. destruct (Z.ltb_spec (positive_or (cf_MaxPending c) DefaultMaxPending)
    (positive_or (cf_WindowSize c) DefaultWindowSize)); lia.
Qed.

(** The session [New] starts: open, with nothing pending, and every slot free. *)
Record started (c' : Config) (now : Z) (f : Framer) (s : Session) : Prop := {
  st_machine : machine s = MkStateMachine (cf_Role c') StateOpen 0 0 StateClosed StateClosed;
  st_framer : wf f /\ pending f = [] /\ failed f = None /\
    maxPDUSize f = if cf_MaxPDUSize c' =? 0 then DefaultMaxPDUSize else cf_MaxPDUSize c';
  st_heap : heap_ok (table s) 1;
  st_pending : Table.table_len (table s) = 0 /\ Table.max (table s) = cf_MaxPending c';
  st_window : cf_WindowSize c' < 4294967296 -> Window.window_inv (Table.window (table s)) /\
    Window.tokens (Table.window (table s)) = 0 /\ Window.capacity (Table.window (table s)) = cf_WindowSize c';
  st_running : closeErr s = None /\ done s = false /\ tx s = [] /\ lastInbound s = now /\ lastActivity s = now
}.

Definition started_or_refused (c : Config) (now : Z) : Prop :=
  match New c now with
  | Ok (c', f, s) => normalized c c' /\ cf_Role c' = cf_Role c /\ started c' now f s
  | Err e => Role_valid (cf_Role c) = false /\ e = ESentinel ErrInvalidConfig \/
      InterfaceVersion (cf_Profile c) <> 0 /\ ProfileValid (cf_Profile c) = false /\
        e = ESentinel ErrInvalidConfig \/
      cf_MaxPDUSize c <> 0 /\ cf_MaxPDUSize c < 16 /\ e = ESentinel ErrInvalidMaxPDUSize
  | Panic => False
  end.

(** Starting a session.  [New] refuses an invalid role, a profile that is neither
    SMPP 3.4 nor 5.0, and a maximum PDU size below a header, and nothing else; otherwise
    the session is open, with an empty framer, an empty table and all the slots of its
    window free, and its configuration is the caller's with every missing limit replaced
    by its default: all limits are positive, the table holds at least a window of
    requests, a zero timeout is the default and a negative one is off. *)
Lemma New_started c now : started_or_refused c now.
Proof.
  unfold started_or_refused, New. destruct (Role_valid (cf_Role c)) eqn:Hrole; cbn [negb]; [|by left].
  set (profile := if InterfaceVersion (cf_Profile c) =? 0 then SMPP34Profile else cf_Profile c).
  assert (Hp : InterfaceVersion (cf_Profile c) <> 0 -> profile = cf_Profile c).
  { intros H. unfold profile. by destruct (Z.eqb_spec (InterfaceVersion (cf_Profile c)) 0). }
  destruct (ProfileValid profile) eqn:Hv; cbn [negb].
  2: { right. left. unfold profile in Hv. destruct (Z.eqb_spec (InterfaceVersion (cf_Profile c)) 0); done. }
  set (registry := match cf_Registry c with Some r => r | None =>
    if IsSMPP50 profile then smpp50_registry RegistryCompatible else smpp34_registry RegistryCompatible end).
  replace (match cf_Registry c with
           | Some r => Ok r
           | None => if IsSMPP50 profile then NewSMPP50Registry RegistryCompatible
                     else NewSMPP34Registry RegistryCompatible
           end) with (Ok (E:=GoError) registry).
  2: { unfold registry. rewrite NewSMPP50Registry_ok, NewSMPP34Registry_ok by done.
       destruct (cf_Registry c); [done|]. by destruct (IsSMPP50 profile). }
  cbn [mbind outcome_bind].
  assert (Hn : normalized c (with_defaults c profile registry)).
  { apply with_defaults_normalized; [done..|]. unfold registry. by destruct (cf_Registry c). }
  destruct (NewFramer _) as [f|e|] eqn:Hf; cbn [mbind outcome_bind].
  - unfold NewStateMachine. cbn [with_defaults cf_Role]. rewrite Hrole. cbn [negb mbind outcome_bind sm_Open sm_state].
    rewrite bool_decide_eq_true_2 by done. cbn [negb set_state]. split_and!; [done..|].
    destruct (NewFramer_wf _ _ Hf) as (H1 & _ & H2 & H3 & H4).
    split; cbn [machine table closeErr done tx lastInbound lastActivity]; try done.
    + intros Hlt. pose proof (nz_window _ _ Hn) as [Hw _]. revert Hlt Hw. cbn [with_defaults cf_WindowSize].
      generalize (positive_or (cf_WindowSize c) DefaultWindowSize). intros w Hlt Hw.
      split_and!; [apply Window.newRequestWindow_inv; lia|done|]. apply u32_small. lia.
  - right. right. unfold NewFramer in Hf. cbn [with_defaults cf_MaxPDUSize] in Hf.
    destruct (Z.eqb_spec (cf_MaxPDUSize c) 0) as [Hz|Hz].
    + by destruct (Z.ltb_spec DefaultMaxPDUSize (Z.of_nat HeaderSize)).
    + destruct (Z.ltb_spec (cf_MaxPDUSize c) (Z.of_nat HeaderSize)); [|done]. injection Hf as <-. done.
  - unfold NewFramer in Hf. by destruct (_ <? _).
Qed.
