(* ===== verification/Exchange.v ===== *)
(** * Two sessions and the connection between them

    The parts of a session meet their counterparts of the peer: the transmit loop
    writes what [EncodePDU] produced, the connection hands the octets over in pieces
    of its own choice, the receive loop of the peer cuts and decodes them, its handler
    answers, and the answers come back the same way to the callers that wait.  The
    connection is modelled by what it guarantees: the octets read are those written,
    in order. *)

From S2P Require Import Prelude Protocol Bodies Fields BodySpec Registry Pdu Framer StateMachine Pending Receive Deadline Transmit Requests.

(** ** Frames on a connection *)

(** A frame delimits itself: its length stands in front. *)
Definition self_delimiting (max : Z) (fr : bytes) : Prop :=
  16 <= zlen fr <= max /\ uint32_at fr 0 = zlen fr.

Lemma wire_pdu_delimits max h b : 16 + zlen b < 4294967296 -> 16 + zlen b <= max ->
  self_delimiting max (wire_pdu h b).
Proof.
  intros Hb Hm. split; [rewrite wire_pdu_length; lia|]. rewrite wire_pdu_length.
  unfold uint32_at, wire_pdu, wire_header. cbn [with_length CommandLength].
  pose proof (be32_get_put (16 + zlen b) ltac:(lia)) as H.
  unfold be32_put in *. cbn [drop app]. exact H.
Qed.

Lemma delimits_good max fr rest : self_delimiting max fr -> good max (fr ++ rest) (zlen fr).
Proof.
  intros [Hl Hu]. split_and!; [rewrite length_app; lia| |lia..]. rewrite uint32_at_app; [done|lia].
Qed.

(** What the framer makes of the beginning of a stream of such frames. *)
Lemma deframe_prefix max frames : Forall (self_delimiting max) frames ->
  forall s, s `prefix_of` concat frames ->
  exists k rest, deframe max s = (take k frames, Partial rest) /\ s = concat (take k frames) ++ rest /\
    (s = concat frames -> rest = [] /\ (length frames <= k)%nat).
Proof.
  induction 1 as [|fr frames Hfr _ IH]; intros s Hs.
  - apply prefix_nil_inv in Hs as ->. exists 0%nat, []. split_and!; [by apply deframe_short|done|]. by cbn.
  - cbn [concat] in Hs |- *. destruct (decide (length s < length fr)%nat) as [Hlt|Hge].
    + assert (Hp : s `prefix_of` fr).
      { destruct Hs as [t Ht]. rewrite <- (take_app_length s t), <- Ht, take_app_le by lia. apply prefix_take. }
      exists 0%nat, s. split_and!; [|done|].
      * destruct Hp as [t Ht]. destruct (decide (zlen s < 4)) as [H4|H4]; [by apply deframe_short|].
        apply (deframe_partial max s (zlen fr)); [|lia]. destruct Hfr as [Hl Hu]. split_and!; [lia| |lia..].
        rewrite <- Hu, Ht, uint32_at_app; [done|lia].
      * intros ->. rewrite length_app in Hlt. lia.
    + assert (Hp : fr `prefix_of` s).
      { destruct Hs as [t Ht]. assert (Hfr' : fr = take (length fr) s).
        { rewrite <- (take_app_le s t) by lia. rewrite <- Ht. by rewrite take_app_length. }
        rewrite Hfr'. apply prefix_take. }
      destruct Hp as [s' ->]. apply prefix_app_inv in Hs. destruct (IH s' Hs) as (k & rest & Hd & Heq & Hall).
      exists (S k), rest. rewrite (deframe_frame max fr s' (zlen fr)) by (done || by apply delimits_good).
      rewrite Hd. split_and!; [done| |].
      * cbn [take concat]. rewrite Heq at 1. by rewrite app_assoc.
      * intros H. apply app_inv_head in H. destruct (Hall H). split; [done|]. cbn. lia.
Qed.

Section link.
Context (r : Registry) `{!StandardRegistry r}.

(** [item] carries [body], which the peer can read and which is not too long for it. *)
Record carries (stale : bytes) (max : Z) (item : txItem) (body : any) : Prop := {
  ca_encoded : EncodePDU stale (header item) body (Some r) [] = Ok (frame item);
  ca_header : header_fields_ok (header item);
  ca_typed : typed body;
  ca_known : is_Some (Command (Some r) (CommandID (header item)));
  ca_deliverable : deliverable (header item) body;
  ca_size : zlen (frame item) <= max
}.

(** What the peer decodes. *)
Definition arrives (item : txItem) (body : any) (pdu : DecodedPDU) : Prop :=
  DecodePDU (frame item) (Some r) = Ok pdu /\
  pdu_Header pdu = with_length (header item) (zlen (frame item)) /\
  peer_view (header item) body = Some (pdu_Body pdu).

Lemma carries_arrives stale max item body : max < 4294967296 -> carries stale max item body ->
  self_delimiting max (frame item) /\ exists pdu, arrives item body pdu.
Proof.
  intros Hm [He Hh Ht Hk Hd Hs].
  destruct (EncodePDU_wire stale r (header item) body [] (frame item) Hh Ht Hk Hd) as (b & a & Hf & Hv & Hdec);
    [cbn; lia|done|]. cbn [app] in Hf. rewrite Hf in *. rewrite wire_pdu_length in Hs. split.
  - apply wire_pdu_delimits; lia.
  - eexists. split_and!; [by rewrite Hf|cbn; by rewrite Hf, wire_pdu_length|exact Hv].
Qed.

(** The items a transmit loop writes whole are at the beginning of its queue. *)
Lemma wrote_prefix st st' used rest status : wrote st st' (actives used) status -> ts_wire st = [] ->
  ts_wire st' `prefix_of` octets (actives (used ++ rest)) /\
  (status = Looping -> rest = [] -> ts_wire st' = octets (actives (used ++ rest))).
Proof.
  rewrite actives_app, octets_app. intros Hw H0. unfold wrote in Hw.
  destruct status as [| | |e|]; [| | | |done].
  - destruct Hw as (_ & -> & _). rewrite H0. cbn [app]. split; [by apply prefix_app_r|].
    intros _ ->. cbn. by rewrite app_nil_r.
  - destruct Hw as (_ & -> & _). rewrite H0. split; [by apply prefix_app_r|done].
  - destruct Hw as (_ & -> & _). rewrite H0. split; [by apply prefix_app_r|done].
  - destruct Hw as (front & batch & part & -> & _ & Hp & -> & _). rewrite H0. split; [|done]. cbn [app].
    rewrite octets_app. apply prefix_app_r. by apply prefix_app.
Qed.
End link.

(** C2: What one session sends is what the other receives.  Let the items of a session
    carry bodies that the peer's registry knows, within the peer's PDU size.  However the
    transmit loop batches and writes them, whether it goes on, stops or fails in the
    middle of a write, and however the connection cuts what was written: the receive loop
    of the peer processes the frames of the first [k] items in order and nothing else,
    each decoding to the header and the body that was sent; it never sees a framing
    error, ends only for an error of its own session, and as long as the session runs
    it has processed all that was read, except the beginning of the next frame. *)
Theorem link_delivers r `{!StandardRegistry r} stale items size response_timeout enquire_timeout tcp rounds
    queue s0 d0 st rest status max f profile limit flow stale' handler select_tx clock grow s reads :
  Forall (fun rd => writes_ok (rd_write rd)) rounds ->
  txLoop items size response_timeout enquire_timeout tcp rounds queue (MkTx s0 d0 [] []) = (st, rest, status) ->
  Forall (fun item => exists body, carries r stale (maxPDUSize f) item body) (actives queue) ->
  NewFramer max = Ok f -> maxPDUSize f < 4294967296 ->
  concat reads `prefix_of` ts_wire st ->
  exists k f' s' e,
    let received := take k (actives queue) in
    rxLoop (Some r) profile limit flow stale' handler select_tx clock grow f s reads = Ok (f', s', e) /\
    Forall (fun item => exists body pdu, carries r stale (maxPDUSize f) item body /\ arrives r item body pdu)
      received /\
    match run_frames (Some (rx_callback (Some r) profile limit flow stale' handler select_tx clock)) s
            (map frame received) with
    | (s1, None) => e = None /\ s' = s1
    | (s1, Some err) => e = Some err /\ s' = terminate s1 err
    end /\
    (e = None -> done s' = false -> concat reads = octets received ++ pending f').
Proof.
  intros Hw Htx Hc Hn Hm Hr. destruct (NewFramer_wf max f Hn) as (Hwf & Hnc & Hf & Hp & _).
  pose proof (txLoop_wrote items size response_timeout enquire_timeout tcp rounds Hw queue (MkTx s0 d0 [] [])) as Hwr.
  rewrite Htx in Hwr. destruct Hwr as (used & -> & Hwr).
  destruct (wrote_prefix _ _ _ rest _ Hwr eq_refl) as [Hpre _].
  set (q := actives (used ++ rest)) in *.
  assert (Hself : Forall (self_delimiting (maxPDUSize f)) (map frame q)).
  { apply Forall_map. eapply Forall_impl; [exact Hc|]. intros item [body Hb]. by eapply carries_arrives. }
  destruct (rxLoop_frames (Some r) profile limit flow stale' handler select_tx clock grow f s reads Hwf Hnc Hf)
    as (n & f' & s' & e & Hl & Hdone & _ & Hcase).
  assert (Hpn : concat (take n reads) `prefix_of` octets q).
  { transitivity (concat reads); [|by etrans]. rewrite <- (take_drop n reads) at 2. rewrite concat_app.
    by apply prefix_app_r. }
  destruct (deframe_prefix (maxPDUSize f) (map frame q) Hself _ Hpn) as (k & tl & Hd & Heq & _).
  exists k, f', s', e. cbv zeta. rewrite Hp in Hcase. cbn [app] in Hcase. rewrite Hd in Hcase.
  rewrite firstn_map in Hcase, Heq. split_and!; [done| | |].
  - apply Forall_take. eapply Forall_impl; [exact Hc|]. intros item [body Hb]. exists body.
    destruct (carries_arrives r stale _ _ _ Hm Hb) as [_ [pdu Ha]]. eauto.
  - destruct (run_frames _ s _) as [s1 [err|]]; [done|]. by destruct Hcase as (? & ? & ?).
  - intros -> Hnd. destruct (decide (n < length reads)%nat) as [Hlt|Hge].
    { destruct (Hdone Hlt) as [?|?]; congruence. }
    rewrite take_ge in Heq by lia. destruct (run_frames _ s _) as [s1 [err|]]; [by destruct Hcase|].
    destruct Hcase as (_ & _ & ->). exact Heq.
Qed.

(** A stream that the session takes without ending is received to its end. *)
Lemma stream_received r profile limit flow stale handler select_tx clock grow max f s frames reads :
  NewFramer max = Ok f -> Forall (self_delimiting (maxPDUSize f)) frames -> concat reads = concat frames ->
  (forall k, exists s', run_frames (Some (rx_callback r profile limit flow stale handler select_tx clock)) s
     (take k frames) = (s', None) /\ done s' = false) ->
  exists f' s', rxLoop r profile limit flow stale handler select_tx clock grow f s reads = Ok (f', s', None) /\
    run_frames (Some (rx_callback r profile limit flow stale handler select_tx clock)) s frames = (s', None) /\
    pending f' = [].
Proof.
  intros Hn Hself Hr Hrun. destruct (NewFramer_wf max f Hn) as (Hwf & Hnc & Hf & Hp & _).
  destruct (rxLoop_frames r profile limit flow stale handler select_tx clock grow f s reads Hwf Hnc Hf)
    as (n & f' & s' & e & Hl & Hdone & _ & Hcase).
  rewrite Hp in Hcase. cbn [app] in Hcase.
  assert (Hpn : concat (take n reads) `prefix_of` concat frames).
  { rewrite <- Hr. rewrite <- (take_drop n reads) at 2. rewrite concat_app. by apply prefix_app_r. }
  destruct (deframe_prefix _ _ Hself _ Hpn) as (k & tl & Hd & _ & Hall). rewrite Hd in Hcase.
  destruct (Hrun k) as (s1 & Hs1 & Hnd). rewrite Hs1 in Hcase. destruct Hcase as (-> & -> & Hpend).
  destruct (decide (n < length reads)%nat) as [Hlt|Hge].
  { destruct (Hdone Hlt) as [?|?]; congruence. }
  rewrite take_ge in Hall by lia. destruct (Hall Hr) as [-> Hk]. rewrite take_ge in Hs1 by done.
  exists f', s1. done.
Qed.

(** ** Requests that are answered

    [serve] is what the application of the answering side does with a request: the
    status and the body of its response. *)

Record call := MkCall {
  rpc_command : Z;
  rpc_sequence : Z;
  rpc_body : any;
  rpc_frame : bytes;
  rpc_owner : positive;
  rpc_request : DecodedPDU;
  rpc_response : bytes;
  rpc_answer : DecodedPDU
}.

Definition call_item (c : call) : txItem := request_item (rpc_command c) (rpc_sequence c) (rpc_frame c).

(** A request that is neither part of the life of a session nor one-way. *)
Definition is_message (command : Z) : bool :=
  negb (IsResponse command) && negb (isOneWayCommand command) && negb (isLifecycleRequest command) &&
  negb (command =? CommandEnquireLink) && IsStandardCommand command && negb (command =? CommandOutbind).

Section exchange.
Context (r : Registry) `{!StandardRegistry r}.
Context (serve : DecodedPDU -> Z * any).

(** The answer to [c], as an item of the answering side. *)
Definition answer_item (c : call) : txItem :=
  response_item (pdu_Header (rpc_request c)) (ResponseID (rpc_command c)) (serve (rpc_request c)).1 (rpc_response c).

(** A handler that does nothing but answer. *)
Definition serving (s : Session) (pdu : DecodedPDU) : Session * res Response :=
  (s, Ok (MkResponse (serve pdu).1 (serve pdu).2 ResponseImmediate)).

(** Both sides can send what they want to: the request to a session [s] that may get it
    in its state and under its version, the answer back. *)
Record call_ok (stale stale' : bytes) (max max' : Z) (s : Session) (c : call) : Prop := {
  ok_carried : carries r stale max' (call_item c) (rpc_body c);
  ok_request : arrives r (call_item c) (rpc_body c) (rpc_request c);
  ok_answered : carries r stale' max (answer_item c) (serve (rpc_request c)).2;
  ok_answer : arrives r (answer_item c) (serve (rpc_request c)).2 (rpc_answer c);
  ok_message : is_message (rpc_command c) = true;
  ok_sequence : ValidInbound (rpc_sequence c) = true;
  ok_state : CanIssue (sm_state (machine s)) (peer (sm_role (machine s))) (rpc_command c) = true;
  ok_version : requiresSMPP50 (rpc_command c) = true -> SupportsSMPP50 (peerCaps s) = true
}.

(** [c] is waiting in the table of the calling side. *)
Definition waits (s : Session) (c : call) : Prop :=
  Table.m (table s) !! rpc_sequence c = Some (rpc_owner c) /\
  exists q, Table.reqs (table s) !! rpc_owner c = Some q /\ Table.requestID q = rpc_command c /\
    Table.expectedID q = ResponseID (rpc_command c) /\ Table.pdone q = [].

Lemma message_inv command : is_message command = true ->
  IsResponse command = false /\ isOneWayCommand command = false /\ isBindRequest command = false /\
  (command =? CommandUnbind) = false /\ (command =? CommandEnquireLink) = false /\
  IsStandardCommand command = true /\ (command =? CommandOutbind) = false.
Proof.
  unfold is_message, isLifecycleRequest. rewrite !andb_true_iff, !negb_true_iff, orb_false_iff. tauto.
Qed.

Lemma begin_message s c : is_message c = true -> CanIssue (sm_state (machine s)) (peer (sm_role (machine s))) c = true ->
  beginInbound (Some r) s c = Ok s.
Proof.
  intros (_ & _ & Hb & Hu & _ & Hs & Ho)%message_inv Hc. unfold beginInbound. rewrite Hs. cbn [BeginInbound].
  rewrite Hc, Hb. cbn [negb andb]. rewrite Hu, Ho. cbn [mbind outcome_bind]. by destruct s.
Qed.

(** *** The answering side *)

Section answering.
Context (profile : Profile) (limit : Z) (flow : bool) (stale stale' : bytes) (clock : Session -> Z) (max max' : Z).
Context (Hmax' : max' < 4294967296).
Abbreviation process := (processFrame (Some r) profile limit flow stale' (Some serving) (fun s => (s, true))).

Lemma request_served s now c : call_ok stale stale' max max' s c ->
  process now s (rpc_frame c) = (push_tx (note_inbound s now) ByReceiver (answer_item c), Ok tt).
Proof.
  intros [Hc (Hdec & Hh & _) Ha _ Hmsg Hseq Hst Hv]. unfold processFrame.
  change (frame (call_item c)) with (rpc_frame c) in Hdec. rewrite Hdec.
  assert (Hid : CommandID (pdu_Header (rpc_request c)) = rpc_command c) by by rewrite Hh.
  assert (Hsq : SequenceNumber (pdu_Header (rpc_request c)) = rpc_sequence c) by by rewrite Hh.
  destruct (message_inv _ Hmsg) as (H1 & H2 & H3 & H4 & H5 & _ & _).
  unfold handleRequest. rewrite Hid, H1, Hsq, Hseq. cbn [negb].
  destruct (ca_known _ _ _ _ _ Hc) as [def Hdef]. change (CommandID (header (call_item c))) with (rpc_command c) in Hdef.
  rewrite Hdef.
  replace (requiresSMPP50 (rpc_command c) && negb (SupportsSMPP50 (peerCaps (note_inbound s now)))) with false.
  2: { cbn [note_inbound peerCaps]. destruct (requiresSMPP50 _); [|done]. by rewrite Hv. }
  rewrite begin_message by done. rewrite H2. unfold respond_to. rewrite Hid, H5, H4. cbn [orb].
  unfold callHandler, serving. cbn [rsp_Action rsp_Status rsp_Body Z.eqb negb ResponseImmediate].
  unfold negotiate_bind. rewrite Hid, H3, andb_false_r. unfold queue_answer, queueResponse. rewrite Hid. cbn [rsp_Status rsp_Body].
  pose proof (ca_encoded _ _ _ _ _ Ha) as He.
  change (header (answer_item c)) with
    (ResponseHeader (pdu_Header (rpc_request c)) (ResponseID (rpc_command c)) (serve (rpc_request c)).1) in He.
  change (frame (answer_item c)) with (rpc_response c) in He. rewrite He. done.
Qed.

Lemma call_ok_kept s s' c : machine s' = machine s -> peerCaps s' = peerCaps s ->
  call_ok stale stale' max max' s c -> call_ok stale stale' max max' s' c.
Proof. intros H1 H2 []. by split; rewrite ?H1, ?H2. Qed.

Lemma requests_served calls : forall s, Forall (call_ok stale stale' max max' s) calls ->
  exists s', run_frames (Some (rx_callback (Some r) profile limit flow stale' (Some serving) (fun s => (s, true)) clock)) s
      (map rpc_frame calls) = (s', None) /\ done s' = done s /\
    tx s' = tx s ++ map (fun c => (ByReceiver, answer_item c)) calls.
Proof.
  induction calls as [|c calls IH]; intros s Hf; cbn [map run_frames].
  - exists s. by rewrite app_nil_r.
  - apply Forall_cons in Hf as [Hc Hf]. unfold Framer.call, rx_callback at 1.
    rewrite (request_served s (clock s) c Hc).
    destruct (IH (push_tx (note_inbound s (clock s)) ByReceiver (answer_item c))) as (s' & -> & Hd & Htx).
    { eapply Forall_impl; [exact Hf|]. intros c'. by apply call_ok_kept. }
    exists s'. split_and!; [done..|]. rewrite Htx. cbn [push_tx note_inbound tx]. by rewrite <- app_assoc.
Qed.
End answering.

(** *** The calling side *)

(** The caller of [c] finds the answer. *)
Definition settled (s : Session) (c : call) : Prop :=
  exists q, Table.reqs (table s) !! rpc_owner c = Some q /\
    Table.pdone q = [Table.MkResult (Some (rpc_answer c)) None].

Section calling.
Context (profile : Profile) (flow : bool) (stale stale' : bytes) (max max' : Z).

(** The answer touches only its own request; the machine completes the operation, and the
    capabilities of the peer are those of [negotiate_response]. *)
Record answered_call (s s' : Session) (c : call) (q : Table.pendingRequest) : Prop := {
  an_settled : settled s' c;
  an_done : done s' = done s;
  an_closeErr : closeErr s' = closeErr s;
  an_entry : Table.m (table s') !! rpc_sequence c = None;
  an_table seq : seq <> rpc_sequence c -> Table.m (table s') !! seq = Table.m (table s) !! seq;
  an_requests p : p <> rpc_owner c -> Table.reqs (table s') !! p = Table.reqs (table s) !! p;
  an_machine : machine s' =
    CompleteOutbound (machine s) (rpc_command c) (CommandStatus (pdu_Header (rpc_answer c)));
  an_caps : exists q' s0, Table.requestID q' = rpc_command c /\ Table.bindVersion q' = Table.bindVersion q /\
    peerCaps s0 = peerCaps s /\ peerCaps s' = peerCaps (negotiate_response profile s0 q' (rpc_answer c))
}.

Lemma observe_keeps x pdu : machine (observeCongestion flow x pdu) = machine x /\
  peerCaps (observeCongestion flow x pdu) = peerCaps x /\ closeErr (observeCongestion flow x pdu) = closeErr x.
Proof.
  unfold observeCongestion. destruct (negb _); [done|].
  destruct (CongestionStateFromOptional _) as [[st []] []]; by destruct flow.
Qed.
Lemma negotiate_machine x q pdu : machine (negotiate_response profile x q pdu) = machine x /\
  closeErr (negotiate_response profile x q pdu) = closeErr x.
Proof.
  unfold negotiate_response. destruct (_ && _); [|done]. destruct (pdu_Body pdu) as [|[]| |]; try done.
  destruct (SCInterfaceVersion _); by destruct (bindNegotiationProfile _ _).
Qed.

Lemma response_taken s c q now : Table.m (table s) !! rpc_sequence c = Some (rpc_owner c) ->
  Table.reqs (table s) !! rpc_owner c = Some q -> Table.requestID q = rpc_command c ->
  Table.expectedID q = ResponseID (rpc_command c) -> Table.pdone q = [] ->
  CommandID (pdu_Header (rpc_answer c)) = ResponseID (rpc_command c) ->
  SequenceNumber (pdu_Header (rpc_answer c)) = rpc_sequence c ->
  exists s', answered_call s s' c q /\ handleResponse profile flow s (rpc_answer c) now =
    if (rpc_command c =? CommandUnbind) && OK (CommandStatus (pdu_Header (rpc_answer c)))
    then terminate s' (ESentinel ErrSessionClosed) else s'.
Proof.
  intros Hm Hq Hid Hex Hpd Hcmd Hseq.
  unfold handleResponse, Table.takeResponse. rewrite Hseq, Hm, Hq, Hcmd, Hex, Z.eqb_refl. cbn [negb andb].
  set (t1 := Table.finish _ (rpc_owner c)).
  assert (Ht1 : exists q1, Table.reqs t1 !! rpc_owner c = Some q1 /\ Table.requestID q1 = rpc_command c /\
    Table.pdone q1 = [] /\ Table.bindVersion q1 = Table.bindVersion q /\
    Table.m t1 = delete (rpc_sequence c) (Table.m (table s)) /\
    (forall p, p <> rpc_owner c -> Table.reqs t1 !! p = Table.reqs (table s) !! p)).
  { unfold t1, Table.finish. cbn [Table.set_m Table.reqs]. rewrite Hq.
    destruct (Table.finished q); cbn [Table.set_m Table.reqs Table.m]; [by exists q|].
    eexists. rewrite lookup_insert_eq. split_and!; [done..|]. intros p Hp. by rewrite lookup_insert_ne. }
  destruct Ht1 as (q1 & Hq1 & Hid1 & Hpd1 & Hv1 & Hm1 & Ho1). rewrite Hq1. cbv zeta.
  set (q2 := fst (Table.markResponseAt q1 _ _ _)).
  assert (Hq2 : Table.requestID q2 = rpc_command c /\ Table.pdone q2 = [] /\ Table.bindVersion q2 = Table.bindVersion q).
  { unfold q2, Table.markResponseAt, Table.claimRTT. cbn. by destruct (_ || _ || _). }
  destruct Hq2 as (Hid2 & Hpd2 & Hv2). rewrite Hid2, ownDecodedPDU_id.
  match goal with |- context [set_table ?x (Table.send_done (table ?x) _ ?y)] => set (s2 := x); set (res := y) end.
  assert (H2 : table s2 = Table.set_req t1 (rpc_owner c) q2) by (unfold s2; by rewrite observe_table, negotiate_table).
  assert (Hd : done s2 = done s) by (unfold s2; by rewrite observe_done, negotiate_done).
  assert (Hcl : closeErr s2 = closeErr s) by (unfold s2; by rewrite (proj2 (proj2 (observe_keeps _ _))), (proj2 (negotiate_machine _ _ _))).
  eexists. split; [|done].
  split; unfold settled; cbn [set_table table done closeErr machine peerCaps]; [|done|done| | | | |].
  1-4: rewrite H2; unfold Table.send_done, Table.set_req; cbn [Table.reqs Table.m]; rewrite lookup_insert_eq;
    cbn [Table.reqs Table.m].
  - rewrite lookup_insert_eq. eexists. split; [done|]. cbn. by rewrite Hpd2.
  - by rewrite Hm1, lookup_delete_eq.
  - intros seq Hne. by rewrite Hm1, lookup_delete_ne.
  - intros p Hne. by rewrite !lookup_insert_ne, Ho1.
  - unfold s2. rewrite (proj1 (observe_keeps _ _)), (proj1 (negotiate_machine _ _ _)). done.
  - unfold s2. rewrite (proj1 (proj2 (observe_keeps _ _))).
    match goal with |- context [peerCaps (negotiate_response _ ?x q2 _)] => exists q2, x end. done.
Qed.

Lemma answer_header s c : call_ok stale stale' max max' s c ->
  CommandID (pdu_Header (rpc_answer c)) = ResponseID (rpc_command c) /\
  SequenceNumber (pdu_Header (rpc_answer c)) = rpc_sequence c.
Proof.
  intros [_ (_ & Hh & _) _ (_ & Ha & _) _ _ _ _]. rewrite Ha. cbn [with_length CommandID SequenceNumber].
  split; [done|]. cbn. by rewrite Hh.
Qed.

Context (limit : Z) (spare : bytes) (handler : option (Session -> DecodedPDU -> Session * res Response)).
Context (select_tx : Session -> Session * bool) (clock : Session -> Z).
Abbreviation callback := (rx_callback (Some r) profile limit flow spare handler select_tx clock).

Lemma responses_settle sB calls : Forall (call_ok stale stale' max max' sB) calls ->
  NoDup (map rpc_sequence calls) -> NoDup (map rpc_owner calls) ->
  forall s, Forall (waits s) calls ->
  exists s', run_frames (Some callback) s (map rpc_response calls) = (s', None) /\ done s' = done s /\
    Forall (settled s') calls /\
    (forall p, p ∉ map rpc_owner calls -> Table.reqs (table s') !! p = Table.reqs (table s) !! p).
Proof.
  induction 1 as [|c calls Hc Hf IH]; intros Hns Hno s Hw; cbn [map run_frames].
  - exists s. split_and!; [done..|constructor|done].
  - apply NoDup_cons in Hns as [Hns1 Hns], Hno as [Hno1 Hno]. apply Forall_cons in Hw as [Hw1 Hw].
    destruct (answer_header _ _ Hc) as [Hid Hseq].
    destruct (ok_answer _ _ _ _ _ _ Hc) as (Hdec & _). change (frame (answer_item c)) with (rpc_response c) in Hdec.
    unfold Framer.call, rx_callback at 1, processFrame. rewrite Hdec, Hid, IsResponse_ResponseID.
    set (s1 := handleResponse _ _ _ _ _).
    destruct Hw1 as (Hm & q0 & Hq & Hid0 & Hex & Hpd).
    destruct (message_inv _ (ok_message _ _ _ _ _ _ Hc)) as (_ & _ & _ & Hu & _).
    destruct (response_taken (note_inbound s (clock s)) c q0 (clock s) Hm Hq Hid0 Hex Hpd Hid Hseq)
      as (s2 & [Hset Hd1 _ _ Hm1 Hq1 _ _] & Hs2). rewrite Hu in Hs2. cbn [andb] in Hs2. fold s1 in Hs2. subst s2.
    cbn [note_inbound table done] in *.
    destruct (IH Hns Hno s1) as (s' & Hrun & Hd & Hall & Hother).
    { apply Forall_forall. intros c' Hc'. rewrite Forall_forall in Hw. destruct (Hw c' Hc') as (H1 & H2).
      assert (Hne1 : rpc_sequence c' <> rpc_sequence c).
      { intros He. apply Hns1. rewrite <- He. apply list_elem_of_In, in_map, list_elem_of_In. done. }
      assert (Hne2 : rpc_owner c' <> rpc_owner c).
      { intros He. apply Hno1. rewrite <- He. apply list_elem_of_In, in_map, list_elem_of_In. done. }
      split; [by rewrite Hm1|by rewrite Hq1]. }
    exists s'. split_and!; [done|congruence| |].
    + constructor; [|done]. destruct Hset as (q & Hq' & Hp). exists q. by rewrite Hother.
    + intros p Hp. apply not_elem_of_cons in Hp as [Hp1 Hp2]. rewrite Hother, Hq1 by done. done.
Qed.
End calling.
End exchange.

(** The settings of a transmit loop and how its connection, its timing and the other
    goroutines behave; and those of a receive loop. *)
Record sender := MkSender {
  sd_items : Z; sd_size : Z; sd_ResponseTimeout : Z; sd_EnquireLinkTimeout : Z; sd_tcp : bool;
  sd_rounds : list round; sd_session : Session; sd_deadlines : deadlineManager
}.
Record receiver := MkReceiver {
  rc_framer : Framer; rc_profile : Profile; rc_limit : Z; rc_flow : bool; rc_stale : bytes;
  rc_handler : option (Session -> DecodedPDU -> Session * res Response);
  rc_select : Session -> Session * bool; rc_clock : Session -> Z; rc_grow : Z -> Z -> Z
}.

(** The loop has sent all of [queue], and [wire] is what it wrote. *)
Definition transmits (p : sender) (queue : list queued) (wire : bytes) : Prop :=
  Forall (fun rd => writes_ok (rd_write rd)) (sd_rounds p) /\
  exists st, txLoop (sd_items p) (sd_size p) (sd_ResponseTimeout p) (sd_EnquireLinkTimeout p) (sd_tcp p)
      (sd_rounds p) queue (MkTx (sd_session p) (sd_deadlines p) [] []) = (st, [], Looping) /\
    ts_wire st = wire.
Definition receive_loop (r : Registry) (p : receiver) (s : Session) (reads : list bytes)
    : outcome GoError (Framer * Session * option GoError) :=
  rxLoop (Some r) (rc_profile p) (rc_limit p) (rc_flow p) (rc_stale p) (rc_handler p) (rc_select p)
    (rc_clock p) (rc_grow p) (rc_framer p) s reads.
Definition fresh (p : receiver) : Prop :=
  maxPDUSize (rc_framer p) < 4294967296 /\ exists max, NewFramer max = Ok (rc_framer p).

(** The application of the other side does nothing but answer, and its queue has room. *)
Definition answers_with (serve : DecodedPDU -> Z * any) (p : receiver) : Prop :=
  rc_handler p = Some (serving serve) /\ rc_select p = fun s => (s, true).

Lemma transmits_octets p queue wire : transmits p queue wire -> wire = octets (actives queue).
Proof.
  intros (Hw & st & Htx & <-).
  pose proof (txLoop_wrote (sd_items p) (sd_size p) (sd_ResponseTimeout p) (sd_EnquireLinkTimeout p) (sd_tcp p)
    (sd_rounds p) Hw queue (MkTx (sd_session p) (sd_deadlines p) [] [])) as H.
  rewrite Htx in H. destruct H as (used & -> & H). by apply (wrote_prefix _ _ _ [] _ H).
Qed.

Lemma nodup_map_take {A B} (f : A -> B) k l : NoDup (map f l) -> NoDup (map f (take k l)).
Proof. rewrite <- (take_drop k l) at 1. rewrite map_app. by intros (? & _)%NoDup_app. Qed.

Lemma calls_delimited r `{!StandardRegistry r} stale max f (calls : list call) :
  max < 4294967296 -> Forall (fun c => exists item body, carries r stale max item body /\ frame item = f c) calls ->
  Forall (self_delimiting max) (map f calls).
Proof.
  intros Hm Hc. apply Forall_map. eapply Forall_impl; [exact Hc|]. intros c (item & body & Hb & <-).
  by eapply carries_arrives.
Qed.

(** C1: Every request gets its answer, over the whole path.  Two sessions are joined by a
    connection that loses and reorders nothing.  The calling side has any number of
    requests waiting, under different sequence numbers; the application of the other
    side answers each request with [serve].  However the requests are batched, written
    and cut on the way, the other side queues exactly the answers to them, in order; and
    however these are batched, written and cut on the way back, no loop fails and every
    caller finds the answer to its own request: what [serve] said to the body that was
    sent, as the wire format shows both. *)
Theorem exchange_completes r `{!StandardRegistry r} serve stale A B calls sA sB
    pA queueA wireA readsB :
  fresh A -> fresh B -> done sA = false -> done sB = false -> answers_with serve B ->
  Forall (call_ok r serve stale (rc_stale B) (maxPDUSize (rc_framer A)) (maxPDUSize (rc_framer B)) sB) calls ->
  NoDup (map rpc_sequence calls) -> NoDup (map rpc_owner calls) -> Forall (waits sA) calls ->
  actives queueA = map call_item calls -> transmits pA queueA wireA -> concat readsB = wireA ->
  exists fB' sB', receive_loop r B sB readsB = Ok (fB', sB', None) /\
    tx sB' = tx sB ++ map (fun c => (ByReceiver, answer_item serve c)) calls /\
    forall pB queueB wireB readsA,
    actives queueB = map (answer_item serve) calls -> transmits pB queueB wireB -> concat readsA = wireB ->
    exists fA' sA', receive_loop r A sA readsA = Ok (fA', sA', None) /\
      forall c, c ∈ calls -> forall v n, receive (MkCaller sA' v n) (rpc_owner c) = Some (Ok (rpc_answer c)).
Proof.
  intros [HmA [maxA HfA]] [HmB [maxB HfB]] HdA HdB [Hh Hsel] Hok Hns Hno Hw HqA HtA HrB.
  apply transmits_octets in HtA. rewrite HqA in HtA.
  assert (HB : Forall (self_delimiting (maxPDUSize (rc_framer B))) (map rpc_frame calls)).
  { apply (calls_delimited r stale); [done|]. eapply Forall_impl; [exact Hok|]. intros c Hc.
    exists (call_item c), (rpc_body c). split; [apply Hc|done]. }
  assert (HA : Forall (self_delimiting (maxPDUSize (rc_framer A))) (map rpc_response calls)).
  { apply (calls_delimited r (rc_stale B)); [done|]. eapply Forall_impl; [exact Hok|]. intros c Hc.
    eexists (answer_item serve c), _. split; [apply Hc|done]. }
  unfold receive_loop. rewrite Hh, Hsel.
  destruct (stream_received (Some r) (rc_profile B) (rc_limit B) (rc_flow B) (rc_stale B) (Some (serving serve))
    (fun s => (s, true)) (rc_clock B) (rc_grow B) maxB (rc_framer B) sB (map rpc_frame calls) readsB HfB HB)
    as (fB' & sB' & Hrun & Hframes & _).
  { rewrite HrB, HtA. unfold octets. by rewrite map_map. }
  { intros k. rewrite firstn_map. destruct (requests_served r serve (rc_profile B) (rc_limit B) (rc_flow B) stale
      (rc_stale B) (rc_clock B) _ _ (take k calls) sB (Forall_take _ k _ Hok)) as (s' & H & Hd & _).
    exists s'. split; [exact H|congruence]. }
  destruct (requests_served r serve (rc_profile B) (rc_limit B) (rc_flow B) stale (rc_stale B) (rc_clock B) _ _
    calls sB Hok) as (s' & H & _ & Htx).
  rewrite Hframes in H. injection H as <-. exists fB', sB'. split_and!; [done..|].
  intros pB queueB wireB readsA HqB HtB HrA. apply transmits_octets in HtB. rewrite HqB in HtB.
  pose proof (fun k => responses_settle r serve (rc_profile A) (rc_flow A) stale (rc_stale B)
    (maxPDUSize (rc_framer A)) (maxPDUSize (rc_framer B)) (rc_limit A) (rc_stale A) (rc_handler A) (rc_select A)
    (rc_clock A) sB (take k calls) (Forall_take _ k _ Hok)
    (nodup_map_take _ k _ Hns) (nodup_map_take _ k _ Hno) sA (Forall_take _ k _ Hw)) as Hset.
  destruct (stream_received (Some r) (rc_profile A) (rc_limit A) (rc_flow A) (rc_stale A) (rc_handler A)
    (rc_select A) (rc_clock A) (rc_grow A) maxA (rc_framer A) sA (map rpc_response calls) readsA HfA HA)
    as (fA' & sA' & HrunA & HframesA & _).
  { rewrite HrA, HtB. unfold octets. by rewrite map_map. }
  { intros k. rewrite firstn_map. destruct (Hset k) as (s1 & H1 & Hd1 & _). exists s1. split; [exact H1|congruence]. }
  exists fA', sA'. split; [done|]. destruct (Hset (length calls)) as (s1 & H1 & _ & Hall & _).
  rewrite take_ge, HframesA in H1 by done. injection H1 as <-. rewrite take_ge, Forall_forall in Hall by done.
  intros c Hc v n. destruct (Hall c Hc) as (q & Hq & Hp). unfold receive. cbn [c_session]. by rewrite Hq, Hp.
Qed.

(** ** Two submits and their answers *)

Definition exchange_registry : Registry := smpp34_registry RegistryStrict.
(** The message_id is the sequence number. *)
Definition sample_serve (pdu : DecodedPDU) : Z * any :=
  (StatusOK, AVal (VSubmitSMResp (MkSubmitSMResp [48 + SequenceNumber (pdu_Header pdu)] []))).
Definition octets_of (x : wres) : bytes := match x with Ok d => d | _ => [] end.
Definition decoded (fr : bytes) : DecodedPDU :=
  match DecodePDU fr (Some exchange_registry) with
  | Ok pdu => pdu | _ => MkDecodedPDU (MkHeader 0 0 0 0) ANil end.
Definition sample_call (n : Z) (p : positive) : call :=
  let fr := octets_of (encoded (Some exchange_registry) [] CommandSubmitSM n (AVal (VSubmitSM sample_submit))) in
  let request := decoded fr in
  let response := octets_of (EncodePDU [] (ResponseHeader (pdu_Header request) CommandSubmitSMResp (sample_serve request).1)
    (sample_serve request).2 (Some exchange_registry) []) in
  MkCall CommandSubmitSM n (AVal (VSubmitSM sample_submit)) fr p request response (decoded response).
Definition sample_calls : list call := [sample_call 1 1; sample_call 2 2].
Definition waiting_table : Table.pendingTable :=
  Table.MkTable 4 (<[1 := 1%positive]> {[2 := 2%positive]})
    (<[1%positive := Table.new_request CommandSubmitSM 0]> {[2%positive := Table.new_request CommandSubmitSM 0]})
    (Window.newRequestWindow 4) [].
Definition waiting_session : Session := set_table (c_session bound_caller) waiting_table.
Definition sample_receiver : receiver :=
  MkReceiver (MkFramer 1048576 [] 0 0 None) SMPP34Profile 8 false [] (Some (serving sample_serve))
    (fun s => (s, true)) (fun _ => 5) (fun _ n => n).
Definition sample_sender : sender :=
  MkSender 8 1000 5 5 false [MkRound id false 4 (fun p => (Z.min 3 (zlen p), None)) 9] sample_session newDeadlineManager.

Ltac carries_closed :=
  split; [vm_compute; reflexivity|vm_compute; repeat split; discriminate|by apply (bool_decide_unpack _)
         |apply (is_Some_b _); vm_compute; reflexivity|right; split; [reflexivity|vm_compute; exact I || reflexivity]|vm_compute; discriminate].

Lemma sample_calls_ok : Forall (call_ok exchange_registry sample_serve [] [] 1048576 1048576 sample_session) sample_calls.
Proof.
  apply Forall_cons; split; [|apply Forall_cons; split; [|constructor]];
    (split; [carries_closed|split_and!; vm_compute; reflexivity|carries_closed|split_and!; vm_compute; reflexivity
            |reflexivity|reflexivity|reflexivity|done]).
Qed.
Lemma sample_calls_wait : Forall (waits waiting_session) sample_calls.
Proof. apply Forall_cons; split; [|apply Forall_cons; split; [|constructor]]; (split; [reflexivity|by eexists]). Qed.

Definition request_queue : list queued := map (fun c => (waiting_table, call_item c)) sample_calls.
Definition answer_queue : list queued := map (fun c => (waiting_table, answer_item sample_serve c)) sample_calls.
Definition sample_wire (q : list queued) : bytes := octets (actives q).
(** One octet, then the rest. *)
Definition cut (s : bytes) : list bytes := [take 1 s; drop 1 s].
Lemma cut_concat s : concat (cut s) = s.
Proof. cbn. by rewrite app_nil_r, take_drop. Qed.

Lemma sample_sent q : q = request_queue \/ q = answer_queue -> transmits sample_sender q (sample_wire q).
Proof.
  intros Hq. split; [by constructor; [intros p; cbn; lia|constructor]|].
  destruct Hq as [-> | ->]; eexists; (split; [vm_compute; reflexivity|vm_compute; reflexivity]).
Qed.

Lemma exchange_completes_witness :
  exists fB' sB' fA' sA',
    receive_loop exchange_registry sample_receiver sample_session (cut (sample_wire request_queue)) = Ok (fB', sB', None) /\
    receive_loop exchange_registry sample_receiver waiting_session (cut (sample_wire answer_queue)) = Ok (fA', sA', None) /\
    receive (MkCaller sA' 0 3) 2 = Some (Ok (rpc_answer (sample_call 2 2))).
Proof.
  destruct (exchange_completes exchange_registry sample_serve [] sample_receiver sample_receiver sample_calls
    waiting_session sample_session sample_sender request_queue (sample_wire request_queue)
    (cut (sample_wire request_queue))) as (fB' & sB' & HB & _ & Hback).
  - by split; [|exists 0].
  - by split; [|exists 0].
  - reflexivity.
  - reflexivity.
  - done.
  - exact sample_calls_ok.
  - apply (bool_decide_unpack _). vm_compute. exact I.
  - apply (bool_decide_unpack _). vm_compute. exact I.
  - exact sample_calls_wait.
  - reflexivity.
  - apply sample_sent. by left.
  - apply cut_concat.
  - destruct (Hback sample_sender answer_queue (sample_wire answer_queue) (cut (sample_wire answer_queue)))
      as (fA' & sA' & HA & Hget); [reflexivity|apply sample_sent; by right|apply cut_concat|].
    exists fB', sB', fA', sA'. split_and!; [exact HB|exact HA|].
    apply (Hget (sample_call 2 2)). right. left.
Defined.

(** The connection breaks in the middle of the second frame. *)
Lemma link_delivers_witness :
  let reads := cut (take 80 (sample_wire request_queue)) in
  exists k f' s' e,
    rxLoop (Some exchange_registry) SMPP34Profile 8 false [] (Some (serving sample_serve)) (fun s => (s, true))
      (fun _ => 5) (fun _ n => n) (MkFramer 1048576 [] 0 0 None) sample_session reads = Ok (f', s', e) /\
    (e = None -> done s' = false -> concat reads = octets (take k (actives request_queue)) ++ pending f').
Proof.
  intros reads. destruct (sample_sent request_queue) as (Hw & st & Htx & Hwire); [by left|].
  destruct (link_delivers exchange_registry [] 8 1000 5 5 false (sd_rounds sample_sender) request_queue sample_session
    newDeadlineManager st [] Looping 0 (MkFramer 1048576 [] 0 0 None) SMPP34Profile 8 false []
    (Some (serving sample_serve)) (fun s => (s, true)) (fun _ => 5) (fun _ n => n) sample_session reads)
    as (k & f' & s' & e & Hl & _ & _ & Hall).
  - exact Hw.
  - exact Htx.
  - pose proof sample_calls_ok as Hc. apply Forall_cons in Hc as [H1 Hc]. apply Forall_cons in Hc as [H2 _].
    apply Forall_cons; split; [|apply Forall_cons; split; [|constructor]]; eexists; [apply H1|apply H2].
  - reflexivity.
  - reflexivity.
  - rewrite Hwire. unfold reads. rewrite cut_concat. apply prefix_take.
  - exists k, f', s', e. split; assumption.
Defined.
