(* ===== verification/Handshake.v ===== *)
(** * Binding and unbinding, between two sessions (src/session/rx.go, tx.go, negotiate.go)

    Exchange.v joins two sessions for messages.  Here the requests are those that change
    the sessions themselves: a bind, after which both are bound and agree on the version
    of the protocol, and an unbind, after which both are over.  What the transmit loop
    commits to the state machine before it writes a response is part of it. *)

From S2P Require Import Prelude Protocol Bodies Fields BodySpec Body34 Registry Pdu Framer StateMachine Pending Receive Deadline Transmit Requests Exchange.

(** ** What a transmit loop does to its session *)

(** The effect of [commit_item] on the machine. *)
Definition commit_machine (m : StateMachine) (item : txItem) : StateMachine :=
  match kind item with
  | txResponse => if negb (responseTo item =? 0) then CompleteInbound m (responseTo item) (status item) else m
  | _ => m
  end.
Lemma commit_items s l : machine (foldl commit_item s l) = foldl commit_machine (machine s) l /\
  peerCaps (foldl commit_item s l) = peerCaps s.
Proof.
  revert s. induction l as [|item l IH]; intros s; [done|]. cbn [foldl]. destruct (IH (commit_item s item)) as [-> ->].
  unfold commit_item, commit_machine. destruct (kind item); [done| |done]. by destruct (negb _).
Qed.

Section commits.
Context (items size response_timeout enquire_timeout : Z) (tcp : bool).

Lemma finish_batch_keeps now batch : forall st st',
  finish_batch response_timeout enquire_timeout now st batch = (st', false) ->
  machine (ts_session st') = machine (ts_session st) /\ peerCaps (ts_session st') = peerCaps (ts_session st).
Proof.
  induction batch as [|item batch IH]; intros st st' H; cbn [finish_batch] in H; [by injection H as <-|].
  destruct (kind item).
  - destruct (dispatch_request _ _ _ _ _ _) as [s d] eqn:Hd. apply IH in H as [-> ->]. cbn [ts_session].
    unfold dispatch_request in Hd. destruct (Table.markDispatched _ _) as [t [p|]]; [|by injection Hd as <- <-].
    destruct (responseTimeoutFor _ _ _). destruct (scheduleItemAt _ _ _ _ _ _). by injection Hd as <- <-.
  - destruct (txItemTerminatesAfterWrite item); [discriminate|]. by apply IH.
  - by apply IH in H.
Qed.

(** The other goroutines leave the state machine and the capabilities alone. *)
Definition quiet (rd : round) : Prop :=
  forall x, machine (rd_others rd x).1 = machine x.1 /\ peerCaps (rd_others rd x).1 = peerCaps x.1.

Lemma txLoop_commits rounds : Forall quiet rounds -> Forall (fun rd => writes_ok (rd_write rd)) rounds ->
  forall queue st st' rest,
  txLoop items size response_timeout enquire_timeout tcp rounds queue st = (st', rest, Looping) ->
  exists used, queue = used ++ rest /\
    machine (ts_session st') = foldl commit_machine (machine (ts_session st)) (actives used) /\
    peerCaps (ts_session st') = peerCaps (ts_session st).
Proof.
  intros Hq Hw. induction rounds as [|rd rounds IH]; intros queue st st' rest H; cbn [txLoop] in H.
  { injection H as <- <-. by exists []. }
  apply Forall_cons in Hq as [Hq1 Hq], Hw as [Hw1 Hw]. unfold tx_round in H.
  pose proof (Hq1 (ts_session st, ts_deadlines st)) as [Hm Hc].
  destruct (rd_others rd (ts_session st, ts_deadlines st)) as [s d]. cbn [fst] in Hm, Hc.
  destruct (rd_done rd); [discriminate|].
  destruct (next_batch_spec items size (take (rd_ready rd) queue)) as (used & rest1 & Hn & Hsplit & _). rewrite Hn in H.
  assert (Hqs : queue = used ++ rest1 ++ drop (rd_ready rd) queue) by (by rewrite app_assoc, <- Hsplit, take_drop).
  destruct (actives used) as [|item batch] eqn:Ha.
  - destruct (IH Hq Hw _ _ _ _ H) as (used2 & He & Hm2 & Hc2). exists (used ++ used2). cbn [ts_session] in *.
    rewrite Hqs, He, actives_app, Ha, Hm2, Hc2, Hm, Hc, app_assoc. done.
  - destruct (send_batch _ _ _ _ _ _ _ _) as [st1 status] eqn:Hs. destruct status; try discriminate.
    destruct (IH Hq Hw _ _ _ _ H) as (used2 & He & Hm2 & Hc2). exists (used ++ used2).
    rewrite Hqs at 1. rewrite He, actives_app, Ha, Hm2, Hc2, app_assoc, foldl_app. split; [done|].
    unfold send_batch in Hs. cbn [ts_session ts_deadlines ts_wire ts_told] in Hs.
    destruct (write_batch _ _ _ _) as [handed [[]|]]; try discriminate.
    destruct (finish_batch _ _ _ _ _) as [st2 ended] eqn:Hf. destruct ended; [discriminate|]. injection Hs as <-.
    apply finish_batch_keeps in Hf as [-> ->]. cbn [ts_session note_write machine peerCaps].
    destruct (commit_items s (item :: batch)) as [-> ->]. by rewrite Hm, Hc.
Qed.
End commits.

(** ** Versions *)

(** The view of the ESME of a bind that it sent with [version] and that was granted by an
    SMSC of [profile] with [optional] parameters of its own. *)
Definition granted_optional (profile : Profile) (version : Z) (optional : list OptionalParameter)
    : list OptionalParameter :=
  if (version =? InterfaceVersion34) || (version =? InterfaceVersion50)
  then optional ++ [MkOptionalParameter TLVTagSCInterfaceVersion [u8 (InterfaceVersion profile)]] else optional.
Definition esme_capabilities (local : Profile) (version : Z) (optional : list OptionalParameter) : PeerCapabilities :=
  let '(peerVersion, advertised) := match SCInterfaceVersion optional with Some v => (v, true) | None => (0, false) end in
  let '(localProfile, negotiable) := bindNegotiationProfile local version in
  NegotiatePeerCapabilities (if negotiable then localProfile else MkProfile 0) peerVersion advertised.

Definition untagged (optional : list OptionalParameter) : bool :=
  negb (existsb (fun p => op_Tag p =? TLVTagSCInterfaceVersion) optional).
Lemma untagged_version l p : untagged l = true -> SCInterfaceVersion (l ++ p) = SCInterfaceVersion p.
Proof.
  unfold untagged. induction l as [|x l IH]; [done|]. cbn [app existsb SCInterfaceVersion]. rewrite negb_orb.
  destruct (op_Tag x =? TLVTagSCInterfaceVersion); [done|]. apply IH.
Qed.

(** Both ends come to the same version and the same extensions. *)
Definition agree (a b : PeerCapabilities) : Prop :=
  NegotiatedVersion a = NegotiatedVersion b /\ SupportsTLV a = SupportsTLV b /\ SupportsSMPP50 a = SupportsSMPP50 b.

Lemma versions_agree local profile version optional :
  ProfileValid profile = true -> (version = InterfaceVersion50 -> IsSMPP50 local = true) -> untagged optional = true ->
  agree (esme_capabilities local version (granted_optional profile version optional))
    (NegotiatePeerCapabilities profile version true).
Proof.
  intros Hp Hl Hu. assert (Hpv : profile = SMPP34Profile \/ profile = SMPP50Profile).
  { destruct profile as [v]. unfold ProfileValid in Hp. cbn in Hp. apply orb_prop in Hp as [->%Z.eqb_eq| ->%Z.eqb_eq]; auto. }
  unfold granted_optional, esme_capabilities, bindNegotiationProfile, NegotiatePeerCapabilities at 2. rewrite Hp.
  destruct (Z.eqb_spec version InterfaceVersion34) as [-> |H34]; cbn [orb negb].
  - rewrite untagged_version by done. by destruct Hpv as [-> | ->].
  - destruct (Z.eqb_spec version InterfaceVersion50) as [-> |H50].
    + rewrite untagged_version, Hl by done. by destruct Hpv as [-> | ->].
    + rewrite <- (app_nil_r optional), untagged_version by done. done.
Qed.

(** ** A bind and its answer *)

Lemma bind_request_view command st seq q : isBindRequest command = true ->
  peer_view (MkHeader 0 command st seq) (AVal (VBindRequest q)) = Some (AVal (VBindRequest q)).
Proof. by intros [-> | [-> | ->]]%isBindRequest_cases. Qed.
Lemma bind_response_view h command b : isBindRequest command = true -> CommandID h = ResponseID command ->
  CommandStatus h = 0 -> peer_view h (AVal (VBindResponse b)) = Some (AVal (VBindResponse b)).
Proof.
  intros Hb Hid Hst. unfold peer_view, error_response. rewrite Hid, Hst.
  apply isBindRequest_cases in Hb as [-> | [-> | ->]]; done.
Qed.
Lemma bind_inv command : isBindRequest command = true ->
  IsResponse command = false /\ isOneWayCommand command = false /\ requiresSMPP50 command = false /\
  (command =? CommandUnbind) = false /\ (command =? CommandEnquireLink) = false /\
  IsStandardCommand command = true /\ (command =? CommandOutbind) = false.
Proof. by intros [-> | [-> | ->]]%isBindRequest_cases. Qed.

Section binding.
Context (r : Registry) `{!StandardRegistry r}.
Context (serve : DecodedPDU -> Z * any).

(** The body of the answer to [c] by a session of [profile]. *)
Definition bind_body (profile : Profile) (s : Session) (c : call) : any :=
  (negotiate_bind profile s (rpc_request c)
    (MkResponse (serve (rpc_request c)).1 (serve (rpc_request c)).2 ResponseImmediate)).2.

(** [c] is a bind with body [q] that the session [s] may get; both sides can send what
    they want to.  An application that grants it leaves sc_interface_version to the
    session. *)
Record bind_ok (stale stale' : bytes) (max max' : Z) (profile : Profile) (s : Session) (c : call)
    (q : BindRequest) : Prop := {
  bk_bind : isBindRequest (rpc_command c) = true;
  bk_body : rpc_body c = AVal (VBindRequest q);
  bk_carried : carries r stale max' (call_item c) (rpc_body c);
  bk_request : arrives r (call_item c) (rpc_body c) (rpc_request c);
  bk_answered : carries r stale' max (answer_item serve c) (bind_body profile s c);
  bk_answer : arrives r (answer_item serve c) (bind_body profile s c) (rpc_answer c);
  bk_sequence : ValidInbound (rpc_sequence c) = true;
  bk_state : CanIssue (sm_state (machine s)) (peer (sm_role (machine s))) (rpc_command c) = true;
  bk_idle : pendingPeerBind (machine s) = 0;
  bk_granted : OK (serve (rpc_request c)).1 = true ->
    exists b, (serve (rpc_request c)).2 = AVal (VBindResponse b) /\ untagged (brs_Optional b) = true
}.

(** The bind waits in the table of the ESME, which may negotiate the version it offers. *)
Record bind_waits (profile : Profile) (s : Session) (c : call) (q : BindRequest) (p : Table.pendingRequest) : Prop := {
  bw_entry : Table.m (table s) !! rpc_sequence c = Some (rpc_owner c);
  bw_request : Table.reqs (table s) !! rpc_owner c = Some p;
  bw_id : Table.requestID p = rpc_command c;
  bw_expected : Table.expectedID p = ResponseID (rpc_command c);
  bw_open : Table.pdone p = [];
  bw_version : Table.bindVersion p = brq_InterfaceVersion q;
  bw_begun : pendingLocalBind (machine s) = rpc_command c;
  bw_offer : brq_InterfaceVersion q = InterfaceVersion50 -> IsSMPP50 profile = true
}.

Section serving.
Context (profile : Profile) (limit : Z) (flow : bool) (stale stale' : bytes) (max max' : Z).

Lemma bind_decoded s c q : bind_ok stale stale' max max' profile s c q ->
  CommandID (pdu_Header (rpc_request c)) = rpc_command c /\
  SequenceNumber (pdu_Header (rpc_request c)) = rpc_sequence c /\ pdu_Body (rpc_request c) = AVal (VBindRequest q).
Proof.
  intros [Hb Hq _ (_ & Hh & Hv) _ _ _ _ _ _]. rewrite Hh. split_and!; [done..|].
  rewrite Hq in Hv. cbn [call_item request_item header] in Hv. rewrite bind_request_view in Hv by done.
  by apply (base.inj Some) in Hv.
Qed.

(** The request leaves the bind pending until its answer is written. *)
Lemma bind_served s now c q : bind_ok stale stale' max max' profile s c q -> exists s',
  processFrame (Some r) profile limit flow stale' (Some (serving serve)) (fun s => (s, true)) now s (rpc_frame c) =
    (s', Ok tt) /\
  tx s' = tx s ++ [(ByReceiver, answer_item serve c)] /\ done s' = done s /\
  machine s' = set_peerBind (machine s) (rpc_command c) /\
  peerCaps s' = if OK (serve (rpc_request c)).1 then NegotiatePeerCapabilities profile (brq_InterfaceVersion q) true
                else peerCaps s.
Proof.
  intros Hok. pose proof (bind_decoded _ _ _ Hok) as (Hid & Hsq & Hbody).
  destruct Hok as [Hb _ Hc (Hdec & _) Ha _ Hseq Hst Hidle _].
  destruct (bind_inv _ Hb) as (H1 & H2 & H50 & Hu & He & Hs & Ho).
  unfold processFrame. change (frame (call_item c)) with (rpc_frame c) in Hdec. rewrite Hdec.
  unfold handleRequest. rewrite Hid, H1, Hsq, Hseq, H50. cbn [negb andb].
  destruct (ca_known _ _ _ _ _ Hc) as [def Hdef]. change (CommandID (header (call_item c))) with (rpc_command c) in Hdef.
  rewrite Hdef. unfold beginInbound. rewrite Hs. cbn [BeginInbound note_inbound machine].
  rewrite Hst, Hb, Hidle, Hu, Ho. cbn [negb andb Z.eqb mbind outcome_bind]. rewrite H2.
  unfold respond_to. rewrite Hid, He, Hu. cbn [orb]. unfold callHandler, Exchange.serving.
  cbn [rsp_Action rsp_Status rsp_Body Z.eqb negb ResponseImmediate].
  pose proof (ca_encoded _ _ _ _ _ Ha) as Henc.
  change (header (answer_item serve c)) with
    (ResponseHeader (pdu_Header (rpc_request c)) (ResponseID (rpc_command c)) (serve (rpc_request c)).1) in Henc.
  change (frame (answer_item serve c)) with (rpc_response c) in Henc.
  unfold bind_body in Henc. unfold negotiate_bind in Henc |- *. rewrite Hid, Hb, Hbody in Henc. rewrite Hid, Hb, Hbody.
  cbn [rsp_Status rsp_Body] in *.
  rewrite andb_true_r in *. unfold queue_answer, queueResponse. rewrite Hid.
  destruct (OK (serve (rpc_request c)).1); [destruct (_ || _)|]; cbn [snd] in Henc; rewrite Henc; by eexists.
Qed.
End serving.

(** The body of the answer to a bind that was granted. *)
Lemma bind_granted profile s c q b : isBindRequest (rpc_command c) = true ->
  CommandID (pdu_Header (rpc_request c)) = rpc_command c -> pdu_Body (rpc_request c) = AVal (VBindRequest q) ->
  OK (serve (rpc_request c)).1 = true -> (serve (rpc_request c)).2 = AVal (VBindResponse b) ->
  untagged (brs_Optional b) = true ->
  bind_body profile s c = AVal (VBindResponse (MkBindResponse (brs_SystemID b)
    (granted_optional profile (brq_InterfaceVersion q) (brs_Optional b)))).
Proof.
  intros Hb Hid Hbody Hok Hs Hu. unfold bind_body, negotiate_bind, granted_optional. cbn [rsp_Status rsp_Body].
  rewrite Hok, Hid, Hb, Hbody, Hs. cbn [andb]. destruct (_ || _); cbn [snd ensureSCInterfaceVersion].
  - unfold appendIfMissing. unfold untagged in Hu. apply negb_true_iff in Hu. by rewrite Hu.
  - by destruct b.
Qed.

(** *** The ESME *)

Section answered.
Context (profile profile' : Profile) (flow : bool) (stale stale' : bytes) (max max' : Z).
Context (limit : Z) (spare : bytes) (handler : option (Session -> DecodedPDU -> Session * res Response)).
Context (select_tx : Session -> Session * bool).

Lemma bind_answer_header s c q : bind_ok stale stale' max max' profile' s c q ->
  CommandID (pdu_Header (rpc_answer c)) = ResponseID (rpc_command c) /\
  SequenceNumber (pdu_Header (rpc_answer c)) = rpc_sequence c /\
  CommandStatus (pdu_Header (rpc_answer c)) = (serve (rpc_request c)).1.
Proof.
  intros Hok. destruct (bind_decoded _ _ _ _ _ _ _ _ Hok) as (_ & Hsq & _).
  destruct (bk_answer _ _ _ _ _ _ _ _ Hok) as (_ & Ha & _). rewrite Ha. done.
Qed.

Lemma bind_answered sB s now c q p : bind_ok stale stale' max max' profile' sB c q ->
  ProfileValid profile' = true -> bind_waits profile s c q p -> exists s',
  processFrame (Some r) profile limit flow spare handler select_tx now s (rpc_response c) = (s', Ok tt) /\
  settled s' c /\ done s' = done s /\
  machine s' = CompleteOutbound (machine s) (rpc_command c) (serve (rpc_request c)).1 /\
  (OK (serve (rpc_request c)).1 = true ->
   agree (peerCaps s') (NegotiatePeerCapabilities profile' (brq_InterfaceVersion q) true)).
Proof.
  intros Hok Hv [Hm Hp Hid Hex Hpd Hver _ Hoffer].
  destruct (bind_answer_header _ _ _ Hok) as (Hcmd & Hseq & Hst).
  destruct (bind_decoded _ _ _ _ _ _ _ _ Hok) as (Hrid & _ & Hbody).
  destruct (bk_answer _ _ _ _ _ _ _ _ Hok) as (Hdec & _ & Hview).
  pose proof (bk_bind _ _ _ _ _ _ _ _ Hok) as Hb. destruct (bind_inv _ Hb) as (_ & _ & _ & Hu & _).
  change (frame (answer_item serve c)) with (rpc_response c) in Hdec.
  unfold processFrame. rewrite Hdec, Hcmd, IsResponse_ResponseID.
  destruct (response_taken profile flow (note_inbound s now) c p now Hm Hp Hid Hex Hpd Hcmd Hseq)
    as (s' & [Hset Hd _ _ _ _ Hma Hcap] & ->). rewrite Hu. cbn [andb].
  exists s'. split; [done|]. rewrite Hma, Hst. split_and!; [done..|]. intros HOK.
  destruct Hcap as (p' & s0 & Hid' & Hver' & _ & ->).
  destruct (bk_granted _ _ _ _ _ _ _ _ Hok HOK) as (b & Hs & Hun).
  rewrite (bind_granted _ _ _ q b) in Hview by done.
  rewrite (bind_response_view _ (rpc_command c)) in Hview; [|done|done|by apply Z.eqb_eq in HOK].
  apply (base.inj Some) in Hview. unfold negotiate_response. rewrite Hst, HOK, Hid', Hb, <- Hview. cbn [andb brs_Optional].
  rewrite Hver', Hver. pose proof (versions_agree profile profile' (brq_InterfaceVersion q) (brs_Optional b) Hv Hoffer Hun) as Hag.
  unfold esme_capabilities in Hag. destruct (SCInterfaceVersion _); by destruct (bindNegotiationProfile _ _).
Qed.
End answered.
End binding.

(** *** The two ends *)

(** The transmit loop of [p] has sent all of [queue], beside goroutines that leave its
    machine and its capabilities alone, and stands at [st]. *)
Definition sends (p : sender) (queue : list queued) (st : txState) : Prop :=
  Forall (fun rd => writes_ok (rd_write rd)) (sd_rounds p) /\ Forall quiet (sd_rounds p) /\
  txLoop (sd_items p) (sd_size p) (sd_ResponseTimeout p) (sd_EnquireLinkTimeout p) (sd_tcp p)
    (sd_rounds p) queue (MkTx (sd_session p) (sd_deadlines p) [] []) = (st, [], Looping).

Lemma sends_commits p queue st : sends p queue st ->
  ts_wire st = octets (actives queue) /\
  machine (ts_session st) = foldl commit_machine (machine (sd_session p)) (actives queue) /\
  peerCaps (ts_session st) = peerCaps (sd_session p).
Proof.
  intros (Hw & Hq & Htx). split.
  - apply (transmits_octets p). split; [done|]. by exists st.
  - destruct (txLoop_commits _ _ _ _ _ _ Hq Hw _ _ _ _ Htx) as (used & -> & Hm & Hc). by rewrite app_nil_r.
Qed.

(** A receive loop that gets one frame, in pieces, and takes it; the session may be over
    then. *)
Lemma frame_received r p s fr s' reads : fresh p -> self_delimiting (maxPDUSize (rc_framer p)) fr ->
  done s = false -> concat reads = fr ->
  processFrame (Some r) (rc_profile p) (rc_limit p) (rc_flow p) (rc_stale p) (rc_handler p) (rc_select p)
    (rc_clock p s) s fr = (s', Ok tt) ->
  exists f', receive_loop r p s reads = Ok (f', s', None).
Proof.
  intros [_ [max Hn]] Hself Hd Hr Hp. destruct (NewFramer_wf max _ Hn) as (Hwf & Hnc & Hf & Hpend & _).
  destruct (rxLoop_frames (Some r) (rc_profile p) (rc_limit p) (rc_flow p) (rc_stale p) (rc_handler p) (rc_select p)
    (rc_clock p) (rc_grow p) (rc_framer p) s reads Hwf Hnc Hf) as (n & f' & s1 & e & Hl & Hdone & _ & Hcase).
  rewrite Hpend in Hcase. cbn [app] in Hcase.
  assert (Hpn : concat (take n reads) `prefix_of` concat [fr]).
  { cbn [concat]. rewrite app_nil_r, <- Hr. rewrite <- (take_drop n reads) at 2. rewrite concat_app. by apply prefix_app_r. }
  destruct (deframe_prefix _ [fr] ltac:(by constructor) _ Hpn) as (k & tl & Hdf & _ & Hall). rewrite Hdf in Hcase.
  exists f'. unfold receive_loop. rewrite Hl. destruct k as [|k].
  - cbn in Hcase. destruct Hcase as (-> & -> & _). exfalso.
    destruct (decide (n < length reads)%nat) as [Hlt|Hge]; [destruct (Hdone Hlt); congruence|].
    rewrite take_ge, Hr in Hall by lia. destruct Hall as [_ Hk]; [cbn; by rewrite app_nil_r|cbn in Hk; lia].
  - rewrite take_ge in Hcase by (cbn; lia). cbn [run_frames] in Hcase. unfold Framer.call, rx_callback in Hcase.
    rewrite Hp in Hcase. destruct Hcase as (-> & -> & _). done.
Qed.

(** What the two sessions are when the bind [command] is over: [sA] and [sB] were they. *)
Record bind_over (granted : bool) (command : Z) (sA sB sA' sB' : Session) : Prop := {
  bo_local : pendingLocalBind (machine sA') = 0;
  bo_peer : pendingPeerBind (machine sB') = 0;
  bo_bound : granted = true ->
    sm_state (machine sA') = boundStateForBind command /\ sm_state (machine sB') = boundStateForBind command;
  bo_agree : granted = true -> agree (peerCaps sA') (peerCaps sB');
  bo_issue : granted = true -> forall id,
    CanIssue (sm_state (machine sA')) (sm_role (machine sA')) id =
      CanIssue (sm_state (machine sB')) (peer (sm_role (machine sB'))) id /\
    CanIssue (sm_state (machine sB')) (sm_role (machine sB')) id =
      CanIssue (sm_state (machine sA')) (peer (sm_role (machine sA'))) id;
  bo_refused : granted = false ->
    sm_state (machine sA') = sm_state (machine sA) /\ sm_state (machine sB') = sm_state (machine sB) /\
    peerCaps sB' = peerCaps sB
}.

Lemma bind_commits serve c m : isBindRequest (rpc_command c) = true ->
  CommandID (pdu_Header (rpc_request c)) = rpc_command c ->
  commit_machine m (answer_item serve c) = CompleteInbound m (rpc_command c) (serve (rpc_request c)).1.
Proof.
  intros Hb Hid. unfold commit_machine, answer_item, response_item. cbn [kind responseTo Receive.status]. rewrite Hid.
  by apply isBindRequest_cases in Hb as [-> | [-> | ->]].
Qed.

Lemma bind_completes command status sA sB sA' sB' : isBindRequest command = true ->
  sm_role (machine sA) = peer (sm_role (machine sB)) -> pendingLocalBind (machine sA) = command ->
  machine sA' = CompleteOutbound (machine sA) command status ->
  machine sB' = CompleteInbound (set_peerBind (machine sB) command) command status ->
  (OK status = true -> agree (peerCaps sA') (peerCaps sB')) -> (OK status = false -> peerCaps sB' = peerCaps sB) ->
  bind_over (OK status) command sA sB sA' sB'.
Proof.
  intros Hb Hr Hl HA HB Hag Href.
  unfold CompleteOutbound in HA. unfold CompleteInbound in HB. cbn [set_peerBind pendingPeerBind] in HB.
  rewrite Hb, Hl, Z.eqb_refl in HA. rewrite Hb, Z.eqb_refl in HB. cbn [negb] in HA, HB.
  split; rewrite ?HA, ?HB; destruct (OK status); cbn; try done; auto.
  intros _ id. rewrite Hr, peer_peer. done.
Qed.


(** ** An unbind and its answer *)

(** The session is over, in good order: nobody waits any more and no error is reported. *)
Record closed_in_order (s : Session) : Prop := {
  ci_done : done s = true;
  ci_error : closeErr s = Some (ESentinel ErrSessionClosed);
  ci_state : sm_state (machine s) = StateClosed;
  ci_table : Table.m (table s) = ∅;
  ci_deferred : deferredReplies s = ∅
}.

Lemma fail_each t requests e : let t' := foldl (fun t p => Table.send_done (Table.finish t p) p (Table.MkResult None (Some e))) t requests in
  Table.m t' = Table.m t /\ forall p, p ∉ requests -> Table.reqs t' !! p = Table.reqs t !! p.
Proof.
  revert t. induction requests as [|p0 requests IH]; intros t; cbn [foldl]; [done|].
  specialize (IH (Table.send_done (Table.finish t p0) p0 (Table.MkResult None (Some e)))). cbv zeta in *.
  destruct IH as [-> IH]. split.
  - unfold Table.send_done, Table.finish. destruct (Table.reqs t !! p0) as [q|] eqn:Hq; [|by rewrite Hq].
    destruct (Table.finished q); [rewrite Hq; done|]. cbn. rewrite lookup_insert_eq. done.
  - intros p [Hne Hp]%not_elem_of_cons. rewrite IH by done. unfold Table.send_done, Table.finish.
    destruct (Table.reqs t !! p0) as [q|] eqn:Hq; [|by rewrite Hq].
    destruct (Table.finished q); [rewrite Hq; cbn; by rewrite lookup_insert_ne|].
    cbn. rewrite lookup_insert_eq. cbn. by rewrite !lookup_insert_ne.
Qed.

Lemma terminate_in_order s : closeErr s = None -> closed_in_order (terminate s (ESentinel ErrSessionClosed)).
Proof. intros H. unfold terminate. rewrite H. split; [done..| |done]. cbn [table]. by apply fail_each. Qed.

(** Who has its answer keeps it. *)
Lemma terminate_settled s c e : (forall seq, Table.m (table s) !! seq <> Some (rpc_owner c)) ->
  settled s c -> settled (terminate s e) c.
Proof.
  intros Hno (q & Hq & Hd). exists q. split; [|done]. unfold terminate. destruct (closeErr s); [done|]. cbn [table].
  unfold Table.failAll. rewrite (proj2 (fail_each _ _ _)); [done|].
  intros ([seq p] & He & Hin)%list_elem_of_fmap. cbn in He. subst p. apply elem_of_map_to_list in Hin. by apply (Hno seq).
Qed.

Section unbound.
Context (items size response_timeout enquire_timeout : Z) (tcp : bool).

(** Nobody else ends the session. *)
Definition undisturbed (rd : round) : Prop := forall x, closeErr (rd_others rd x).1 = closeErr x.1.

Lemma finish_batch_ends now batch : forall st, closeErr (ts_session st) = None ->
  let '(st', ended) := finish_batch response_timeout enquire_timeout now st batch in
  if ended then closed_in_order (ts_session st') else closeErr (ts_session st') = None.
Proof.
  induction batch as [|item batch IH]; intros st Hst; cbn [finish_batch]; [done|]. destruct (kind item).
  - destruct (dispatch_request _ _ _ _ _ _) as [s d] eqn:Hd. apply IH. cbn [ts_session].
    unfold dispatch_request in Hd. destruct (Table.markDispatched _ _) as [t [p|]]; [|by injection Hd as <- <-].
    destruct (responseTimeoutFor _ _ _). destruct (scheduleItemAt _ _ _ _ _ _). by injection Hd as <- <-.
  - destruct (txItemTerminatesAfterWrite item); [by apply terminate_in_order|by apply IH].
  - by apply IH.
Qed.

Lemma commit_keeps s l : closeErr (foldl commit_item s l) = closeErr s.
Proof.
  revert s. induction l as [|item l IH]; intros s; [done|]. cbn [foldl]. rewrite IH.
  unfold commit_item. destruct (kind item); [done| |done]. by destruct (negb _).
Qed.

Lemma txLoop_ends rounds : Forall undisturbed rounds -> forall queue st st' rest,
  closeErr (ts_session st) = None ->
  txLoop items size response_timeout enquire_timeout tcp rounds queue st = (st', rest, Unbound_) ->
  closed_in_order (ts_session st').
Proof.
  intros Hu. induction rounds as [|rd rounds IH]; intros queue st st' rest Hst H; cbn [txLoop] in H; [discriminate|].
  apply Forall_cons in Hu as [Hu1 Hu]. unfold tx_round in H.
  pose proof (Hu1 (ts_session st, ts_deadlines st)) as Hs. destruct (rd_others rd _) as [s d]. cbn [fst] in Hs.
  rewrite Hst in Hs. destruct (rd_done rd); [discriminate|]. destruct (next_batch _ _ _) as [[|item batch] rest1].
  { by apply (IH Hu) in H. }
  destruct (send_batch _ _ _ _ _ _ _ _) as [st1 status] eqn:Hsb. unfold send_batch in Hsb.
  destruct (write_batch _ _ _ _) as [handed [[]|]]; [|injection Hsb as <- <-; discriminate..].
  match type of Hsb with context [finish_batch _ _ ?now ?x ?b] => pose proof (finish_batch_ends now b x) as Hf end.
  cbn [ts_session note_write closeErr] in Hf. rewrite commit_keeps in Hf. specialize (Hf Hs).
  destruct (finish_batch _ _ _ _ _) as [st2 ended]. destruct ended; injection Hsb as <- <-.
  - by injection H as <- <-.
  - by apply (IH Hu) in H.
Qed.
End unbound.

(** The session answers an unbind itself. *)
Definition accepts_unbind (pdu : DecodedPDU) : Z * any := (StatusOK, AVal VEmptyBody).
Abbreviation unbind_answer := (answer_item accepts_unbind).

Section unbinding.
Context (r : Registry) `{!StandardRegistry r}.

Record unbind_ok (stale stale' : bytes) (max max' : Z) (s : Session) (c : call) : Prop := {
  uk_unbind : rpc_command c = CommandUnbind;
  uk_carried : carries r stale max' (call_item c) (rpc_body c);
  uk_request : arrives r (call_item c) (rpc_body c) (rpc_request c);
  uk_answered : carries r stale' max (unbind_answer c) (AVal VEmptyBody);
  uk_answer : arrives r (unbind_answer c) (AVal VEmptyBody) (rpc_answer c);
  uk_sequence : ValidInbound (rpc_sequence c) = true;
  uk_bound : is_bound (sm_state (machine s)) = true;
  uk_role : Role_valid (sm_role (machine s)) = true
}.

(** The unbind waits, for nobody else. *)
Record unbind_waits (s : Session) (c : call) : Prop := {
  uw_waits : waits s c;
  uw_alone seq : Table.m (table s) !! seq = Some (rpc_owner c) -> seq = rpc_sequence c;
  uw_running : closeErr s = None
}.

Lemma unbind_served profile limit flow stale stale' handler max max' s now c :
  unbind_ok stale stale' max max' s c -> exists s',
  processFrame (Some r) profile limit flow stale' handler (fun s => (s, true)) now s (rpc_frame c) = (s', Ok tt) /\
  tx s' = tx s ++ [(ByReceiver, unbind_answer c)] /\ closeErr s' = closeErr s /\
  sm_state (machine s') = StateUnbound.
Proof.
  intros [Hcmd Hc (Hdec & Hh & _) Ha _ Hseq Hst Hr]. unfold processFrame.
  change (frame (call_item c)) with (rpc_frame c) in Hdec. rewrite Hdec.
  assert (Hid : CommandID (pdu_Header (rpc_request c)) = CommandUnbind) by by rewrite Hh, <- Hcmd.
  assert (Hsq : SequenceNumber (pdu_Header (rpc_request c)) = rpc_sequence c) by by rewrite Hh.
  unfold handleRequest. rewrite Hid, Hsq, Hseq. cbn [negb].
  destruct (ca_known _ _ _ _ _ Hc) as [def Hdef]. change (CommandID (header (call_item c))) with (rpc_command c) in Hdef.
  rewrite Hcmd in Hdef. rewrite Hdef.
  assert (Hcan : CanIssue (sm_state (machine s)) (peer (sm_role (machine s))) CommandUnbind = true)
    by (destruct (sm_state (machine s)), (sm_role (machine s)); done).
  change (requiresSMPP50 CommandUnbind) with false. change (isOneWayCommand CommandUnbind) with false.
  change (IsResponse CommandUnbind) with false.
  unfold beginInbound. cbn [andb]. change (IsStandardCommand CommandUnbind) with true. cbv iota.
  cbn [BeginInbound note_inbound machine]. rewrite Hcan. cbn [negb].
  change (isBindRequest CommandUnbind) with false. change (CommandUnbind =? CommandUnbind) with true.
  change (CommandUnbind =? CommandOutbind) with false. cbn [andb mbind outcome_bind].
  unfold respond_to. rewrite Hid. change (CommandUnbind =? CommandUnbind) with true. rewrite orb_true_r.
  cbn [rsp_Action rsp_Status rsp_Body Z.eqb negb ResponseImmediate].
  unfold negotiate_bind. rewrite Hid. change (isBindRequest CommandUnbind) with false. rewrite andb_false_r.
  unfold queue_answer, queueResponse. rewrite Hid. cbn [rsp_Status rsp_Body].
  pose proof (ca_encoded _ _ _ _ _ Ha) as He.
  change (header (unbind_answer c)) with
    (ResponseHeader (pdu_Header (rpc_request c)) (ResponseID (rpc_command c)) StatusOK) in He.
  change (frame (unbind_answer c)) with (rpc_response c) in He. rewrite Hcmd in He. rewrite He.
  eexists. split; [done|]. unfold answer_item. rewrite Hcmd. done.
Qed.

Lemma unbind_completed profile limit flow stale stale' handler select_tx max max' spare sB s now c :
  unbind_ok stale stale' max max' sB c -> unbind_waits s c -> exists s',
  processFrame (Some r) profile limit flow spare handler select_tx now s (rpc_response c) = (s', Ok tt) /\
  settled s' c /\ closed_in_order s'.
Proof.
  intros [Hcmd _ (_ & Hh & _) _ (Hdec & Ha & _) _ _ _] [(Hm & q & Hq & Hid & Hex & Hpd) Halone Hrun].
  change (frame (unbind_answer c)) with (rpc_response c) in Hdec. unfold processFrame. rewrite Hdec.
  assert (Hid' : CommandID (pdu_Header (rpc_answer c)) = ResponseID (rpc_command c)) by by rewrite Ha.
  assert (Hsq : SequenceNumber (pdu_Header (rpc_answer c)) = rpc_sequence c).
  { rewrite Ha. cbn [with_length SequenceNumber]. cbn. by rewrite Hh. }
  assert (Hst : CommandStatus (pdu_Header (rpc_answer c)) = StatusOK) by by rewrite Ha.
  rewrite Hid', IsResponse_ResponseID.
  destruct (response_taken profile flow (note_inbound s now) c q now Hm Hq Hid Hex Hpd Hid' Hsq)
    as (s' & [Hset _ Hcl Hentry Hother _ _ _] & ->). rewrite Hcmd, Hst. cbn [note_inbound closeErr table] in *.
  change (CommandUnbind =? CommandUnbind) with true. change (OK StatusOK) with true. cbn [andb].
  eexists. split_and!; [done| |by apply terminate_in_order; rewrite Hcl].
  apply terminate_settled; [|done]. intros seq Hs. destruct (decide (seq = rpc_sequence c)) as [-> |Hne].
  - by rewrite Hentry in Hs.
  - rewrite Hother in Hs by done. by apply Halone in Hs.
Qed.
End unbinding.

(** C4: An unbind ends both sessions in good order.  A session has sent an unbind and
    waits for the answer.  However the request and the answer are written and cut on the
    way, the peer accepts it without asking its application, writes the answer after all
    that it had queued before, and is then over; unless that write fails the answer
    reaches the caller, and the session that unbound is over as well.  Neither ends with
    an error, and nobody is left waiting on either side. *)
Theorem unbind_handshake r `{!StandardRegistry r} stale A B c sA sB pA queueA wireA readsB :
  fresh A -> fresh B -> done sA = false -> done sB = false -> closeErr sB = None ->
  (rc_select B = fun s => (s, true)) ->
  unbind_ok r stale (rc_stale B) (maxPDUSize (rc_framer A)) (maxPDUSize (rc_framer B)) sB c -> unbind_waits sA c ->
  actives queueA = [call_item c] -> transmits pA queueA wireA -> concat readsB = wireA ->
  exists fB' sB', receive_loop r B sB readsB = Ok (fB', sB', None) /\
    tx sB' = tx sB ++ [(ByReceiver, unbind_answer c)] /\
    forall pB before queueB st status, actives queueB = before ++ [unbind_answer c] -> sd_session pB = sB' ->
    Forall (fun rd => writes_ok (rd_write rd)) (sd_rounds pB) -> Forall undisturbed (sd_rounds pB) ->
    txLoop (sd_items pB) (sd_size pB) (sd_ResponseTimeout pB) (sd_EnquireLinkTimeout pB) (sd_tcp pB) (sd_rounds pB)
      queueB (MkTx (sd_session pB) (sd_deadlines pB) [] []) = (st, [], status) ->
    (exists e, status = WriteFailed e) \/
    status = Unbound_ /\ closed_in_order (ts_session st) /\ ts_wire st = octets before ++ rpc_response c /\
    forall readsA, concat readsA = rpc_response c ->
    exists fA' sA', receive_loop r A sA readsA = Ok (fA', sA', None) /\ closed_in_order sA' /\
      forall v n, receive (MkCaller sA' v n) (rpc_owner c) = Some (Ok (rpc_answer c)).
Proof.
  intros HA HB HdA HdB HcB Hsel Hok Hw HqA HtA HrB. pose proof HA as [HmA _]. pose proof HB as [HmB _].
  apply transmits_octets in HtA. rewrite HqA in HtA.
  destruct (carries_arrives r _ _ _ _ HmB (uk_carried _ _ _ _ _ _ _ Hok)) as [HselfB _].
  destruct (carries_arrives r _ _ _ _ HmA (uk_answered _ _ _ _ _ _ _ Hok)) as [HselfA _].
  destruct (unbind_served r (rc_profile B) (rc_limit B) (rc_flow B) _ _ (rc_handler B) _ _ sB (rc_clock B sB) c Hok)
    as (sB' & HsB & Htx & HcB' & _).
  destruct (frame_received r B sB (rpc_frame c) sB' readsB HB HselfB HdB) as (fB' & HrunB);
    [by rewrite HrB, HtA; cbn; rewrite app_nil_r|by rewrite Hsel|].
  exists fB', sB'. split_and!; [done..|]. intros pB before queueB st status HqB HpB Hwr Hu Hloop.
  pose proof (txLoop_wrote (sd_items pB) (sd_size pB) (sd_ResponseTimeout pB) (sd_EnquireLinkTimeout pB) (sd_tcp pB)
    (sd_rounds pB) Hwr queueB (MkTx (sd_session pB) (sd_deadlines pB) [] [])) as H. rewrite Hloop in H.
  destruct H as (used & Hused & H). rewrite app_nil_r in Hused. subst used. rewrite HqB in H.
  assert (Hlast : ~ goes_on (unbind_answer c)).
  { unfold goes_on, txItemTerminatesAfterWrite, answer_item, response_item. cbn [kind responseTo Receive.status accepts_unbind fst].
    destruct (uk_request _ _ _ _ _ _ _ Hok) as (_ & Hh & _). rewrite Hh.
    cbn [with_length CommandID call_item request_item header]. rewrite (uk_unbind _ _ _ _ _ _ _ Hok). done. }
  destruct status as [| | |e|]; [| | |by left; exists e|done]; cbn [wrote] in H.
  1, 2: destruct H as [H _]; apply Forall_app in H as [_ H]; apply Forall_cons in H as [H _]; done.
  right. destruct H as (_ & Hwire & _ & _). split_and!; [done| |by rewrite Hwire, octets_app; cbn; rewrite app_nil_r|].
  { apply (txLoop_ends _ _ _ _ _ _ Hu _ _ _ _) in Hloop; [done|]. cbn [ts_session]. by rewrite HpB, HcB'. }
  intros readsA HrA.
  destruct (unbind_completed r (rc_profile A) (rc_limit A) (rc_flow A) _ _ (rc_handler A) (rc_select A) _ _ (rc_stale A)
    sB sA (rc_clock A sA) c Hok Hw) as (sA' & HsA & Hset & Hover).
  destruct (frame_received r A sA (rpc_response c) sA' readsA HA HselfA HdA HrA HsA) as (fA' & HrunA).
  exists fA', sA'. split_and!; [done..|]. intros v n. destruct Hset as (q' & Hq' & Hd').
  unfold receive. cbn [c_session]. by rewrite Hq', Hd'.
Qed.

(** ** An ESME of version 3.4 binds at an SMSC of version 5.0, and unbinds *)

Definition shake_open (role : Role) (pending : Z) (t : Table.pendingTable) : Session :=
  MkSession (MkStateMachine role StateOpen pending 0 StateClosed StateClosed) t zeroCapabilities [] ∅ None false 0 0 [].
Definition shake_smsc : Session := shake_open RoleSMSC 0 (Table.newPendingTable 4 (Window.newRequestWindow 2)).
Definition shake_table (command version : Z) : Table.pendingTable :=
  Table.MkTable 4 {[1 := 1%positive]} {[1%positive := Table.new_request command version]} (Window.newRequestWindow 4) [].
Definition shake_esme : Session :=
  shake_open RoleESME CommandBindTransceiver (shake_table CommandBindTransceiver InterfaceVersion34).
Definition shake_bind : BindRequest := MkBindRequest [97] [98] [] InterfaceVersion34 0 0 [].
Definition shake_serve (pdu : DecodedPDU) : Z * any := (StatusOK, AVal (VBindResponse (MkBindResponse [99] []))).
Definition shake_call (command : Z) (body answer : any) : call :=
  let fr := octets_of (encoded (Some exchange_registry) [] command 1 body) in
  let request := decoded fr in
  let response := octets_of (EncodePDU [] (ResponseHeader (pdu_Header request) (ResponseID command) StatusOK)
    answer (Some exchange_registry) []) in
  MkCall command 1 body fr 1 request response (decoded response).
Definition bind_call : call :=
  shake_call CommandBindTransceiver (AVal (VBindRequest shake_bind))
    (AVal (VBindResponse (MkBindResponse [99] (granted_optional SMPP50Profile InterfaceVersion34 [])))).
Definition unbind_call : call := shake_call CommandUnbind (AVal VEmptyBody) (AVal VEmptyBody).
Definition shake_receiver (profile : Profile) : receiver :=
  MkReceiver (MkFramer 1048576 [] 0 0 None) profile 8 false [] (Some (serving shake_serve))
    (fun s => (s, true)) (fun _ => 5) (fun _ n => n).
Definition shake_sender (s : Session) : sender :=
  MkSender 8 1000 5 5 false [MkRound id false 4 (fun p => (Z.min 3 (zlen p), None)) 9] s newDeadlineManager.
Definition shake_queue (item : txItem) : list queued := [(shake_table CommandUnbind 0, item)].

Lemma bind_call_body : bind_body shake_serve SMPP50Profile shake_smsc bind_call =
  AVal (VBindResponse (MkBindResponse [99] (granted_optional SMPP50Profile InterfaceVersion34 []))).
Proof. vm_compute. reflexivity. Qed.
Lemma bind_call_ok : bind_ok exchange_registry shake_serve [] [] 1048576 1048576 SMPP50Profile shake_smsc bind_call shake_bind.
Proof.
  split; rewrite ?bind_call_body; [reflexivity|reflexivity|carries_closed|split_and!; vm_compute; reflexivity
    |carries_closed|split_and!; vm_compute; reflexivity|reflexivity..|].
  intros _. by exists (MkBindResponse [99] []).
Qed.
Lemma bind_call_waits : bind_waits SMPP34Profile shake_esme bind_call shake_bind (Table.new_request CommandBindTransceiver InterfaceVersion34).
Proof. by split. Qed.
Lemma shake_rounds s : Forall (fun rd => writes_ok (rd_write rd)) (sd_rounds (shake_sender s)).
Proof. by constructor; [intros p; cbn; lia|constructor]. Qed.
Lemma shake_sent c : c = bind_call \/ c = unbind_call ->
  transmits (shake_sender sample_session) (shake_queue (call_item c)) (rpc_frame c).
Proof.
  intros Hc. split; [apply shake_rounds|]. destruct Hc as [-> | ->]; eexists; split; vm_compute; reflexivity.
Qed.


Definition shake_bound (role : Role) (state : SessionState) (t : Table.pendingTable) : Session :=
  MkSession (MkStateMachine role state 0 0 StateBoundTRX StateClosed) t zeroCapabilities [] ∅ None false 0 0 [].
Definition leaving_esme : Session := shake_bound RoleESME StateUnbound (shake_table CommandUnbind 0).
Definition left_smsc : Session := shake_bound RoleSMSC StateBoundTRX (shake_table CommandEnquireLink 0).

Lemma unbind_call_ok : unbind_ok exchange_registry [] [] 1048576 1048576 left_smsc unbind_call.
Proof.
  split; [reflexivity|carries_closed|split_and!; vm_compute; reflexivity|carries_closed
         |split_and!; vm_compute; reflexivity|reflexivity..].
Qed.
Lemma unbind_call_waits : unbind_waits leaving_esme unbind_call.
Proof.
  split; [split; [reflexivity|by eexists]| |reflexivity]. intros seq H.
  change (({[1 := 1%positive]} : gmap Z positive) !! seq = Some 1%positive) in H. by apply lookup_singleton_Some in H as [<- _].
Qed.

(** The enquire_link of the SMSC is still unanswered when the ESME unbinds. *)
Lemma unbind_handshake_witness : exists fB' sB' st fA' sA',
  receive_loop exchange_registry (shake_receiver SMPP50Profile) left_smsc (cut (rpc_frame unbind_call)) = Ok (fB', sB', None) /\
  closed_in_order (ts_session st) /\
  receive_loop exchange_registry (shake_receiver SMPP34Profile) leaving_esme (cut (rpc_response unbind_call)) =
    Ok (fA', sA', None) /\
  closed_in_order sA'.
Proof.
  destruct (unbind_handshake exchange_registry [] (shake_receiver SMPP34Profile) (shake_receiver SMPP50Profile)
    unbind_call leaving_esme left_smsc (shake_sender sample_session) (shake_queue (call_item unbind_call))
    (rpc_frame unbind_call) (cut (rpc_frame unbind_call))) as (fB' & sB' & HB & _ & Hback).
  - by split; [|exists 0].
  - by split; [|exists 0].
  - reflexivity.
  - reflexivity.
  - reflexivity.
  - done.
  - exact unbind_call_ok.
  - exact unbind_call_waits.
  - reflexivity.
  - apply shake_sent. by right.
  - apply cut_concat.
  - destruct (txLoop 8 1000 5 5 false (sd_rounds (shake_sender sB')) (shake_queue (unbind_answer unbind_call))
      (MkTx sB' newDeadlineManager [] [])) as [[st rest] status] eqn:Htx.
    assert (Hst : rest = [] /\ status = Unbound_).
    { pose proof HB as HB'. vm_compute in HB'. injection HB' as _ <-. vm_compute in Htx. injection Htx as <- <- <-. auto. }
    destruct Hst as (-> & ->).
    destruct (Hback (shake_sender sB') [] (shake_queue (unbind_answer unbind_call)) st Unbound_)
      as [[e He]|(_ & HoB & _ & Hget)];
      [reflexivity|reflexivity|apply shake_rounds|by repeat constructor|exact Htx|discriminate|].
    destruct (Hget (cut (rpc_response unbind_call))) as (fA' & sA' & HA & HoA & _); [apply cut_concat|].
    exists fB', sB', st, fA', sA'. split_and!; [exact HB|exact HoB|exact HA|exact HoA].
Defined.
