(* ===== verification/Callbacks.v ===== *)
(** * Code of the application on the goroutines of a session (src/session/flow.go, and
    the callers of callbacks in panic.go, observability.go, window.go, rx.go and
    session.go under src/session)

    Panics.v shows that reporting a panic returns.  Here are the places where a session
    calls the application: the window observer, the flow controller, the connection it
    closes, the handlers of a derived logger, and the loops as a whole.  A panic there
    never leaves the work of the session half done. *)

From S2P Require Import Prelude Protocol Bodies Fields Registry Pdu StateMachine Pending Receive Transmit Requests Exchange Panics.

(** ** flow.go and the function adapters *)

Record CongestionEvent := MkCongestion { cg_State : Z; cg_Command : Z; cg_Sequence : Z; cg_At : Z }.

(** A nil function is an adapter that does nothing. *)
Definition adapted {A} (f : option (reports -> A -> call reports)) (s : reports) (a : A) : call reports :=
  match f with Some f => f s a | None => Came s end.
Definition FlowControllerFunc := @adapted CongestionEvent.
Definition ObserverFunc (f : option (reports -> option source -> call unit)) (s : reports) (x : option source)
    : call unit :=
  match f with Some f => f s x | None => Came tt end.

(** What a packet tracer is given. *)
Inductive PacketDirection : Set := PacketInbound | PacketOutbound.
Record PacketTrace := MkPacketTrace {
  pt_Direction : PacketDirection; pt_At : Z; pt_Header : Header; pt_Length : Z; pt_RawPDU : option bytes
}.
Definition PacketTracerFunc := @adapted PacketTrace.

Definition HandlerFunc (f : option (Session -> DecodedPDU -> Session * res Response)) (s : Session) (pdu : DecodedPDU)
    : Session * res Response :=
  match f with Some f => f s pdu | None => (s, Ok (noHandlerResponse (CommandID (pdu_Header pdu)))) end.

Section callbacks.
(** The logger, the observer and the depth of the stack, as in Panics.v. *)
Context (Enabled : reports -> source -> call bool) (Handle : reports -> source -> call unit).
Context (Observer : option (reports -> option source -> call unit)) (depth : nat).

#[local] Abbreviation reportPanic := (reportPanic Enabled Handle Observer depth).
#[local] Abbreviation recoverCallback := (recoverCallback Enabled Handle Observer depth).
#[local] Abbreviation emitEvent := (emitEvent Observer reportPanic).
#[local] Abbreviation log_error := (log_error Enabled Handle reportPanic).

(** ** rx.go: observeCongestion, as far as the flow controller is told *)

Definition notifyCongestion (controller : reports -> CongestionEvent -> call reports) (event : CongestionEvent)
    (s : reports) : option reports :=
  recoverCallback (SourceOther "session.FlowController") (fun s => controller s event) s.
Definition congestion_signal (now : Z) (s : Session) (pdu : DecodedPDU) : option CongestionEvent :=
  if negb (SupportsSMPP50 (peerCaps s)) then None
  else match CongestionStateFromOptional (responseOptionalParameters (pdu_Body pdu)) with
       | (state, true, None) =>
           Some (MkCongestion state (CommandID (pdu_Header pdu)) (SequenceNumber (pdu_Header pdu)) now)
       | _ => None
       end.
Definition tell_controller (controller : option (reports -> CongestionEvent -> call reports)) (now : Z) (s : Session)
    (pdu : DecodedPDU) (rp : reports) : option reports :=
  match congestion_signal now s pdu with
  | None => Some rp
  | Some event =>
      rp ← emitEvent None rp;
      match controller with Some f => notifyCongestion f event rp | None => Some rp end
  end.

(** ** observability.go: tracePacket *)

(** The raw octets are a copy, and only there when asked for. *)
Definition trace_packet (tracer : option (reports -> PacketTrace -> call reports)) (TraceRawPDU : bool) (now : Z)
    (direction : PacketDirection) (header : Header) (frame : bytes) (s : reports) : option reports :=
  match tracer with
  | None => Some s
  | Some f =>
      let trace := MkPacketTrace direction now header (zlen frame) (if TraceRawPDU then Some ([] ++ frame) else None) in
      recoverCallback (SourceOther "session.PacketTracer") (fun s => f s trace) s
  end.

(** ** window.go *)

Definition reportWindowUnderflow (s : reports) : option reports := emitEvent None s.

Section window.
Context (observer : option (reports -> Window.WindowSnapshot -> call reports)).

Definition callObserver (f : reports -> Window.WindowSnapshot -> call reports) (w : Window.requestWindow) (s : reports)
    : option reports :=
  recoverCallback (SourceOther "session.WindowObserver") (fun s => f s (Window.snapshot w)) s.
Definition notify (w : Window.requestWindow) (s : reports) : option reports :=
  match observer with Some f => callObserver f w s | None => Some s end.

(** [acquire] and [release] with their callbacks. *)
Definition observed_acquire (w : Window.requestWindow) (wait : bool) (woken : Window.requestWindow -> Window.wake)
    (s : reports) : option (Window.requestWindow * option GoError * reports) :=
  match Window.acquire w wait woken with
  | (w, None) => s ← notify w s; Some (w, None, s)
  | (w, Some e) => Some (w, Some e, s)
  end.
Definition observed_release (w : Window.requestWindow) (s : reports)
    : option (Window.requestWindow * bool * reports) :=
  match Window.release w with
  | (w, true) => s ← notify w s; Some (w, true, s)
  | (w, false) => s ← reportWindowUnderflow s; s ← notify w s; Some (w, false, s)
  end.

(** ** pending.go: finish and failAll, which give back the slots of the requests *)

Definition observed_finish (t : Table.pendingTable) (p : positive) (s : reports)
    : option (Table.pendingTable * reports) :=
  match Table.reqs t !! p with
  | None => Some (t, s)
  | Some r =>
      if Table.finished r then Some (t, s) else
      '(w, s) ← (if Table.releaseWindow r
                 then '(w, _, s) ← observed_release (Table.window t) s; Some (w, s)
                 else Some (Table.window t, s));
      Some (Table.MkTable (Table.max t) (Table.m t) (<[p := Table.set_finished r]> (Table.reqs t)) w
              (match Table.deadline r with Some item => Table.cancelled t ++ [item] | None => Table.cancelled t end), s)
  end.
Fixpoint observed_fail (t : Table.pendingTable) (requests : list positive) (err : GoError) (s : reports)
    : option (Table.pendingTable * reports) :=
  match requests with
  | [] => Some (t, s)
  | p :: requests =>
      '(t, s) ← observed_finish t p s;
      observed_fail (Table.send_done t p (Table.MkResult None (Some err))) requests err s
  end.
Definition observed_failAll (t : Table.pendingTable) (requests : list positive) (err : GoError) (s : reports)
    : option (Table.pendingTable * reports) :=
  observed_fail (Table.set_m t ∅) requests err s.
End window.

(** ** panic.go: derived loggers *)

Section loggers.
(** The application's handlers; [derive] is [WithAttrs] or [WithGroup] with its argument. *)
Context {H : Type} (derive : H -> call H).
Definition safe_With (h : H) (s : reports) : option (reports * H) :=
  match derive h with
  | Came h' => Some (s, h')
  | Panicked => s ← reportPanic SourceLogger s; Some (s, h)
  end.
End loggers.

(** ** session.go: terminate, with the calls it makes on the way *)

(** [logFatal] asks the connection for its addresses. *)
Definition guarded_logFatal (addresses : reports -> call reports) (s : reports) : option reports :=
  match addresses s with
  | Came s => log_error (SourceOther "smpp_protocol_fatal") s
  | Panicked => reportPanic (SourceOther "session.Conn") s
  end.
Definition terminate_session (observer : option (reports -> Window.WindowSnapshot -> call reports))
    (addresses conn_Close : reports -> call reports) (s : Session) (cause : GoError)
    (rp : reports) : option (Session * reports) :=
  match closeErr s with
  | Some _ => Some (s, rp)
  | None =>
      rp ← match as_fatal cause with
           | Some _ => rp ← emitEvent None rp; rp ← emitEvent None rp; guarded_logFatal addresses rp
           | None => Some rp
           end;
      rp ← guard Enabled Handle Observer depth (SourceOther "session.Conn") conn_Close rp;
      let pendingErr := if is_sentinel ErrSessionClosed cause then ESentinel ErrSessionClosed else ELoss cause in
      '(t, rp) ← observed_failAll observer (table s) (map_to_list (Table.m (table s))).*2 pendingErr rp;
      Some (MkSession (sm_Close (machine s)) t (peerCaps s) (tx s) ∅ (Some cause) true (lastActivity s)
              (lastInbound s) (congested s), rp)
  end.

(** [recoverLoop], for a loop that ran or panicked. *)
Definition recoverLoop (observer : option (reports -> Window.WindowSnapshot -> call reports))
    (addresses conn_Close : reports -> call reports) (name : string) (panicked : bool) (s : Session)
    (rp : reports) : option (Session * reports) :=
  if panicked
  then rp ← reportPanic (SourceOther name) rp; terminate_session observer addresses conn_Close s (EPanic name) rp
  else Some (s, rp).

(** ** A panic costs one call *)

Section contained.
Context (Hsafe : logger_safe Enabled Handle \/ observer_safe Observer) (Hdepth : (2 <= depth)%nat).

Lemma panic_reported x s : is_Some (reportPanic x s).
Proof using Hsafe Hdepth.
  revert Hdepth. destruct depth as [|[|d]]; intros; [lia|lia|].
  destruct (report_returns Enabled Handle Observer d x s Hsafe) as (s' & -> & _). eauto.
Qed.
Lemma callback_returns x f s : is_Some (recoverCallback x f s).
Proof using Hsafe Hdepth. unfold recoverCallback. destruct (f s); [eauto|apply panic_reported]. Qed.
Lemma event_emitted x s : is_Some (emitEvent x s).
Proof using Hsafe Hdepth.
  pose proof (panic_reported SourceObserver s) as Hp. unfold emitEvent.
  destruct Observer as [f|]; [|eauto]. destruct (f s x); [eauto|exact Hp].
Qed.
Lemma error_logged x s : is_Some (log_error x s).
Proof using Hsafe Hdepth.
  unfold log_error, safe_Enabled, safe_Handle. destruct (panic_reported SourceLogger s) as [s1 H1]. rewrite H1.
  destruct (Enabled s x) as [[]|]; cbn; [|eauto..]. destruct (Handle s x); eauto.
Qed.
Lemma notify_returns observer w s : is_Some (notify observer w s).
Proof using Hsafe Hdepth. destruct observer; [apply callback_returns|by eexists]. Qed.

Lemma release_returns observer w s : exists s', observed_release observer w s = Some (Window.release w, s').
Proof using Hsafe Hdepth.
  unfold observed_release. destruct (Window.release w) as [w' []].
  - destruct (notify_returns observer w' s) as [s' ->]. eauto.
  - unfold reportWindowUnderflow. destruct (event_emitted None s) as [s1 ->]. cbn.
    destruct (notify_returns observer w' s1) as [s' ->]. eauto.
Qed.
Lemma finish_returns observer t p s : exists s', observed_finish observer t p s = Some (Table.finish t p, s').
Proof using Hsafe Hdepth.
  unfold observed_finish, Table.finish. destruct (Table.reqs t !! p) as [r|]; [|eauto].
  destruct (Table.finished r); [eauto|]. destruct (Table.releaseWindow r); cbn; [|eauto].
  destruct (release_returns observer (Table.window t) s) as [s' Hr]. rewrite Hr.
  destruct (Window.release (Table.window t)) as [w b]. cbn. eauto.
Qed.
Lemma fail_returns observer requests err : forall t s, exists s', observed_failAll observer t requests err s =
  Some (Table.failAll t requests err, s').
Proof using Hsafe Hdepth.
  intros t. unfold observed_failAll, Table.failAll. generalize (Table.set_m t ∅). clear t.
  induction requests as [|p requests IH]; intros t s; cbn [observed_fail foldl]; [eauto|].
  destruct (finish_returns observer t p s) as [s' ->]. apply IH.
Qed.

Lemma terminate_returns observer addresses conn_Close s cause rp :
  exists rp', terminate_session observer addresses conn_Close s cause rp = Some (terminate s cause, rp').
Proof using Hsafe Hdepth.
  unfold terminate_session. destruct (closeErr s) eqn:Hc.
  { exists rp. unfold terminate. by rewrite Hc. }
  assert (Hl : is_Some (match as_fatal cause with
    | Some _ => rp ← emitEvent None rp; rp ← emitEvent None rp; guarded_logFatal addresses rp
    | None => Some rp end)).
  { destruct (as_fatal cause); [|eauto]. destruct (event_emitted None rp) as [rp1 ->]. cbn.
    destruct (event_emitted None rp1) as [rp2 ->]. cbn. unfold guarded_logFatal.
    destruct (addresses rp2); [apply error_logged|apply panic_reported]. }
  destruct Hl as [rp1 ->]. cbn.
  destruct (callback_returns (SourceOther "session.Conn") conn_Close rp1) as [rp2 H2].
  unfold guard. rewrite H2. cbn [mbind option_bind].
  match goal with |- context [observed_failAll _ _ _ ?e _] => set (err := e) end.
  destruct (fail_returns observer (map_to_list (Table.m (table s))).*2 err (table s) rp2) as [rp3 H3].
  rewrite H3. exists rp3. unfold terminate. by rewrite Hc.
Qed.
End contained.
End callbacks.

(** The error a waiting request gets when its session is terminated. *)
Lemma failed_all t sequence p r e :
  (forall s, Table.m t !! s = Some p -> s = sequence) -> Table.m t !! sequence = Some p ->
  Table.reqs t !! p = Some r -> Table.pdone r = [] ->
  exists r', Table.reqs (Table.failAll t (map_to_list (Table.m t)).*2 e) !! p = Some r' /\
    Table.pdone r' = [Table.MkResult None (Some e)].
Proof.
  intros Ho Hs Hr Hd. destruct (visited_once sequence p _ Ho Hs) as (l1 & l2 & -> & Hl1 & Hl2).
  unfold Table.failAll. rewrite foldl_app. cbn [foldl].
  destruct (fail_others p e l1 (Table.set_m t ∅) r Hl1 Hr) as (r1 & Hr1 & _ & _ & K).
  revert Hr1. generalize (foldl (fun t p => Table.send_done (Table.finish t p) p (Table.MkResult None (Some e)))
    (Table.set_m t ∅) l1). intros t1 Hr1.
  destruct (finish_kept t1 p p r1 Hr1) as (r2 & Hr2 & _ & _ & L).
  destruct (send_done_own _ p (Table.MkResult None (Some e)) r2 Hr2) as (r3 & Hr3 & _ & _ & M).
  destruct (fail_others p e l2 _ r3 Hl2 Hr3) as (r4 & Hr4 & _ & _ & N).
  exists r4. split; [exact Hr4|]. by rewrite N, M, L, K, Hd.
Qed.

(** C32: A panic in code of the application costs one call, never the session's
    bookkeeping.  Let the callbacks not call the session themselves (Shutdown.v is about
    those that do), and let not both the logger and the observer panic.  Then: whatever
    the window observer does, acquiring and releasing a slot give the result and the
    counters they give without one, and so do finishing a request and failing all of them;
    whatever the flow controller, the packet tracer, a derived logger or the connection
    does, the call returns; [terminate] returns, with all that it calls - the observer,
    the logger, the connection and, for every request that it fails, the window observer -
    and leaves the session as it does without them.  And a loop that panics ends its own
    session, with the panic as its error: the session is done and closed, nothing is
    pending, and every caller that waits for a response is told that the session was lost
    to that panic. *)
Theorem callbacks_contained Enabled Handle Observer depth :
  logger_safe Enabled Handle \/ observer_safe Observer -> (2 <= depth)%nat ->
  (forall observer w wait woken rp, exists rp',
     observed_acquire Enabled Handle Observer depth observer w wait woken rp =
       Some (Window.acquire w wait woken, rp')) /\
  (forall observer w rp, exists rp',
     observed_release Enabled Handle Observer depth observer w rp = Some (Window.release w, rp')) /\
  (forall observer t p rp, exists rp',
     observed_finish Enabled Handle Observer depth observer t p rp = Some (Table.finish t p, rp')) /\
  (forall observer t requests err rp, exists rp',
     observed_failAll Enabled Handle Observer depth observer t requests err rp =
       Some (Table.failAll t requests err, rp')) /\
  (forall controller now s pdu rp, is_Some (tell_controller Enabled Handle Observer depth controller now s pdu rp)) /\
  (forall tracer raw now direction h frame rp,
     is_Some (trace_packet Enabled Handle Observer depth tracer raw now direction h frame rp)) /\
  (forall (H : Type) (derive : H -> call H) h rp, is_Some (safe_With Enabled Handle Observer depth derive h rp)) /\
  (forall observer addresses conn_Close s cause rp, exists rp',
     terminate_session Enabled Handle Observer depth observer addresses conn_Close s cause rp =
       Some (terminate s cause, rp')) /\
  (forall observer addresses conn_Close name s rp, closeErr s = None -> exists s' rp',
     recoverLoop Enabled Handle Observer depth observer addresses conn_Close name true s rp = Some (s', rp') /\
     closeErr s' = Some (EPanic name) /\ done s' = true /\ sm_state (machine s') = StateClosed /\
     Table.m (table s') = ∅ /\
     forall sequence p r, (forall n, Table.m (table s) !! n = Some p -> n = sequence) ->
       Table.m (table s) !! sequence = Some p -> Table.reqs (table s) !! p = Some r -> Table.pdone r = [] ->
       forall v n, receive (MkCaller s' v n) p = Some (Err (ELoss (EPanic name)))).
Proof.
  intros Hsafe Hd. split_and!.
  - intros observer w wait woken rp. unfold observed_acquire.
    destruct (Window.acquire w wait woken) as [w' [e|]]; [eauto|].
    destruct (notify_returns _ _ _ _ Hsafe Hd observer w' rp) as [rp' ->]. eauto.
  - intros. by apply release_returns.
  - intros. by apply finish_returns.
  - intros. by apply fail_returns.
  - intros controller now s pdu rp. unfold tell_controller. destruct (congestion_signal now s pdu) as [event|]; [|eauto].
    destruct (event_emitted _ _ _ _ Hsafe Hd None rp) as [rp1 ->]. cbn.
    destruct controller; [by apply callback_returns|eauto].
  - intros [f|] raw now direction h frame rp; [by apply callback_returns|by eexists].
  - intros H derive h rp. unfold safe_With. destruct (derive h); [eauto|].
    destruct (panic_reported _ _ _ _ Hsafe Hd SourceLogger rp) as [rp1 ->]. by eexists.
  - intros. by apply terminate_returns.
  - intros observer addresses conn_Close name s rp Hc. unfold recoverLoop.
    destruct (panic_reported _ _ _ _ Hsafe Hd (SourceOther name) rp) as [rp1 ->]. cbn [mbind option_bind].
    destruct (terminate_returns _ _ _ _ Hsafe Hd observer addresses conn_Close s (EPanic name) rp1) as [rp' ->].
    exists (terminate s (EPanic name)), rp'. unfold terminate. rewrite Hc. cbn [closeErr done machine table is_sentinel].
    split_and!; [done..| |].
    + unfold Table.failAll. by rewrite fail_all_m.
    + intros sequence p r Ho Hs Hr Hp v n. unfold receive. cbn [c_session table].
      destruct (failed_all (table s) sequence p r (ELoss (EPanic name)) Ho Hs Hr Hp) as (r' & -> & ->). done.
Qed.

(** The receive loop of a session with two requests in flight panics; the logger panics
    too, and so do the connection when it is closed and the window observer when the
    slots are given back. *)
Lemma callbacks_contained_witness : exists s' rp',
  recoverLoop quiet_enabled exploding None 2 (Some (fun _ _ => Panicked)) Came (fun _ => Panicked) "session.rxLoop" true
    waiting_session (MkReports 0 [] []) = Some (s', rp') /\
  forall v n, receive (MkCaller s' v n) 2%positive = Some (Err (ELoss (EPanic "session.rxLoop"))).
Proof.
  destruct (callbacks_contained quiet_enabled exploding None 2) as (_ & _ & _ & _ & _ & _ & _ & _ & H);
    [by right|lia|].
  destruct (H (Some (fun _ _ => Panicked)) Came (fun _ => Panicked) "session.rxLoop" waiting_session (MkReports 0 [] []) eq_refl)
    as (s' & rp' & Hr & _ & _ & _ & _ & Hw).
  exists s', rp'. split; [exact Hr|].
  apply (Hw 2 2%positive (Table.new_request CommandSubmitSM 0)); [|vm_compute; reflexivity..].
  intros n Hn. destruct (decide (n = 2)) as [|Hne]; [done|]. exfalso. revert Hn.
  change (Table.m (table waiting_session)) with (<[1:=1%positive]> (<[2:=2%positive]> (∅ : gmap Z positive))).
  destruct (decide (n = 1)) as [-> |]; by rewrite ?lookup_insert_eq, ?lookup_insert_ne.
Defined.
