(* ===== verification/Events.v ===== *)
(** * Events and counters of a session (src/session/observability.go, and the places
    of rx.go, tx.go, liveness.go and session.go that count and report)

    Each part of the session's code that is modelled elsewhere for what it does to the
    session is described here by what it reports: the counters it moves and the events
    it emits, in order.  The texts of events are left out. *)

From S2P Require Import Panics.
From S2P Require Import Prelude Protocol Bodies Fields BodySpec Registry Pdu Framer StateMachine Pending Receive Metrics Deadline Transmit Liveness Requests Exchange.

Inductive EventKind : Set :=
| EventRequestSent | EventRequestReceived | EventResponseSent | EventResponseReceived
| EventResponseTimeout | EventSessionInitTimeout | EventInactivityTimeout | EventEnquireLinkSent
| EventEnquireLinkReceived | EventEnquireLinkTimeout | EventDecodeFailure | EventFatalProtocolError
| EventCongestionState | EventResponseRTT | EventWindowUnderflow | EventPanicRecovered.

#[export] Instance EventKind_eq_dec : EqDecision EventKind.
Proof. solve_decision. Defined.

Definition EventKind_String (k : EventKind) : string :=
  match k with
  | EventRequestSent => "request_sent"
  | EventRequestReceived => "request_received"
  | EventResponseSent => "response_sent"
  | EventResponseReceived => "response_received"
  | EventResponseTimeout => "response_timeout"
  | EventSessionInitTimeout => "session_init_timeout"
  | EventInactivityTimeout => "inactivity_timeout"
  | EventEnquireLinkSent => "enquire_link_sent"
  | EventEnquireLinkReceived => "enquire_link_received"
  | EventEnquireLinkTimeout => "enquire_link_timeout"
  | EventDecodeFailure => "decode_failure"
  | EventFatalProtocolError => "fatal_protocol_error"
  | EventCongestionState => "congestion_state"
  | EventResponseRTT => "response_rtt"
  | EventWindowUnderflow => "window_underflow"
  | EventPanicRecovered => "panic_recovered"
  end.

Record Event := MkEvent {
  ev_Kind : EventKind;
  ev_At : Z;
  ev_Command : Z;
  ev_Sequence : Z;
  ev_Status : Z;
  ev_Timeout : option TimeoutKind;
  ev_Duration : Z;
  ev_Congestion : Z;
  ev_FatalKind : option FatalErrorKind
}.

(** [Event{Kind: k, At: at, Command: h.CommandID, Sequence: h.SequenceNumber, ...}]. *)
Definition header_event (k : EventKind) (at' : Z) (h : Header) : Event :=
  MkEvent k at' (CommandID h) (SequenceNumber h) (CommandStatus h) None 0 0 None.
Definition plain_event (k : EventKind) : Event := MkEvent k 0 0 0 0 None 0 0 None.
Definition timeout_event (k : EventKind) (at' : Z) (command sequence : Z) (t : TimeoutKind) (after : Z) : Event :=
  MkEvent k at' command sequence 0 (Some t) after 0 None.
Definition fatal_event (k : EventKind) (f : FatalError) : Event :=
  MkEvent k 0 (fe_Command f) (fe_Sequence f) 0 None 0 0 (Some (fe_Kind f)).

(** What code does to the counters and the observer; [Round d] is [noteRTT(d)] and
    [Congestion c] is [noteCongestion(c)]. *)
Inductive act := Count (c : counter) | Round (d : Z) | Congestion (c : Z) | Emit (e : Event).

(** ** panic.go: reportPanic

    A panic of the Observer is counted, but the Observer is not told.  When the logger
    panics as it is told, or the Observer, that is a report of its own. *)
Definition report_acts (x : source) : list act :=
  Count panicsRecovered :: (if decide (x = SourceObserver) then [] else [Emit (plain_event EventPanicRecovered)]).
Definition reportIfPanic_acts (e : GoError) : list act :=
  match as_panic e with Some name => report_acts (source_of name) | None => [] end.

(** ** session.go: terminate *)
Definition terminate_acts (s : Session) (cause : GoError) : list act :=
  match closeErr s with
  | Some _ => []
  | None =>
      match as_fatal cause with
      | Some f => [Count decodeFailures; Count fatalProtocolErrors;
                   Emit (fatal_event EventDecodeFailure f); Emit (fatal_event EventFatalProtocolError f)]
      | None => []
      end
  end.

(** ** rx.go *)

Definition observeRTT (request : Table.pendingRequest) (sequence rtt : Z) : list act :=
  let '(command, status) := Table.responseMetadata request in
  [Round rtt; Emit (MkEvent EventResponseRTT 0 command sequence status None rtt 0 None)].

Definition congestion_acts (now : Z) (s : Session) (pdu : DecodedPDU) : list act :=
  if negb (SupportsSMPP50 (peerCaps s)) then []
  else match CongestionStateFromOptional (responseOptionalParameters (pdu_Body pdu)) with
       | (state, true, None) =>
           [Congestion state;
            Emit (MkEvent EventCongestionState now (CommandID (pdu_Header pdu)) (SequenceNumber (pdu_Header pdu))
                    0 None 0 state None)]
       | _ => []
       end.

Section rx.
Context (registry : option Registry) (profile : Profile).

Definition response_acts (now : Z) (s : Session) (pdu : DecodedPDU) : list act :=
  let h := pdu_Header pdu in
  match Table.takeResponse (table s) (SequenceNumber h) (CommandID h) with
  | (t, None) => []
  | (t, Some p) =>
      match Table.reqs t !! p with
      | None => []
      | Some request =>
          let '(request, rtt) := Table.markResponseAt request now (CommandID h) (CommandStatus h) in
          let s := set_table s (Table.set_req t p request) in
          let s := set_machine s (CompleteOutbound (machine s) (Table.requestID request) (CommandStatus h)) in
          let s := negotiate_response profile s request pdu in
          match rtt with Some d => observeRTT request (SequenceNumber h) d | None => [] end ++
          congestion_acts now s pdu ++
          (if (Table.requestID request =? CommandUnbind) && OK (CommandStatus h)
           then terminate_acts s (ESentinel ErrSessionClosed) else [])
      end
  end.

(** [processFrame], without what the handler of a request does.  A decoder that panics is
    an error of [DecodePDU] (see [DecodePDU_recovers]). *)
Definition frame_acts (now : Z) (s : Session) (fr : bytes) : list act :=
  match DecodePDU fr registry with
  | Ok pdu =>
      let h := pdu_Header pdu in
      if IsResponse (CommandID h)
      then Count responsesReceived :: Emit (header_event EventResponseReceived now h) ::
           (if CommandID h =? CommandEnquireLinkResp then [Count enquireLinkResponses] else []) ++
           response_acts now (note_inbound s now) pdu
      else Count requestsReceived :: Emit (header_event EventRequestReceived now h) ::
           (if CommandID h =? CommandEnquireLink
            then [Count enquireLinkReceived;
                  Emit (MkEvent EventEnquireLinkReceived now (CommandID h) (SequenceNumber h) 0 None 0 0 None)]
            else [])
  | Err e => if is_fatal e then []
             else Count decodeFailures :: reportIfPanic_acts e ++ [Emit (plain_event EventDecodeFailure)]
  | Panic => []
  end.
End rx.

(** ** tx.go *)

Definition outbound_acts (at' : Z) (item : txItem) : list act :=
  match kind item with
  | txResponse => [Count responsesSent; Emit (header_event EventResponseSent at' (header item))]
  | _ => Count requestsSent :: Emit (header_event EventRequestSent at' (header item)) ::
         (if CommandID (header item) =? CommandEnquireLink
          then [Count enquireLinkSent; Emit (header_event EventEnquireLinkSent at' (header item))] else [])
  end.

(** A written item: [request] is the pending request it belongs to. *)
Definition written_acts (now : Z) (item : txItem) (request : option Table.pendingRequest) : list act :=
  outbound_acts now item ++
  match kind item, request with
  | txRequest, Some q => match Table.markDispatchAt q now with
                         | (q, Some d) => observeRTT q (sequence item) d
                         | (_, None) => []
                         end
  | _, _ => []
  end.

(** ** liveness.go *)

Definition expire_acts (s : Session) (item : deadlineItem) : list act :=
  let err := TimeoutError (di_kind item) (di_command item) (di_sequence item) (di_after item) in
  match Table.completeError (table s) (di_sequence item) err with
  | (_, Some _) =>
      let report k := Emit (timeout_event k 0 (di_command item) (di_sequence item) (di_kind item) (di_after item)) in
      match di_kind item with
      | TimeoutEnquireLink => [Count responseTimeouts; Count enquireLinkTimeouts; report EventEnquireLinkTimeout]
      | _ => [Count responseTimeouts; report EventResponseTimeout]
      end
  | (_, None) => []
  end.

Definition init_acts (SessionInitTimeout now : Z) (s : Session) : list act :=
  if done s then []
  else match sm_state (machine s) with
       | StateOpen | StateOutbound =>
           Count sessionInitTimeouts ::
           Emit (timeout_event EventSessionInitTimeout now 0 0 TimeoutSessionInit SessionInitTimeout) ::
           terminate_acts s (TimeoutError TimeoutSessionInit 0 0 SessionInitTimeout)
       | _ => []
       end.

Definition inactivity_acts (InactivityTimeout now : Z) (s : Session) : list act :=
  if done s then []
  else if negb (isBoundState (sm_state (machine s))) then []
  else if now - lastInbound s <? InactivityTimeout then []
  else Count inactivityTimeouts ::
       Emit (timeout_event EventInactivityTimeout now 0 0 TimeoutInactivity InactivityTimeout) ::
       terminate_acts s (TimeoutError TimeoutInactivity 0 0 InactivityTimeout).

(** ** What a snapshot shows *)

(** [noteRTT] when nobody interferes. *)
Definition noteRTT (d : Z) (m : sessionMetrics) : sessionMetrics :=
  if d <? 0 then m
  else
    let m := store rttLastNS d (add_int64 rttTotalNS d (add1 rttSamples m)) in
    if d <=? m rttMaxNS then m else store rttMaxNS d m.

Definition perform (a : act) (x : sessionMetrics * list Event) : sessionMetrics * list Event :=
  let '(m, events) := x in
  match a with
  | Count c => (add1 c m, events)
  | Round d => (noteRTT d m, events)
  | Congestion c => (noteCongestion c m, events)
  | Emit e => (m, events ++ [e])
  end.
Definition perform_all (acts : list act) : sessionMetrics * list Event :=
  foldl (fun x a => perform a x) (no_metrics, []) acts.

(** [Session.Metrics]: the fields of the snapshot. *)
Record snapshot := MkSnapshot {
  RequestsSent : Z; RequestsReceived : Z; ResponsesSent : Z; ResponsesReceived : Z; ResponseTimeouts : Z;
  SessionInitTimeouts : Z; InactivityTimeouts : Z; EnquireLinkSent : Z; EnquireLinkReceived : Z;
  EnquireLinkResponses : Z; EnquireLinkTimeouts : Z; DecodeFailures : Z; FatalProtocolErrors : Z;
  ResponseRTTSamples : Z; ResponseRTTTotal : Z; ResponseRTTLast : Z; ResponseRTTMax : Z;
  CongestionSamples : Z; LastCongestionState : Z; PanicsRecovered : Z; sn_Window : Window.WindowSnapshot
}.
(** The loads come one after the other: [m c] are the metrics when the counter [c] is
    loaded, and [w] the window at the end. *)
Definition Metrics_snapshot (m : counter -> sessionMetrics) (w : Window.requestWindow) : snapshot :=
  let load c := m c c in
  MkSnapshot (load requestsSent) (load requestsReceived) (load responsesSent) (load responsesReceived)
    (load responseTimeouts) (load sessionInitTimeouts) (load inactivityTimeouts) (load enquireLinkSent)
    (load enquireLinkReceived) (load enquireLinkResponses) (load enquireLinkTimeouts) (load decodeFailures)
    (load fatalProtocolErrors) (load rttSamples) (load rttTotalNS) (load rttLastNS) (load rttMaxNS)
    (load congestionSamples) (u8 (load lastCongestion)) (load panicsRecovered) (Window.snapshot w).
(** What a snapshot says of a counter. *)
Definition field (s : snapshot) (c : counter) : Z :=
  match c with
  | requestsSent => RequestsSent s | requestsReceived => RequestsReceived s | responsesSent => ResponsesSent s
  | responsesReceived => ResponsesReceived s | responseTimeouts => ResponseTimeouts s
  | sessionInitTimeouts => SessionInitTimeouts s | inactivityTimeouts => InactivityTimeouts s
  | enquireLinkSent => EnquireLinkSent s | enquireLinkReceived => EnquireLinkReceived s
  | enquireLinkResponses => EnquireLinkResponses s | enquireLinkTimeouts => EnquireLinkTimeouts s
  | decodeFailures => DecodeFailures s | fatalProtocolErrors => FatalProtocolErrors s
  | rttSamples => ResponseRTTSamples s | rttTotalNS => ResponseRTTTotal s | rttLastNS => ResponseRTTLast s
  | rttMaxNS => ResponseRTTMax s | congestionSamples => CongestionSamples s
  | lastCongestion => LastCongestionState s | panicsRecovered => PanicsRecovered s
  end.

(** ** Counters and events agree *)

(** How much an action adds to a counter that counts. *)
Definition moves (c : counter) (a : act) : Z :=
  match a with
  | Count c' => if decide (c = c') then 1 else 0
  | Round d => if decide (c = rttSamples) then (if d <? 0 then 0 else 1) else 0
  | Congestion _ => if decide (c = congestionSamples) then 1 else 0
  | Emit _ => 0
  end.
Definition emits (ks : list EventKind) (a : act) : Z :=
  match a with Emit e => if decide (ev_Kind e ∈ ks) then 1 else 0 | _ => 0 end.

(** The events that go with a counter; [None] for the counters without one, and for the
    recovered panics, of which some have no event. *)
Definition shown (c : counter) : option (list EventKind) :=
  match c with
  | requestsSent => Some [EventRequestSent]
  | requestsReceived => Some [EventRequestReceived]
  | responsesSent => Some [EventResponseSent]
  | responsesReceived => Some [EventResponseReceived]
  | responseTimeouts => Some [EventResponseTimeout; EventEnquireLinkTimeout]
  | sessionInitTimeouts => Some [EventSessionInitTimeout]
  | inactivityTimeouts => Some [EventInactivityTimeout]
  | enquireLinkSent => Some [EventEnquireLinkSent]
  | enquireLinkReceived => Some [EventEnquireLinkReceived]
  | enquireLinkTimeouts => Some [EventEnquireLinkTimeout]
  | decodeFailures => Some [EventDecodeFailure]
  | fatalProtocolErrors => Some [EventFatalProtocolError]
  | rttSamples => Some [EventResponseRTT]
  | congestionSamples => Some [EventCongestionState]
  | enquireLinkResponses | rttTotalNS | rttLastNS | rttMaxNS | lastCongestion | panicsRecovered => None
  end.
(** The counters that only [Add(1)] changes. *)
Definition counts (c : counter) : bool :=
  match c with rttTotalNS | rttLastNS | rttMaxNS | lastCongestion => false | _ => true end.

Lemma sum_app {A} (f : A -> Z) l1 l2 : sum_of f (l1 ++ l2) = sum_of f l1 + sum_of f l2.
Proof. unfold sum_of. induction l1 as [|x l1 IH]; cbn [app foldr]; [done|]. rewrite IH. lia. Qed.
#[export] Instance sum_perm {A} (f : A -> Z) : Proper ((≡ₚ) ==> (=)) (sum_of f).
Proof. unfold sum_of. induction 1; cbn [foldr]; lia. Qed.

Lemma noteRTT_counts c d m : counts c = true ->
  noteRTT d m c = if decide (c = rttSamples) then (if d <? 0 then m c else u64 (m c + 1)) else m c.
Proof.
  intros Hc. unfold noteRTT. destruct (d <? 0); [by destruct (decide _)|]. cbv zeta.
  set (m1 := store rttLastNS d _).
  assert (H1 : m1 c = if decide (c = rttSamples) then u64 (m c + 1) else m c).
  { unfold m1, add_int64, add1. destruct (decide (c = rttSamples)) as [-> |Hne].
    - by rewrite !store_ne, store_eq by done.
    - rewrite !store_ne by (intros <-; done). done. }
  destruct (d <=? _); [done|]. rewrite store_ne by (intros <-; done). done.
Qed.

Lemma perform_counts c a m ev : counts c = true -> (perform a (m, ev)).1 c = if decide (moves c a = 0) then m c else u64 (m c + moves c a).
Proof.
  intros Hc. destruct a as [c'|d|x|e]; cbn [perform moves fst].
  - unfold add1. destruct (decide (c = c')) as [<- |Hne]; [by rewrite store_eq|by rewrite store_ne].
  - rewrite noteRTT_counts by done. destruct (decide (c = rttSamples)); [by destruct (d <? 0)|done].
  - unfold noteCongestion, add1. destruct (decide (c = congestionSamples)) as [-> |Hne].
    + by rewrite store_eq, store_ne.
    + rewrite !store_ne by (intros <-; done). done.
  - done.
Qed.

Lemma perform_all_counts acts c : counts c = true ->
  (perform_all acts).1 c = u64 (sum_of (moves c) acts).
Proof.
  intros Hc. unfold perform_all.
  assert (H : forall x n, x.1 c = u64 n -> (foldl (fun x a => perform a x) x acts).1 c = u64 (n + sum_of (moves c) acts)).
  { unfold sum_of. induction acts as [|a acts IH]; intros [m ev] n Hx; cbn [foldl foldr]; [by rewrite Z.add_0_r|].
    rewrite (IH (perform a (m, ev)) (n + moves c a)); [by rewrite Z.add_assoc|].
    rewrite perform_counts by done. cbn [fst] in Hx. rewrite Hx. destruct (decide _) as [-> |_]; [by rewrite Z.add_0_r|].
    unfold u64. by rewrite Zplus_mod_idemp_l. }
  apply (H (no_metrics, []) 0). done.
Qed.

Lemma moves_nonneg c a : 0 <= moves c a.
Proof. destruct a; cbn; repeat case_decide; repeat case_match; lia. Qed.
Lemma sum_prefix c acts i j : (i <= j)%nat -> 0 <= sum_of (moves c) (take i acts) <= sum_of (moves c) (take j acts).
Proof.
  intros Hij. assert (H0 : forall l, 0 <= sum_of (moves c) l).
  { unfold sum_of. induction l as [|a l IH]; cbn [foldr]; [done|]. pose proof (moves_nonneg c a). lia. }
  replace (take i acts) with (take i (take j acts)) by (rewrite take_take; f_equal; lia).
  rewrite <- (take_drop i (take j acts)) at 3. rewrite sum_app. pose proof (H0 (drop i (take j acts))).
  pose proof (H0 (take i (take j acts))). lia.
Qed.

(** A snapshot is taken while the session goes on: every count it shows was reached
    between the begin and the end of the call, so that a later snapshot never shows
    less.  [at'] tells how much of the run was done when each counter was loaded. *)
Lemma snapshot_between acts at' i j w c : counts c = true ->
  (forall c', (i <= at' c')%nat /\ (at' c' <= j)%nat) -> sum_of (moves c) acts < 2 ^ 64 ->
  let m k := (perform_all (take k acts)).1 in
  m i c <= field (Metrics_snapshot (fun c' => m (at' c')) w) c <= m j c.
Proof.
  intros Hc Hat Hlt m.
  assert (Hf : field (Metrics_snapshot (fun c' => m (at' c')) w) c = m (at' c) c) by (by destruct c).
  rewrite Hf. unfold m. rewrite !perform_all_counts by done. destruct (Hat c) as [Hi Hj].
  pose proof (sum_prefix c acts _ _ Hi). pose proof (sum_prefix c acts _ _ Hj).
  assert (Hjl : sum_of (moves c) (take j acts) <= sum_of (moves c) acts).
  { pose proof (sum_prefix c acts j (j + length acts)%nat ltac:(lia)) as H1. rewrite (take_ge acts (j + length acts)) in H1 by lia. lia. }
  unfold u64. rewrite !Z.mod_small by lia. lia.
Qed.

Definition seen (ks : list EventKind) (events : list Event) : Z :=
  sum_of (fun e => if decide (ev_Kind e ∈ ks) then 1 else 0) events.

Lemma perform_all_events ks acts : seen ks (perform_all acts).2 = sum_of (emits ks) acts.
Proof.
  unfold perform_all. enough (H : forall x, seen ks (foldl (fun x a => perform a x) x acts).2 = seen ks x.2 + sum_of (emits ks) acts) by apply H.
  unfold sum_of. induction acts as [|a acts IH]; intros [m ev]; cbn [foldl foldr]; [cbn; lia|].
  rewrite IH. destruct a as [c'|d|x|e]; cbn [perform emits snd]; try lia.
  unfold seen. rewrite sum_app. cbn. lia.
Qed.

Definition balanced (acts : list act) : Prop :=
  forall c ks, shown c = Some ks -> sum_of (moves c) acts = sum_of (emits ks) acts.

Lemma balanced_nil : balanced [].
Proof. done. Qed.
Lemma balanced_app l1 l2 : balanced l1 -> balanced l2 -> balanced (l1 ++ l2).
Proof. intros H1 H2 c ks Hc. by rewrite !sum_app, (H1 c ks Hc), (H2 c ks Hc). Qed.
Create HintDb balance.
#[export] Hint Resolve balanced_nil balanced_app : balance.
(** A list that is known but for the details of its events. *)
Ltac balance_known := intros c ks Hc; destruct c; cbn in Hc; simplify_eq; reflexivity.

Lemma terminate_balanced s e : balanced (terminate_acts s e).
Proof. unfold terminate_acts. destruct (closeErr s); [done|]. destruct (as_fatal e); [balance_known|done]. Qed.
Lemma claimed_rtt q q' d : Table.claimRTT q = (q', Some d) -> 0 <= d.
Proof.
  unfold Table.claimRTT. destruct (_ || _ || _); [done|]. intros [= _ <-]. destruct (Z.leb_spec (Table.responseAt q) (Table.dispatchedAt q)); lia.
Qed.
Lemma rtt_balanced q seq d : 0 <= d -> balanced (observeRTT q seq d).
Proof.
  intros Hd. unfold observeRTT. destruct (Table.responseMetadata q) as [cmd st].
  assert (Hf : (d <? 0) = false) by lia.
  intros c ks Hc; destruct c; cbn in Hc; simplify_eq; unfold sum_of; cbn [foldr moves emits decide ev_Kind];
    rewrite ?Hf; reflexivity.
Qed.
Lemma congestion_balanced now s pdu : balanced (congestion_acts now s pdu).
Proof.
  unfold congestion_acts. destruct (negb _); [done|].
  destruct (CongestionStateFromOptional _) as [[st []] [e|]]; try done. balance_known.
Qed.
#[export] Hint Resolve terminate_balanced congestion_balanced : balance.

Lemma response_balanced profile now s pdu : balanced (response_acts profile now s pdu).
Proof.
  unfold response_acts. destruct (Table.takeResponse _ _ _) as [t [p|]]; [|done].
  destruct (Table.reqs t !! p) as [q|]; [|done].
  destruct (Table.markResponseAt q _ _ _) as [q' rtt] eqn:Hq. cbv zeta. apply balanced_app; [|apply balanced_app].
  - destruct rtt as [d|]; [|done]. eapply rtt_balanced, claimed_rtt, Hq.
  - apply congestion_balanced.
  - destruct (_ && _); auto with balance.
Qed.
Lemma report_balanced x : balanced (report_acts x).
Proof. unfold report_acts. destruct (decide _); balance_known. Qed.
Lemma decode_failure_balanced e :
  balanced (Count decodeFailures :: reportIfPanic_acts e ++ [Emit (plain_event EventDecodeFailure)]).
Proof.
  assert (Hr : balanced (reportIfPanic_acts e)).
  { unfold reportIfPanic_acts. destruct (as_panic e); [apply report_balanced|done]. }
  assert (Hp : Count decodeFailures :: reportIfPanic_acts e ++ [Emit (plain_event EventDecodeFailure)] ≡ₚ
    reportIfPanic_acts e ++ [Count decodeFailures; Emit (plain_event EventDecodeFailure)]) by apply Permutation_middle.
  assert (Hk : balanced [Count decodeFailures; Emit (plain_event EventDecodeFailure)]) by balance_known.
  intros x ks Hx. rewrite !Hp. by apply (balanced_app _ _ Hr Hk).
Qed.
Lemma frame_balanced registry profile now s fr : balanced (frame_acts registry profile now s fr).
Proof.
  unfold frame_acts. destruct (DecodePDU fr registry) as [pdu|e|];
    [|destruct (is_fatal e); [done|apply decode_failure_balanced]|done].
  cbv zeta. destruct (IsResponse _).
  - change (balanced ([Count responsesReceived; Emit (header_event EventResponseReceived now (pdu_Header pdu))] ++
      (if CommandID (pdu_Header pdu) =? CommandEnquireLinkResp then [Count enquireLinkResponses] else []) ++
      response_acts profile now (note_inbound s now) pdu)).
    apply balanced_app; [balance_known|]. apply balanced_app; [|apply response_balanced].
    destruct (_ =? _); [balance_known|done].
  - destruct (_ =? _); balance_known.
Qed.
Lemma outbound_balanced now item : balanced (outbound_acts now item).
Proof. unfold outbound_acts. destruct (kind item); [destruct (_ =? _)|..|destruct (_ =? _)]; balance_known. Qed.
Lemma written_balanced now item request : balanced (written_acts now item request).
Proof.
  unfold written_acts. apply balanced_app; [apply outbound_balanced|].
  destruct (kind item), request as [q|]; try done.
  destruct (Table.markDispatchAt q now) as [q' [d|]] eqn:Hq; [|done]. eapply rtt_balanced, claimed_rtt, Hq.
Qed.
Lemma expire_balanced s item : balanced (expire_acts s item).
Proof.
  unfold expire_acts. destruct (Table.completeError _ _ _) as [t [p|]]; [|done].
  cbv zeta. destruct (di_kind item); balance_known.
Qed.
Lemma init_balanced timeout now s : balanced (init_acts timeout now s).
Proof.
  unfold init_acts. destruct (done s); [done|].
  destruct (sm_state (machine s)); try done;
    (apply (balanced_app [_; _]); [balance_known|apply terminate_balanced]).
Qed.
Lemma inactivity_balanced timeout now s : balanced (inactivity_acts timeout now s).
Proof.
  unfold inactivity_acts. destruct (done s); [done|]. destruct (negb _); [done|]. destruct (_ <? _); [done|].
  apply (balanced_app [_; _]); [balance_known|apply terminate_balanced].
Qed.
#[export] Hint Resolve frame_balanced written_balanced expire_balanced init_balanced inactivity_balanced : balance.

(** A piece of work of a goroutine, and what it reports: a frame, a written item, a
    deadline, the end of the session, and the report of a recovered panic, whoever
    panicked: the handler, the Observer, the tracer, the flow controller, the window
    observer, the logger, the connection or a loop. *)
Inductive piece :=
| Received (registry : option Registry) (profile : Profile) (now : Z) (s : Session) (fr : bytes)
| Written (now : Z) (item : txItem) (request : option Table.pendingRequest)
| Expired (s : Session) (item : deadlineItem)
| InitExpired (timeout now : Z) (s : Session)
| Silent (timeout now : Z) (s : Session)
| Terminated (s : Session) (cause : GoError)
| Recovered (x : source).
Definition acts_of (p : piece) : list act :=
  match p with
  | Received registry profile now s fr => frame_acts registry profile now s fr
  | Written now item request => written_acts now item request
  | Expired s item => expire_acts s item
  | InitExpired timeout now s => init_acts timeout now s
  | Silent timeout now s => inactivity_acts timeout now s
  | Terminated s cause => terminate_acts s cause
  | Recovered x => report_acts x
  end.

Lemma piece_balanced p : balanced (acts_of p).
Proof. destruct p; cbn [acts_of]; auto with balance. apply report_balanced. Qed.

(** The panics that a piece of work reports with the Observer as their source. *)
Definition observers_own (x : source) : Z := if decide (x = SourceObserver) then 1 else 0.
Definition untold (p : piece) : Z :=
  match p with
  | Received registry _ _ _ fr =>
      match DecodePDU fr registry with
      | Err e => if is_fatal e then 0
                 else match as_panic e with Some name => observers_own (source_of name) | None => 0 end
      | _ => 0
      end
  | Recovered x => observers_own x
  | _ => 0
  end.

(** Apart from them, every recovered panic is an event. *)
Definition panics_told (n : Z) (acts : list act) : Prop :=
  sum_of (moves panicsRecovered) acts = sum_of (emits [EventPanicRecovered]) acts + n.
Lemma panics_told_app n1 n2 l1 l2 : panics_told n1 l1 -> panics_told n2 l2 -> panics_told (n1 + n2) (l1 ++ l2).
Proof. unfold panics_told. intros H1 H2. rewrite !sum_app, H1, H2. lia. Qed.
Lemma report_told x : panics_told (observers_own x) (report_acts x).
Proof. unfold report_acts, observers_own. by destruct (decide _). Qed.
Lemma silent_told acts :
  Forall (fun a => match a with Count c => c <> panicsRecovered | Emit e => ev_Kind e <> EventPanicRecovered | _ => True end) acts ->
  panics_told 0 acts.
Proof.
  unfold panics_told, sum_of. induction 1 as [|a acts Ha _ IH]; [done|]. cbn [foldr].
  assert (H : moves panicsRecovered a = 0 /\ emits [EventPanicRecovered] a = 0) by
    (destruct a as [c|d|c|e]; cbn [moves emits]; split; repeat case_decide; try done;
     exfalso; apply Ha; by apply list_elem_of_singleton).
  lia.
Qed.
Ltac told := repeat first [apply Forall_nil; exact I | apply Forall_cons; split; [done|] | apply Forall_app; split].

Lemma terminate_told s e : panics_told 0 (terminate_acts s e).
Proof. unfold terminate_acts. destruct (closeErr s); [done|]. destruct (as_fatal e); [|done]. by apply silent_told; told. Qed.
Lemma rtt_told q seq d : panics_told 0 (observeRTT q seq d).
Proof. unfold observeRTT. destruct (Table.responseMetadata q). by apply silent_told; told. Qed.
Lemma response_told profile now s pdu : panics_told 0 (response_acts profile now s pdu).
Proof.
  unfold response_acts. destruct (Table.takeResponse _ _ _) as [t [p|]]; [|done].
  destruct (Table.reqs t !! p) as [q|]; [|done]. destruct (Table.markResponseAt q _ _ _) as [q' rtt]. cbv zeta.
  apply (panics_told_app 0 (0 + 0)); [destruct rtt; [apply rtt_told|done]|]. apply panics_told_app.
  - unfold congestion_acts. destruct (negb _); [done|].
    by destruct (CongestionStateFromOptional _) as [[st []] [e|]].
  - destruct (_ && _); [apply terminate_told|done].
Qed.
Lemma frame_told registry profile now s fr : panics_told (untold (Received registry profile now s fr))
  (frame_acts registry profile now s fr).
Proof.
  unfold frame_acts, untold. destruct (DecodePDU fr registry) as [pdu|e|]; [| |done].
  - cbv zeta. destruct (IsResponse _).
    + apply (panics_told_app 0 0 [_; _]); [by apply silent_told; told|].
      apply (panics_told_app 0 0); [|apply response_told]. destruct (_ =? _); [by apply silent_told; told|done].
    + apply silent_told. destruct (_ =? _); told; done.
  - destruct (is_fatal e); [done|].
    assert (Hr : panics_told (match as_panic e with Some name => observers_own (source_of name) | None => 0 end)
      (reportIfPanic_acts e)).
    { unfold reportIfPanic_acts. destruct (as_panic e); [apply report_told|done]. }
    pose proof (panics_told_app 0 _ [Count decodeFailures] _ eq_refl
      (panics_told_app _ 0 _ [Emit (plain_event EventDecodeFailure)] Hr eq_refl)) as H.
    by rewrite Z.add_0_l, Z.add_0_r in H.
Qed.
Lemma piece_told p : panics_told (untold p) (acts_of p).
Proof.
  destruct p as [registry profile now s fr|now item request|s item|timeout now s|timeout now s|s cause|x]; cbn [acts_of].
  - apply frame_told.
  - unfold written_acts. apply (panics_told_app 0 0).
    + unfold outbound_acts. apply silent_told. destruct (kind item); try destruct (_ =? _); told; done.
    + destruct (kind item), request as [q|]; try done.
      destruct (Table.markDispatchAt q now) as [q' [d|]]; [apply rtt_told|done].
  - unfold expire_acts. destruct (Table.completeError _ _ _) as [t [q|]]; [|done]. apply silent_told.
    cbv zeta. destruct (di_kind item); told; done.
  - unfold init_acts. destruct (done s); [done|].
    destruct (sm_state (machine s)); try done; (apply (panics_told_app 0 0 [_; _]); [by apply silent_told; told|apply terminate_told]).
  - unfold inactivity_acts. destruct (done s); [done|]. destruct (negb _); [done|]. destruct (_ <? _); [done|].
    apply (panics_told_app 0 0 [_; _]); [by apply silent_told; told|apply terminate_told].
  - apply terminate_told.
  - apply report_told.
Qed.

(** C38: Counters and events tell the same story.  However the goroutines of a session
    interleave what they count and report, once their pieces of work are complete (each
    moves its counter before it emits the event): every counter of the session's metrics
    that has an event shows, as an unsigned 64-bit number, how many of its events the
    observer was given, where the response timeouts are those of requests and of
    enquire_link together; and the recovered panics are as many as the events of
    recovered panics and the reports of a panic of the Observer itself, which is not told
    about those. *)
Theorem counters_match_events pieces acts :
  acts ≡ₚ concat (map acts_of pieces) ->
  (forall c ks, shown c = Some ks -> (perform_all acts).1 c = u64 (seen ks (perform_all acts).2)) /\
  (perform_all acts).1 panicsRecovered =
    u64 (seen [EventPanicRecovered] (perform_all acts).2 + sum_of untold pieces).
Proof.
  intros Hp. assert (Hb : balanced (concat (map acts_of pieces))).
  { clear Hp. induction pieces as [|p pieces IH]; [done|]. cbn [map concat]. apply balanced_app; [apply piece_balanced|done]. }
  assert (Ht : panics_told (sum_of untold pieces) (concat (map acts_of pieces))).
  { clear Hp Hb. induction pieces as [|p pieces IH]; [done|]. cbn [map concat].
    apply (panics_told_app (untold p)); [apply piece_told|done]. }
  split.
  - intros c ks Hc. rewrite perform_all_counts, perform_all_events by (by destruct c). rewrite !Hp. by rewrite (Hb c ks Hc).
  - rewrite perform_all_counts, perform_all_events by done. rewrite !Hp. by rewrite Ht.
Qed.

(** A panic in a decoder comes back from [DecodePDU] as an error. *)
Lemma DecodePDU_recovers fr registry : bytes_ok fr -> DecodePDU fr registry <> Panic.
Proof.
  intros Hok. destruct (DecodePDU_inv fr registry Hok) as [(h & b & -> & Hh & Hb & Hl & Hlt)|(e & -> & _)]; [|done].
  rewrite DecodePDU_frame by done. cbv zeta.
  assert (Hres : ResolveCommand registry (CommandID (with_length h (16 + zlen b))) <> Panic).
  { unfold ResolveCommand. repeat case_match; done. }
  destruct (ResolveCommand _ _) as [[def|]|e|]; [|done|done|done]. cbn [mbind outcome_bind].
  destruct (cd_Decode def) as [dec|] eqn:Hd; [|done]. unfold decodeBody. rewrite Hd. by destruct (dec _ b).
Qed.

(** ** The books of two sessions *)

(** What [frame_acts] adds to the counters of what was received. *)
Definition inbound_counters (c : counter) : bool :=
  match c with requestsReceived | responsesReceived | enquireLinkReceived => true | _ => false end.

Lemma response_not_inbound profile now s pdu c : inbound_counters c = true ->
  sum_of (moves c) (response_acts profile now s pdu) = 0.
Proof.
  intros Hc. assert (Ht : forall s' e, sum_of (moves c) (terminate_acts s' e) = 0).
  { intros s' e. unfold terminate_acts. destruct (closeErr s'); [done|]. destruct (as_fatal e); by destruct c. }
  unfold response_acts. destruct (Table.takeResponse _ _ _) as [t [p|]]; [|done].
  destruct (Table.reqs t !! p) as [q|]; [|done].
  destruct (Table.markResponseAt q _ _ _) as [q' rtt]. cbv zeta. rewrite !sum_app.
  assert (H1 : forall d, sum_of (moves c) (observeRTT q' (SequenceNumber (pdu_Header pdu)) d) = 0).
  { intros d. unfold observeRTT. destruct (Table.responseMetadata q'). by destruct c. }
  assert (H2 : forall s', sum_of (moves c) (congestion_acts now s' pdu) = 0).
  { intros s'. unfold congestion_acts. destruct (negb _); [done|].
    destruct (CongestionStateFromOptional _) as [[st []] [e|]]; by destruct c. }
  rewrite H2. destruct rtt as [d|]; [rewrite H1|]; destruct (_ && _); rewrite ?Ht; done.
Qed.

(** An item says of itself what it is. *)
Definition kind_matches (item : txItem) : Prop :=
  (if IsResponse (CommandID (header item)) then kind item = txResponse else kind item <> txResponse).

Definition mirrored (c : counter) : option counter :=
  match c with
  | requestsSent => Some requestsReceived
  | responsesSent => Some responsesReceived
  | enquireLinkSent => Some enquireLinkReceived
  | _ => None
  end.

Section books.
Context (r : Registry) `{!StandardRegistry r}.

Lemma item_mirrored stale max item body profile at' now s c c' : max < 4294967296 ->
  carries r stale max item body -> kind_matches item -> mirrored c = Some c' ->
  sum_of (moves c) (outbound_acts at' item) = sum_of (moves c') (frame_acts (Some r) profile now s (frame item)).
Proof.
  intros Hm Hc Hk Hmir. destruct (carries_arrives r stale max item body Hm Hc) as [_ (pdu & Hdec & Hh & _)].
  assert (Hin : inbound_counters c' = true) by (destruct c; simplify_eq/=; done).
  unfold frame_acts, outbound_acts. rewrite Hdec. cbv zeta.
  assert (Hid : CommandID (pdu_Header pdu) = CommandID (header item)) by by rewrite Hh.
  rewrite Hid. unfold kind_matches in Hk. destruct (IsResponse (CommandID (header item))) eqn:Hresp.
  - rewrite Hk. pose proof (response_not_inbound profile now (note_inbound s now) pdu c' Hin) as H0.
    rewrite !app_comm_cons, sum_app, H0.
    destruct (_ =? CommandEnquireLinkResp); destruct c; simplify_eq/=; reflexivity.
  - destruct (kind item); [|done|];
      destruct (_ =? CommandEnquireLink); destruct c; simplify_eq/=; reflexivity.
Qed.
End books.

(** C39: The books of two sessions balance.  Let one session have written items that its
    peer can decode - encoded under the registry of the peer, within its PDU size, with a
    body that its decoder accepts - and that are of the kind of their command (response
    items hold responses, the others requests), and let the peer have received their
    frames, in whatever states and at whatever times it processed them.  Then the sender
    has counted as many requests, responses and enquire_links sent as the receiver has
    counted received.  (A frame that the peer cannot decode is counted there as a decode
    failure only.) *)
Theorem books_balance r `{!StandardRegistry r} stale max profile items views c c' :
  max < 4294967296 ->
  Forall (fun item => (exists body, carries r stale max item body) /\ kind_matches item) items ->
  length views = length items -> mirrored c = Some c' ->
  let sent := concat (map (fun x => outbound_acts x.2.1.1 x.1) (zip items views)) in
  let received := concat (map (fun x => frame_acts (Some r) profile x.2.1.2 x.2.2 (frame x.1)) (zip items views)) in
  (perform_all sent).1 c = (perform_all received).1 c'.
Proof.
  intros Hm Hitems Hl Hmir. cbv zeta.
  rewrite !perform_all_counts by (destruct c; simplify_eq/=; done). f_equal.
  revert views Hl. induction Hitems as [|item items [[body Hb] Hk] _ IH]; intros [|v views] Hl; try done.
  cbn [zip map concat]. rewrite !sum_app. f_equal; [|apply IH; by injection Hl].
  by apply (item_mirrored r stale max item body).
Qed.

(** A request is written, its response arrives, the Observer panics when it is told, and a
    handler panics. *)
Lemma counters_match_events_witness :
  let pieces := [Written 4 (call_item (sample_call 1 1)) (Some (Table.new_request CommandSubmitSM 0));
                 Received (Some exchange_registry) SMPP34Profile 9 waiting_session (rpc_response (sample_call 1 1));
                 Recovered SourceObserver; Recovered (SourceOther "session.Handler")] in
  let acts := concat (map acts_of pieces) in
  (perform_all acts).1 responsesReceived = 1 /\
  (perform_all acts).1 responsesReceived = u64 (seen [EventResponseReceived] (perform_all acts).2) /\
  (perform_all acts).1 panicsRecovered = 2 /\ seen [EventPanicRecovered] (perform_all acts).2 = 1 /\
  (perform_all acts).1 panicsRecovered = u64 (seen [EventPanicRecovered] (perform_all acts).2 + sum_of untold pieces).
Proof.
  intros pieces acts. destruct (counters_match_events pieces acts) as [H1 H2]; [reflexivity|].
  split_and!; [vm_compute; reflexivity|apply H1; reflexivity|vm_compute; reflexivity|vm_compute; reflexivity|exact H2].
Defined.

Lemma books_balance_witness :
  let items := map call_item sample_calls in
  let views := [((1, 2), sample_session); ((3, 4), sample_session)] in
  (perform_all (concat (map (fun x => outbound_acts x.2.1.1 x.1) (zip items views)))).1 requestsSent = 2 /\
  (perform_all (concat (map (fun x => frame_acts (Some exchange_registry) SMPP34Profile x.2.1.2 x.2.2 (frame x.1))
     (zip items views)))).1 requestsReceived = 2.
Proof.
  intros items views. split; [vm_compute; reflexivity|].
  rewrite <- (books_balance exchange_registry [] 1048576 SMPP34Profile items views requestsSent requestsReceived).
  - vm_compute. reflexivity.
  - reflexivity.
  - pose proof sample_calls_ok as Hc. apply Forall_cons in Hc as [H1 Hc]. apply Forall_cons in Hc as [H2 _].
    apply Forall_cons; split; [|apply Forall_cons; split; [|constructor]]; (split; [eexists|done]); [apply H1|apply H2].
  - reflexivity.
  - reflexivity.
Defined.
