(* ===== verification/Shutdown.v ===== *)
(** * How a session ends (src/session/session.go: New, Wait, Close, terminate; rx.go:
    rxLoop; tx.go: txLoop; deadline.go: run; liveness.go)

    A session is three goroutines: the receive loop, the transmit loop and the loop of
    the deadlines.  [terminate] closes [done] and the connection, and [Wait] waits for
    the three to return.  The other files say what the loops do to the session; here
    only the places where they stand, where they can block and what wakes them count:
    the connection, the transmit queue, the heap of the deadlines with its [wake]
    channel, [done], the [sync.Once] of [terminate], and the functions of the application
    (handlers, observers, tracers, loggers, the connection) that they call and that may
    not return.  The goroutines of the application push items, cancel deadlines and call
    [Close] as well.

    [terminate] runs its body once, and calls functions of the application from it; what
    those may do there is the subject of the second part. *)

From S2P Require Import Prelude Protocol Receive Deadline Events.

(** ** Where the goroutines stand *)

(** The three goroutines of the session, and one of the application in [Close]. *)
Inductive actor : Set := RX | TX | DL | Closer.

(** [RxFeed k last]: in [Feed], [k] frames to come, [last] when the read also returned an
    error; [RxQueue]: in the [select] of [queueResponse]; [RxTerm next]: in [terminate],
    to go on as [next]; [RxCheck]: before the [select] at the end of the loop. *)
Inductive rx_at : Set :=
| RxRead | RxFeed (k : nat) (last : bool) | RxQueue (k : nat) (last : bool) | RxTerm (next : rx_at) | RxCheck | RxExit.
(** [TxWrite early n]: writing a batch of [n] items; [early] when the write began before
    the connection was closed. *)
Inductive tx_at : Set := TxSelect | TxWrite (early : bool) (n : nat) | TxTerm | TxExit.
(** [DlExpire k]: in [expireReady], [k] items to come; [DlFire k]: in the handler of a
    liveness deadline, past its check of [done]; [DlTerm next]: in [terminate]. *)
Inductive dl_at : Set := DlSelect | DlExpire (k : nat) | DlFire (k : nat) | DlTerm (next : dl_at) | DlExit.

#[export] Instance rx_at_eq_dec : EqDecision rx_at.
Proof. solve_decision. Defined.
#[export] Instance tx_at_eq_dec : EqDecision tx_at.
Proof. solve_decision. Defined.
#[export] Instance dl_at_eq_dec : EqDecision dl_at.
Proof. solve_decision. Defined.
#[export] Instance actor_eq_dec : EqDecision actor.
Proof. solve_decision. Defined.

(** How far [terminate] is, and who runs its body: before [close(s.done)], after it, and
    after the connection is closed. *)
Inductive stage : Set := Before | Ended | Shut.
Inductive once_state : Set := NotCalled | Running_ (a : actor) (st : stage) | Over.

(** [callers] are past the check of [done] and have not queued their item, [waiters] wait
    for a response.  [moved]: the first deadline was cancelled since the timer was set. *)
Record loops := MkLoops {
  rx_loop : rx_at;
  tx_loop : tx_at;
  dl_loop : dl_at;
  closeOnce : once_state;
  wg : nat;
  queue : nat;
  heap : nat;
  wake : bool;
  moved : bool;
  callers : nat;
  waiters : nat
}.

(** [done] is closed; the connection is closed. *)
Definition over (x : loops) : bool :=
  match closeOnce x with NotCalled | Running_ _ Before => false | _ => true end.
Definition shut (x : loops) : bool :=
  match closeOnce x with Running_ _ Shut | Over => true | _ => false end.

Definition rx_to (v : rx_at) (x : loops) : loops :=
  MkLoops v (tx_loop x) (dl_loop x) (closeOnce x) (wg x) (queue x) (heap x) (wake x) (moved x) (callers x) (waiters x).
Definition tx_to (v : tx_at) (x : loops) : loops :=
  MkLoops (rx_loop x) v (dl_loop x) (closeOnce x) (wg x) (queue x) (heap x) (wake x) (moved x) (callers x) (waiters x).
Definition dl_to (v : dl_at) (x : loops) : loops :=
  MkLoops (rx_loop x) (tx_loop x) v (closeOnce x) (wg x) (queue x) (heap x) (wake x) (moved x) (callers x) (waiters x).
Definition set_once (v : once_state) (x : loops) : loops :=
  MkLoops (rx_loop x) (tx_loop x) (dl_loop x) v (wg x) (queue x) (heap x) (wake x) (moved x) (callers x) (waiters x).
Definition set_wg (v : nat) (x : loops) : loops :=
  MkLoops (rx_loop x) (tx_loop x) (dl_loop x) (closeOnce x) v (queue x) (heap x) (wake x) (moved x) (callers x) (waiters x).
Definition set_queue (v : nat) (x : loops) : loops :=
  MkLoops (rx_loop x) (tx_loop x) (dl_loop x) (closeOnce x) (wg x) v (heap x) (wake x) (moved x) (callers x) (waiters x).
Definition set_heap (v : nat) (x : loops) : loops :=
  MkLoops (rx_loop x) (tx_loop x) (dl_loop x) (closeOnce x) (wg x) (queue x) v (wake x) (moved x) (callers x) (waiters x).
Definition set_wake (v : bool) (x : loops) : loops :=
  MkLoops (rx_loop x) (tx_loop x) (dl_loop x) (closeOnce x) (wg x) (queue x) (heap x) v (moved x) (callers x) (waiters x).
Definition set_moved (v : bool) (x : loops) : loops :=
  MkLoops (rx_loop x) (tx_loop x) (dl_loop x) (closeOnce x) (wg x) (queue x) (heap x) (wake x) v (callers x) (waiters x).
Definition set_callers (v : nat) (x : loops) : loops :=
  MkLoops (rx_loop x) (tx_loop x) (dl_loop x) (closeOnce x) (wg x) (queue x) (heap x) (wake x) (moved x) v (waiters x).
Definition set_waiters (v : nat) (x : loops) : loops :=
  MkLoops (rx_loop x) (tx_loop x) (dl_loop x) (closeOnce x) (wg x) (queue x) (heap x) (wake x) (moved x) (callers x) v.
(** The deferred [wg.Done] of a loop that returns. *)
Definition wg_Done (x : loops) : loops := set_wg (wg x - 1) x.
Definition rx_return (x : loops) : loops := rx_to RxExit (wg_Done x).
Definition tx_return (x : loops) : loops := tx_to TxExit (wg_Done x).
Definition dl_return (x : loops) : loops := dl_to DlExit (wg_Done x).

(** [New], with the liveness deadlines that are configured: the first of them wakes the
    loop of the deadlines. *)
Definition session_started (init inactivity enquire : bool) : loops :=
  MkLoops RxRead TxSelect DlSelect NotCalled 3 0 (Nat.b2n init + Nat.b2n inactivity + Nat.b2n enquire)
    (init || inactivity || enquire) false 0 0.

Definition exited (x : loops) : Prop := rx_loop x = RxExit /\ tx_loop x = TxExit /\ dl_loop x = DlExit.

(** [Wait] is blocked. *)
Definition Wait_blocks (x : loops) : Prop := wg x <> 0%nat.

(** A flag after something that may set it. *)
Definition raises (b b' : bool) : Prop := b = true -> b' = true.

(** Deadlines are cancelled, perhaps none: [signal] wakes their loop if the first is
    among them. *)
Inductive cancelled (x : loops) : loops -> Prop :=
| cancelled_at h w m : (h <= heap x)%nat -> raises (wake x) w -> raises (moved x) m ->
    cancelled x (set_heap h (set_wake w (set_moved m x))).

Section shutdown.
(** The room of the transmit queue, and how many frames one read completes at most. *)
Context (TXQueueSize frames_max : nat).

(** In the steps below the index tells whether the step has to wait for the peer: a read
    or a write on a connection that is not closed. *)

(** *** The receive loop *)

Inductive rx_step : bool -> loops -> loops -> Prop :=
| rx_read k x :
    rx_loop x = RxRead -> shut x = false -> (k <= frames_max)%nat ->
    rx_step true x (rx_to (RxFeed k false) x)
(** A read that fails, with or without data. *)
| rx_read_err k x :
    rx_loop x = RxRead -> (k <= frames_max)%nat ->
    rx_step (negb (shut x)) x (rx_to (RxFeed k true) x)
(** A frame that queues nothing; a response may cancel a deadline. *)
| rx_frame k last x y :
    rx_loop x = RxFeed (S k) last -> cancelled x y ->
    rx_step false x (rx_to (RxFeed k last) y)
(** The response to an unbind ends the session. *)
| rx_unbound k last x y :
    rx_loop x = RxFeed (S k) last -> cancelled x y ->
    rx_step false x (rx_to (RxTerm (RxFeed k last)) y)
| rx_answer k last x :
    rx_loop x = RxFeed (S k) last ->
    rx_step false x (rx_to (RxQueue k last) x)
| rx_queued k last x :
    rx_loop x = RxQueue k last -> (queue x < TXQueueSize)%nat ->
    rx_step false x (rx_to (RxFeed k last) (set_queue (S (queue x)) x))
(** The error of a [generic_nack] to a frame that does not decode is ignored. *)
| rx_unqueued k last x :
    rx_loop x = RxQueue k last -> over x = true ->
    rx_step false x (rx_to (RxFeed k last) x)
| rx_refused k last x :
    rx_loop x = RxQueue k last -> over x = true ->
    rx_step false x (rx_to (RxTerm RxExit) x)
(** A frame with an error, or a panic. *)
| rx_failed k last x :
    rx_loop x = RxFeed (S k) last ->
    rx_step false x (rx_to (RxTerm RxExit) x)
| rx_fed x :
    rx_loop x = RxFeed 0 false ->
    rx_step false x (rx_to RxCheck x)
| rx_ended x :
    rx_loop x = RxFeed 0 true ->
    rx_step false x (rx_to (RxTerm RxExit) x)
| rx_again x :
    rx_loop x = RxCheck -> over x = false ->
    rx_step false x (rx_to RxRead x)
| rx_done x :
    rx_loop x = RxCheck -> over x = true ->
    rx_step false x (rx_return x)
(** [terminate]: the first call runs the body, and every call waits for it. *)
| rx_first next x :
    rx_loop x = RxTerm next -> closeOnce x = NotCalled ->
    rx_step false x (set_once (Running_ RX Before) x)
| rx_back k last x :
    rx_loop x = RxTerm (RxFeed k last) -> closeOnce x = Over ->
    rx_step false x (rx_to (RxFeed k last) x)
| rx_left x :
    rx_loop x = RxTerm RxExit -> closeOnce x = Over ->
    rx_step false x (rx_return x).

(** *** The transmit loop *)

Inductive tx_step : bool -> loops -> loops -> Prop :=
| tx_done x :
    tx_loop x = TxSelect -> over x = true ->
    tx_step false x (tx_return x)
(** A request that is no longer pending. *)
| tx_skip q x :
    tx_loop x = TxSelect -> queue x = S q ->
    tx_step false x (set_queue q x)
| tx_take n q x :
    tx_loop x = TxSelect -> queue x = (S n + q)%nat ->
    tx_step false x (tx_to (TxWrite (negb (shut x)) (S n)) (set_queue q x))
(** A write that began on an open connection may succeed; its requests get deadlines. *)
| tx_written n scheduled w x :
    tx_loop x = TxWrite true n -> (scheduled <= n)%nat -> raises (wake x) w ->
    tx_step (negb (shut x)) x (tx_to TxSelect (set_heap (heap x + scheduled) (set_wake w x)))
(** And so may the one that ends with the answer to an unbind; or a panic comes after it. *)
| tx_unbound n scheduled w x :
    tx_loop x = TxWrite true n -> (scheduled <= n)%nat -> raises (wake x) w ->
    tx_step (negb (shut x)) x (tx_to TxTerm (set_heap (heap x + scheduled) (set_wake w x)))
| tx_failed early n x :
    tx_loop x = TxWrite early n ->
    tx_step (negb (shut x)) x (tx_to TxTerm x)
| tx_first x :
    tx_loop x = TxTerm -> closeOnce x = NotCalled ->
    tx_step false x (set_once (Running_ TX Before) x)
| tx_left x :
    tx_loop x = TxTerm -> closeOnce x = Over ->
    tx_step false x (tx_return x).

(** *** The loop of the deadlines *)

Inductive dl_step : loops -> loops -> Prop :=
| dl_done x :
    dl_loop x = DlSelect -> over x = true ->
    dl_step x (dl_return x)
| dl_woken x :
    dl_loop x = DlSelect -> wake x = true ->
    dl_step x (set_wake false (set_moved false x))
(** The timer of a deadline that is gone finds nothing to do. *)
| dl_stale x :
    dl_loop x = DlSelect -> moved x = true ->
    dl_step x (dl_to (DlExpire 0) (set_moved false x))
(** The timer of the first deadline. *)
| dl_timer k h x :
    dl_loop x = DlSelect -> heap x = (S k + h)%nat ->
    dl_step x (dl_to (DlExpire (S k)) (set_heap h x))
(** A request that timed out, or a liveness deadline with nothing to do. *)
| dl_expire k x y :
    dl_loop x = DlExpire (S k) -> cancelled x y ->
    dl_step x (dl_to (DlExpire k) y)
| dl_check k x :
    dl_loop x = DlExpire (S k) -> over x = false ->
    dl_step x (dl_to (DlFire k) x)
(** The liveness deadline is scheduled again, and may start an enquire_link of its own;
    or it ends the session. *)
| dl_fire k c w x :
    dl_loop x = DlFire k -> (c <= 1)%nat -> raises (wake x) w ->
    dl_step x (dl_to (DlExpire k) (set_heap (S (heap x)) (set_wake w (set_callers (c + callers x) x))))
| dl_ends k x :
    dl_loop x = DlFire k ->
    dl_step x (dl_to (DlTerm (DlExpire k)) x)
| dl_expired x :
    dl_loop x = DlExpire 0 ->
    dl_step x (dl_to DlSelect (set_moved false x))
(** A panic. *)
| dl_panicked k x :
    dl_loop x = DlExpire (S k) ->
    dl_step x (dl_to (DlTerm DlExit) x)
| dl_first next x :
    dl_loop x = DlTerm next -> closeOnce x = NotCalled ->
    dl_step x (set_once (Running_ DL Before) x)
| dl_back k x :
    dl_loop x = DlTerm (DlExpire k) -> closeOnce x = Over ->
    dl_step x (dl_to (DlExpire k) x)
| dl_left x :
    dl_loop x = DlTerm DlExit -> closeOnce x = Over ->
    dl_step x (dl_return x).

(** *** The body of [terminate], on the goroutine that came first *)

Inductive body_step (a : actor) : loops -> loops -> Prop :=
| body_done x : closeOnce x = Running_ a Before -> body_step a x (set_once (Running_ a Ended) x)
| body_shut x : closeOnce x = Running_ a Ended -> body_step a x (set_once (Running_ a Shut) x)
(** [failAll], whose requests cancel their deadlines. *)
| body_over x y : closeOnce x = Running_ a Shut -> cancelled x y -> body_step a x (set_once Over y).

(** *** The application *)

Inductive app_step : loops -> loops -> Prop :=
(** [Close]; on a session that is being terminated it only waits. *)
| app_close x : closeOnce x = NotCalled -> app_step x (set_once (Running_ Closer Before) x)
| app_request x : over x = false ->
    app_step x (set_callers (S (callers x)) x)
| app_queue c x : callers x = S c -> (queue x < TXQueueSize)%nat ->
    app_step x (set_queue (S (queue x)) (set_callers c (set_waiters (S (waiters x)) x)))
| app_leave c x y : callers x = S c -> cancelled x y ->
    app_step x (set_callers c y)
| app_withdraw n x y : waiters x = S n -> cancelled x y ->
    app_step x (set_waiters n y).

(** A step of one goroutine in the code of the session. *)
Definition actor_step (a : actor) (peer : bool) (x y : loops) : Prop :=
  body_step a x y /\ peer = false \/
  match a with RX => rx_step peer x y | TX => tx_step peer x y | DL => dl_step x y /\ peer = false | Closer => False end.

(** ** The functions of the application

    Between two steps of a goroutine it may call functions of the application, at most
    [calls_max] of them; it takes no step of its own while it is inside one. *)
Context (calls_max : nat).
Record desk := MkDesk { inside : bool; budget : nat }.
Record state := MkState { at_loops : loops; desks : actor -> desk }.
Definition set_desk (a : actor) (d : desk) (f : actor -> desk) : actor -> desk :=
  fun b => if decide (a = b) then d else f b.

(** The goroutine has not returned; the one of the application runs the body of
    [terminate]. *)
Definition working (a : actor) (x : loops) : Prop :=
  match a with
  | RX => rx_loop x <> RxExit
  | TX => tx_loop x <> TxExit
  | DL => dl_loop x <> DlExit
  | Closer => exists st, closeOnce x = Running_ Closer st
  end.

Inductive step : state -> state -> Prop :=
| by_actor a peer x y f b : inside (f a) = false -> actor_step a peer x y -> (b <= calls_max)%nat ->
    step (MkState x f) (MkState y (set_desk a (MkDesk false b) f))
| by_call a x f b : f a = MkDesk false (S b) -> working a x ->
    step (MkState x f) (MkState x (set_desk a (MkDesk true b) f))
| by_return a x f b : f a = MkDesk true b ->
    step (MkState x f) (MkState x (set_desk a (MkDesk false b) f))
| by_app x y f : app_step x y -> step (MkState x f) (MkState y f).

(** Nothing is left to do for the session itself: no goroutine that is in its code can
    take a step without the peer. *)
Definition at_rest (s : state) : Prop :=
  forall a y, inside (desks s a) = false -> ~ actor_step a false (at_loops s) y.

Definition started (init inactivity enquire : bool) : state :=
  MkState (session_started init inactivity enquire) (fun _ => MkDesk false calls_max).

(** ** Nothing goes on for ever once the session is over *)

(** A bound on the steps that are left. *)
Fixpoint rx_potential (l : rx_at) : nat :=
  match l with
  | RxRead => 5 + 13 * frames_max
  | RxFeed k _ => 4 + 13 * k
  | RxQueue k _ => 16 + 13 * k
  | RxTerm next => 1 + rx_potential next
  | RxCheck => 1
  | RxExit => 0
  end.
Definition tx_potential (l : tx_at) : nat :=
  match l with TxSelect => 1 | TxWrite true n => 5 + 6 * n | TxWrite false _ => 4 | TxTerm => 1 | TxExit => 0 end.
Fixpoint dl_potential (l : dl_at) : nat :=
  match l with
  | DlSelect => 1 | DlExpire k => 2 + 4 * k | DlFire k => 28 + 4 * k | DlTerm next => 1 + dl_potential next | DlExit => 0
  end.
Definition once_potential (o : once_state) : nat :=
  match o with NotCalled => 7 | Running_ _ Before => 6 | Running_ _ Ended => 5 | Running_ _ Shut => 4 | Over => 0 end.
Definition potential (x : loops) : nat :=
  rx_potential (rx_loop x) + tx_potential (tx_loop x) + dl_potential (dl_loop x) + once_potential (closeOnce x) +
  11 * queue x + 6 * heap x + Nat.b2n (wake x) + 2 * Nat.b2n (moved x) + 16 * callers x + 4 * waiters x.
Definition desk_potential (d : desk) : nat := 2 * budget d + Nat.b2n (inside d).
Definition desks_potential (f : actor -> desk) : nat :=
  desk_potential (f RX) + desk_potential (f TX) + desk_potential (f DL) + desk_potential (f Closer).
Definition total (s : state) : nat :=
  (2 * calls_max + 2) * potential (at_loops s) + desks_potential (desks s).

Lemma desk_set_potential a d f :
  (desks_potential (set_desk a d f) + desk_potential (f a) = desks_potential f + desk_potential d)%nat.
Proof. unfold desks_potential, set_desk. destruct a; repeat case_decide; try done; lia. Qed.

Lemma b2n_le b : (Nat.b2n b <= 1)%nat.
Proof. destruct b; cbn; lia. Qed.

(** One step, with the places it starts from put in and the flags bounded. *)
Ltac step_cases :=
  repeat match goal with
  | H : cancelled _ _ |- _ => destruct H
  | H : actor_step ?a _ _ _ |- _ => destruct H as [[H ?]|H]; [|destruct a]
  | H : rx_step _ _ _ |- _ => destruct H
  | H : tx_step _ _ _ |- _ => destruct H
  | H : dl_step _ _ /\ _ |- _ => destruct H as [H ?]
  | H : dl_step _ _ |- _ => destruct H
  | H : body_step _ _ _ |- _ => destruct H
  | H : app_step _ _ |- _ => destruct H
  | H : False |- _ => destruct H
  end;
  cbn [rx_to tx_to dl_to set_once set_wg set_queue set_heap set_wake set_moved set_callers set_waiters wg_Done
       rx_return tx_return dl_return rx_loop tx_loop dl_loop closeOnce wg queue heap wake moved callers waiters] in *.

(** Put in what is known of [x]. *)
Ltac known x := repeat match goal with H : _ x = _ |- _ => rewrite H in * end.
Ltac bounded_flags :=
  repeat match goal with |- context [Nat.b2n ?b] => is_var b; pose proof (b2n_le b); generalize dependent (Nat.b2n b); intros end.

Lemma app_descends x y : over x = true -> app_step x y -> (potential y < potential x)%nat.
Proof.
  intros Ho H. pose proof Ho as Ho'. unfold over in Ho'. unfold potential.
  step_cases; known x; try discriminate; bounded_flags; lia.
Qed.
Lemma actor_descends a peer x y : over x = true -> actor_step a peer x y -> (potential y < potential x)%nat.
Proof.
  intros Ho H. pose proof Ho as Ho'. unfold over in Ho'. unfold potential.
  step_cases; known x; try discriminate; cbn [rx_potential tx_potential dl_potential once_potential]; unfold shut;
  repeat case_match; try discriminate; cbn [Nat.b2n]; bounded_flags; lia.
Qed.

Lemma app_over x y : over x = true -> app_step x y -> over y = true.
Proof. unfold over. intros Ho H. step_cases; known x; done. Qed.
Lemma actor_over a peer x y : over x = true -> actor_step a peer x y -> over y = true.
Proof. intros Ho H. pose proof Ho as Ho'. unfold over in *. step_cases; known x; done. Qed.

Lemma step_descends s s' : over (at_loops s) = true -> step s s' ->
  (total s' < total s)%nat /\ over (at_loops s') = true.
Proof.
  intros Ho H. destruct H as [a peer x y f b Hf Hs Hb|a x f b Hf _|a x f b Hf|x y f Hs]; cbn [at_loops] in Ho.
  - pose proof (actor_descends a peer x y Ho Hs) as Hd. split; [|by eapply actor_over].
    assert (Hm : ((2 * calls_max + 2) * potential y + (2 * calls_max + 2) <= (2 * calls_max + 2) * potential x)%nat) by nia.
    pose proof (desk_set_potential a (MkDesk false b) f) as Hp. unfold total, desk_potential in *. cbn in *. lia.
  - pose proof (desk_set_potential a (MkDesk true b) f) as Hp. rewrite Hf in Hp. unfold total, desk_potential in *. cbn in *.
    split; [lia|done].
  - pose proof (desk_set_potential a (MkDesk false b) f) as Hp. rewrite Hf in Hp. unfold total, desk_potential in *. cbn in *.
    split; [lia|done].
  - pose proof (app_descends x y Ho Hs). split; [|by eapply app_over]. unfold total. cbn [at_loops desks]. nia.
Qed.

(** Who has the body of [terminate] to run, and then every loop that has not returned,
    can go on. *)
Lemma body_goes_on a st x : closeOnce x = Running_ a st -> exists y, actor_step a false x y.
Proof.
  intros H. pose proof (cancelled_at x (heap x) (wake x) (moved x) (le_n _) id id) as Hc.
  destruct st; eexists; left; (split; [|done]); [by apply body_done|by apply body_shut|by eapply body_over].
Qed.
(** Where a loop may go after [terminate]. *)
Definition rx_next (l : rx_at) : Prop :=
  match l with RxTerm (RxFeed _ _) | RxTerm RxExit => True | RxTerm _ => False | _ => True end.
Definition dl_next (l : dl_at) : Prop :=
  match l with DlTerm (DlExpire _) | DlTerm DlExit => True | DlTerm _ => False | _ => True end.
Definition next_ok (x : loops) : Prop := rx_next (rx_loop x) /\ dl_next (dl_loop x).

Lemma rx_goes_on x : closeOnce x = Over -> next_ok x -> rx_loop x <> RxExit -> exists y, rx_step false x y.
Proof.
  intros Ho [Hn _] H. assert (Hov : over x = true) by (unfold over; by rewrite Ho).
  assert (Hsh : negb (shut x) = false) by (unfold shut; by rewrite Ho).
  destruct (rx_loop x) as [|[|k] []|k last|[]| |] eqn:Hr; try done.
  - exists (rx_to (RxFeed 0 true) x). rewrite <- Hsh. apply rx_read_err; [done|lia].
  - eexists. by apply rx_ended.
  - eexists. by apply rx_fed.
  - eexists. by apply (rx_answer k true).
  - eexists. by apply (rx_answer k false).
  - eexists. by eapply rx_refused.
  - eexists. by apply rx_back.
  - eexists. by apply rx_left.
  - eexists. by apply rx_done.
Qed.
Lemma tx_goes_on x : closeOnce x = Over -> tx_loop x <> TxExit -> exists y, tx_step false x y.
Proof.
  intros Ho H. assert (Hov : over x = true) by (unfold over; by rewrite Ho).
  assert (Hsh : negb (shut x) = false) by (unfold shut; by rewrite Ho).
  destruct (tx_loop x) as [|early n| |] eqn:Ht; try done.
  - eexists. by apply tx_done.
  - exists (tx_to TxTerm x). rewrite <- Hsh. by eapply tx_failed.
  - eexists. by apply tx_left.
Qed.
Lemma dl_goes_on x : closeOnce x = Over -> next_ok x -> dl_loop x <> DlExit -> exists y, dl_step x y.
Proof.
  intros Ho [_ Hn] H. assert (Hov : over x = true) by (unfold over; by rewrite Ho).
  destruct (dl_loop x) as [|[|k]|k|[]|] eqn:Hd; try done; eexists.
  - by apply dl_done.
  - by apply dl_expired.
  - by eapply dl_panicked.
  - by apply dl_ends.
  - by apply dl_back.
  - by apply dl_left.
Qed.

(** *** The count of the goroutines *)

Definition rx_live (l : rx_at) : nat := match l with RxExit => 0 | _ => 1 end.
Definition tx_live (l : tx_at) : nat := match l with TxExit => 0 | _ => 1 end.
Definition dl_live (l : dl_at) : nat := match l with DlExit => 0 | _ => 1 end.
Definition live (x : loops) : nat := rx_live (rx_loop x) + tx_live (tx_loop x) + dl_live (dl_loop x).
Record counted (x : loops) : Prop := {
  co_wg : wg x = live x;
  co_over : (live x < 3)%nat -> over x = true;
  co_next : next_ok x
}.

Ltac count_step x :=
  split; unfold live, next_ok, over in *;
  cbn [rx_to tx_to dl_to set_once set_wg set_queue set_heap set_wake set_moved set_callers set_waiters wg_Done
       rx_return tx_return dl_return rx_loop tx_loop dl_loop closeOnce wg queue heap wake moved callers waiters] in *;
  known x; cbn [rx_live tx_live dl_live rx_next dl_next] in *; done || lia || tauto || auto with lia.

Lemma app_counted x y : counted x -> app_step x y -> counted y.
Proof. intros [Hw Ho Hn] H. step_cases; count_step x. Qed.
Lemma rx_counted peer x y : counted x -> rx_step peer x y -> counted y.
Proof. intros [Hw Ho Hn] H. step_cases; count_step x. Qed.
Lemma tx_counted peer x y : counted x -> tx_step peer x y -> counted y.
Proof. intros [Hw Ho Hn] H. step_cases; count_step x. Qed.
Lemma dl_counted x y : counted x -> dl_step x y -> counted y.
Proof. intros [Hw Ho Hn] H. step_cases; count_step x. Qed.
Lemma body_counted a x y : counted x -> body_step a x y -> counted y.
Proof. intros [Hw Ho Hn] H. step_cases; count_step x. Qed.

Lemma step_counted s s' : counted (at_loops s) -> step s s' -> counted (at_loops s').
Proof.
  intros Hc H. destruct H as [a peer x y f b _ [[Hs _]|Hs] _|a x f b _ _|a x f b _|x y f Hs]; cbn [at_loops] in *; try done.
  - by eapply body_counted.
  - destruct a; [by eapply rx_counted|by eapply tx_counted|destruct Hs; by eapply dl_counted|done].
  - by eapply app_counted.
Qed.
Lemma steps_counted s s' : rtc step s s' -> counted (at_loops s) -> counted (at_loops s').
Proof. induction 1; [done|]. eauto using step_counted. Qed.
Lemma started_counted i1 i2 i3 : counted (at_loops (started i1 i2 i3)).
Proof. split; cbn; [done|unfold live; cbn; lia|done]. Qed.

Lemma live_exited x : live x = 0%nat <-> exited x.
Proof. unfold live, exited. destruct (rx_loop x), (tx_loop x), (dl_loop x); cbn; split; try lia; intuition congruence. Qed.

(** When the session has nothing left to do and nobody is in the application's code. *)
Lemma rest_exited s : over (at_loops s) = true -> counted (at_loops s) -> at_rest s ->
  (forall a, inside (desks s a) = false) -> closeOnce (at_loops s) = Over /\ exited (at_loops s).
Proof.
  intros Ho Hc Hr Hin.
  assert (Hover : closeOnce (at_loops s) = Over).
  { unfold over in Ho. destruct (closeOnce (at_loops s)) as [|a st|] eqn:H; [done| |done].
    destruct (body_goes_on a st _ H) as [y Hy]. by destruct (Hr a y (Hin a)). }
  split; [done|]. pose proof (co_next _ Hc) as Hn. split_and!; apply dec_stable; intros Hne.
  - destruct (rx_goes_on _ Hover Hn Hne) as [y Hy]. apply (Hr RX y (Hin RX)). by right.
  - destruct (tx_goes_on _ Hover Hne) as [y Hy]. apply (Hr TX y (Hin TX)). by right.
  - destruct (dl_goes_on _ Hover Hn Hne) as [y Hy]. apply (Hr DL y (Hin DL)). by right.
Qed.

(** A goroutine that is in the application's code is at work: nobody else moves it. *)
Lemma app_working b x y : app_step x y -> working b x -> working b y.
Proof. intros H Hb. step_cases; destruct b; cbn in *; try done; destruct Hb as [st Hb]; exists st; congruence. Qed.
Lemma actor_working a b peer x y : a <> b -> actor_step a peer x y -> working b x -> working b y.
Proof.
  intros Hne H Hb.
  assert (Hc : b = Closer -> forall st, closeOnce x = Running_ Closer st -> closeOnce y = Running_ Closer st).
  { intros -> st Hx. clear Hb. step_cases; congruence. }
  destruct b; [..|destruct Hb as [st Hb]; exists st; by apply Hc]; clear Hc; cbn [working] in *;
    (destruct H as [[H _]|H]; [by destruct H as [| |? ? ? []]|]);
    destruct a; try done; try destruct H as [H _]; destruct H; try done;
    repeat match goal with H : cancelled _ _ |- _ => destruct H end; done.
Qed.
Definition at_work (s : state) : Prop := forall a, inside (desks s a) = true -> working a (at_loops s).
Lemma step_at_work s s' : step s s' -> at_work s -> at_work s'.
Proof.
  intros H Hw. destruct H as [a peer x y f b Hf Hs Hb|a x f b Hf Hwork|a x f b Hf|x y f Hs];
    intros c; cbn [desks at_loops] in *; unfold set_desk; try case_decide as Hac; cbn [inside].
  - done.
  - intros Hin. by eapply actor_working, Hw.
  - by subst.
  - apply Hw.
  - done.
  - apply Hw.
  - intros Hin. by eapply app_working, Hw.
Qed.
Lemma steps_at_work s s' : rtc step s s' -> at_work s -> at_work s'.
Proof. induction 1; eauto using step_at_work. Qed.
End shutdown.

(** C13: A session that ended leaves no goroutine behind, if the application lets go of it.
    Let the connection, once closed, fail every read and every write.  From the moment
    [terminate] has closed [done], whatever the three loops, the callers of the
    application and its [Close] do, and whichever ready case the [select]s take, only so
    many steps are left.  When the session itself can do no more, then either one of its
    goroutines (or the one of the application that runs the body of [terminate]) is
    inside a function of the application that has not returned - a handler, an observer,
    the logger or the connection -, or [terminate] is through, the connection is closed,
    all three loops have returned and [Wait] returns.  So if these functions return, the
    session does end; [Wait] never returns before the loops have, nor before the session
    is over. *)
Theorem session_ends TXQueueSize frames_max calls_max init inactivity enquire s :
  rtc (step TXQueueSize frames_max calls_max) (started calls_max init inactivity enquire) s ->
  (over (at_loops s) = true ->
    (forall n s', nsteps (step TXQueueSize frames_max calls_max) n s s' -> (n <= total frames_max calls_max s)%nat) /\
    (forall s', rtc (step TXQueueSize frames_max calls_max) s s' -> at_rest TXQueueSize frames_max s' ->
       (exists a, inside (desks s' a) = true /\ working a (at_loops s')) \/
       closeOnce (at_loops s') = Over /\ shut (at_loops s') = true /\ exited (at_loops s') /\
       ~ Wait_blocks (at_loops s'))) /\
  (~ Wait_blocks (at_loops s) -> exited (at_loops s) /\ over (at_loops s) = true).
Proof.
  intros Hr. pose proof (steps_counted _ _ _ _ _ Hr (started_counted _ _ _ _)) as Hx.
  assert (Hw : at_work s) by (eapply steps_at_work; [exact Hr|by intros a]). split.
  - intros Ho. split.
    + intros n s' H. clear Hr Hx Hw. induction H as [s|n s s1 s' Hs _ IH]; [lia|].
      destruct (step_descends _ _ _ _ _ Ho Hs) as [Hd Ho1]. specialize (IH Ho1). lia.
    + intros s' Hss Hrest. assert (Ho' : over (at_loops s') = true).
      { clear Hr Hx Hw Hrest. induction Hss as [|s s1 s' Hs _ IH]; [done|]. apply IH. by eapply step_descends. }
      pose proof (steps_counted _ _ _ _ _ Hss Hx) as Hx'. pose proof (steps_at_work _ _ _ _ _ Hss Hw) as Hw'.
      destruct (decide (Exists (fun a => inside (desks s' a) = true) [RX; TX; DL; Closer])) as [H|H].
      * left. apply Exists_exists in H as (a & _ & Ha). exists a. auto.
      * right. assert (Hin : forall a, inside (desks s' a) = false).
        { intros a. apply not_true_iff_false. intros Ha. apply H, Exists_exists. exists a. split; [|done].
          destruct a; set_solver. }
        destruct (rest_exited _ _ _ Ho' Hx' Hrest Hin) as [Hov He]. split_and!; [done|by unfold shut; rewrite Hov|done|].
        unfold Wait_blocks. rewrite (co_wg _ Hx'). apply live_exited in He. lia.
  - intros Hn. unfold Wait_blocks in Hn. assert (Hl : live (at_loops s) = 0%nat) by (pose proof (co_wg _ Hx); lia).
    split; [by apply live_exited|]. apply (co_over _ Hx). lia.
Qed.

(** An application closes the session, with three liveness deadlines in the heap, while a
    read is pending; one call of the application for each step. *)
Definition closing : state :=
  MkState (set_once (Running_ Closer Ended) (session_started true true true))
    (set_desk Closer (MkDesk false 1) (fun _ => MkDesk false 1)).
Lemma closing_reached : rtc (step 4 8 1) (started 1 true true true) closing.
Proof.
  set (x := set_once (Running_ Closer Before) (session_started true true true)).
  apply (rtc_l _ _ (MkState x (fun _ => MkDesk false 1))); [apply by_app; by apply app_close|].
  apply rtc_once, (by_actor _ _ _ Closer false); [done| |lia]. left. split; [|done].
  by apply (body_done Closer x).
Qed.
(** The session is over after at most 548 steps. *)
Lemma session_ends_witness :
  (forall n s', nsteps (step 4 8 1) n closing s' -> (n <= 548)%nat) /\
  (forall s', rtc (step 4 8 1) closing s' -> at_rest 4 8 s' -> (forall a, inside (desks s' a) = false) ->
     exited (at_loops s') /\ ~ Wait_blocks (at_loops s')).
Proof.
  destruct (session_ends 4 8 1 true true true closing closing_reached) as [H _]. destruct (H eq_refl) as [Hn He].
  split; [exact Hn|]. intros s' Hs Hr Hin. destruct (He s' Hs Hr) as [(a & Ha & _)|(_ & _ & H1 & H2)]; [|done].
  by rewrite Hin in Ha.
Defined.

(** ** What the functions of the application may do while a session is terminated

    The body of [terminate] runs under a [sync.Once], and calls functions of the
    application: the Observer, the handler of the logger, the connection, and, for every
    request whose slot [failAll] gives back, the window observer.  One of them that calls
    [Close] of this session asks for the same [Once] on the same goroutine, and [Do]
    waits for the call that is running: for itself. *)

Inductive once : Set := Unused | Running | Finished.
(** How a call ended; [NoFuel] when the model was not given enough of it. *)
Inductive ended : Set := Returned_ (o : once) | Blocked | NoFuel.

Definition Do (o : once) (body : once -> ended) : ended :=
  match o with
  | Finished => Returned_ Finished
  | Running => Blocked
  | Unused => match body Running with Returned_ _ => Returned_ Finished | e => e end
  end.

(** A function of the application, as the body of [terminate] calls it. *)
Inductive callback : Set :=
| CallObserver (k : EventKind)
| CallLogger
| CallAddresses
| CallClose
| CallWindowObserver.

#[export] Instance callback_dec : EqDecision callback.
Proof. solve_decision. Defined.

(** A slot that [failAll] gives back: whether the window finds no token, and whether the
    window observer panics. *)
Record slot_release := MkRelease { sr_underflow : bool; sr_panics : bool }.

Section observer.
(** Which functions panic: the connection asked for its addresses, or when it is closed,
    the handler of the logger, and the Observer on which events. *)
Context (addresses_panic close_panics log_panics : bool) (observer_panics : EventKind -> bool).
(** The slots that are given back, and whether there is a window observer. *)
Context (window_observer : bool) (releases : list slot_release).
(** Which calls call [Close] of the session in turn: the how manieth call of this
    [terminate], and which. *)
Context (closes : nat -> callback -> bool).

(** The calls of a log record, of [emitEvent] and of [reportPanic]; the logger is not asked
    about its own panic, nor the Observer about its own.  [CallLogger] is a record given to
    its handler ([Enabled] and [Handle]).  Not both may panic on such a report, or
    [reportPanic] does not return (Panics.v): these are the calls when it does. *)
Definition log_calls : list callback :=
  CallLogger :: (if log_panics then [CallObserver EventPanicRecovered] else []).
Definition emit_calls (k : EventKind) : list callback :=
  CallObserver k :: (if observer_panics k then log_calls else []).
Definition report_calls : list callback := log_calls ++ emit_calls EventPanicRecovered.
Definition release_calls (r : slot_release) : list callback :=
  (if sr_underflow r then emit_calls EventWindowUnderflow else []) ++
  (if window_observer then CallWindowObserver :: (if sr_panics r then report_calls else []) else []).
(** The calls of the body of [terminate]. *)
Definition body_calls (fatal : bool) : list callback :=
  (if fatal then emit_calls EventDecodeFailure ++ emit_calls EventFatalProtocolError ++
     CallAddresses :: (if addresses_panic then report_calls else log_calls) else []) ++
  CallClose :: (if close_panics then report_calls else []) ++
  concat (map release_calls releases).

(** The calls are made one by one; [close] is [Close]. *)
Fixpoint call_all (close : once -> ended) (i : nat) (cs : list callback) (o : once) : ended :=
  match cs with
  | [] => Returned_ o
  | c :: cs => match (if closes i c then close o else Returned_ o) with
               | Returned_ o => call_all close (S i) cs o
               | e => e
               end
  end.
(** [Close] is [terminate] with an error that is not fatal. *)
Fixpoint terminate_run (fuel : nat) (fatal : bool) (o : once) : ended :=
  match fuel with
  | O => NoFuel
  | S fuel => Do o (call_all (terminate_run fuel false) 0 (body_calls fatal))
  end.
Definition Close_run (fuel : nat) (o : once) : ended := terminate_run fuel false o.

(** Some call, from the [i]-th on, calls [Close]. *)
Fixpoint some_close (i : nat) (cs : list callback) : bool :=
  match cs with [] => false | c :: cs => closes i c || some_close (S i) cs end.

Lemma call_running fuel cs : forall i,
  call_all (terminate_run (S fuel) false) i cs Running = if some_close i cs then Blocked else Returned_ Running.
Proof.
  induction cs as [|c cs IH]; intros i; [done|]. cbn [call_all some_close]. destruct (closes i c); [done|]. apply IH.
Qed.
Lemma some_close_at c cs : c ∈ cs -> (forall i, closes i c = true) -> forall i, some_close i cs = true.
Proof.
  intros Hc Hall. induction cs as [|c' cs IH]; intros i; [by apply elem_of_nil in Hc|]. cbn [some_close].
  apply elem_of_cons in Hc as [<- |Hc]; [by rewrite Hall|]. by rewrite IH, orb_true_r.
Qed.
Lemma some_close_none cs : Forall (fun c => forall i, closes i c = false) cs -> forall i, some_close i cs = false.
Proof. induction 1 as [|c cs Hc _ IH]; intros i; [done|]. cbn [some_close]. by rewrite Hc, IH. Qed.
(** The slots are given back without ado. *)
Lemma quiet_releases : Forall (fun r => sr_underflow r = false /\ sr_panics r = false) releases ->
  (forall i, closes i CallWindowObserver = false) ->
  Forall (fun c => forall i, closes i c = false) (concat (map release_calls releases)).
Proof.
  intros Hrel Hw. induction Hrel as [|r rs [Hu Hp] _ IH]; [by apply Forall_nil|]. cbn [map concat].
  apply Forall_app. split; [|exact IH]. unfold release_calls. rewrite Hu, Hp.
  destruct window_observer; [|by apply Forall_nil]. apply Forall_cons. split; [done|by apply Forall_nil].
Qed.
End observer.

(** C30: [terminate] and the functions of the application that close their session.  Let
    not both the logger and the Observer, told of a recovered panic, panic.  Called for the
    first time, [terminate] returns exactly when none of the calls that it makes from its
    body calls [Close]; if one does, the goroutine blocks for ever.  So a function of the
    application may call [Close] anywhere else, such as an Observer on the panic of a
    handler, as long as in the body the connection and the window observer neither panic
    nor call [Close] themselves and no slot is missing.  But the Observer must not on the
    fatal error that ended the session, nor on a recovered panic when closing the
    connection panics, or when the window observer panics as the slot of a pending
    request is given back. *)
Theorem observer_close addresses_panic close_panics log_panics observer_panics window_observer releases closes fuel fatal :
  log_panics && observer_panics EventPanicRecovered = false ->
  let calls := body_calls addresses_panic close_panics log_panics observer_panics window_observer releases in
  let run := terminate_run addresses_panic close_panics log_panics observer_panics window_observer releases closes (S (S fuel)) in
  run fatal Unused = (if some_close closes 0 (calls fatal) then Blocked else Returned_ Finished) /\
  run fatal Finished = Returned_ Finished /\
  (close_panics = false -> Forall (fun r => sr_underflow r = false /\ sr_panics r = false) releases ->
   (forall i, closes i CallClose = false) -> (forall i, closes i CallWindowObserver = false) ->
   run false Unused = Returned_ Finished) /\
  ((forall i, closes i (CallObserver EventFatalProtocolError) = true) -> run true Unused = Blocked) /\
  ((forall i, closes i (CallObserver EventPanicRecovered) = true) ->
   close_panics = true \/ window_observer = true /\ Exists (fun r => sr_panics r = true) releases ->
   run fatal Unused = Blocked).
Proof.
  intros _ calls run.
  assert (Hrun : forall f, run f Unused = if some_close closes 0 (calls f) then Blocked else Returned_ Finished).
  { intros f. change (run f Unused) with (match call_all closes
      (terminate_run addresses_panic close_panics log_panics observer_panics window_observer releases closes (S fuel) false)
      0 (calls f) Running with Returned_ _ => Returned_ Finished | e => e end).
    rewrite call_running. by destruct (some_close closes 0 (calls f)). }
  assert (Hreport : CallObserver EventPanicRecovered ∈ report_calls log_panics observer_panics).
  { unfold report_calls, emit_calls. apply elem_of_app. right. by left. }
  split_and!; [apply Hrun|done|..].
  - intros Hcp Hrel Hc Hw. rewrite Hrun. replace (some_close closes 0 (calls false)) with false; [done|]. symmetry.
    apply some_close_none. unfold calls, body_calls. cbn [app]. apply Forall_cons. split; [done|]. rewrite Hcp. cbn [app].
    by apply quiet_releases.
  - intros H. rewrite Hrun, (some_close_at closes (CallObserver EventFatalProtocolError)); [done| |done].
    unfold calls, body_calls. apply elem_of_app. left. apply elem_of_app. right. apply elem_of_app. left. by left.
  - intros H Hbad. rewrite Hrun, (some_close_at closes (CallObserver EventPanicRecovered)); [done| |done].
    unfold calls, body_calls. apply elem_of_app. right. right. apply elem_of_app. destruct Hbad as [-> |[-> Hex]]; [by left|].
    right. apply Exists_exists in Hex as (r & Hr & Hp). apply list_elem_of_In, in_concat.
    exists (release_calls log_panics observer_panics true r). split.
    + by apply in_map, list_elem_of_In.
    + apply list_elem_of_In. unfold release_calls. apply elem_of_app. right. right. by rewrite Hp.
Qed.

(** An Observer that closes on every recovered panic: it may when a handler panics, not
    when the connection panics while terminate closes it, nor when a window observer
    panics as the slot of a pending request is given back. *)
Definition closes_on_panic (i : nat) (c : callback) : bool := bool_decide (c = CallObserver EventPanicRecovered).
Lemma observer_close_witness :
  let run close_panics releases :=
    terminate_run false close_panics false (fun _ => false) true releases closes_on_panic 2 false Unused in
  run false [MkRelease false false] = Returned_ Finished /\
  run true [] = Blocked /\ run false [MkRelease false true] = Blocked.
Proof.
  intros run. split_and!.
  - apply (observer_close false false false (fun _ => false) true [MkRelease false false] closes_on_panic 0 false eq_refl); try done.
    by apply Forall_cons; split; [|apply Forall_nil].
  - apply (observer_close false true false (fun _ => false) true [] closes_on_panic 0 false eq_refl); [done|by left].
  - apply (observer_close false false false (fun _ => false) true [MkRelease false true] closes_on_panic 0 false eq_refl); [done|].
    right. split; [done|]. by apply Exists_cons_hd.
Defined.
