(* ===== verification/Operations.v ===== *)
(** * The typed operations of a session (src/session/operations.go)

    Each operation sends one command with [Request] and turns the response into the
    body its caller expects, or into an error. *)

From S2P Require Import Prelude Protocol Bodies Fields BodySpec Body34 Extra34 Body50 Registry Pdu StateMachine Pending Receive Requests.

Definition responseError (pdu : DecodedPDU) : option GoError :=
  let h := pdu_Header pdu in
  if (CommandID h =? CommandGenericNACK) || negb (OK (CommandStatus h))
  then Some (EResponse (CommandID h) (CommandStatus h) (SequenceNumber h))
  else None.

(** [body, ok := pdu.Body.(T)] *)
Definition as_BindResponse (a : any) := match a with AVal (VBindResponse v) => Some v | _ => None end.
Definition as_SubmitSMResp (a : any) := match a with AVal (VSubmitSMResp v) => Some v | _ => None end.
Definition as_DeliverSMResp (a : any) := match a with AVal (VDeliverSMResp v) => Some v | _ => None end.
Definition as_DataSMResp (a : any) := match a with AVal (VDataSMResp v) => Some v | _ => None end.
Definition as_SubmitMultiResp (a : any) := match a with AVal (VSubmitMultiResp v) => Some v | _ => None end.
Definition as_QuerySMResp (a : any) := match a with AVal (VQuerySMResp v) => Some v | _ => None end.
Definition as_BroadcastSMResp (a : any) := match a with AVal (VBroadcastSMResp v) => Some v | _ => None end.
Definition as_QueryBroadcastSMResp (a : any) :=
  match a with AVal (VQueryBroadcastSMResp v) => Some v | _ => None end.

(** The end of every operation that returns a body, and of one that does not. *)
Definition typed_body {A} (as_body : any -> option A) (x : caller * option (res DecodedPDU))
    : caller * option (res A) :=
  match x with
  | (c, None) => (c, None)
  | (c, Some Panic) => (c, Some Panic)
  | (c, Some (Err e)) => (c, Some (Err e))
  | (c, Some (Ok pdu)) =>
      match responseError pdu with
      | Some e => (c, Some (Err e))
      | None => match as_body (pdu_Body pdu) with
                | Some body => (c, Some (Ok body))
                | None => (c, Some (Err (ESentinel ErrUnexpectedPDU)))
                end
      end
  end.
Definition acknowledged (x : caller * option (res DecodedPDU)) : caller * option (res unit) :=
  match x with
  | (c, None) => (c, None)
  | (c, Some Panic) => (c, Some Panic)
  | (c, Some (Err e)) => (c, Some (Err e))
  | (c, Some (Ok pdu)) =>
      match responseError pdu with Some e => (c, Some (Err e)) | None => (c, Some (Ok tt)) end
  end.

Module Operation.
Section operations.
Context (registry : option Registry) (profile : Profile) (MaxPending : Z) (stale : bytes).
Context (for_slot for_room : caller -> caller * selected).
Context (for_result : positive -> caller -> caller * selected).
Context (for_completion : positive -> caller -> caller).
Context (for_write : caller -> Z -> caller * option (option GoError)).

Definition do_request (command : Z) (body : any) (c : caller) : caller * option (res DecodedPDU) :=
  Request registry profile MaxPending stale for_slot for_room for_result for_completion command body c.
Definition try_request (command : Z) (body : any) (c : caller) : caller * option (res DecodedPDU) :=
  TryRequest registry profile MaxPending stale for_slot for_room for_result for_completion command body c.

Definition bind (command : Z) (request : BindRequest) (c : caller) :=
  typed_body as_BindResponse (do_request command (AVal (VBindRequest request)) c).
Definition BindTransmitter := bind CommandBindTransmitter.
Definition BindReceiver := bind CommandBindReceiver.
Definition BindTransceiver := bind CommandBindTransceiver.

Definition SubmitSM (request : SubmitSM) (c : caller) :=
  typed_body as_SubmitSMResp (do_request CommandSubmitSM (AVal (VSubmitSM request)) c).
Definition DeliverSM (request : DeliverSM) (c : caller) :=
  typed_body as_DeliverSMResp (do_request CommandDeliverSM (AVal (VDeliverSM request)) c).
Definition DataSM (request : DataSM) (c : caller) :=
  typed_body as_DataSMResp (do_request CommandDataSM (AVal (VDataSM request)) c).
Definition SubmitMulti (request : SubmitMulti) (c : caller) :=
  typed_body as_SubmitMultiResp (do_request CommandSubmitMulti (AVal (VSubmitMulti request)) c).
Definition QuerySM (request : QuerySM) (c : caller) :=
  typed_body as_QuerySMResp (do_request CommandQuerySM (AVal (VQuerySM request)) c).
Definition CancelSM (request : CancelSM) (c : caller) :=
  acknowledged (do_request CommandCancelSM (AVal (VCancelSM request)) c).
Definition ReplaceSM (request : ReplaceSM) (c : caller) :=
  acknowledged (do_request CommandReplaceSM (AVal (VReplaceSM request)) c).
Definition BroadcastSM (request : BroadcastSM) (c : caller) :=
  typed_body as_BroadcastSMResp (do_request CommandBroadcastSM (AVal (VBroadcastSM request)) c).
Definition QueryBroadcastSM (request : QueryBroadcastSM) (c : caller) :=
  typed_body as_QueryBroadcastSMResp
    (do_request CommandQueryBroadcastSM (AVal (VQueryBroadcastSM request)) c).
Definition CancelBroadcastSM (request : CancelBroadcastSM) (c : caller) :=
  acknowledged (do_request CommandCancelBroadcastSM (AVal (VCancelBroadcastSM request)) c).
Definition AlertNotification (notification : AlertNotification) (c : caller) :=
  SendOneWay registry stale for_room for_write CommandAlertNotification
    (AVal (VAlertNotification notification)) c.
Definition Outbind (request : Outbind) (c : caller) :=
  SendOneWay registry stale for_room for_write CommandOutbind (AVal (VOutbind request)) c.
Definition EnquireLink (c : caller) := acknowledged (do_request CommandEnquireLink (AVal VEmptyBody) c).
Definition tryEnquireLink (c : caller) := acknowledged (try_request CommandEnquireLink (AVal VEmptyBody) c).
Definition Unbind (c : caller) := acknowledged (do_request CommandUnbind (AVal VEmptyBody) c).
End operations.
End Operation.

(** ** What a successful response holds *)

(** Decoded with a standard registry that has the command: the body is in the
    format of the command. *)
Lemma decoded_format r fr pdu def `{!StandardRegistry r} :
  bytes_ok fr -> DecodePDU fr (Some r) = Ok pdu ->
  Command (Some r) (CommandID (pdu_Header pdu)) = Some def -> CommandStatus (pdu_Header pdu) = 0 ->
  exists S v, command_spec (CommandID (pdu_Header pdu)) = Some S /\ pdu_Body pdu = AVal (inj S v).
Proof.
  intros Hok Hdec Hc Hst.
  destruct (DecodePDU_inv fr (Some r) Hok) as [(h & b & -> & Hh & Hb & Hl & Hlt)|(e & He & _)]; [|congruence].
  rewrite DecodePDU_frame in Hdec by done. cbn zeta in Hdec.
  replace (with_length h (16 + zlen b)) with h in Hdec
    by (destruct h; unfold with_length; cbn in *; congruence).
  assert (Hhead : pdu_Header pdu = h).
  { destruct (ResolveCommand (Some r) (CommandID h)) as [[d|]|e|]; cbn [mbind outcome_bind] in Hdec; try done;
      [|by injection Hdec as <-].
    destruct (cd_Decode d); [|by injection Hdec as <-].
    destruct (decodeBody d h b); cbn in Hdec; [by injection Hdec as <-|done|done]. }
  rewrite Hhead in *. destruct (standard_command r _ def Hc) as (S & dec & enc & HS & Hd & _ & Hbc).
  unfold ResolveCommand in Hdec. rewrite Hc in Hdec. cbn [mbind outcome_bind] in Hdec.
  unfold decodeBody in Hdec. rewrite Hd in Hdec.
  pose proof (bc_sound h b Hb) as Hs. unfold sound in Hs.
  destruct (dec h b) as [a|e|]; cbn in Hdec; [|done|done]. injection Hdec as <-. cbn [pdu_Body].
  destruct Hs as [[_ (v & Ha & _)]|(_ & Hne & _)]; [|congruence].
  exists S, v. done.
Qed.

Lemma responseError_none pdu : responseError pdu = None ->
  CommandID (pdu_Header pdu) <> CommandGenericNACK /\ CommandStatus (pdu_Header pdu) = 0.
Proof.
  unfold responseError. destruct (Z.eqb_spec (CommandID (pdu_Header pdu)) CommandGenericNACK); [done|].
  unfold OK. by destruct (Z.eqb_spec (CommandStatus (pdu_Header pdu)) StatusOK).
Qed.

Section results.
Context (r : Registry) `{!StandardRegistry r} (profile : Profile) (flow : bool) (MaxPending : Z) (stale : bytes).
Context (for_slot for_room : caller -> caller * selected).
Context (for_result : positive -> caller -> caller * selected).
Context (for_completion : positive -> caller -> caller).

Abbreviation do_request :=
  (Operation.do_request (Some r) profile MaxPending stale for_slot for_room for_result for_completion).

(** [Request] returned, in the session [c'], the successful response of [command], with
    body [a]. *)
Definition succeeded (command : Z) (request : any) (c c' : caller) (a : any) : Prop :=
  exists pdu, do_request command request c = (c', Some (Ok pdu)) /\
    CommandID (pdu_Header pdu) = ResponseID command /\ CommandStatus (pdu_Header pdu) = 0 /\ pdu_Body pdu = a.
(** The error of [Request], or of a response that carries one. *)
Definition failed_with (command : Z) (request : any) (c : caller) (e : GoError) : Prop :=
  (do_request command request c).2 = Some (Err e) \/
  exists pdu, (do_request command request c).2 = Some (Ok pdu) /\
    (CommandID (pdu_Header pdu) = CommandGenericNACK \/ CommandStatus (pdu_Header pdu) <> 0) /\
    e = EResponse (CommandID (pdu_Header pdu)) (CommandStatus (pdu_Header pdu)) (SequenceNumber (pdu_Header pdu)).

(** What [Request] did with this very request, and what the operation makes of it. *)
Definition operation_result {A} (command : Z) (request : any) (body_is : A -> any -> Prop) (c : caller)
    (x : caller * option (res A)) : Prop :=
  returned (Some r) profile flow MaxPending stale for_slot for_room true command request c
    (do_request command request c) /\
  match x with
  | (c', Some (Ok v)) => exists a, body_is v a /\ succeeded command request c c' a
  | (_, Some (Err e)) => failed_with command request c e
  | (c', Some Panic) => do_request command request c = (c', Some Panic)
  | (c', None) => do_request command request c = (c', None)
  end.
Definition holds {A} (V : A -> pdu_value) (v : A) (a : any) : Prop := a = AVal (V v).
Definition nothing (v : unit) (a : any) : Prop := True.

(** The format of the response to [command] is that of [V], which [as_body] reads. *)
Definition reads {A} (command : Z) (V : A -> pdu_value) (as_body : any -> option A) : Prop :=
  exists S (f : carrier S -> A), command_spec (ResponseID command) = Some S /\
    (forall v, inj S v = V (f v)) /\ forall a, as_body (AVal (V a)) = Some a.

Context (Htasks : interleaved (Some r) profile flow for_slot for_room for_result for_completion).
Context (c : caller) (Hheap : heap_ok (table (c_session c)) (c_fresh c)).

Lemma error_response pdu e : responseError pdu = Some e ->
  (CommandID (pdu_Header pdu) = CommandGenericNACK \/ CommandStatus (pdu_Header pdu) <> 0) /\
  e = EResponse (CommandID (pdu_Header pdu)) (CommandStatus (pdu_Header pdu)) (SequenceNumber (pdu_Header pdu)).
Proof.
  unfold responseError. destruct (Z.eqb_spec (CommandID (pdu_Header pdu)) CommandGenericNACK) as [H|H];
    cbn [orb]; [intros [= <-]; auto|].
  unfold OK. destruct (Z.eqb_spec (CommandStatus (pdu_Header pdu)) StatusOK); [done|]. intros [= <-]. auto.
Qed.

Lemma request_result command request :
  returned (Some r) profile flow MaxPending stale for_slot for_room true command request c
    (do_request command request c).
Proof. by apply request_returned. Qed.

(** A PDU it returned. *)
Lemma request_pdu command request c' pdu : do_request command request c = (c', Some (Ok pdu)) ->
  (CommandID (pdu_Header pdu) = ResponseID command \/ CommandID (pdu_Header pdu) = CommandGenericNACK) /\
  exists fr, bytes_ok fr /\ DecodePDU fr (Some r) = Ok pdu.
Proof.
  intros Hx. pose proof (request_result command request) as Hret. rewrite Hx in Hret.
  destruct Hret as [[e He]|(c1 & c2 & s & _ & _ & fr & _ & _ & Ha)]; [done|].
  destruct Ha as (ca & fr' & now & _ & _ & Hok & Hdec & [_ Hid] & _). split; [exact Hid|]. by exists fr'.
Qed.

Lemma typed_operation {A} command request (V : A -> pdu_value) as_body :
  reads command V as_body -> is_Some (Command (Some r) (ResponseID command)) ->
  operation_result command request (holds V) c (typed_body as_body (do_request command request c)).
Proof.
  intros (S & f & HS & Hinj & Has) [def Hdef]. split; [apply request_result|].
  unfold failed_with, typed_body, succeeded.
  destruct (do_request command request c) as [c' [[pdu|e|]|]] eqn:Hx; [|by left|done|done].
  destruct (responseError pdu) as [e|] eqn:Herr.
  { right. exists pdu. split; [done|]. by apply error_response. }
  destruct (responseError_none pdu Herr) as [Hnack Hst].
  destruct (request_pdu command request c' pdu Hx) as ([Hid|Hid] & fr' & Hok & Hdec); [|done].
  destruct (decoded_format r fr' pdu def Hok Hdec) as (S' & v & HS' & Hb); [by rewrite Hid|done|].
  rewrite Hid, HS in HS'. injection HS' as <-. rewrite Hinj in Hb. rewrite Hb, Has.
  exists (AVal (V (f v))). split; [done|]. exists pdu. done.
Qed.

Lemma acknowledged_operation command request :
  operation_result command request nothing c (acknowledged (do_request command request c)).
Proof.
  split; [apply request_result|]. unfold failed_with, acknowledged, succeeded.
  destruct (do_request command request c) as [c' [[pdu|e|]|]] eqn:Hx; [|by left|done|done].
  destruct (responseError pdu) as [e|] eqn:Herr.
  { right. exists pdu. split; [done|]. by apply error_response. }
  destruct (responseError_none pdu Herr) as [Hnack Hst].
  destruct (request_pdu command request c' pdu Hx) as ([Hid|Hid] & _); [|done].
  exists (pdu_Body pdu). split; [done|]. exists pdu. done.
Qed.
End results.

(** The response formats of the operations. *)
Ltac format_is S := exists S, (fun v => v); by split_and!.
Ltac reads_body :=
  match goal with
  | |- reads CommandSubmitSM _ _ => format_is spec_SubmitSMResp
  | |- reads CommandDeliverSM _ _ => format_is spec_DeliverSMResp
  | |- reads CommandDataSM _ _ => format_is spec_DataSMResp
  | |- reads CommandSubmitMulti _ _ => format_is spec_SubmitMultiResp
  | |- reads CommandQuerySM _ _ => format_is spec_QuerySMResp
  | |- reads CommandBroadcastSM _ _ => format_is spec_BroadcastSMResp
  | |- reads CommandQueryBroadcastSM _ _ => format_is spec_QueryBroadcastSMResp
  end.

Lemma reads_bind command : isBindRequest command = true -> reads command VBindResponse as_BindResponse.
Proof.
  unfold isBindRequest. rewrite !orb_true_iff, !Z.eqb_eq.
  intros [[-> | ->]| ->]; format_is spec_BindResponse.
Qed.

(** C14: What the typed operations return.  Under a standard registry that has the
    response of the command, and whatever the other goroutines do meanwhile, a bind,
    [SubmitSM], [DeliverSM], [DataSM], [SubmitMulti], [QuerySM], [BroadcastSM] or
    [QueryBroadcastSM] returns a body only when its own call of [Request] returned a PDU
    that is the response of the command, with status zero and that very body;
    [CancelSM], [ReplaceSM], [CancelBroadcastSM], [EnquireLink] and [Unbind] succeed
    only on such a PDU.  What that [Request] returned is the answer to the request of
    this call: received while the request stood in the table under the sequence number
    it was sent with, and carrying that number.  Every error is the one [Request]
    failed with, or names the command, status and sequence number of the generic_nack
    or unsuccessful response it returned; a response body of the wrong type never
    occurs. *)
Theorem operations_typed r profile flow MaxPending stale for_slot for_room for_result for_completion c
    `{!StandardRegistry r} :
  interleaved (Some r) profile flow for_slot for_room for_result for_completion ->
  heap_ok (table (c_session c)) (c_fresh c) ->
  let result {A} := @operation_result r profile flow MaxPending stale for_slot for_room for_result for_completion A in
  let run {A B} (op : option Registry -> Profile -> Z -> bytes -> (caller -> caller * selected) ->
        (caller -> caller * selected) -> (positive -> caller -> caller * selected) ->
        (positive -> caller -> caller) -> A -> B) :=
    op (Some r) profile MaxPending stale for_slot for_room for_result for_completion in
  let has command := is_Some (Command (Some r) (ResponseID command)) in
  (forall command q, isBindRequest command = true -> has command ->
     result command (AVal (VBindRequest q)) (holds VBindResponse) c (run Operation.bind command q c)) /\
  (forall q, has CommandSubmitSM ->
     result CommandSubmitSM (AVal (VSubmitSM q)) (holds VSubmitSMResp) c (run Operation.SubmitSM q c)) /\
  (forall q, has CommandDeliverSM ->
     result CommandDeliverSM (AVal (VDeliverSM q)) (holds VDeliverSMResp) c (run Operation.DeliverSM q c)) /\
  (forall q, has CommandDataSM ->
     result CommandDataSM (AVal (VDataSM q)) (holds VDataSMResp) c (run Operation.DataSM q c)) /\
  (forall q, has CommandSubmitMulti ->
     result CommandSubmitMulti (AVal (VSubmitMulti q)) (holds VSubmitMultiResp) c (run Operation.SubmitMulti q c)) /\
  (forall q, has CommandQuerySM ->
     result CommandQuerySM (AVal (VQuerySM q)) (holds VQuerySMResp) c (run Operation.QuerySM q c)) /\
  (forall q, has CommandBroadcastSM ->
     result CommandBroadcastSM (AVal (VBroadcastSM q)) (holds VBroadcastSMResp) c (run Operation.BroadcastSM q c)) /\
  (forall q, has CommandQueryBroadcastSM ->
     result CommandQueryBroadcastSM (AVal (VQueryBroadcastSM q)) (holds VQueryBroadcastSMResp) c
       (run Operation.QueryBroadcastSM q c)) /\
  (forall q, result CommandCancelSM (AVal (VCancelSM q)) nothing c (run Operation.CancelSM q c)) /\
  (forall q, result CommandReplaceSM (AVal (VReplaceSM q)) nothing c (run Operation.ReplaceSM q c)) /\
  (forall q, result CommandCancelBroadcastSM (AVal (VCancelBroadcastSM q)) nothing c
     (run Operation.CancelBroadcastSM q c)) /\
  result CommandEnquireLink (AVal VEmptyBody) nothing c (run Operation.EnquireLink c) /\
  result CommandUnbind (AVal VEmptyBody) nothing c (run Operation.Unbind c).
Proof.
  intros Ht Hc. cbv zeta. split_and!; intros;
    first [eapply acknowledged_operation; eassumption
          |eapply typed_operation; [eassumption..| |eassumption]; first [by apply reads_bind|reads_body]].
Qed.

(** A message is submitted, and the first frame that arrives is its submit_sm_resp. *)
Definition submit_sm_resp : bytes :=
  [0; 0; 0; 18; 128; 0; 0; 4; 0; 0; 0; 0; 0; 0; 0; 1; 97; 0].
Definition submit_answer : DecodedPDU :=
  MkDecodedPDU (MkHeader 18 CommandSubmitSMResp 0 1) (AVal (VSubmitSMResp (MkSubmitSMResp [97] []))).
Definition submit_answered (p : positive) (c : caller) : caller * selected :=
  (in_session c (handleResponse SMPP34Profile false (c_session c) submit_answer 5), Went).

Lemma submit_interleaved :
  interleaved sample_registry SMPP34Profile false stay stay submit_answered (fun _ c => c).
Proof.
  split_and!; [intros; constructor..| |intros; constructor]. intros p c. apply rtc_once.
  apply (TResponse _ _ _ c submit_sm_resp); [by apply (bool_decide_unpack _)|vm_compute; reflexivity].
Qed.

Lemma operations_typed_witness :
  let run := Operation.SubmitSM sample_registry SMPP34Profile 4 [] stay stay submit_answered (fun _ c => c)
    sample_submit bound_caller in
  run.2 = Some (Ok (MkSubmitSMResp [97] [])) /\
  operation_result (smpp34_registry RegistryStrict) SMPP34Profile false 4 [] stay stay submit_answered (fun _ c => c)
    CommandSubmitSM (AVal (VSubmitSM sample_submit)) (holds VSubmitSMResp) bound_caller run.
Proof.
  cbv zeta. split; [vm_compute; reflexivity|].
  destruct (operations_typed (smpp34_registry RegistryStrict) SMPP34Profile false 4 [] stay stay
    submit_answered (fun _ c => c) bound_caller) as (_ & H & _); [apply submit_interleaved| |].
  - split; intros ? ? H; discriminate H.
  - apply H. apply (is_Some_b _). vm_compute. reflexivity.
Defined.
