(* ===== verification/Backoff.v ===== *)
(** * The delays between reconnection attempts (src/client/client.go:
    ReconnectPolicy, normalizeReconnect, nextBackoff, jitterReconnectDelay)

    A [time.Duration] is an int64 of nanoseconds, the multiplier and the jitter are
    float64 values; their products are rounded to nearest as IEEE 754 says, and cut to
    an integer. *)

From Stdlib Require Import Floats.SpecFloat.
From S2P Require Import Prelude.

(** ** float64 *)

Definition float64 : Type := spec_float.
Definition f_mul : float64 -> float64 -> float64 := SFmul 53 1024.
Definition f_of_int (z : Z) : float64 := binary_normalize 53 1024 z 0 false.
Definition f_zero : float64 := S754_zero false.
Definition f_one : float64 := f_of_int 1.
Definition f_two : float64 := f_of_int 2.

(** The conversion [int64(f)] drops the fraction.  Of a value that does not fit, Go
    leaves the result to the implementation; it is the least int64, as on amd64. *)
Definition f_trunc (f : float64) : option Z :=
  match f with
  | S754_zero _ => Some 0
  | S754_finite s m e =>
      let z := if 0 <=? e then Z.shiftl (Zpos m) e else Z.shiftr (Zpos m) (- e) in
      Some (if s then - z else z)
  | S754_infinity _ | S754_nan => None
  end.
Definition int_of_f (f : float64) : Z :=
  match f_trunc f with
  | Some z => if (min_int64 <=? z) && (z <=? max_int64) then z else min_int64
  | None => min_int64
  end.

(** ** The policy *)

Definition millisecond : Z := 1000000.

Record ReconnectPolicy := MkReconnectPolicy {
  Enabled : bool;
  InitialBackoff : Z;
  MaxBackoff : Z;
  Multiplier : float64;
  BindTimeout : Z;
  JitterFraction : float64;
  StopOnPermanentBindFailure : bool
}.

(** [session.DefaultSessionInitTimeout] *)
Definition default_bind_timeout : Z := 30000 * millisecond.

Definition normalizeReconnect (policy : ReconnectPolicy) : ReconnectPolicy :=
  let initial := if InitialBackoff policy <=? 0 then 100 * millisecond else InitialBackoff policy in
  let max := if MaxBackoff policy <=? 0 then 5000 * millisecond else MaxBackoff policy in
  let max := if max <? initial then initial else max in
  let multiplier := if SFltb (Multiplier policy) f_one then f_two else Multiplier policy in
  let timeout := if BindTimeout policy <=? 0 then default_bind_timeout else BindTimeout policy in
  let jitter := if SFltb (JitterFraction policy) f_zero then f_zero else JitterFraction policy in
  let jitter := if SFltb f_one jitter then f_one else jitter in
  MkReconnectPolicy (Enabled policy) initial max multiplier timeout jitter
    (StopOnPermanentBindFailure policy).

Definition nextBackoff (current : Z) (policy : ReconnectPolicy) : Z :=
  let next := int_of_f (f_mul (f_of_int current) (Multiplier policy)) in
  let next := if next <=? current then i64 (current + millisecond) else next in
  if MaxBackoff policy <? next then MaxBackoff policy else next.

(** [random] is what [rand.Float64] returned. *)
Definition jitterReconnectDelay (random : float64) (base : Z) (fraction : float64) : Z :=
  if (base <=? 0) || SFleb fraction f_zero then base
  else
    let fraction := if SFltb f_one fraction then f_one else fraction in
    let reduction := int_of_f (f_mul (f_mul random fraction) (f_of_int base)) in
    let delay := i64 (base - reduction) in
    if delay <? millisecond then millisecond else delay.

(** The delay before jitter of the [n]-th attempt after a loss. *)
Definition backoff_at (policy : ReconnectPolicy) (n : nat) : Z :=
  Nat.iter n (fun b => nextBackoff b policy) (InitialBackoff policy).

(** ** Signs *)

Definition nonneg (f : float64) : Prop :=
  match f with S754_finite true _ _ | S754_infinity true => False | _ => True end.

Lemma round_nonneg prec emax m e l : nonneg (binary_round_aux prec emax false m e l).
Proof.
  unfold binary_round_aux. destruct (shr_fexp _ _ _ _ _) as [mrs e1].
  destruct (shr_fexp _ _ _ _ _) as [mrs' e2]. destruct (shr_m mrs'); [done| |done]. by destruct (_ <=? _).
Qed.

Lemma f_mul_nonneg x y : nonneg x -> nonneg y -> nonneg (f_mul x y).
Proof.
  destruct x as [[]|[]| |[] m e], y as [[]|[]| |[] m' e']; try done; intros _ _.
  apply round_nonneg.
Qed.

Lemma f_of_int_nonneg z : 0 <= z -> nonneg (f_of_int z).
Proof.
  intros Hz. unfold f_of_int, binary_normalize. destruct z as [|p|p]; [done| |lia].
  unfold binary_round. destruct (shl_align _ _ _). apply round_nonneg.
Qed.

Lemma f_leb_nonneg f : SFleb f_zero f = true -> nonneg f.
Proof. by destruct f as [[]|[]| |[] m e]. Qed.
Lemma f_gt_nonneg f : SFleb f f_zero = false -> nonneg f.
Proof. by destruct f as [[]|[]| |[] m e]. Qed.

Lemma int_of_f_range f : is_i64 (int_of_f f).
Proof.
  assert (Hmin : is_i64 min_int64) by (unfold is_i64, min_int64, max_int64; lia).
  unfold int_of_f. destruct (f_trunc f) as [z|]; [|done].
  destruct (Z.leb_spec min_int64 z), (Z.leb_spec z max_int64); cbn [andb]; try done.
Qed.

(** Not negative, unless it does not fit. *)
Lemma int_of_f_nonneg f : nonneg f -> 0 <= int_of_f f \/ int_of_f f = min_int64.
Proof.
  intros Hf. unfold int_of_f. destruct (f_trunc f) as [z|] eqn:Hz; [|by right].
  destruct ((min_int64 <=? z) && (z <=? max_int64)); [|by right]. left.
  destruct f as [|[]| |[] m e]; try done; cbn in Hz; injection Hz as <-; [done|].
  destruct (0 <=? e); [apply Z.shiftl_nonneg|apply Z.shiftr_nonneg]; lia.
Qed.

(** ** Bounds *)

Lemma normalized_bounds policy : let p := normalizeReconnect policy in
  0 < InitialBackoff p <= MaxBackoff p /\ 0 < BindTimeout p.
Proof.
  unfold normalizeReconnect, default_bind_timeout, millisecond. cbn.
  destruct (Z.leb_spec (InitialBackoff policy) 0), (Z.leb_spec (MaxBackoff policy) 0),
    (Z.leb_spec (BindTimeout policy) 0); repeat case_match; lia.
Qed.

(** Each delay is longer than the one before, up to the maximum. *)
Lemma nextBackoff_grows current policy :
  0 < current <= MaxBackoff policy -> MaxBackoff policy <= max_int64 - millisecond ->
  current < nextBackoff current policy <= MaxBackoff policy \/
  nextBackoff current policy = MaxBackoff policy.
Proof.
  intros Hc Hm. unfold nextBackoff. set (next := int_of_f _).
  assert (Hi : i64 (current + millisecond) = current + millisecond).
  { apply i64_small. unfold is_i64, min_int64, max_int64, millisecond in *. lia. }
  destruct (Z.leb_spec next current); [rewrite Hi|].
  - destruct (Z.ltb_spec (MaxBackoff policy) (current + millisecond)); [by right|]. left. unfold millisecond in *. lia.
  - destruct (Z.ltb_spec (MaxBackoff policy) next); [by right|]. left. lia.
Qed.

Section delays.
Context (policy : ReconnectPolicy).
Hypothesis Hpos : 0 < InitialBackoff policy <= MaxBackoff policy.
Hypothesis Hmax : MaxBackoff policy <= max_int64 - millisecond.

Lemma backoff_at_bounds n : InitialBackoff policy <= backoff_at policy n <= MaxBackoff policy.
Proof.
  induction n as [|n IH]; [cbn; lia|]. cbn [backoff_at Nat.iter nat_rect] in *.
  change (nat_rect _ _ _ n) with (backoff_at policy n) in *.
  destruct (nextBackoff_grows (backoff_at policy n) policy); lia.
Qed.

Lemma backoff_at_next n : backoff_at policy n < backoff_at policy (S n) \/
  backoff_at policy (S n) = MaxBackoff policy.
Proof.
  pose proof (backoff_at_bounds n). change (backoff_at policy (S n)) with (nextBackoff (backoff_at policy n) policy).
  destruct (nextBackoff_grows (backoff_at policy n) policy); lia.
Qed.

Lemma backoff_at_least n : MaxBackoff policy <= backoff_at policy n \/
  InitialBackoff policy + Z.of_nat n <= backoff_at policy n.
Proof.
  induction n as [|n IH]; [right; cbn; lia|].
  pose proof (backoff_at_bounds n). destruct (backoff_at_next n); lia.
Qed.
End delays.

(** The jitter takes something off, but a delay is never below a millisecond. *)
Lemma jitter_bounds random base fraction :
  SFleb f_zero random = true -> 0 < base <= max_int64 ->
  let d := jitterReconnectDelay random base fraction in
  d = base /\ SFleb fraction f_zero = true \/ millisecond <= d <= Z.max base millisecond.
Proof.
  intros Hr Hb. unfold jitterReconnectDelay. destruct (Z.leb_spec base 0); [lia|]. cbn [orb].
  destruct (SFleb fraction f_zero) eqn:Hf; [by left|]. right.
  set (fr := if SFltb f_one fraction then f_one else fraction).
  assert (Hfr : nonneg fr) by (unfold fr; destruct (SFltb _ _); [done|by apply f_gt_nonneg]).
  assert (Hn : nonneg (f_mul (f_mul random fr) (f_of_int base))).
  { repeat apply f_mul_nonneg; [by apply f_leb_nonneg|done|]. apply f_of_int_nonneg. lia. }
  pose proof (int_of_f_range (f_mul (f_mul random fr) (f_of_int base))) as Hrange.
  destruct (int_of_f_nonneg _ Hn) as [H0|H0]; revert H0 Hrange;
    generalize (int_of_f (f_mul (f_mul random fr) (f_of_int base))); intros x H0 Hx; cbv zeta;
    unfold is_i64, min_int64, max_int64, millisecond in *.
  - rewrite i64_small by (unfold is_i64, min_int64, max_int64; lia).
    destruct (Z.ltb_spec (base - x) 1000000); lia.
  - subst x. replace (i64 (base - - 2 ^ 63)) with (base - 2 ^ 63).
    + destruct (Z.ltb_spec (base - 2 ^ 63) 1000000); lia.
    + unfold i64. replace (base - - 2 ^ 63 + 2 ^ 63) with (base + 1 * 2 ^ 64) by lia.
      rewrite Z_mod_plus_full, Z.mod_small by lia. lia.
Qed.

(** C21: The delays between reconnection attempts.  For every policy whose maximum leaves
    room for a millisecond below the greatest duration, and whatever the random numbers:
    the delay of an attempt is positive and at most the maximum (or a millisecond, when
    jitter is on and the maximum is shorter), the delays before jitter start at the
    configured one, grow strictly until they reach the maximum and stay there, and do
    reach it.  This holds for every multiplier, not-a-number and infinity included. *)
Theorem backoff_bounds policy0 random n :
  let policy := normalizeReconnect policy0 in
  let delay := jitterReconnectDelay random (backoff_at policy n) (JitterFraction policy) in
  MaxBackoff policy <= max_int64 - millisecond -> SFleb f_zero random = true ->
  0 < delay <= Z.max (MaxBackoff policy) millisecond /\
  (SFleb (JitterFraction policy) f_zero = true -> delay = backoff_at policy n) /\
  InitialBackoff policy <= backoff_at policy n <= MaxBackoff policy /\
  (backoff_at policy n < backoff_at policy (S n) \/ backoff_at policy (S n) = MaxBackoff policy) /\
  (MaxBackoff policy - InitialBackoff policy <= Z.of_nat n -> backoff_at policy n = MaxBackoff policy).
Proof.
  cbv zeta. destruct (normalized_bounds policy0) as [Hp _]. revert Hp.
  generalize (normalizeReconnect policy0). intros policy Hp Hm Hr.
  pose proof (backoff_at_bounds policy Hp Hm n) as Hb.
  assert (Hms : 0 < millisecond) by done.
  split_and!; [| | |lia|lia|by apply backoff_at_next|].
  1-2: destruct (jitter_bounds random (backoff_at policy n) (JitterFraction policy)) as [[-> _]|H]; [done|lia..].
  - intros Hz. unfold jitterReconnectDelay. by rewrite Hz, orb_true_r.
  - intros Hn. destruct (backoff_at_least policy Hp Hm n); lia.
Qed.

Definition sample_policy : ReconnectPolicy :=
  MkReconnectPolicy true (100 * millisecond) (300 * millisecond) f_two 0 f_one false.

Lemma backoff_bounds_witness :
  backoff_at (normalizeReconnect sample_policy) 1 = 200 * millisecond /\
  backoff_at (normalizeReconnect sample_policy) 2 = 300 * millisecond /\
  0 < jitterReconnectDelay f_zero (backoff_at (normalizeReconnect sample_policy) 2)
        (JitterFraction (normalizeReconnect sample_policy)) <= Z.max (300 * millisecond) millisecond.
Proof.
  split_and!; [vm_compute; reflexivity..| |];
    apply (backoff_bounds sample_policy f_zero 2); by vm_compute.
Defined.

(** The delay can exceed the maximum, when that is below a millisecond. *)
Lemma jitter_exceeds_maximum :
  let policy := normalizeReconnect (MkReconnectPolicy true 1000 1000 f_two 0 f_one false) in
  MaxBackoff policy = 1000 /\ jitterReconnectDelay f_zero (backoff_at policy 0) (JitterFraction policy) = millisecond.
Proof. by vm_compute. Qed.
