(* ===== verification/Client.v ===== *)
(** * The ESME client (src/client/client.go)

    A client owns one session at a time.  Its lifecycle goroutine waits for the
    session to end, then dials, binds with the profile of the last successful bind,
    and publishes the new session.  The sessions are those of Requests.v, the binds
    those of Operations.v and the delays those of Backoff.v; dialling is a parameter.
    What a goroutine does under the client's lock is one step; reading the profile, the
    bind and the publication of the session are steps of their own. *)

From S2P Require Import Prelude Protocol Bodies Fields BodySpec Body34 Registry Pdu StateMachine Pending Receive Requests Operations Backoff.

Record bindProfile := MkBindProfile { bp_mode : BindMode; bp_request : BindRequest }.

(** [append([]byte(nil), b...)] *)
Definition clone_bytes (b : bytes) : bytes := [] ++ b.
Definition cloneBindRequest (q : BindRequest) : BindRequest :=
  MkBindRequest (clone_bytes (brq_SystemID q)) (clone_bytes (brq_Password q)) (clone_bytes (brq_SystemType q))
    (brq_InterfaceVersion q) (brq_AddressTON q) (brq_AddressNPI q) (clone_bytes (brq_AddressRange q)).

(** The errors of the client itself; [Failed] is an error of the session. *)
Inductive client_error :=
| ErrUnavailable
| UnavailableError (Cause : option GoError) (Reconnecting : bool)
| ContextError (e : GoError)
| Failed (e : GoError).

(** [cl_notify] counts the channels [signalLocked] has closed; [cl_cancelled] is
    whether [c.ctx] is done. *)
Record Client := MkClient {
  cl_current : option positive;
  cl_last : positive;
  cl_profile : option bindProfile;
  cl_lastErr : option GoError;
  cl_lastLoss : option GoError;
  cl_terminal : option GoError;
  cl_dialable : bool;
  cl_closed : bool;
  cl_notify : nat;
  cl_cancelled : bool;
  cl_reconnects : Z;
  cl_failures : Z
}.

Definition signalLocked (c : Client) : Client :=
  MkClient (cl_current c) (cl_last c) (cl_profile c) (cl_lastErr c) (cl_lastLoss c) (cl_terminal c)
    (cl_dialable c) (cl_closed c) (S (cl_notify c)) (cl_cancelled c) (cl_reconnects c) (cl_failures c).

(** [newClient] once the first session runs. *)
Definition newClient (sess : positive) (dialable : bool) : Client :=
  signalLocked (MkClient (Some sess) sess None None None None dialable false 0 false 0 0).

Definition client_Session (c : Client) : positive := default (cl_last c) (cl_current c).
Definition ReconnectCount (c : Client) : Z := cl_reconnects c.

Record MetricsSnapshot := MkMetricsSnapshot { Reconnects : Z; ReconnectFailures : Z }.
Definition Metrics (c : Client) : MetricsSnapshot := MkMetricsSnapshot (cl_reconnects c) (cl_failures c).
Definition LastLoss (c : Client) : option GoError := cl_lastLoss c.

Definition activeSession (policy : ReconnectPolicy) (c : Client) : positive + client_error :=
  let reconnecting := negb (cl_closed c) && Enabled policy && cl_dialable c &&
                      match cl_terminal c with None => true | Some _ => false end in
  match cl_current c with
  | Some sess => if negb (cl_closed c) then inl sess
                 else inr (UnavailableError (cl_lastErr c) reconnecting)
  | None => inr (UnavailableError (cl_lastErr c) reconnecting)
  end.

(** One turn of [WaitConnected] under the lock: return, or wait for the channel. *)
Inductive waiting := Return (err : option client_error) | Sleep (notify : nat).
Definition wait_turn (c : Client) : waiting :=
  match cl_current c with
  | Some _ => if negb (cl_closed c) then Return None else Return (Some ErrUnavailable)
  | None =>
      if cl_closed c then Return (Some ErrUnavailable)
      else match cl_terminal c with
           | Some err => Return (Some (UnavailableError (Some err) false))
           | None => Sleep (cl_notify c)
           end
  end.

(** [Close] under the lock: the session to close after it. *)
Definition Close (c : Client) : Client * option positive :=
  if cl_closed c then (c, None)
  else (signalLocked (MkClient (cl_current c) (cl_last c) (cl_profile c) (cl_lastErr c) (cl_lastLoss c)
          (cl_terminal c) (cl_dialable c) true (cl_notify c) true (cl_reconnects c) (cl_failures c)),
        cl_current c).

(** The end of a successful [bind]. *)
Definition save_profile (c : Client) (mode : BindMode) (request : BindRequest) : Client :=
  MkClient (cl_current c) (cl_last c) (Some (MkBindProfile mode (cloneBindRequest request)))
    (cl_lastErr c) (cl_lastLoss c) (cl_terminal c) (cl_dialable c) (cl_closed c) (cl_notify c)
    (cl_cancelled c) (cl_reconnects c) (cl_failures c).

Definition bindProfileSnapshot (c : Client) : option bindProfile :=
  match cl_profile c with
  | Some p => Some (MkBindProfile (bp_mode p) (cloneBindRequest (bp_request p)))
  | None => None
  end.

(** [lifecycle] when [sess] has ended with [cause]. *)
Definition lose (c : Client) (sess : positive) (cause : option GoError) : Client :=
  if bool_decide (cl_current c = Some sess)
  then signalLocked (MkClient None sess (cl_profile c) cause cause (cl_terminal c) (cl_dialable c)
         (cl_closed c) (cl_notify c) (cl_cancelled c) (cl_reconnects c) (cl_failures c))
  else c.

Definition recordReconnectError (c : Client) (err : GoError) : Client :=
  signalLocked (MkClient (cl_current c) (cl_last c) (cl_profile c) (Some err) (cl_lastLoss c)
    (cl_terminal c) (cl_dialable c) (cl_closed c) (cl_notify c) (cl_cancelled c) (cl_reconnects c)
    (u64 (cl_failures c + 1))).
(** The recovery of a panic of [lifecycle], which then returns. *)
Definition recover_lifecycle (c : Client) : Client := recordReconnectError c (EPanic "client.lifecycle").
Definition recordTerminalReconnectError (c : Client) (err : GoError) : Client :=
  signalLocked (MkClient (cl_current c) (cl_last c) (cl_profile c) (Some err) (cl_lastLoss c)
    (Some err) (cl_dialable c) (cl_closed c) (cl_notify c) (cl_cancelled c) (cl_reconnects c)
    (cl_failures c)).

(** [lifecycle] with a candidate that is ready, unless the client is closed. *)
Definition publish (c : Client) (candidate : positive) : option Client :=
  if cl_closed c then None
  else Some (signalLocked (MkClient (Some candidate) candidate (cl_profile c) None (cl_lastLoss c)
         (cl_terminal c) (cl_dialable c) (cl_closed c) (cl_notify c) (cl_cancelled c)
         (u64 (cl_reconnects c + 1)) (cl_failures c))).

(** [errors.As(err, &response)], as its [Status]. *)
Fixpoint as_response (e : GoError) : option Z :=
  match e with
  | EResponse _ st _ => Some st
  | ESemantic _ _ _ (Some e') | ELoss e' | EOther _ (Some e') => as_response e'
  | _ => None
  end.
Definition isPermanentBindRejection (e : GoError) : bool :=
  match as_response e with
  | Some st => (st =? StatusInvalidPassword) || (st =? StatusInvalidSystemID) || (st =? StatusInvalidSystemType)
  | None => false
  end.

(** [sess.Close()] *)
Definition close_session (c : caller) : caller :=
  in_session c (terminate (c_session c) (ESentinel ErrSessionClosed)).

(** How the [select]s of a request end, as in Requests.v. *)
Record scheduler := MkScheduler {
  sch_slot : caller -> caller * selected;
  sch_room : caller -> caller * selected;
  sch_result : positive -> caller -> caller * selected;
  sch_completion : positive -> caller -> caller
}.

Section client.
Context (policy : ReconnectPolicy) (config : Config) (flow : bool) (stale : bytes).

Definition esme_config : Config :=
  MkConfig RoleESME (cf_Profile config) (cf_Registry config) (cf_MaxPDUSize config) (cf_MaxPending config)
    (cf_MaxDeferredResponses config) (cf_WindowSize config) (cf_ResponseTimeout config)
    (cf_SessionInitTimeout config) (cf_EnquireLinkInterval config) (cf_EnquireLinkTimeout config)
    (cf_InactivityTimeout config) (cf_WriteTimeout config) (cf_TXQueueSize config)
    (cf_TXBatchItems config) (cf_TXBatchBytes config) (cf_ReadBufferSize config).

(** [session.New] for the client: the configuration the session runs with, and it. *)
Definition new_session (now : Z) : res (Config * caller) :=
  match New esme_config now with
  | Ok (cfg, _, s) => Ok (cfg, MkCaller s 0 1)
  | Err e => Err e
  | Panic => Panic
  end.

Definition bind_command (mode : BindMode) : Z :=
  match mode with
  | BindTX => CommandBindTransmitter
  | BindRX => CommandBindReceiver
  | _ => CommandBindTransceiver
  end.

(** [bindSession], and the same choice in [bind]. *)
Definition bindSession (cfg : Config) (sch : scheduler) (c : caller) (profile : bindProfile)
    : caller * option (res BindResponse) :=
  let run op := op (cf_Registry cfg) (cf_Profile cfg) (cf_MaxPending cfg) stale (sch_slot sch)
                  (sch_room sch) (sch_result sch) (sch_completion sch) (bp_request profile) c in
  match bp_mode profile with
  | BindTX => run Operation.BindTransmitter
  | BindRX => run Operation.BindReceiver
  | _ => run Operation.BindTransceiver
  end.

(** ** The client and its goroutines *)

(** Where the lifecycle goroutine is.  [Returned] names the session it was watching,
    when it returned because the client was closed; [Binding] carries the copy of the
    profile that is being bound. *)
Inductive lifecycle :=
| Watching (sess : positive)
| Delay (backoff : Z)
| Dialling (backoff : Z)
| Candidate (cand : positive) (backoff : Z)
| Binding (cand : positive) (backoff : Z) (profile : bindProfile)
| Rejected (cand : positive) (backoff : Z) (err : GoError)
| Terminal (err : GoError)
| Ready (cand : positive)
| Dropping (cand : positive)
| Returned (sess : option positive).

(** [w_closing] are the sessions that calls of [Close] have yet to
    close, [w_sleeping] the channels on which calls of [WaitConnected] wait. *)
Record world := MkWorld {
  w_client : Client;
  w_sessions : gmap positive (Config * caller);
  w_next : positive;
  w_at : lifecycle;
  w_closing : list positive;
  w_sleeping : list nat
}.

Definition with_client (w : world) (c : Client) : world :=
  MkWorld c (w_sessions w) (w_next w) (w_at w) (w_closing w) (w_sleeping w).
Definition at_ (w : world) (l : lifecycle) : world :=
  MkWorld (w_client w) (w_sessions w) (w_next w) l (w_closing w) (w_sleeping w).
Definition set_session (w : world) (p : positive) (cfg : Config) (c : caller) : world :=
  MkWorld (w_client w) (<[p := (cfg, c)]> (w_sessions w)) (w_next w) (w_at w) (w_closing w)
    (w_sleeping w).
Definition add_session (w : world) (cfg : Config) (c : caller) : world :=
  MkWorld (w_client w) (<[w_next w := (cfg, c)]> (w_sessions w)) (Pos.succ (w_next w)) (w_at w)
    (w_closing w) (w_sleeping w).
Definition with_closing (w : world) (l : list positive) : world :=
  MkWorld (w_client w) (w_sessions w) (w_next w) (w_at w) l (w_sleeping w).
Definition with_sleeping (w : world) (l : list nat) : world :=
  MkWorld (w_client w) (w_sessions w) (w_next w) (w_at w) (w_closing w) l.

(** A method of the client runs [op] on the active session, and on no other. *)
Definition with_active {A} (w : world) (op : Config -> caller -> caller * option (res A))
    : world * option (A + client_error) :=
  match activeSession policy (w_client w) with
  | inr e => (w, Some (inr e))
  | inl p =>
      match w_sessions w !! p with
      | None => (w, None)
      | Some (cfg, c) =>
          let '(c, r) := op cfg c in
          (set_session w p cfg c,
           match r with
           | Some (Ok a) => Some (inl a)
           | Some (Err e) => Some (inr (Failed e))
           | _ => None
           end)
      end
  end.

Definition client_bind (sch : scheduler) (mode : BindMode) (request : BindRequest) (w : world)
    : world * option (BindResponse + client_error) :=
  match with_active w (fun cfg c => bindSession cfg sch c (MkBindProfile mode request)) with
  | (w, Some (inl response)) => (with_client w (save_profile (w_client w) mode request), Some (inl response))
  | x => x
  end.

Definition client_BindTransmitter sch := client_bind sch BindTX.
Definition client_BindReceiver sch := client_bind sch BindRX.
Definition client_BindTransceiver sch := client_bind sch BindTRX.

(** [op] with the configuration of the session. *)
Definition on_session {A B} (sch : scheduler)
    (op : option Registry -> Profile -> Z -> bytes -> (caller -> caller * selected) ->
          (caller -> caller * selected) -> (positive -> caller -> caller * selected) ->
          (positive -> caller -> caller) -> A -> B) (cfg : Config) : A -> B :=
  op (cf_Registry cfg) (cf_Profile cfg) (cf_MaxPending cfg) stale (sch_slot sch) (sch_room sch)
    (sch_result sch) (sch_completion sch).

Definition client_SubmitSM sch q w := with_active w (fun cfg => on_session sch Operation.SubmitSM cfg q).
Definition client_DataSM sch q w := with_active w (fun cfg => on_session sch Operation.DataSM cfg q).
Definition client_SubmitMulti sch q w := with_active w (fun cfg => on_session sch Operation.SubmitMulti cfg q).
Definition client_QuerySM sch q w := with_active w (fun cfg => on_session sch Operation.QuerySM cfg q).
Definition client_CancelSM sch q w := with_active w (fun cfg => on_session sch Operation.CancelSM cfg q).
Definition client_ReplaceSM sch q w := with_active w (fun cfg => on_session sch Operation.ReplaceSM cfg q).
Definition client_BroadcastSM sch q w := with_active w (fun cfg => on_session sch Operation.BroadcastSM cfg q).
Definition client_QueryBroadcastSM sch q w :=
  with_active w (fun cfg => on_session sch Operation.QueryBroadcastSM cfg q).
Definition client_CancelBroadcastSM sch q w :=
  with_active w (fun cfg => on_session sch Operation.CancelBroadcastSM cfg q).
Definition client_EnquireLink sch w := with_active w (on_session sch Operation.EnquireLink).
Definition client_Unbind sch w := with_active w (on_session sch Operation.Unbind).

(** A session goes on by itself: its goroutines and its users take steps, and once
    it has ended it stays so, with the same error. *)
Record session_moves (cfg : Config) (c c' : caller) : Prop := {
  mv_tasks : rtc (task (cf_Registry cfg) (cf_Profile cfg) flow) c c';
  mv_done : done (c_session c) = true -> done (c_session c') = true;
  mv_error e : closeErr (c_session c) = Some e -> closeErr (c_session c') = Some e;
  mv_ended : is_Some (closeErr (c_session c')) -> is_Some (closeErr (c_session c)) \/ done (c_session c') = true
}.
Definition scheduler_ok (cfg : Config) (sch : scheduler) : Prop :=
  interleaved (cf_Registry cfg) (cf_Profile cfg) flow (sch_slot sch) (sch_room sch) (sch_result sch)
    (sch_completion sch).

(** After the session [sess] ended with [cause]. *)
Definition after_loss (w : world) (sess : positive) (cause : option GoError) : world :=
  let c := lose (w_client w) sess cause in
  at_ (with_client w c)
    (if cl_closed c || negb (Enabled policy && cl_dialable c) then Returned None
     else Delay (InitialBackoff policy)).
Definition retry (w : world) (backoff : Z) (err : GoError) : world :=
  at_ (with_client w (recordReconnectError (w_client w) err)) (Delay (nextBackoff backoff policy)).
(** The candidate's bind failed: it is closed, and the lifecycle tries again or gives
    up. *)
Definition after_rejection (w : world) (backoff : Z) (err : GoError) : world :=
  if StopOnPermanentBindFailure policy && isPermanentBindRejection err
  then at_ (with_client w (recordReconnectError (w_client w) err)) (Terminal err)
  else retry w backoff err.

Inductive cstep : world -> world -> Prop :=
(* The sessions. *)
| SSession w p cfg c c' : w_sessions w !! p = Some (cfg, c) -> session_moves cfg c c' ->
    cstep w (set_session w p cfg c')
(* lifecycle *)
| SLost w p cfg c : w_at w = Watching p -> w_sessions w !! p = Some (cfg, c) -> done (c_session c) = true ->
    cstep w (after_loss w p (closeErr (c_session c)))
| SCancelled w p : w_at w = Watching p -> cl_cancelled (w_client w) = true ->
    cstep w (at_ w (Returned (Some p)))
| SDelayed w b : w_at w = Delay b -> cstep w (at_ w (Dialling b))
| SDelayCancelled w b : w_at w = Delay b -> cl_cancelled (w_client w) = true ->
    cstep w (at_ w (Returned None))
| SDialFailed w b err : w_at w = Dialling b -> cstep w (retry w b err)
(* The functions of the application in the dialer and in the TLS configuration panic. *)
| SPanicked w b : w_at w = Dialling b ->
    cstep w (at_ (with_client w (recover_lifecycle (w_client w))) (Returned None))
| SNewFailed w b now err : w_at w = Dialling b -> new_session now = Err err -> cstep w (retry w b err)
| SNew w b now cfg c : w_at w = Dialling b -> new_session now = Ok (cfg, c) ->
    cstep w (at_ (add_session w cfg c) (Candidate (w_next w) b))
| SNoProfile w p b : w_at w = Candidate p b -> bindProfileSnapshot (w_client w) = None ->
    cstep w (at_ w (Ready p))
| SSnapshot w p b profile : w_at w = Candidate p b -> bindProfileSnapshot (w_client w) = Some profile ->
    cstep w (at_ w (Binding p b profile))
(* The saved profile may change while [bindSession] waits for the answer. *)
| SBound w p b cfg c profile sch c' response : w_at w = Binding p b profile ->
    w_sessions w !! p = Some (cfg, c) ->
    scheduler_ok cfg sch -> bindSession cfg sch c profile = (c', Some (Ok response)) ->
    session_moves cfg c c' ->
    cstep w (at_ (set_session w p cfg c') (Ready p))
| SBindFailed w p b cfg c profile sch c' err : w_at w = Binding p b profile ->
    w_sessions w !! p = Some (cfg, c) ->
    scheduler_ok cfg sch -> bindSession cfg sch c profile = (c', Some (Err err)) ->
    session_moves cfg c c' ->
    cstep w (at_ (set_session w p cfg c') (Rejected p b err))
| SRejected w p b err cfg c : w_at w = Rejected p b err -> w_sessions w !! p = Some (cfg, c) ->
    cstep w (after_rejection (set_session w p cfg (close_session c)) b err)
| STerminal w err : w_at w = Terminal err ->
    cstep w (at_ (with_client w (recordTerminalReconnectError (w_client w) err)) (Returned None))
| SPublished w p c : w_at w = Ready p -> publish (w_client w) p = Some c ->
    cstep w (at_ (with_client w c) (Watching p))
| STooLate w p : w_at w = Ready p -> publish (w_client w) p = None -> cstep w (at_ w (Dropping p))
| SDropped w p cfg c : w_at w = Dropping p -> w_sessions w !! p = Some (cfg, c) ->
    cstep w (at_ (set_session w p cfg (close_session c)) (Returned None))
(* Close *)
| SClose w c sess : Close (w_client w) = (c, sess) ->
    cstep w (with_closing (with_client w c) (option_list sess ++ w_closing w))
| SCloseSession w p cfg c l1 l2 : w_closing w = l1 ++ p :: l2 -> w_sessions w !! p = Some (cfg, c) ->
    cstep w (with_closing (set_session w p cfg (close_session c)) (l1 ++ l2))
(* bind, when the session answered it *)
| SBind w mode request : cstep w (with_client w (save_profile (w_client w) mode request))
(* WaitConnected *)
| SSleep w n : wait_turn (w_client w) = Sleep n -> cstep w (with_sleeping w (n :: w_sleeping w))
| SWake w n l1 l2 : w_sleeping w = l1 ++ n :: l2 ->
    (n < cl_notify (w_client w))%nat \/ cl_cancelled (w_client w) = true ->
    cstep w (with_sleeping w (l1 ++ l2)).

Definition initial (cfg : Config) (c : caller) (dialable : bool) : world :=
  MkWorld (newClient 1 dialable) {[1%positive := (cfg, c)]} 2 (Watching 1) [] [].

Inductive reachable : world -> Prop :=
| RStart now cfg c dialable : new_session now = Ok (cfg, c) -> reachable (initial cfg c dialable)
| RStep w w' : reachable w -> cstep w w' -> reachable w'.

(** ** The invariant *)

(** The session the lifecycle goroutine is responsible for, and the one it has
    published. *)
Definition tracked (l : lifecycle) : option positive :=
  match l with
  | Watching p | Candidate p _ | Binding p _ _ | Rejected p _ _ | Ready p | Dropping p => Some p
  | Returned o => o
  | Delay _ | Dialling _ | Terminal _ => None
  end.
Definition published (l : lifecycle) : option positive :=
  match l with Watching p => Some p | Returned o => o | _ => None end.

Definition session_ok (cfg : Config) (c : caller) : Prop :=
  heap_ok (table (c_session c)) (c_fresh c) /\
  (is_Some (closeErr (c_session c)) -> done (c_session c) = true) /\
  exists now c0, new_session now = Ok (cfg, c0).

Definition ended (w : world) (p : positive) : Prop :=
  forall cfg c, w_sessions w !! p = Some (cfg, c) -> done (c_session c) = true.

(** Nothing to tell a caller of [WaitConnected]. *)
Definition nothing_new (c : Client) : Prop :=
  cl_current c = None /\ cl_closed c = false /\ cl_terminal c = None.

Record cinv (w : world) : Prop := {
  ci_fresh p x : w_sessions w !! p = Some x -> (p < w_next w)%positive;
  ci_session p cfg c : w_sessions w !! p = Some (cfg, c) -> session_ok cfg c;
  ci_live p : tracked (w_at w) <> Some p -> ended w p;
  ci_exists p : tracked (w_at w) = Some p -> is_Some (w_sessions w !! p);
  ci_current : cl_current (w_client w) = published (w_at w);
  ci_cancelled : cl_cancelled (w_client w) = cl_closed (w_client w);
  ci_left p : w_at w = Returned (Some p) -> cl_closed (w_client w) = true;
  ci_closing p : cl_closed (w_client w) = true -> cl_current (w_client w) = Some p ->
    p ∈ w_closing w \/ ended w p;
  ci_sleeping n : n ∈ w_sleeping w -> (n <= cl_notify (w_client w))%nat /\
    (n = cl_notify (w_client w) -> nothing_new (w_client w));
  ci_terminal e : cl_terminal (w_client w) = Some e ->
    w_at w = Returned None /\ isPermanentBindRejection e = true;
  ci_rejection e : w_at w = Terminal e -> isPermanentBindRejection e = true
}.

Lemma close_session_done cfg c : session_ok cfg c ->
  session_ok cfg (close_session c) /\ done (c_session (close_session c)) = true.
Proof.
  intros (Hh & He & Hn). unfold close_session, session_ok. cbn [in_session c_session c_fresh].
  assert (Hd : done (terminate (c_session c) (ESentinel ErrSessionClosed)) = true).
  { unfold terminate. destruct (closeErr (c_session c)) eqn:H; [|done]. apply He. eauto. }
  split_and!; [|done..]. eapply heap_ok_grows; [apply terminate_heap|done].
Qed.

Lemma moves_ok cfg c c' : session_moves cfg c c' -> session_ok cfg c ->
  session_ok cfg c' /\ (done (c_session c) = true -> done (c_session c') = true).
Proof.
  intros [Ht Hd He Hn] (Hh & Hc & Hnew). split; [|done]. split_and!; [|intros Hs|done].
  - by eapply tasks_heap.
  - destruct (Hn Hs) as [H|H]; [|done]. auto.
Qed.

Lemma new_session_ok now cfg c : new_session now = Ok (cfg, c) -> session_ok cfg c.
Proof.
  intros H. unfold new_session in H. pose proof (New_started esme_config now) as Hs. unfold started_or_refused in Hs.
  destruct (New esme_config now) as [[[cfg' f] s]|e|] eqn:Hn; [|done|done]. injection H as <- <-.
  destruct Hs as (_ & _ & [_ _ Hh _ _ (Hc & _)]). split_and!.
  - exact Hh.
  - cbn [c_session]. rewrite Hc. by intros [].
  - exists now, (MkCaller s 0 1). unfold new_session. by rewrite Hn.
Qed.

(** *** Steps that leave the lifecycle where it is *)

Lemma ended_set w p cfg c c' q : w_sessions w !! p = Some (cfg, c) ->
  (done (c_session c) = true -> done (c_session c') = true) ->
  ended w q -> ended (set_session w p cfg c') q.
Proof.
  intros Hp Hd He cfg1 c1. cbn [set_session w_sessions].
  intros [[<- [= <- <-]]|[_ H]]%lookup_insert_Some; [|by eapply He].
  apply Hd. by eapply He.
Qed.

Lemma cinv_set w p cfg c c' : w_sessions w !! p = Some (cfg, c) -> session_ok cfg c' ->
  (done (c_session c) = true -> done (c_session c') = true) -> cinv w -> cinv (set_session w p cfg c').
Proof.
  intros Hp Hok Hd Hi. split; cbn [set_session w_sessions w_next w_at w_client w_closing w_sleeping]; try apply Hi.
  - intros q x [[<- _]|[_ H]]%lookup_insert_Some; by eapply (ci_fresh _ Hi).
  - intros q cfg1 c1 [[<- [= <- <-]]|[_ H]]%lookup_insert_Some; [done|by eapply (ci_session _ Hi)].
  - intros q Hq. eapply ended_set; [done..|]. by apply (ci_live _ Hi).
  - intros q Hq. destruct (decide (p = q)) as [-> |Hne]; [rewrite lookup_insert_eq; eauto|].
    rewrite lookup_insert_ne by done. by apply (ci_exists _ Hi).
  - intros q Hc Hq. destruct (ci_closing _ Hi q Hc Hq) as [H|H]; [by left|right]. by eapply ended_set.
Qed.

Lemma cinv_close_session w p cfg c : w_sessions w !! p = Some (cfg, c) -> cinv w ->
  cinv (set_session w p cfg (close_session c)) /\ ended (set_session w p cfg (close_session c)) p.
Proof.
  intros Hp Hi. pose proof (ci_session _ Hi _ _ _ Hp) as Hok.
  destruct (close_session_done cfg c Hok) as [Hok' Hd]. split; [by apply (cinv_set w p cfg c)|].
  intros cfg1 c1. cbn [set_session w_sessions]. rewrite lookup_insert_eq. by intros [= <- <-].
Qed.

(** A change of the client that signals, or that no waiter cares about. *)
Lemma cinv_client w c l :
  cl_current c = published l -> cl_cancelled c = cl_closed c ->
  (cl_closed (w_client w) = true -> cl_closed c = true) ->
  (cl_notify c = S (cl_notify (w_client w)) \/
   cl_notify c = cl_notify (w_client w) /\ (nothing_new (w_client w) -> nothing_new c)) ->
  (forall p, tracked l = Some p -> tracked (w_at w) = Some p) ->
  (forall p, tracked (w_at w) = Some p -> tracked l = Some p \/ ended w p) ->
  (forall p, l = Returned (Some p) -> cl_closed c = true) ->
  (forall p, cl_closed c = true -> cl_current c = Some p -> p ∈ w_closing w \/ ended w p) ->
  (forall e, cl_terminal c = Some e -> l = Returned None /\ isPermanentBindRejection e = true) ->
  (forall e, l = Terminal e -> isPermanentBindRejection e = true) ->
  cinv w -> cinv (at_ (with_client w c) l).
Proof.
  intros Hcur Hcan Hmono Hnote Hback Hfwd Hleft Hclosing Hterm Hrej Hi.
  split; cbn [at_ with_client w_sessions w_next w_at w_client w_closing w_sleeping]; try done; try apply Hi.
  - intros p Hp. destruct (decide (tracked (w_at w) = Some p)) as [H|H].
    + destruct (Hfwd p H); [congruence|done].
    + by apply (ci_live _ Hi).
  - intros p Hp. apply (ci_exists _ Hi). auto.
  - intros n Hn. destruct (ci_sleeping _ Hi n Hn) as [H1 H2].
    destruct Hnote as [-> |[-> Hk]]; [split; [lia|]; intros ->; lia|]. split; [done|]. auto.
Qed.

(** Moving the lifecycle alone. *)
Lemma cinv_at w l : cinv w ->
  published l = published (w_at w) -> tracked l = tracked (w_at w) ->
  (forall p, l = Returned (Some p) -> cl_closed (w_client w) = true) ->
  (forall e, cl_terminal (w_client w) = Some e -> l = Returned None) ->
  (forall e, l = Terminal e -> isPermanentBindRejection e = true) -> cinv (at_ w l).
Proof.
  intros Hi Hp Ht Hl Hterm Hrej.
  assert (Hw : at_ w l = at_ (with_client w (w_client w)) l) by done. rewrite Hw.
  apply cinv_client; try done.
  - rewrite Hp. apply Hi.
  - apply Hi.
  - by right.
  - congruence.
  - intros q Hq. left. congruence.
  - apply (ci_closing _ Hi).
  - intros e He. split; [by eapply Hterm|]. by apply (ci_terminal _ Hi).
Qed.

Lemma not_terminal w : cinv w -> (forall o, w_at w <> Returned o) -> cl_terminal (w_client w) = None.
Proof.
  intros Hi Hno. destruct (cl_terminal (w_client w)) as [e|] eqn:He; [|done].
  destruct (ci_terminal _ Hi e He) as [H _]. by destruct (Hno None).
Qed.

Lemma cinv_failed w l e : cinv w -> tracked (w_at w) = None -> (forall o, w_at w <> Returned o) ->
  l = Returned None \/ (exists b, l = Delay b) ->
  cinv (at_ (with_client w (recordReconnectError (w_client w) e)) l).
Proof.
  intros Hi Hnone Hno Hl. pose proof (not_terminal w Hi Hno) as Ht.
  assert (Hc : cl_current (w_client w) = None).
  { rewrite (ci_current _ Hi). destruct (w_at w); try done. }
  destruct Hl as [-> |[b ->]]; (apply cinv_client; cbn; try done; try congruence; [apply Hi|by left]).
Qed.

Lemma cinv_lost w p cause : cinv w -> w_at w = Watching p -> ended w p -> cinv (after_loss w p cause).
Proof.
  intros Hi Hat He.
  assert (Hcur : cl_current (w_client w) = Some p) by (rewrite (ci_current _ Hi), Hat; done).
  pose proof (not_terminal w Hi ltac:(rewrite Hat; done)) as Hterm.
  unfold after_loss, lose. rewrite bool_decide_eq_true_2 by done. cbv zeta. apply cinv_client; cbn; try done.
  - by destruct (_ || _).
  - apply Hi.
  - by left.
  - destruct (_ || _); done.
  - intros q. rewrite Hat. cbn. intros [= <-]. by right.
  - destruct (_ || _); done.
  - congruence.
  - by destruct (_ || _).
Qed.

Lemma cinv_rejected w p b err cfg c : cinv w -> w_at w = Rejected p b err ->
  w_sessions w !! p = Some (cfg, c) -> cinv (after_rejection (set_session w p cfg (close_session c)) b err).
Proof.
  intros Hi Hat Hp. destruct (cinv_close_session w p cfg c Hp Hi) as [Hi' He].
  set (w' := set_session w p cfg (close_session c)) in *.
  assert (Hat' : w_at w' = Rejected p b err) by done.
  assert (Hc : cl_current (w_client w') = None) by (rewrite (ci_current _ Hi'), Hat'; done).
  pose proof (not_terminal w' Hi' ltac:(rewrite Hat'; done)) as Hterm.
  assert (Hgo : forall l, tracked l = None -> published l = None ->
    (forall e, l = Terminal e -> isPermanentBindRejection e = true) ->
    cinv (at_ (with_client w' (recordReconnectError (w_client w') err)) l)).
  { intros l Ht Hpub Hrej. apply cinv_client; try done; cbn [recordReconnectError signalLocked cl_current cl_cancelled
      cl_closed cl_notify cl_terminal].
    - congruence.
    - apply Hi'.
    - by left.
    - intros q Hq. congruence.
    - rewrite Hat'. cbn. intros q [= <-]. by right.
    - intros q ->. done.
    - congruence.
    - congruence. }
  unfold after_rejection, retry. destruct (_ && _) eqn:Hs; apply Hgo; try done.
  apply andb_prop in Hs as [_ Hs]. by intros e [= <-].
Qed.

Lemma cinv_new w b cfg c now : cinv w -> w_at w = Dialling b -> new_session now = Ok (cfg, c) ->
  cinv (at_ (add_session w cfg c) (Candidate (w_next w) b)).
Proof.
  intros Hi Hat Hn.
  assert (Hnew : forall q, w_sessions w !! q <> None -> q <> w_next w).
  { intros q Hq ->. destruct (w_sessions w !! w_next w) eqn:H; [|done]. pose proof (ci_fresh _ Hi _ _ H). lia. }
  assert (Hc : cl_current (w_client w) = None) by (rewrite (ci_current _ Hi), Hat; done).
  pose proof (not_terminal w Hi ltac:(rewrite Hat; done)) as Hterm.
  split; cbn [at_ add_session w_sessions w_next w_at w_client w_closing w_sleeping tracked published]; try apply Hi; try done.
  - intros q x [[<- _]|[_ H]]%lookup_insert_Some; [lia|]. pose proof (ci_fresh _ Hi _ _ H). lia.
  - intros q cfg1 c1 [[<- [= <- <-]]|[_ H]]%lookup_insert_Some; [by eapply new_session_ok|by eapply (ci_session _ Hi)].
  - intros q Hq cfg1 c1. cbn [at_ add_session w_sessions].
    intros [[<- _]|[_ H]]%lookup_insert_Some; [done|]. eapply (ci_live _ Hi); [|done]. by rewrite Hat.
  - intros q [= <-]. rewrite lookup_insert_eq. eauto.
  - congruence.
  - congruence.
Qed.

Lemma cinv_published w p c : cinv w -> w_at w = Ready p -> publish (w_client w) p = Some c ->
  cinv (at_ (with_client w c) (Watching p)).
Proof.
  intros Hi Hat Hpub. unfold publish in Hpub. destruct (cl_closed (w_client w)) eqn:Hcl; [done|]. injection Hpub as <-.
  pose proof (not_terminal w Hi ltac:(rewrite Hat; done)) as Hterm.
  apply cinv_client; cbn; try done; try congruence.
  - rewrite (ci_cancelled _ Hi). congruence.
  - by left.
  - rewrite Hat. done.
  - rewrite Hat. cbn. auto.
Qed.

Lemma cinv_close w c sess : cinv w -> Close (w_client w) = (c, sess) ->
  cinv (with_closing (with_client w c) (option_list sess ++ w_closing w)).
Proof.
  intros Hi HC. unfold Close in HC. destruct (cl_closed (w_client w)) eqn:Hcl; injection HC as <- <-.
  { by destruct w. }
  split; cbn; try apply Hi; try done.
  - intros p _ ->. left. by left.
  - intros n Hn. destruct (ci_sleeping _ Hi n Hn) as [H _]. split; lia.
Qed.

Lemma cinv_profile w mode request : cinv w -> cinv (with_client w (save_profile (w_client w) mode request)).
Proof. intros Hi. split; cbn; try apply Hi. Qed.

Lemma cinv_drop_closing w p l1 l2 : cinv w -> w_closing w = l1 ++ p :: l2 -> ended w p ->
  cinv (with_closing w (l1 ++ l2)).
Proof.
  intros Hi Hc He. split; cbn; try apply Hi. intros q Hcl Hq.
  destruct (ci_closing _ Hi q Hcl Hq) as [H|H]; [|by right]. rewrite Hc in H.
  apply elem_of_app in H as [H|H]; [left; apply elem_of_app; by left|].
  apply elem_of_cons in H as [-> |H]; [by right|left; apply elem_of_app; by right].
Qed.

Lemma cinv_moved w p cfg c c' : cinv w -> w_sessions w !! p = Some (cfg, c) -> session_moves cfg c c' ->
  cinv (set_session w p cfg c').
Proof.
  intros Hi Hp Hm. destruct (moves_ok cfg c c' Hm (ci_session _ Hi _ _ _ Hp)) as [Hok Hd].
  by apply (cinv_set w p cfg c).
Qed.

Lemma cinv_sleep w n : cinv w -> wait_turn (w_client w) = Sleep n -> cinv (with_sleeping w (n :: w_sleeping w)).
Proof.
  intros Hi Hs. assert (n = cl_notify (w_client w) /\ nothing_new (w_client w)) as [-> Hnew].
  { unfold wait_turn, nothing_new in *. destruct (cl_current (w_client w)); [by destruct (negb _)|].
    destruct (cl_closed (w_client w)); [done|]. destruct (cl_terminal (w_client w)); [done|]. by injection Hs as <-. }
  split; cbn; try apply Hi. intros k [-> |Hk]%elem_of_cons; [split; [lia|done]|by apply (ci_sleeping _ Hi)].
Qed.

Lemma cinv_wake w n l1 l2 : cinv w -> w_sleeping w = l1 ++ n :: l2 -> cinv (with_sleeping w (l1 ++ l2)).
Proof.
  intros Hi Hs. split; cbn; try apply Hi. intros k Hk. apply (ci_sleeping _ Hi). rewrite Hs.
  apply elem_of_app in Hk as [Hk|Hk]; apply elem_of_app; [by left|right; by right].
Qed.

Lemma cstep_inv w w' : cstep w w' -> cinv w -> cinv w'.
Proof.
  intros Hs Hi.
  destruct Hs as [w p cfg c c' Hp Hm|w p cfg c Hat Hp Hd|w p Hat Hc|w b Hat|w b Hat Hc|w b err Hat
    |w b Hat|w b now err Hat _|w b now cfg c Hat Hn|w p b Hat _|w p b pr Hat _|w p b cfg c pr sch c' rsp Hat Hp _ _ Hm
    |w p b cfg c pr sch c' err Hat Hp _ _ Hm|w p b err cfg c Hat Hp|w err Hat|w p c Hat Hpub|w p Hat Hpub
    |w p cfg c Hat Hp|w c sess HC|w p cfg c l1 l2 Hl Hp|w mode q|w n Hn|w n l1 l2 Hl _].
  - by eapply cinv_moved.
  - apply cinv_lost; [done..|]. intros cfg1 c1 H1. congruence.
  - pose proof (not_terminal w Hi ltac:(rewrite Hat; done)) as Ht.
    apply cinv_at; rewrite ?Hat; try done; [|congruence]. intros _ _. by rewrite <- (ci_cancelled _ Hi).
  - pose proof (not_terminal w Hi ltac:(rewrite Hat; done)) as Ht. apply cinv_at; rewrite ?Hat; done || congruence.
  - apply cinv_at; rewrite ?Hat; done.
  - apply cinv_failed; rewrite ?Hat; [done..|]. by right; eexists.
  - apply cinv_failed; rewrite ?Hat; [done..|]. by left.
  - apply cinv_failed; rewrite ?Hat; [done..|]. by right; eexists.
  - by eapply cinv_new.
  - pose proof (not_terminal w Hi ltac:(rewrite Hat; done)) as Ht. apply cinv_at; rewrite ?Hat; done || congruence.
  - pose proof (not_terminal w Hi ltac:(rewrite Hat; done)) as Ht. apply cinv_at; rewrite ?Hat; done || congruence.
  - pose proof (cinv_moved w p cfg c c' Hi Hp Hm) as Hi'.
    pose proof (not_terminal _ Hi' ltac:(cbn; rewrite Hat; done)) as Ht.
    apply cinv_at; try done; cbn [set_session w_at w_client] in *; rewrite ?Hat; done || congruence.
  - pose proof (cinv_moved w p cfg c c' Hi Hp Hm) as Hi'.
    pose proof (not_terminal _ Hi' ltac:(cbn; rewrite Hat; done)) as Ht.
    apply cinv_at; try done; cbn [set_session w_at w_client] in *; rewrite ?Hat; done || congruence.
  - by eapply cinv_rejected.
  - assert (Hc : cl_current (w_client w) = None) by (rewrite (ci_current _ Hi), Hat; done).
    apply cinv_client; cbn; try done; try (by left); try apply Hi; try congruence; rewrite ?Hat; try done.
    intros e [= <-]. split; [done|]. by apply (ci_rejection _ Hi).
  - by apply cinv_published.
  - pose proof (not_terminal w Hi ltac:(rewrite Hat; done)) as Ht. apply cinv_at; rewrite ?Hat; done || congruence.
  - destruct (cinv_close_session w p cfg c Hp Hi) as [Hi' He].
    pose proof (not_terminal _ Hi' ltac:(cbn; rewrite Hat; done)) as Ht.
    set (w' := set_session w p cfg (close_session c)) in *.
    assert (Hat' : w_at w' = Dropping p) by done.
    assert (Hw : at_ w' (Returned None) = at_ (with_client w' (w_client w')) (Returned None)) by done. rewrite Hw.
    apply cinv_client; try done.
    + rewrite (ci_current _ Hi'), Hat'. done.
    + apply Hi'.
    + by right.
    + rewrite Hat'. intros q [= <-]. by right.
    + apply (ci_closing _ Hi').
    + congruence.
  - by eapply cinv_close.
  - destruct (cinv_close_session w p cfg c Hp Hi) as [Hi' He]. by eapply cinv_drop_closing.
  - by apply cinv_profile.
  - by apply cinv_sleep.
  - by eapply cinv_wake.
Qed.

Lemma client_reachable_inv w : reachable w -> cinv w.
Proof.
  induction 1 as [now cfg c dialable Hn|w w' _ IH Hs]; [|by eapply cstep_inv].
  split; cbn; try done.
  - intros p x [<- _]%lookup_singleton_Some. lia.
  - intros p cfg1 c1 [<- [= <- <-]]%lookup_singleton_Some. by eapply new_session_ok.
  - intros p Hp cfg1 c1. cbn [initial w_sessions]. intros [<- _]%lookup_singleton_Some. done.
  - intros p [= <-]. rewrite lookup_singleton_eq. eauto.
  - intros n Hn'. by apply elem_of_nil in Hn'.
Qed.

(** *** Binding *)

(** A registry that decodes the responses to binds in their standard format. *)
Definition knows_binds (r : Registry) : Prop :=
  StandardRegistry r /\ forall mode, is_Some (Command (Some r) (ResponseID (bind_command mode))).

Lemma bind_command_bind mode : isBindRequest (bind_command mode) = true.
Proof. by destruct mode. Qed.

Lemma default_knows_binds cfg now c :
  (forall r, cf_Registry config = Some r -> knows_binds r) -> new_session now = Ok (cfg, c) ->
  exists r, cf_Registry cfg = Some r /\ knows_binds r.
Proof.
  intros Hr Hn. unfold new_session in Hn. pose proof (New_started esme_config now) as Hs.
  unfold started_or_refused in Hs. destruct (New esme_config now) as [[[cfg' f] s]|e|]; [|done|done].
  injection Hn as <- <-. destruct Hs as [Hs _]. destruct (nz_registry _ _ Hs) as (r & Hreg & Hd).
  exists r. split; [done|]. cbn [esme_config cf_Registry] in Hd.
  destruct (cf_Registry config) as [r0|]; [subst; auto|].
  assert (Hmode : RegistryModeValid RegistryCompatible = true) by done.
  destruct (IsSMPP50 _); subst r; (split; [|by intros []; apply is_Some_b; vm_compute]).
  - by eapply NewSMPP50Registry_standard, NewSMPP50Registry_ok.
  - by eapply NewSMPP34Registry_standard, NewSMPP34Registry_ok.
Qed.

(** What [Request] and the operation make of the bind of [profile] on the session [c]. *)
Definition bind_result (cfg : Config) (r : Registry) (sch : scheduler) (c : caller) (profile : bindProfile)
    : caller * option (res BindResponse) -> Prop :=
  operation_result r (cf_Profile cfg) flow (cf_MaxPending cfg) stale (sch_slot sch) (sch_room sch)
    (sch_result sch) (sch_completion sch) (bind_command (bp_mode profile))
    (AVal (VBindRequest (bp_request profile))) (holds VBindResponse) c.

(** A bind that returns a response was answered by it. *)
Lemma bindSession_succeeds cfg r sch c profile c' response :
  cf_Registry cfg = Some r -> knows_binds r -> scheduler_ok cfg sch ->
  heap_ok (table (c_session c)) (c_fresh c) ->
  bindSession cfg sch c profile = (c', Some (Ok response)) ->
  bind_result cfg r sch c profile (c', Some (Ok response)).
Proof.
  intros Hr [Hstd Hhas] Hsch Hh Hb.
  pose proof (typed_operation r (cf_Profile cfg) flow (cf_MaxPending cfg) stale (sch_slot sch) (sch_room sch)
    (sch_result sch) (sch_completion sch)) as Hop. unfold scheduler_ok in Hsch. rewrite Hr in Hsch.
  specialize (Hop Hsch c Hh _ (bind_command (bp_mode profile)) (AVal (VBindRequest (bp_request profile)))
    VBindResponse as_BindResponse (reads_bind _ (bind_command_bind _)) (Hhas _)).
  unfold bindSession in Hb. rewrite Hr in Hb.
  assert (Heq : typed_body as_BindResponse
    (Operation.do_request (Some r) (cf_Profile cfg) (cf_MaxPending cfg) stale (sch_slot sch) (sch_room sch)
       (sch_result sch) (sch_completion sch) (bind_command (bp_mode profile))
       (AVal (VBindRequest (bp_request profile))) c) = (c', Some (Ok response))).
  { by destruct (bp_mode profile). }
  rewrite Heq in Hop. exact Hop.
Qed.

Lemma snapshot_profile c : bindProfileSnapshot c = cl_profile c.
Proof.
  unfold bindProfileSnapshot. destruct (cl_profile c) as [[mode q]|]; [|done].
  unfold cloneBindRequest, clone_bytes. cbn. by destruct q.
Qed.
End client.

(** C15: A client has one session.  In every run of the lifecycle goroutine, of calls of
    [Close], [WaitConnected] and the binds, and of the sessions themselves: at most one
    session of the client has not ended, so a request goes to the only live connection
    and never to one that replaces it later; and when the client is closed, the calls of
    [Close] are done and the lifecycle goroutine has returned, every session it ever
    made has ended.  After a permanent rejection of its credentials the client has no
    session, and says so: it does not claim to be reconnecting. *)
Theorem client_one_session policy config flow stale w :
  reachable policy config flow stale w ->
  (forall p q, ~ ended w p -> ~ ended w q -> p = q) /\
  (forall p, activeSession policy (w_client w) = inl p ->
     is_Some (w_sessions w !! p) /\ forall q, q <> p -> ended w q) /\
  (cl_closed (w_client w) = true -> w_closing w = [] -> (exists o, w_at w = Returned o) ->
     forall p, ended w p) /\
  (forall e, cl_terminal (w_client w) = Some e -> isPermanentBindRejection e = true /\
     exists cause, activeSession policy (w_client w) = inr (UnavailableError cause false) /\
     exists err, wait_turn (w_client w) = Return (Some err)).
Proof.
  intros Hw. pose proof (client_reachable_inv _ _ _ _ _ Hw) as Hi. split_and!.
  - intros p q Hp Hq.
    destruct (decide (tracked (w_at w) = Some p)) as [H|H]; [|by destruct Hp; apply (ci_live _ _ Hi)].
    destruct (decide (tracked (w_at w) = Some q)) as [H'|H']; [congruence|by destruct Hq; apply (ci_live _ _ Hi)].
  - intros p Hp. assert (Ht : tracked (w_at w) = Some p).
    { unfold activeSession in Hp. pose proof (ci_current _ _ Hi) as Hc.
      destruct (cl_current (w_client w)); [|done]. destruct (negb _); [|done]. injection Hp as ->.
      destruct (w_at w); done. }
    split; [by apply (ci_exists _ _ Hi)|]. intros q Hq. apply (ci_live _ _ Hi). congruence.
  - intros Hc Hl [o Ho] p. destruct (decide (o = Some p)) as [-> |Hne].
    + destruct (ci_closing _ _ Hi p Hc) as [H|H]; [by rewrite (ci_current _ _ Hi), Ho| |done].
      rewrite Hl in H. by apply elem_of_nil in H.
    + apply (ci_live _ _ Hi). by rewrite Ho.
  - intros e He. destruct (ci_terminal _ _ Hi e He) as [Hat Hp]. split; [done|].
    assert (Hc : cl_current (w_client w) = None) by (by rewrite (ci_current _ _ Hi), Hat).
    exists (cl_lastErr (w_client w)). unfold activeSession, wait_turn. rewrite Hc, He, andb_false_r.
    split; [done|]. destruct (cl_closed (w_client w)); eauto.
Qed.

(** No wake-up is lost.  A call of [WaitConnected] that waits can be woken as soon as
    there is something to report: either its channel is closed, or the client is still
    without a session, open and trying, so that the call would wait on that channel
    again. *)
Theorem wait_not_lost policy config flow stale w n :
  reachable policy config flow stale w -> n ∈ w_sleeping w ->
  (n < cl_notify (w_client w))%nat \/ wait_turn (w_client w) = Sleep n.
Proof.
  intros Hw Hn. pose proof (client_reachable_inv _ _ _ _ _ Hw) as Hi.
  destruct (ci_sleeping _ _ Hi n Hn) as [Hle Hnew].
  destruct (decide (n = cl_notify (w_client w))) as [Heq|Hne]; [right|left; lia].
  destruct (Hnew Heq) as (H1 & H2 & H3). unfold wait_turn. by rewrite H1, H2, H3, Heq.
Qed.

(** C16: A reconnected session is bound before it is used.  A session becomes the current
    one only when the lifecycle goroutine has made it ready, on a client that is not
    closed.  It makes a candidate ready only from two places: when it found no saved
    profile, or when it was binding this very candidate and the bind returned - that is,
    the [Request] of the bind, run on this session with the mode and the request it is
    binding, returned the response of the command with status zero, which answers the
    request it entered into the table of this session.  What it binds is the profile that
    was saved when it looked; a bind that succeeds on the client while it is waiting for
    the answer changes the profile for the next reconnection only. *)
Theorem reconnect_rebinds policy config flow stale w w' p :
  (forall r, cf_Registry config = Some r -> knows_binds r) ->
  reachable policy config flow stale w -> cstep policy config flow stale w w' ->
  (cl_current (w_client w') = Some p -> cl_current (w_client w) <> Some p ->
     w_at w = Ready p /\ cl_closed (w_client w) = false) /\
  (w_at w' = Ready p -> w_at w <> Ready p ->
     (exists b, w_at w = Candidate p b /\ cl_profile (w_client w) = None) \/
     exists b profile cfg c c' r sch response,
       w_at w = Binding p b profile /\ w_sessions w !! p = Some (cfg, c) /\
       w_sessions w' !! p = Some (cfg, c') /\ cf_Registry cfg = Some r /\ scheduler_ok flow cfg sch /\
       bind_result flow stale cfg r sch c profile (c', Some (Ok response))) /\
  (forall b profile, w_at w' = Binding p b profile -> w_at w <> Binding p b profile ->
     w_at w = Candidate p b /\ cl_profile (w_client w) = Some profile).
Proof.
  intros Hr Hw Hs. pose proof (client_reachable_inv _ _ _ _ _ Hw) as Hi.
  pose proof (cstep_inv _ _ _ _ _ _ Hs Hi) as Hi'. split_and!.
  - rewrite (ci_current _ _ Hi), (ci_current _ _ Hi'). intros H' H.
    destruct Hs; unfold after_loss, retry, after_rejection in H'; cbn in H';
      repeat match goal with Hat : w_at _ = _ |- _ => rewrite Hat in * end; cbn in *;
      repeat case_match; try done; try congruence.
    split; [congruence|]. unfold publish in *. by destruct (cl_closed _).
  - intros H' H. destruct Hs as [| | | | | | | | |w q b Hat Hno| |w q b cfg c pr sch c' rsp Hat Hq Hsch Hb _
      | | | | | | | | | | |]; try (unfold after_loss, retry, after_rejection in H'; cbn in H';
      repeat match goal with Hat : w_at _ = _ |- _ => rewrite Hat in * end;
      repeat case_match; done || congruence).
    + left. exists b. rewrite snapshot_profile in Hno. cbn in H'. injection H' as <-. done.
    + right. destruct (ci_session _ _ Hi _ _ _ Hq) as (Hh & _ & now & c0 & Hn).
      destruct (default_knows_binds _ _ _ _ Hr Hn) as (r & Hreg & Hk). cbn in H'. injection H' as <-.
      exists b, pr, cfg, c, c', r, sch, rsp. split_and!; [done..|apply lookup_insert_eq|done|done|].
      by eapply bindSession_succeeds.
  - intros b profile H' H. destruct Hs; unfold after_loss, retry, after_rejection in H'; cbn in H';
      repeat match goal with Hat : w_at _ = _ |- _ => rewrite Hat in * end;
      repeat case_match; try done; try congruence.
    simplify_eq. by rewrite snapshot_profile in *.
Qed.

(** *** A panic while dialling *)

(** Nobody works for this client any more, and nothing of it says so. *)
Definition stranded (w : world) : Prop :=
  w_at w = Returned None /\ cl_current (w_client w) = None /\ cl_terminal (w_client w) = None /\
  cl_dialable (w_client w) = true.

Lemma stranded_step policy config flow stale w w' : cstep policy config flow stale w w' -> stranded w -> stranded w'.
Proof.
  intros Hs (Hat & Hc & Ht & Hd). destruct Hs; try congruence; cbn; try done.
  unfold Close in *. destruct (cl_closed (w_client w)); by simplify_eq.
Qed.

(** The recovery of [lifecycle] does not record a terminal error.  When a function of the
    application panics while a client that reconnects is dialling, the lifecycle goroutine
    is gone; but until somebody calls [Close], [WaitConnected] goes on waiting and every
    method reports that the client is reconnecting. *)
Lemma panicked_dial_strands policy config flow stale w b :
  reachable policy config flow stale w -> w_at w = Dialling b -> cl_dialable (w_client w) = true -> Enabled policy = true ->
  exists w', cstep policy config flow stale w w' /\
  forall w'', rtc (cstep policy config flow stale) w' w'' -> cl_closed (w_client w'') = false ->
    w_at w'' = Returned None /\ wait_turn (w_client w'') = Sleep (cl_notify (w_client w'')) /\
    activeSession policy (w_client w'') = inr (UnavailableError (cl_lastErr (w_client w'')) true).
Proof.
  intros Hw Hat Hd He. pose proof (client_reachable_inv _ _ _ _ _ Hw) as Hi.
  exists (at_ (with_client w (recover_lifecycle (w_client w))) (Returned None)). split; [by eapply SPanicked|].
  intros w'' Hr Hcl. assert (Hst : stranded w'').
  { assert (H0 : stranded (at_ (with_client w (recover_lifecycle (w_client w))) (Returned None))).
    { split_and!; cbn; [done|by rewrite (ci_current _ _ Hi), Hat| |done].
      apply (not_terminal config w Hi). rewrite Hat. done. }
    clear Hcl. revert H0. induction Hr; [done|]. eauto using stranded_step. }
  destruct Hst as (H1 & H2 & H3 & H4). split; [done|]. unfold wait_turn, activeSession.
  rewrite H2, Hcl, H3, H4, He. done.
Qed.

(** ** Sample runs *)

Lemma terminate_moves flow cfg c cause :
  (is_Some (closeErr (c_session c)) -> done (c_session c) = true) ->
  session_moves flow cfg c (in_session c (terminate (c_session c) cause)) /\
  done (terminate (c_session c) cause) = true.
Proof.
  intros Hok. assert (Hd : done (terminate (c_session c) cause) = true).
  { unfold terminate. destruct (closeErr (c_session c)) eqn:H; [apply Hok; eauto|done]. }
  split; [|done]. split; cbn [in_session c_session].
  - apply rtc_once, TTerminate.
  - done.
  - intros e He. unfold terminate. by rewrite He.
  - by right.
Qed.

Definition sample_config : Config :=
  MkConfig RoleESME (MkProfile 0) sample_registry 0 0 0 0 0 0 0 0 0 0 0 0 0 0.

Lemma sample_knows_binds r : cf_Registry sample_config = Some r -> knows_binds r.
Proof.
  intros H. apply (base.inj Some) in H as <-. split; [apply _|]. by intros []; apply is_Some_b; vm_compute.
Qed.

Lemma sample_new : exists cfg c, new_session sample_config 0 = Ok (cfg, c) /\ closeErr (c_session c) = None.
Proof.
  unfold new_session. pose proof (New_started (esme_config sample_config) 0) as Hs. unfold started_or_refused in Hs.
  destruct (New (esme_config sample_config) 0) as [[[cfg f] s]|e|] eqn:Hn.
  - exists cfg, (MkCaller s 0 1). split; [done|]. destruct Hs as (_ & _ & [_ _ _ _ _ [Hc _]]). exact Hc.
  - by destruct Hs as [[H _]|[(H & _)|(H & _)]].
  - done.
Qed.

(** The first session ends, and the lifecycle waits before it dials. *)
Definition lost_world (cfg : Config) (c : caller) : world :=
  after_loss sample_policy
    (set_session (initial cfg c true) 1 cfg (in_session c (terminate (c_session c) EOF))) 1
    (closeErr (terminate (c_session c) EOF)).

Lemma sample_lost cfg c : new_session sample_config 0 = Ok (cfg, c) -> closeErr (c_session c) = None ->
  reachable sample_policy sample_config false [] (lost_world cfg c).
Proof.
  intros Hn Hc. destruct (terminate_moves false cfg c EOF) as [Hm Hd]; [rewrite Hc; by intros []|].
  eapply RStep; [eapply RStep; [by eapply RStart|]|].
  - apply (SSession _ _ _ _ _ 1 cfg c); [apply lookup_singleton_eq|done].
  - apply (SLost _ _ _ _ _ 1 cfg (in_session c (terminate (c_session c) EOF))); [done|apply lookup_insert_eq|done].
Qed.

Lemma wait_not_lost_witness : exists w, reachable sample_policy sample_config false [] w /\
  2%nat ∈ w_sleeping w /\ (wait_turn (w_client w) = Sleep 2 \/ (2 < cl_notify (w_client w))%nat).
Proof.
  destruct sample_new as (cfg & c & Hn & Hc). exists (with_sleeping (lost_world cfg c) [2%nat]).
  assert (Hr : reachable sample_policy sample_config false [] (with_sleeping (lost_world cfg c) [2%nat])).
  { eapply RStep; [by apply sample_lost|]. by apply (SSleep _ _ _ _ (lost_world cfg c)). }
  split_and!; [done|by left|].
  destruct (wait_not_lost sample_policy sample_config false [] _ 2 Hr) as [H|H]; [by left|by right|by left].
Defined.

(** [Close]: the session is closed after the lock is given up. *)
Lemma client_one_session_witness : exists w, reachable sample_policy sample_config false [] w /\
  cl_closed (w_client w) = true /\ (exists c, w_sessions w !! 1%positive = Some c) /\ ended w 1.
Proof.
  destruct sample_new as (cfg & c & Hn & Hc).
  assert (Hr : exists w, reachable sample_policy sample_config false [] w /\ cl_closed (w_client w) = true /\
    w_closing w = [] /\ w_at w = Returned (Some 1%positive) /\ is_Some (w_sessions w !! 1%positive)).
  { eexists. split.
    - eapply RStep; [eapply RStep; [eapply RStep; [by apply (RStart _ _ _ _ 0 cfg c true)|]|]|].
      + by eapply SClose.
      + apply (SCloseSession _ _ _ _ _ 1 cfg c [] []); [done|apply lookup_singleton_eq].
      + by apply (SCancelled _ _ _ _ _ 1).
    - split_and!; [done..|]. cbn. rewrite lookup_insert_eq. eauto. }
  destruct Hr as (w & Hr & Hcl & Hl & Hat & Hs). exists w. split_and!; [done..|].
  apply (client_one_session sample_policy sample_config false [] w Hr); [done..|]. eauto.
Defined.

(** The first session ends after a bind as a transceiver; the second one sends that bind,
    gets its response and becomes the current one. *)
Definition sample_cfg : Config :=
  with_defaults (esme_config sample_config) SMPP34Profile (smpp34_registry RegistryStrict).
Definition sample_session : caller :=
  MkCaller (MkSession (MkStateMachine RoleESME StateOpen 0 0 StateClosed StateClosed)
    (Table.newPendingTable (cf_MaxPending sample_cfg) (Window.newRequestWindow (cf_WindowSize sample_cfg)))
    zeroCapabilities [] ∅ None false 0 0 []) 0 1.
Definition sample_bind : BindRequest := MkBindRequest [97] [98] [] 0x34 0 0 [].
Definition bind_transceiver_resp : bytes :=
  [0; 0; 0; 18; 128; 0; 0; 9; 0; 0; 0; 0; 0; 0; 0; 1; 99; 0].
Definition bind_answer : DecodedPDU :=
  MkDecodedPDU (MkHeader 18 CommandBindTransceiverResp 0 1) (AVal (VBindResponse (MkBindResponse [99] []))).
Definition bind_answered (p : positive) (c : caller) : caller * selected :=
  (in_session c (handleResponse SMPP34Profile false (c_session c) bind_answer 5), Went).
Definition sample_scheduler : scheduler := MkScheduler stay stay bind_answered (fun _ c => c).

Lemma sample_session_new : new_session sample_config 0 = Ok (sample_cfg, sample_session).
Proof. reflexivity. Qed.

Lemma sample_scheduler_ok : scheduler_ok false sample_cfg sample_scheduler.
Proof.
  split_and!; [intros; constructor..| |intros; constructor]. intros p c. apply rtc_once.
  apply (TResponse _ _ _ c bind_transceiver_resp); [by apply (bool_decide_unpack _)|vm_compute; reflexivity].
Qed.

Lemma typed_body_caller {A} (as_body : any -> option A) x : (typed_body as_body x).1 = x.1.
Proof. destruct x as [c [[pdu|e|]|]]; [|done..]. cbn. repeat case_match; done. Qed.

Lemma bindSession_tasks flow stale cfg sch c profile : scheduler_ok flow cfg sch ->
  rtc (task (cf_Registry cfg) (cf_Profile cfg) flow) c (bindSession stale cfg sch c profile).1.
Proof.
  intros Hs. pose proof (fun command body => request_tasks (cf_Registry cfg) (cf_Profile cfg) flow (cf_MaxPending cfg)
    stale (sch_slot sch) (sch_room sch) (sch_result sch) (sch_completion sch) Hs true command body c) as Ht.
  unfold bindSession. destruct (bp_mode profile);
    unfold Operation.BindTransmitter, Operation.BindReceiver, Operation.BindTransceiver, Operation.bind,
      Operation.do_request, Request; rewrite typed_body_caller; apply Ht.
Qed.

Lemma sample_bound : exists c' response,
  bindSession [] sample_cfg sample_scheduler sample_session (MkBindProfile BindTRX sample_bind) =
    (c', Some (Ok response)) /\
  session_moves false sample_cfg sample_session c'.
Proof.
  set (x := bindSession _ _ _ _ _). exists x.1, (MkBindResponse [99] []).
  assert (H2 : x.2 = Some (Ok (MkBindResponse [99] []))) by (vm_compute; reflexivity).
  split; [by destruct x; cbn in H2 |- *; rewrite H2|].
  assert (Hc : closeErr (c_session x.1) = None) by (vm_compute; reflexivity).
  split; [apply bindSession_tasks, sample_scheduler_ok|done..|].
  rewrite Hc. intros []. done.
Qed.

Lemma reconnect_rebinds_witness : exists w w' w'' response,
  cl_profile (w_client w) = Some (MkBindProfile BindTRX sample_bind) /\
  cstep sample_policy sample_config false [] w w' /\ w_at w' = Ready 2 /\
  cstep sample_policy sample_config false [] w' w'' /\ cl_current (w_client w'') = Some 2%positive /\
  exists c c' sch, w_sessions w !! 2%positive = Some (sample_cfg, c) /\
    bind_result false [] sample_cfg (smpp34_registry RegistryStrict) sch c (MkBindProfile BindTRX sample_bind)
      (c', Some (Ok response)).
Proof.
  destruct sample_bound as (c' & rsp & Hb & Hm). set (b := InitialBackoff sample_policy).
  set (w0 := with_client (lost_world sample_cfg sample_session)
    (save_profile (w_client (lost_world sample_cfg sample_session)) BindTRX sample_bind)).
  set (wc := at_ (add_session (at_ w0 (Dialling b)) sample_cfg sample_session) (Candidate 2 b)).
  set (w := at_ wc (Binding 2 b (MkBindProfile BindTRX sample_bind))).
  set (w' := at_ (set_session w 2 sample_cfg c') (Ready 2)).
  assert (Hr : reachable sample_policy sample_config false [] w).
  { eapply RStep; [eapply RStep; [eapply RStep; [eapply RStep; [by apply (sample_lost _ _ sample_session_new)|]|]|]|].
    - apply (SBind _ _ _ _ _ BindTRX sample_bind).
    - by apply (SDelayed _ _ _ _ _ b).
    - apply (SNew _ _ _ _ (at_ w0 (Dialling b)) b 0 sample_cfg sample_session); [done|apply sample_session_new].
    - by apply (SSnapshot _ _ _ _ wc 2 b). }
  assert (Hl : w_sessions w !! 2%positive = Some (sample_cfg, sample_session)) by apply lookup_insert_eq.
  assert (Hs : cstep sample_policy sample_config false [] w w').
  { by eapply (SBound _ _ _ _ w 2 b sample_cfg sample_session _ sample_scheduler c' rsp); [..|apply sample_scheduler_ok| |]. }
  assert (Hs' : exists w'', cstep sample_policy sample_config false [] w' w'' /\
    cl_current (w_client w'') = Some 2%positive) by (eexists; split; [by eapply (SPublished _ _ _ _ w' 2)|done]).
  destruct Hs' as (w'' & Hs' & Hcur).
  destruct (reconnect_rebinds sample_policy sample_config false [] w w' 2 sample_knows_binds Hr Hs) as (_ & H & _).
  destruct (H eq_refl ltac:(done)) as [(b' & Hb' & _)|(b' & pr & cfg & c & c1 & r & sch & response & Hat & Hl' & _ & Hreg & _ & Hres)];
    [done|].
  exists w, w', w'', response. split_and!; [done..|]. exists c, c1, sch.
  rewrite Hl in Hl'. apply (base.inj Some) in Hl'. pose proof (f_equal fst Hl') as Hcfg. cbn [fst] in Hcfg. subst cfg.
  apply (base.inj Some) in Hreg. subst r. apply (f_equal snd) in Hl'. cbn [snd] in Hl'. subst c.
  injection Hat as <- <-. split; [exact Hl|exact Hres].
Defined.
