(* ===== verification/Connections.v ===== *)
(** * Who owns a connection (src/transport/transport.go; Dial, dialTransport and a
    reconnection attempt of lifecycle in src/client/client.go; Serve and Listen in
    src/server/server.go)

    A connection that was opened has to be closed by somebody.  Here the operating
    system is the set of open descriptors; whether dialling, listening, a TLS
    handshake or the creation of a session succeeds, fails or (in a function that the
    application put into its dialer or its TLS configuration) panics is a parameter. *)

From S2P Require Import Prelude Protocol Bodies Fields Registry Pdu StateMachine Pending Receive Requests Host Server Backoff Client.

Record net := MkNet { n_open : gset positive; n_next : positive }.
Definition net_ok (n : net) : Prop := forall fd, fd ∈ n_open n -> (fd < n_next n)%positive.

(** A plain connection, or one under TLS as the client or the server. *)
Inductive conn := Plain (fd : positive) | Secured (server : bool) (fd : positive).
Definition descriptor (c : conn) : positive := match c with Plain fd | Secured _ fd => fd end.
Definition close_conn (c : conn) (n : net) : net := MkNet (n_open n ∖ {[descriptor c]}) (n_next n).

Inductive listener := PlainListener (fd : positive) | SecuredListener (fd : positive).

Section connections.
(** [net.Dialer.DialContext], [net.ListenConfig.Listen] and [HandshakeContext]: how they
    end; a nil dialer or configuration is replaced by one with defaults. *)
Context (dial listen : string -> string -> res unit) (handshake : positive -> res unit).

Definition open_fd (n : net) : net * positive := (MkNet ({[n_next n]} ∪ n_open n) (Pos.succ (n_next n)), n_next n).
Definition default_network (network : string) : string := if decide (network = "") then "tcp" else network.

Definition DialTCP (network address : string) (n : net) : net * res conn :=
  match dial (default_network network) address with
  | Panic => (n, Panic)
  | Err e => (n, Err e)
  | Ok _ => let '(n, fd) := open_fd n in (n, Ok (Plain fd))
  end.
Definition ListenTCP (network address : string) (n : net) : net * res listener :=
  match listen (default_network network) address with
  | Panic => (n, Panic)
  | Err e => (n, Err e)
  | Ok _ => let '(n, fd) := open_fd n in (n, Ok (PlainListener fd))
  end.
Definition TLSClient (c : conn) : conn := Secured false (descriptor c).
Definition TLSServer (c : conn) : conn := Secured true (descriptor c).

Definition DialTLS (network address : string) (n : net) : net * res conn :=
  match DialTCP network address n with
  | (n, Ok c) =>
      let tlsConn := TLSClient c in
      match handshake (descriptor tlsConn) with
      | Panic => (n, Panic)
      | Err e => (close_conn c n, Err e)
      | Ok _ => (n, Ok tlsConn)
      end
  | x => x
  end.
Definition ListenTLS (network address : string) (n : net) : net * res listener :=
  match ListenTCP network address n with
  | (n, Ok (PlainListener fd)) => (n, Ok (SecuredListener fd))
  | x => x
  end.

(** [tls]: whether a TLS configuration is given. *)
Definition dialTransport (tls : bool) (network address : string) (n : net) : net * res conn :=
  if tls then DialTLS network address n else DialTCP network address n.
Definition server_Listen (tls : bool) (network address : string) (n : net) : net * res listener :=
  if tls then ListenTLS network address n else ListenTCP network address n.

(** [ListenAndServe]; [serve] is [Serve], on a network of its own sessions, and closing
    the server closes its listener. *)
Definition close_listener (l : listener) (n : net) : net :=
  MkNet (n_open n ∖ {[match l with PlainListener fd | SecuredListener fd => fd end]}) (n_next n).
Definition ListenAndServe (serve : listener -> net -> net * option GoError) (tls : bool) (network address : string)
    (n : net) : net * res (option GoError) :=
  match server_Listen tls network address n with
  | (n, Panic) => (n, Panic)
  | (n, Err e) => (n, Err e)
  | (n, Ok l) => let '(n, r) := serve l n in (close_listener l n, Ok r)
  end.

(** [newClient]: the client, as the world it lives in, with the policy it reconnects by. *)
Definition attach (config : Requests.Config) (policy : ReconnectPolicy) (dialable : bool) (now : Z)
    : res (Client.world * ReconnectPolicy) :=
  match new_session config now with
  | Ok (cfg, sess) => Ok (initial cfg sess dialable, normalizeReconnect policy)
  | Err e => Err e
  | Panic => Panic
  end.
(** The zero value, [Enabled] false. *)
Definition zero_policy : ReconnectPolicy := MkReconnectPolicy false 0 0 f_zero 0 f_zero false.
(** [client.New]: the connection stays with the caller when it fails. *)
Definition client_New (config : Requests.Config) (now : Z) : res (Client.world * ReconnectPolicy) :=
  attach config zero_policy false now.

(** [client.Dial]: the new client and its connection. *)
Definition Dial (config : Requests.Config) (policy : ReconnectPolicy) (tls : bool) (network address : string) (now : Z)
    (n : net) : net * res (conn * (Client.world * ReconnectPolicy)) :=
  match dialTransport tls network address n with
  | (n, Panic) => (n, Panic)
  | (n, Err e) => (n, Err e)
  | (n, Ok c) =>
      match attach config policy true now with
      | Ok w => (n, Ok (c, w))
      | Err e => (close_conn c n, Err e)
      | Panic => (n, Panic)
      end
  end.

(** A session that has ended has closed its connection. *)
Definition after_session (c : conn) (sess : caller) (n : net) : net :=
  if done (c_session sess) then close_conn c n else n.
(** [candidate.Close()] *)
Definition close_candidate (c : conn) (sess : caller) (n : net) : net * caller :=
  (after_session c (close_session sess) n, close_session sess).

(** How an attempt of [lifecycle] to reconnect ends: it tries again after a failure, gives
    up after a permanent rejection, finds the client closed, publishes the new session, or
    panics - while it dials, or in the bind - which [lifecycle] recovers, to return; or the
    bind has not returned. *)
Inductive attempt :=
| TryAgain (err : GoError)
| GaveUp (err : GoError)
| TooLate
| Published (c : conn) (sess : caller) (client : Client)
| DialPanicked
| BindPanicked (c : conn) (sess : caller)
| BindPending (c : conn) (sess : caller).

(** The body of the inner loop of [lifecycle] after the delay.  [bind] is [bindSession]
    with the context of the attempt, [meanwhile] what the new session does by itself until
    it is published; [before] is the client when the profile is read, [after] when the
    lock is taken again. *)
Definition reconnect (config : Requests.Config) (policy : ReconnectPolicy)
    (bind : Requests.Config -> caller -> bindProfile -> caller * option (res BindResponse))
    (meanwhile : caller -> caller) (tls : bool) (network address : string) (now : Z) (before after : Client) (name : positive) (n : net)
    : net * attempt :=
  match dialTransport tls network address n with
  | (n, Panic) => (n, DialPanicked)
  | (n, Err e) => (n, TryAgain e)
  | (n, Ok c) =>
      match new_session config now with
      | Panic => (n, DialPanicked)
      | Err e => (close_conn c n, TryAgain e)
      | Ok (cfg, sess) =>
          let ready sess n :=
            let sess := meanwhile sess in
            let n := after_session c sess n in
            match publish after name with
            | None => let '(n, _) := close_candidate c sess n in (n, TooLate)
            | Some client => (n, Published c sess client)
            end in
          match bindProfileSnapshot before with
          | None => ready sess n
          | Some profile =>
              match bind cfg sess profile with
              | (sess, None) => (after_session c sess n, BindPending c sess)
              | (sess, Some Panic) => (after_session c sess n, BindPanicked c sess)
              | (sess, Some (Err e)) =>
                  let '(n, _) := close_candidate c sess (after_session c sess n) in
                  (n, if StopOnPermanentBindFailure policy && isPermanentBindRejection e then GaveUp e else TryAgain e)
              | (sess, Some (Ok _)) => ready sess (after_session c sess n)
              end
          end
      end
  end.

(** The body of the loop of [Serve], for an accepted connection [c] from [host]: the
    session gets the number [sid] unless [session.New] fails with [failed]; [meanwhile]
    is what others do to the server between the two critical sections.  Closing a
    session closes its connection. *)
Definition serve_connection (ParseAddr : string -> option Addr) (states : gmap nat SessionState)
    (failed : option GoError) (meanwhile : Server -> Server) (s : Server) (host : string) (c : conn)
    (sid : nat) (n : net) : Server * net * verdict :=
  match check_connection ParseAddr states s host with
  | (s, Accept) =>
      match failed with
      | Some _ => (meanwhile s, close_conn c n, Refuse)
      | None =>
          match register_session (meanwhile s) host sid with
          | (s, Accept) => (s, n, Accept)
          | (s, v) => (s, close_conn c n, v)
          end
      end
  | (s, v) => (s, close_conn c n, v)
  end.

(** ** Nothing leaks *)

(** One descriptor more, or the same ones as before. *)
Definition opens_one (n n' : net) (fd : positive) : Prop :=
  (fd ∉ n_open n) /\ n_open n' = {[fd]} ∪ n_open n /\ net_ok n'.
Definition unchanged (n n' : net) : Prop := n_open n' = n_open n /\ net_ok n'.

Lemma open_fd_one n : net_ok n -> let '(n', fd) := open_fd n in opens_one n n' fd.
Proof.
  intros Hn. cbn. split_and!; [intros H%Hn; lia|done|]. intros fd. cbn. rewrite elem_of_union, elem_of_singleton.
  intros [-> |H%Hn]; lia.
Qed.
Lemma closed_unchanged n n' c : opens_one n n' (descriptor c) -> unchanged n (close_conn c n').
Proof.
  clear dial listen handshake. intros (Hf & Ho & Hn). split; cbn; [set_solver|]. intros fd. cbn. intros [H _]%elem_of_difference. by apply Hn.
Qed.

(** What [dialTransport] does to the descriptors. *)
Definition dialled (tls : bool) (network address : string) (n n' : net) (r : res conn) : Prop :=
  match r with
  | Ok c => opens_one n n' (descriptor c) /\ (tls = true <-> exists fd, c = Secured false fd)
  | Err _ => unchanged n n'
  | Panic => unchanged n n' /\ dial (default_network network) address = Panic \/
      tls = true /\ opens_one n n' (n_next n) /\ handshake (n_next n) = Panic
  end.

Lemma dial_spec tls network address n : net_ok n ->
  dialled tls network address n (dialTransport tls network address n).1 (dialTransport tls network address n).2.
Proof.
  intros Hn. pose proof (open_fd_one n Hn) as Ho. destruct (open_fd n) as [n1 fd] eqn:Hfd.
  assert (fd = n_next n) as -> by (by injection Hfd as _ <-).
  unfold dialTransport, DialTLS, DialTCP, dialled. rewrite Hfd.
  destruct tls; destruct (dial _ address) as [[]|e|] eqn:Hd; cbn [fst snd]; try done.
  - destruct (handshake _) as [[]|e|] eqn:Hh; cbn [fst snd descriptor TLSClient] in *; [|by apply closed_unchanged|].
    + split; [done|]. split; [eauto|done].
    + right. done.
  - by left.
  - split; [done|]. split; [done|]. by intros [? ?].
  - by left.
Qed.

(** What may happen to the descriptors when a session may come of it. *)
Definition owned_or_closed {A} (tls : bool) (network address : string) (n n' : net) (r : res (conn * A)) : Prop :=
  match r with
  | Ok (c, _) => dialled tls network address n n' (Ok c)
  | Err e => unchanged n n'
  | Panic => dialled tls network address n n' Panic
  end.

(** The descriptors after a session on a new connection: it has it while it runs. *)
Definition session_has (n n' : net) (c : conn) (sess : caller) : Prop :=
  if done (c_session sess) then unchanged n n' else opens_one n n' (descriptor c).

Definition attempt_ok (tls : bool) (network address : string) (n n' : net) (r : attempt) : Prop :=
  match r with
  | TryAgain _ | GaveUp _ | TooLate => unchanged n n'
  | Published c sess _ => session_has n n' c sess /\ (tls = true <-> exists fd, c = Secured false fd)
  | DialPanicked => dialled tls network address n n' Panic
  | BindPanicked c sess | BindPending c sess => session_has n n' c sess
  end.

End connections.

Lemma closed_again n n' c : unchanged n n' -> descriptor c ∉ n_open n -> unchanged n (close_conn c n').
Proof.
  intros [H1 H2] Hf. split; cbn; [set_solver|]. intros fd. cbn. intros [H _]%elem_of_difference. by apply H2.
Qed.

(** A session that goes on, and may end. *)
Lemma after_session_has n n' c sess sess' : session_has n n' c sess -> descriptor c ∉ n_open n ->
  (done (c_session sess) = true -> done (c_session sess') = true) ->
  session_has n (after_session c sess' n') c sess'.
Proof.
  unfold session_has, after_session. intros Hh Hf Hd. destruct (done (c_session sess)).
  - rewrite Hd by done. by apply closed_again.
  - destruct (done _); [by apply closed_unchanged|done].
Qed.

(** Closing a candidate, which may have closed its connection by itself. *)
Lemma close_candidate_unchanged n n' c sess cfg config : session_has n n' c sess -> descriptor c ∉ n_open n ->
  session_ok config cfg sess -> unchanged n (close_candidate c sess n').1.
Proof.
  intros Hh Hf Hs. pose proof (close_session_done config cfg sess Hs) as [_ Hd].
  unfold close_candidate, after_session. rewrite Hd. cbn [fst]. unfold session_has in Hh.
  destruct (done (c_session sess)); [by apply closed_again|by apply closed_unchanged].
Qed.

Lemma new_session_running config now cfg sess : new_session config now = Ok (cfg, sess) ->
  done (c_session sess) = false.
Proof.
  unfold new_session. pose proof (New_started (esme_config config) now) as H. unfold started_or_refused in H.
  destruct (New (esme_config config) now) as [[[cfg' f] s]|e|]; [|done|done]. intros [= <- <-].
  destruct H as (_ & _ & Hst). apply (st_running _ _ _ _ Hst).
Qed.
Lemma new_session_no_panic config now : new_session config now <> Panic.
Proof.
  unfold new_session. pose proof (New_started (esme_config config) now) as H. unfold started_or_refused in H.
  by destruct (New (esme_config config) now) as [[[]]| |].
Qed.

(** What happens to a session leaves it in order, and ended if it has ended. *)
Definition keeps (config : Requests.Config) (f : Requests.Config -> caller -> caller) : Prop :=
  forall cfg sess, session_ok config cfg sess ->
    session_ok config cfg (f cfg sess) /\ (done (c_session sess) = true -> done (c_session (f cfg sess)) = true).

(** As it does when the session moves on as in Client.v. *)
Lemma moves_keep flow config f : (forall cfg sess, session_moves flow cfg sess (f cfg sess)) -> keeps config f.
Proof. intros Hm cfg sess Hs. by eapply moves_ok. Qed.

Lemma reconnect_spec dial handshake config policy bind meanwhile tls network address now before after name n :
  net_ok n -> (forall profile, keeps config (fun cfg sess => (bind cfg sess profile).1)) ->
  keeps config (fun _ => meanwhile) ->
  attempt_ok dial handshake tls network address n
    (reconnect dial handshake config policy bind meanwhile tls network address now before after name n).1
    (reconnect dial handshake config policy bind meanwhile tls network address now before after name n).2.
Proof.
  intros Hn Hb Hm. pose proof (dial_spec dial handshake tls network address n Hn) as Hd. unfold reconnect.
  destruct (dialTransport _ _ _ _ _ _) as [n' [c|e|]]; cbn [fst snd] in Hd |- *; [|done|done].
  destruct Hd as [Ho Htls]. pose proof (proj1 Ho) as Hf. pose proof (new_session_no_panic config now) as Hp.
  destruct (new_session config now) as [[cfg sess]|e|] eqn:Hnew; [|by apply closed_unchanged|done].
  pose proof (new_session_ok _ _ _ _ Hnew) as Hs. pose proof (new_session_running _ _ _ _ Hnew) as Hrun.
  assert (Hhas : session_has n n' c sess) by (unfold session_has; by rewrite Hrun).
  assert (Hready : forall s n0, session_ok config cfg s -> session_has n n0 c s ->
    let r := (let sess := meanwhile s in let n := after_session c sess n0 in
              match publish after name with
              | None => let '(n, _) := close_candidate c sess n in (n, TooLate)
              | Some client => (n, Published c sess client)
              end) in
    attempt_ok dial handshake tls network address n r.1 r.2).
  { intros s n0 Hok Hh0. cbv zeta. destruct (Hm cfg s Hok) as [Hok' Hd'].
    pose proof (after_session_has n n0 c s _ Hh0 Hf Hd') as Hh1. destruct (publish after name).
    - by split.
    - by eapply close_candidate_unchanged. }
  destruct (bindProfileSnapshot before) as [profile|]; [|by apply Hready].
  destruct (Hb profile cfg sess Hs) as [Hs' Hd']. destruct (bind cfg sess profile) as [sess' r]. cbn [fst] in Hs', Hd'.
  pose proof (after_session_has n n' c sess sess' Hhas Hf Hd') as Hh.
  destruct r as [[rsp|e|]|]; [by apply Hready| |done|done].
  pose proof (close_candidate_unchanged n _ c sess' cfg config Hh Hf Hs') as Hc.
  cbn [close_candidate fst snd] in *. by destruct (_ && _).
Qed.

(** C40: Who is left with a connection.  [Dial] leaves exactly one more connection open
    when it returns a client, that of the client's session, under TLS exactly when TLS is
    configured, and none when it returns an error.  An attempt of the reconnecting client
    leaves one open when it publishes a session, as long as that session runs, and none
    when it fails at any point: dialling, the handshake, [session.New], the bind (the
    candidate is closed) or because the client was closed meanwhile (it is closed as
    well).  The exceptions are panics: one in a function of the TLS configuration leaves
    the new connection open, in [Dial] and in the reconnecting client, which has no
    session for it; and as long as a bind has not returned, its candidate runs on.  The
    server keeps a connection it accepted exactly when it registers a session for it, and
    has closed it otherwise. *)
Theorem connections_not_leaked dial handshake config policy bind meanwhile tls network address now before after name n :
  net_ok n -> (forall profile, keeps config (fun cfg sess => (bind cfg sess profile).1)) ->
  keeps config (fun _ => meanwhile) ->
  (let '(n', r) := Dial dial handshake config policy tls network address now n in
   owned_or_closed dial handshake tls network address n n' r) /\
  (let '(n', r) := reconnect dial handshake config policy bind meanwhile tls network address now before after name n in
   attempt_ok dial handshake tls network address n n' r) /\
  (forall ParseAddr states failed meanwhile s host c sid, descriptor c ∈ n_open n ->
     let '(s', n', v) := serve_connection ParseAddr states failed meanwhile s host c sid n in
     match v with
     | Accept => n' = n /\ sid ∈ sessions s'
     | _ => n_open n' = n_open n ∖ {[descriptor c]}
     end).
Proof.
  intros Hn Hb Hm. split_and!.
  - pose proof (dial_spec dial handshake tls network address n Hn) as Hd. unfold Dial, attach.
    destruct (dialTransport _ _ _ _ _ _) as [n' [c|e|]]; [|done|done]. cbn [fst snd] in Hd.
    pose proof (new_session_no_panic config now) as Hp.
    destruct (new_session config now) as [[cfg sess]|e|]; [done| |done]. by apply closed_unchanged, Hd.
  - pose proof (reconnect_spec dial handshake config policy bind meanwhile tls network address now before after name n Hn Hb Hm)
      as H. by destruct (reconnect _ _ _ _ _ _ _ _ _ _ _ _ _ _).
  - intros ParseAddr states failed meanwhile' s host c sid Hc. unfold serve_connection, check_connection.
    destruct (closed s || atLimit s || _); [destruct (closed s); done|]. destruct failed; [done|].
    unfold register_session. destruct (closed _); [done|]. destruct (atLimit _); [done|].
    split; [done|]. cbn. set_solver.
Qed.

(** The handshake of a first connection fails, and that of a second panics. *)
Definition refusing (fd : positive) : res unit := if (fd =? 1)%positive then Err (EOther 5 None) else Panic.

Lemma connections_not_leaked_witness :
  let attempt n := reconnect (fun _ _ => Ok tt) refusing sample_config zero_policy
    (fun _ sess _ => (sess, Some (Err (EOther 6 None)))) id true "" "smsc:2775" 0 (newClient 1 true) (newClient 1 true) 2 n in
  (attempt (MkNet ∅ 1)).2 = TryAgain (EOther 5 None) /\ n_open (attempt (MkNet ∅ 1)).1 = ∅ /\
  (attempt (MkNet ∅ 2)).2 = DialPanicked /\ n_open (attempt (MkNet ∅ 2)).1 = {[2%positive]}.
Proof.
  intros attempt. assert (Hn : forall k, net_ok (MkNet ∅ k)) by (intros k fd H; cbn in H; set_solver).
  split_and!; [reflexivity| |reflexivity|].
  - destruct (connections_not_leaked (fun _ _ => Ok tt) refusing sample_config zero_policy
      (fun _ sess _ => (sess, Some (Err (EOther 6 None)))) id true "" "smsc:2775" 0 (newClient 1 true) (newClient 1 true) 2
      (MkNet ∅ 1) (Hn 1%positive)) as (_ & H & _); [by intros ? ? ?|by intros ? ?|].
    fold (attempt (MkNet ∅ 1)) in H. destruct (attempt (MkNet ∅ 1)) as [n' r] eqn:Ha.
    assert (r = TryAgain (EOther 5 None)) as -> by (change r with (snd (n', r)); rewrite <- Ha; reflexivity).
    apply H.
  - vm_compute. reflexivity.
Defined.

(** The listener of [ListenAndServe] is closed when it returns, if [Serve] leaves nothing
    else behind. *)
Lemma listener_closed listen serve tls network address n :
  net_ok n -> (forall l n', let '(n'', _) := serve l n' in n_open n'' = n_open n') ->
  n_open (ListenAndServe listen serve tls network address n).1 = n_open n.
Proof.
  intros Hn Hs. unfold ListenAndServe, server_Listen, ListenTLS, ListenTCP.
  destruct (listen _ _) as [[]|e|]; [|by destruct tls..].
  assert (Hd : ({[n_next n]} ∪ n_open n) ∖ {[n_next n]} = n_open n).
  { assert (n_next n ∉ n_open n) by (intros H; apply Hn in H; lia). set_solver. }
  destruct tls; cbn [open_fd]; [specialize (Hs (SecuredListener (n_next n)))|specialize (Hs (PlainListener (n_next n)))];
    specialize (Hs (MkNet ({[n_next n]} ∪ n_open n) (Pos.succ (n_next n)))); destruct (serve _ _) as [n' r];
    cbn [fst close_listener n_open]; rewrite Hs; exact Hd.
Qed.
