(* ===== verification/Facade.v ===== *)
(** * The methods of a session for its users (src/session/session.go, inbound_reply.go;
    src/client/client.go; the methods of src/server/server.go that send on a session)

    A user holds a pointer to a session, which may be nil or point to a session that
    [New] did not make.  Reading a field through a nil pointer panics, and so does using
    the parts that such a session lacks. *)

From S2P Require Import Prelude Protocol Bodies Fields BodySpec Registry Pdu StateMachine Pending Receive Requests Dispatch Operations Server Backoff Client.

(** [var s *Session], [&Session{}], and a session of [New] on a connection with these
    addresses. *)
Inductive session_ref :=
| NilSession
| ZeroSession
| Live (cfg : Requests.Config) (c : caller) (local remote : option string).

Definition initialized (s : session_ref) : bool := match s with Live _ _ _ _ => true | _ => false end.

(** The part of a session that is nil unless [New] made it. *)
Definition live (s : session_ref) : res (Requests.Config * caller) :=
  match s with Live cfg c _ _ => Ok (cfg, c) | _ => Panic end.
(** The machine: a nil pointer, but not a panic, in a zero session. *)
Definition machine_ptr (s : session_ref) : res (option StateMachine) :=
  match s with
  | NilSession => Panic
  | ZeroSession => Ok None
  | Live _ c _ _ => Ok (Some (machine (c_session c)))
  end.

Definition session_Role (s : session_ref) : res Role :=
  if negb (initialized s) then Ok RoleNone else m ← machine_ptr s; Ok (sm_Role m).
Definition session_State (s : session_ref) : res SessionState :=
  if negb (initialized s) then Ok StateClosed else m ← machine_ptr s; Ok (State m).
Definition session_BindMode (s : session_ref) : res BindMode :=
  if negb (initialized s) then Ok BindNone else m ← machine_ptr s; Ok (sm_BindMode m).
(** Whether the channel is closed. *)
Definition session_Done (s : session_ref) : res bool :=
  if negb (initialized s) then Ok true else '(_, c) ← live s; Ok (done (c_session c)).
Definition session_Pending (s : session_ref) : res Z :=
  if negb (initialized s) then Ok 0 else '(_, c) ← live s; Ok (Table.table_len (table (c_session c))).
Definition session_Profile (s : session_ref) : res Profile :=
  if negb (initialized s) then Ok (MkProfile 0)
  else match s with
       | NilSession => Panic
       | ZeroSession => Ok (MkProfile 0)
       | Live cfg _ _ _ => Ok (cf_Profile cfg)
       end.
(** It checks for nil alone; a zero [atomic.Value] holds nothing. *)
Definition session_PeerCapabilities (s : session_ref) : res PeerCapabilities :=
  match s with
  | NilSession => Ok zeroCapabilities
  | ZeroSession => Ok zeroCapabilities
  | Live _ c _ _ => Ok (peerCaps (c_session c))
  end.
Definition session_Window (s : session_ref) : res Window.WindowSnapshot :=
  if negb (initialized s) then Ok (Window.MkWindowSnapshot 0 0 0 0 0 0)
  else '(_, c) ← live s; Ok (Window.snapshot (Table.window (table (c_session c)))).
Definition session_LocalAddr (s : session_ref) : res (option string) :=
  if negb (initialized s) then Ok None
  else match s with Live _ _ local _ => Ok local | _ => Panic end.
Definition session_RemoteAddr (s : session_ref) : res (option string) :=
  if negb (initialized s) then Ok None
  else match s with Live _ _ _ remote => Ok remote | _ => Panic end.
Definition session_Err (s : session_ref) : res (option GoError) :=
  if negb (initialized s) then Ok (Some (ESentinel ErrNotInitialized))
  else '(_, c) ← live s; Ok (closeErr (c_session c)).
Definition session_PendingDeferredResponses (s : session_ref) : res Z :=
  if negb (initialized s) then Ok 0 else '(_, c) ← live s; Ok (PendingDeferredResponses (c_session c)).

(** The methods that change the session. *)
Definition update (s : session_ref) (c : caller) : session_ref :=
  match s with Live cfg _ l r => Live cfg c l r | _ => s end.

Definition session_Close (s : session_ref) : session_ref * res (option GoError) :=
  if negb (initialized s) then (s, Ok (Some (ESentinel ErrNotInitialized)))
  else match live s with
       | Ok (_, c) => (update s (in_session c (terminate (c_session c) (ESentinel ErrSessionClosed))), Ok None)
       | _ => (s, Panic)
       end.

Section calls.
Context (stale : bytes) (sch : scheduler).
Context (for_write : caller -> Z -> caller * option (option GoError)).

(** A call that needs a live session. *)
Definition on_live {A} (s : session_ref) (op : Requests.Config -> caller -> caller * option (res A))
    : session_ref * option (res A) :=
  if negb (initialized s) then (s, Some (Err (ESentinel ErrNotInitialized)))
  else match live s with
       | Ok (cfg, c) => let '(c, r) := op cfg c in (update s c, r)
       | _ => (s, Some Panic)
       end.

Definition session_request (waitWindow : bool) (command : Z) (body : any) (s : session_ref)
    : session_ref * option (res DecodedPDU) :=
  on_live s (fun cfg c => request (cf_Registry cfg) (cf_Profile cfg) (cf_MaxPending cfg) stale (sch_slot sch)
    (sch_room sch) (sch_result sch) (sch_completion sch) waitWindow command body c).
Definition session_SendOneWay (command : Z) (body : any) (s : session_ref) : session_ref * option (res unit) :=
  on_live s (fun cfg c => let '(c, r) := SendOneWay (cf_Registry cfg) stale (sch_room sch) for_write command body c in
    (c, Some r)).
Definition session_RespondDeferred (select_tx : Session -> Session * bool) (header : Header) (response : Response)
    (s : session_ref) : session_ref * option (res unit) :=
  on_live s (fun cfg c => let '(x, r) := RespondDeferred (cf_Registry cfg) stale select_tx (c_session c) header response in
    (in_session c x, Some r)).
Definition session_AbandonDeferredResponse (header : Header) (s : session_ref) : session_ref * res bool :=
  if negb (initialized s) then (s, Ok false)
  else match live s with
       | Ok (_, c) => let '(x, b) := AbandonDeferredResponse (c_session c) header in (update s (in_session c x), Ok b)
       | _ => (s, Panic)
       end.

(** ** The server's methods that send on a session *)

Inductive forward_error := ErrUnknownSession | FromSession (e : GoError).
Abbreviation forwarded := (session_ref * option (outcome forward_error unit))%type.

(** [sess] is nil or the number of a session; [s] is that session. *)
Definition forward (srv : Server) (sess : option nat) (s : session_ref)
    (op : session_ref -> session_ref * option (res unit)) : forwarded :=
  match sess with
  | None => (s, Some (Err ErrUnknownSession))
  | Some sid =>
      if negb (owns srv sid) then (s, Some (Err ErrUnknownSession))
      else let '(s, r) := op s in
           (s, match r with
               | Some (Ok _) => Some (Ok tt) | Some (Err e) => Some (Err (FromSession e))
               | Some Panic => Some Panic | None => None
               end)
  end.

(** The answer to the message is left out. *)
Definition outcome_of {A} (x : session_ref * option (res A)) : session_ref * option (res unit) :=
  (x.1, match x.2 with
        | Some (Ok _) => Some (Ok tt) | Some (Err e) => Some (Err e) | Some Panic => Some Panic | None => None
        end).
Definition server_DeliverSM (srv : Server) (sess : option nat) (q : DeliverSM) (s : session_ref) : forwarded :=
  forward srv sess s (fun s => outcome_of (on_live s (fun cfg => on_session stale sch Operation.DeliverSM cfg q))).
Definition server_DataSM (srv : Server) (sess : option nat) (q : DataSM) (s : session_ref) : forwarded :=
  forward srv sess s (fun s => outcome_of (on_live s (fun cfg => on_session stale sch Operation.DataSM cfg q))).
Definition server_AlertNotification (srv : Server) (sess : option nat) (q : AlertNotification) (s : session_ref)
    : forwarded :=
  forward srv sess s (session_SendOneWay CommandAlertNotification (AVal (VAlertNotification q))).
Definition server_Outbind (srv : Server) (sess : option nat) (q : Outbind) (s : session_ref) : forwarded :=
  forward srv sess s (session_SendOneWay CommandOutbind (AVal (VOutbind q))).
End calls.

(** ** What users can rely on *)

Lemma failAll_m t order e : Table.m (Table.failAll t order e) = ∅.
Proof.
  unfold Table.failAll. assert (H : forall order t, Table.m (foldl (fun t p =>
    Table.send_done (Table.finish t p) p (Table.MkResult None (Some e))) t order) = Table.m t).
  { clear. induction order as [|p order IH]; intros t; cbn [foldl]; [done|].
    rewrite IH, send_done_m. unfold Table.finish. destruct (Table.reqs t !! p) as [q|]; [|done].
    by destruct (Table.finished q). }
  by rewrite H.
Qed.

(** A call on a closed session. *)
Lemma request_closed registry profile maxPending stale sch waitWindow command body c :
  done (c_session c) = true ->
  exists e, request registry profile maxPending stale (sch_slot sch) (sch_room sch) (sch_result sch)
    (sch_completion sch) waitWindow command body c = (c, Some (Err e)).
Proof.
  intros Hd. unfold request. destruct (_ || _); [eauto|]. destruct (isBindRequest command && _); [eauto|].
  destruct (requiresSMPP50 command && _); [eauto|]. rewrite Hd. eauto.
Qed.

(** The methods of a session are safe to call at any time.  On a nil pointer or a
    session that [New] did not make, no method panics or blocks: the getters return zero
    values (a closed channel for [Done]), and everything that can fail returns
    [ErrNotInitialized] and does nothing.  On any session no getter panics.  After [Close]
    of a running session its channel is closed, its state is Closed, it has no pending
    requests and no deferred replies, and every further request is refused at once and
    changes nothing. *)
Theorem session_api_safe s stale sch for_write select_tx :
  (initialized s = false ->
     session_Role s = Ok RoleNone /\ session_State s = Ok StateClosed /\ session_BindMode s = Ok BindNone /\
     session_Done s = Ok true /\ session_Pending s = Ok 0 /\ session_PendingDeferredResponses s = Ok 0 /\
     session_Err s = Ok (Some (ESentinel ErrNotInitialized)) /\
     session_Close s = (s, Ok (Some (ESentinel ErrNotInitialized))) /\
     (forall h, session_AbandonDeferredResponse h s = (s, Ok false)) /\
     (forall waitWindow command body, session_request stale sch waitWindow command body s =
        (s, Some (Err (ESentinel ErrNotInitialized)))) /\
     (forall command body, session_SendOneWay stale sch for_write command body s =
        (s, Some (Err (ESentinel ErrNotInitialized)))) /\
     (forall h response, session_RespondDeferred stale select_tx h response s =
        (s, Some (Err (ESentinel ErrNotInitialized))))) /\
  (session_Role s <> Panic /\ session_State s <> Panic /\ session_BindMode s <> Panic /\ session_Done s <> Panic /\
   session_Pending s <> Panic /\ session_Profile s <> Panic /\ session_PeerCapabilities s <> Panic /\
   session_Window s <> Panic /\ session_LocalAddr s <> Panic /\ session_RemoteAddr s <> Panic /\
   session_Err s <> Panic /\ session_PendingDeferredResponses s <> Panic) /\
  (session_Err s = Ok None ->
     exists s', session_Close s = (s', Ok None) /\ session_Done s' = Ok true /\ session_State s' = Ok StateClosed /\
       session_Pending s' = Ok 0 /\ session_PendingDeferredResponses s' = Ok 0 /\
       session_Err s' = Ok (Some (ESentinel ErrSessionClosed)) /\
       forall waitWindow command body, exists e,
         session_request stale sch waitWindow command body s' = (s', Some (Err e))).
Proof.
  split; [|split].
  - intros Hi. by destruct s.
  - split_and!; by destruct s.
  - destruct s as [| |cfg c l r]; [done..|]. intros He. cbn in He. injection He as He.
    eexists. split; [done|]. unfold terminate. rewrite He.
    cbn [update session_Done session_State session_Pending session_PendingDeferredResponses session_Err initialized negb
      live machine_ptr mbind outcome_bind State in_session c_session done machine sm_state sm_Close closeErr].
    split_and!; [done..| | |done|].
    + unfold Table.table_len. cbn [table]. rewrite failAll_m. by rewrite map_size_empty.
    + unfold PendingDeferredResponses. cbn [deferredReplies]. by rewrite map_size_empty.
    + intros waitWindow command body. unfold session_request, on_live. cbn [initialized negb live].
      match goal with |- context [request _ _ _ _ _ _ _ _ _ _ _ ?c'] =>
        destruct (request_closed (cf_Registry cfg) (cf_Profile cfg) (cf_MaxPending cfg) stale sch waitWindow command body c' eq_refl)
          as (e & ->) end.
      by exists e.
Qed.

Lemma session_api_safe_witness :
  let s := Live sample_cfg sample_session (Some "127.0.0.1:40000") (Some "127.0.0.1:2775") in
  session_Err s = Ok None /\
  exists s', session_Close s = (s', Ok None) /\ session_Done s' = Ok true /\ session_Pending s' = Ok 0.
Proof.
  intros s. split; [reflexivity|].
  destruct (session_api_safe s [] sample_scheduler (fun c _ => (c, Some None)) (fun x => (x, true))) as (_ & _ & H).
  destruct (H eq_refl) as (s' & H1 & H2 & _ & H3 & _). exists s'. split_and!; assumption.
Defined.

(** The server sends on its own sessions only; to the others it does nothing. *)
Lemma server_sends_on_own srv sess s stale sch for_write :
  match sess with Some sid => owns srv sid = false | None => True end ->
  (forall q, server_DeliverSM stale sch srv sess q s = (s, Some (Err ErrUnknownSession))) /\
  (forall q, server_DataSM stale sch srv sess q s = (s, Some (Err ErrUnknownSession))) /\
  (forall q, server_AlertNotification stale sch for_write srv sess q s = (s, Some (Err ErrUnknownSession))) /\
  (forall q, server_Outbind stale sch for_write srv sess q s = (s, Some (Err ErrUnknownSession))).
Proof.
  intros Hs. unfold server_DeliverSM, server_DataSM, server_AlertNotification, server_Outbind, forward.
  destruct sess as [sid|]; [rewrite Hs|]; done.
Qed.

(** ** The methods of a client *)

(** [var c *Client], [&Client{}], and a client of [Dial] or [New]. *)
Inductive client_ref := NilClient | ZeroClient | LiveClient (w : Client.world).
Inductive client_failure := ClientNotInitialized | FromClient (e : client_error).

Definition client_initialized (c : client_ref) : bool := match c with LiveClient _ => true | _ => false end.
(** The counters are there in a zero client too; the rest needs [newClient]. *)
Definition ref_Session (c : client_ref) : res (option positive) :=
  if negb (client_initialized c) then Ok None
  else match c with LiveClient w => Ok (Some (client_Session (w_client w))) | _ => Panic end.
Definition ref_ReconnectCount (c : client_ref) : res Z :=
  match c with NilClient | ZeroClient => Ok 0 | LiveClient w => Ok (ReconnectCount (w_client w)) end.
Definition ref_Metrics (c : client_ref) : res Client.MetricsSnapshot :=
  match c with
  | NilClient | ZeroClient => Ok (Client.MkMetricsSnapshot 0 0)
  | LiveClient w => Ok (Client.Metrics (w_client w))
  end.
Definition ref_LastLoss (c : client_ref) : res (option GoError) :=
  if negb (client_initialized c) then Ok None
  else match c with LiveClient w => Ok (LastLoss (w_client w)) | _ => Panic end.
Definition ref_activeSession (policy : ReconnectPolicy) (c : client_ref) : outcome client_failure positive :=
  if negb (client_initialized c) then Err ClientNotInitialized
  else match c with
       | LiveClient w => match activeSession policy (w_client w) with inl p => Ok p | inr e => Err (FromClient e) end
       | _ => Panic
       end.

(** How the [select] of [WaitConnected] ends: the client has changed, or the context or
    the client's own is done. *)
Inductive woken := Notified (c : Client) | ContextDone (e : GoError) | ClientDone.
Fixpoint wait_loop (c : Client) (wakes : list woken) : option (option client_error) :=
  match wait_turn c with
  | Return r => Some r
  | Sleep _ =>
      match wakes with
      | [] => None
      | Notified c :: wakes => wait_loop c wakes
      | ContextDone e :: _ => Some (Some (ContextError e))
      | ClientDone :: _ => Some (Some ErrUnavailable)
      end
  end.
Definition ref_WaitConnected (c : client_ref) (wakes : list woken) : option (outcome client_failure unit) :=
  if negb (client_initialized c) then Some (Err ClientNotInitialized)
  else match c with
       | LiveClient w =>
           match wait_loop (w_client w) wakes with
           | Some None => Some (Ok tt) | Some (Some e) => Some (Err (FromClient e)) | None => None
           end
       | _ => Some Panic
       end.
(** [Close], with the session it closes at the end; closing a session of [New] does not
    fail. *)
Definition ref_Close (c : client_ref) : client_ref * outcome client_failure unit :=
  if negb (client_initialized c) then (c, Err ClientNotInitialized)
  else match c with
       | LiveClient w =>
           let '(x, sess) := Client.Close (w_client w) in
           let w := with_client w x in
           (LiveClient match sess with
                       | Some p => match w_sessions w !! p with
                                   | Some (cfg, s) => set_session w p cfg (close_session s)
                                   | None => w
                                   end
                       | None => w
                       end, Ok tt)
       | _ => (c, Panic)
       end.

(** A call of [WaitConnected] that returns nil has seen a session of an open client. *)
Lemma wait_loop_connected wakes : forall c, wait_loop c wakes = Some None ->
  exists c' p, (c' = c \/ Notified c' ∈ wakes) /\ cl_current c' = Some p /\ cl_closed c' = false.
Proof.
  assert (Hn : forall c, wait_turn c = Return None -> exists p, cl_current c = Some p /\ cl_closed c = false).
  { intros c H. unfold wait_turn in H. destruct (cl_current c) as [p|]; [|destruct (cl_closed c), (cl_terminal c); discriminate].
    destruct (cl_closed c); [discriminate|]. eauto. }
  induction wakes as [|x wakes IH]; intros c H; cbn [wait_loop] in H; destruct (wait_turn c) as [r|n] eqn:Ht; try done.
  - injection H as ->. destruct (Hn c Ht) as (p & ? & ?). exists c, p. auto.
  - injection H as ->. destruct (Hn c Ht) as (p & ? & ?). exists c, p. auto.
  - destruct x as [c'|e|]; [|discriminate..]. destruct (IH c' H) as (c'' & p & Hc & ?). exists c'', p. split; [|done].
    right. destruct Hc as [-> |Hc]; [left|by right].
Qed.

(** The methods of a client are safe to call at any time: on a nil or zero client the
    getters return zero values and the rest [ErrNotInitialized], and no method panics.
    After [Close] requests and [WaitConnected] find no session, and closing again changes
    nothing. *)
Lemma client_api_safe c policy wakes :
  (client_initialized c = false ->
     ref_Session c = Ok None /\ ref_ReconnectCount c = Ok 0 /\ ref_Metrics c = Ok (Client.MkMetricsSnapshot 0 0) /\
     ref_LastLoss c = Ok None /\ ref_activeSession policy c = Err ClientNotInitialized /\
     ref_WaitConnected c wakes = Some (Err ClientNotInitialized) /\ ref_Close c = (c, Err ClientNotInitialized)) /\
  (ref_Session c <> Panic /\ ref_ReconnectCount c <> Panic /\ ref_Metrics c <> Panic /\ ref_LastLoss c <> Panic /\
   ref_activeSession policy c <> Panic /\ ref_WaitConnected c wakes <> Some Panic /\ (ref_Close c).2 <> Panic) /\
  (client_initialized c = true ->
     exists c', ref_Close c = (c', Ok tt) /\ (exists e, ref_activeSession policy c' = Err (FromClient e)) /\
       ref_WaitConnected c' wakes = Some (Err (FromClient ErrUnavailable)) /\ ref_Close c' = (c', Ok tt)).
Proof.
  split_and!; try (by destruct c).
  - destruct c as [| |w]; [done..|]. cbn. by destruct (activeSession policy (w_client w)).
  - destruct c as [| |w]; [done..|]. cbn. by destruct (wait_loop (w_client w) wakes) as [[]|].
  - destruct c as [| |w]; [done..|]. unfold ref_Close; cbn [client_initialized negb]. by destruct (Client.Close (w_client w)).
  - intros Hi. destruct c as [| |w]; [done..|]. unfold ref_Close at 1. cbn [client_initialized negb].
    assert (Hc : forall w', cl_closed (w_client w') = true ->
      (exists e, ref_activeSession policy (LiveClient w') = Err (FromClient e)) /\
      ref_WaitConnected (LiveClient w') wakes = Some (Err (FromClient ErrUnavailable)) /\
      ref_Close (LiveClient w') = (LiveClient w', Ok tt)).
    { intros w' Hw'. unfold ref_activeSession, ref_WaitConnected, ref_Close, activeSession, Client.Close.
      cbn [client_initialized negb]. rewrite Hw'. cbn [negb].
      assert (Ht : wait_turn (w_client w') = Return (Some ErrUnavailable)).
      { unfold wait_turn. rewrite Hw'. by destruct (cl_current (w_client w')). }
      assert (Hl : wait_loop (w_client w') wakes = Some (Some ErrUnavailable)).
      { destruct wakes; cbn [wait_loop]; by rewrite Ht. }
      rewrite Hl. split_and!; [destruct (cl_current (w_client w')); eauto|done|by destruct w']. }
    destruct (Client.Close (w_client w)) as [x sess] eqn:Hx.
    assert (Hcl : cl_closed x = true).
    { unfold Client.Close in Hx. destruct (cl_closed (w_client w)) eqn:Hcw; injection Hx as <- <-; [done|done]. }
    eexists. split; [reflexivity|]. apply Hc. destruct sess as [p|]; [|done].
    by destruct (w_sessions (with_client w x) !! p) as [[cfg s]|].
Qed.

(** When the lifecycle goroutine has panicked, whoever waits is woken, and a client
    without a session tells its callers why. *)
Lemma lifecycle_panic_told policy c : let c' := recover_lifecycle c in
  (cl_notify c < cl_notify c')%nat /\ cl_current c' = cl_current c /\
  (cl_current c = None -> exists b, activeSession policy c' =
     inr (UnavailableError (Some (EPanic "client.lifecycle")) b)).
Proof. cbn. split_and!; [lia|done|]. intros Hc. unfold activeSession. cbn. rewrite Hc. eauto. Qed.

(** ** The methods of a server *)

(** [var s *Server], [&Server{}], and a server of [NewWithConfig] with the counters of its
    guard and the address of its listener. *)
Inductive server_ref :=
| NilServer | ZeroServer | LiveServer (s : Server) (guard : BindStats) (addr : option string).
Definition no_stats : BindStats := MkBindStats 0 0 0 0.

Definition ref_Addr (s : server_ref) : option string :=
  match s with NilServer | ZeroServer => None | LiveServer _ _ addr => addr end.
(** [Serve] up to its loop. *)
Definition ref_Serve (s : server_ref) : server_ref * option serve_error :=
  match s with
  | NilServer | ZeroServer => (s, Some net_ErrClosed)
  | LiveServer x guard addr => let '(x, e) := serve_begin x in (LiveServer x guard addr, e)
  end.
Definition ref_BindStats (s : server_ref) : BindStats :=
  match s with
  | NilServer => no_stats
  | ZeroServer => MkBindStats (Attempts no_stats) (Failures no_stats) (Throttled no_stats) 0
  | LiveServer x guard _ => MkBindStats (Attempts guard) (Failures guard) (Throttled guard) (refusedUnbound x)
  end.
Definition ref_Sessions (s : server_ref) : list nat :=
  match s with NilServer | ZeroServer => [] | LiveServer x _ _ => Sessions x end.
Definition ref_owns (s : server_ref) (sid : nat) : bool :=
  match s with NilServer | ZeroServer => false | LiveServer x _ _ => owns x sid end.

(** The server owns the sessions it lists, and a closed or unusable one serves nobody. *)
Lemma server_ref_safe s :
  (forall sid, ref_owns s sid = true <-> sid ∈ ref_Sessions s) /\
  (match s with LiveServer x _ _ => closed x = true /\ serving x = false | _ => True end ->
   ref_Serve s = (s, Some net_ErrClosed)).
Proof.
  split.
  - intros sid. destruct s as [| |x g a]; cbn; [split; [done|by intros ?%elem_of_nil]..|].
    unfold owns, Sessions. by rewrite bool_decide_eq_true, elem_of_elements.
  - destruct s as [| |x g a]; [done..|]. intros [Hc Hs]. unfold ref_Serve, serve_begin. by rewrite Hs, Hc.
Qed.
