(* ===== verification/Errors.v ===== *)
(** * Error values and their texts (src/protocol/errors.go, src/protocol/panic.go,
    src/session/errors.go, the errors of src/client/client.go; logFatal of
    src/session/session.go)

    The other files see an error as far as the code looks into it, as [GoError].  Here
    an error has its texts and its whole chain of causes: [erase] forgets them, and
    what [errors.Is] and [errors.As] find is what the predicates on [GoError] say. *)

From Stdlib Require Import Ascii DecimalString DecimalPos DecimalN.
From S2P Require Import Prelude Protocol Deadline StateMachine Panics Liveness.
Open Scope string_scope.
Open Scope Z_scope.

(** ** fmt *)

Definition hex_digit (n : Z) : Ascii.ascii :=
  match String.get (Z.to_nat n) "0123456789abcdef" with Some c => c | None => "0"%char end.
Fixpoint hexN (k : nat) (n : Z) : string :=
  match k with
  | O => ""
  | S k => hexN k (n / 16) +:+ String (hex_digit (n mod 16)) ""
  end.
(** [%08x] and [%d] of a [uint32]. *)
Definition fmt_hex08 (n : Z) : string := hexN 8 n.
Definition fmt_d (n : Z) : string := NilZero.string_of_uint (N.to_uint (Z.to_N n)).

(** [time.Duration.String]. *)
Fixpoint fmtFrac (prec : nat) (v : Z) (print : bool) (tail : string) : string * Z :=
  match prec with
  | O => ((if print then String "."%char tail else tail), v)
  | S prec =>
      let digit := v mod 10 in
      let print := print || negb (digit =? 0) in
      fmtFrac prec (v / 10) print (if print then fmt_d digit +:+ tail else tail)
  end.
Definition Duration_String (d : Z) : string :=
  let u := u64 (if d <? 0 then - d else d) in
  let text :=
    if u <? 1000000000 then
      if u =? 0 then "0s"
      else
        let '(prec, suffix) := if u <? 1000 then (0%nat, "ns")
          else if u <? 1000000 then (3%nat, String (Ascii.ascii_of_nat 194) (String (Ascii.ascii_of_nat 181) "s"))
          else (6%nat, "ms") in
        let '(tail, u) := fmtFrac prec u false suffix in fmt_d u +:+ tail
    else
      let '(tail, u) := fmtFrac 9 u false "s" in
      let text := fmt_d (u mod 60) +:+ tail in
      let u := u / 60 in
      if u =? 0 then text
      else
        let text := fmt_d (u mod 60) +:+ "m" +:+ text in
        let u := u / 60 in
        if u =? 0 then text else fmt_d u +:+ "h" +:+ text in
  if d <? 0 then "-" +:+ text else text.

Example duration_texts : map Duration_String [0; 999; 1500; 250000000; 30000000000; 90000000000; 3723500000000; -1] =
  ["0s"; "999ns"; "1.5" +:+ String (Ascii.ascii_of_nat 194) (String (Ascii.ascii_of_nat 181) "s"); "250ms"; "30s"; "1m30s"; "1h2m3.5s"; "-1ns"].
Proof. vm_compute. reflexivity. Qed.

(** ** Errors *)

Definition sentinel_text (s : sentinel) : string :=
  match s with
  | ErrInvalidCongestionState => "smpp protocol: invalid congestion_state"
  | ErrShortBuffer => "smpp codec: short buffer"
  | ErrInvalidCommandLength => "smpp codec: command_length must be at least 16"
  | ErrInvalidMaxPDUSize => "smpp codec: maximum PDU size must be at least 16"
  | ErrFieldTooLong => "smpp codec: field exceeds configured maximum"
  | ErrEmbeddedNUL => "smpp codec: C-Octet String contains embedded NUL"
  | ErrTLVValueTooLong => "smpp codec: TLV value exceeds 65535 octets"
  | ErrCodecNotInitialized => "smpp codec: not initialized; create framers with NewFramer"
  | ErrRegistryFrozen => "smpp codec: registry is frozen"
  | ErrDuplicateCommand => "smpp codec: duplicate command registration"
  | ErrDuplicateTLV => "smpp codec: duplicate TLV registration"
  | ErrUnknownCommand => "smpp codec: unknown command"
  | ErrUnknownTLV => "smpp codec: unknown TLV"
  | ErrInvalidRegistryMode => "smpp codec: invalid registry mode"
  | ErrInvalidRegistryDefinition => "smpp codec: invalid registry definition"
  | ErrInvalidPDUValue => "smpp codec: invalid PDU value"
  | ErrPDUFrameLengthMismatch => "smpp codec: PDU frame length does not match command_length"
  | ErrConflictingMessageData => "smpp codec: short_message and message_payload must not both carry data"
  | ErrUnrepresentableRune => "smpp encoding: rune is not representable"
  | ErrInvalidGSM7 => "smpp encoding: invalid GSM 7-bit data"
  | ErrInvalidUnicode => "smpp encoding: invalid Unicode data"
  | ErrInvalidSegments => "smpp message: invalid multipart segments"
  | ErrInvalidUDH => "smpp message: invalid user data header"
  | ErrInvalidSAR => "smpp message: invalid SAR parameters"
  | ErrNotDeliveryReceipt => "smpp message: no delivery receipt metadata"
  | ErrInvalidDeliveryReceipt => "smpp message: invalid delivery receipt"
  | ErrSessionClosed => "smpp session: closed"
  | ErrInvalidConfig => "smpp session: invalid configuration"
  | ErrPendingLimit => "smpp session: pending request limit reached"
  | ErrWindowFull => "smpp session: outstanding request window full"
  | ErrSequenceInUse => "smpp session: sequence number already pending"
  | ErrSequenceExhausted => "smpp session: no free sequence number"
  | ErrBindInProgress => "smpp session: bind already in progress"
  | ErrUnexpectedPDU => "smpp session: unexpected PDU"
  | ErrUnsupportedCapability => "smpp session: peer did not negotiate required capability"
  | ErrNotInitialized => "smpp session: not initialized; create sessions with New"
  | ErrDeferredResponseLimit => "smpp session: deferred response capacity exceeded"
  | ErrDeferredResponseUnknown => "smpp session: no deferred response for request"
  | ErrDeferredResponseBusy => "smpp session: deferred response already being sent"
  | ErrInvalidResponseAction => "smpp session: response action not supported for request"
  end.

(** [Wrapped inner rest] is [fmt.Errorf("%w" + rest)], [Foreign] an error of code of the
    application.  A recovered panic keeps the value of the panic: its text, and the
    error if it is one. *)
Inductive error : Type :=
| Sentinel (s : sentinel)
| SemanticError (Status Command Sequence : Z) (Reason : string) (Cause : option error)
| FatalErr (f : FatalError) (Reason : string) (Cause : option error)
| PanicError (Source : string) (text : string) (Value : option error)
| TimeoutErr (k : TimeoutKind) (Command Sequence After : Z)
| StateErr (state : SessionState) (Command : Z) (role : Role)
| ResponseError (Command Status Sequence : Z)
| LossError (Cause : option error)
| Wrapped (inner : error) (rest : string)
| Foreign (id : Z) (text : string) (inner : option error).

(** The methods work on nil pointers too. *)
Definition on_pointer {A} (p : option A) (text : A -> string) : string :=
  match p with None => "<nil>" | Some a => text a end.
Definition SemanticError_Error (e : option (Z * Z * Z * string)) : string :=
  on_pointer e (fun '(st, command, sequence, reason) =>
    "smpp protocol error: status=0x" +:+ fmt_hex08 st +:+ " command=0x" +:+ fmt_hex08 command +:+
    " sequence=" +:+ fmt_d sequence +:+ (if decide (reason = "") then "" else " reason=" +:+ reason)).
Definition FatalError_Error (e : option (FatalError * string)) : string :=
  on_pointer e (fun '(f, reason) =>
    "fatal smpp protocol error: kind=" +:+ FatalErrorKind_String (fe_Kind f) +:+
    " declared_length=" +:+ fmt_d (fe_DeclaredLength f) +:+ " command=0x" +:+ fmt_hex08 (fe_Command f) +:+
    " sequence=" +:+ fmt_d (fe_Sequence f) +:+ (if decide (reason = "") then "" else " reason=" +:+ reason)).
Definition PanicError_Error (e : option (string * string)) : string :=
  on_pointer e (fun '(source, value) => "smpp: recovered panic in " +:+ source +:+ ": " +:+ value).
Definition TimeoutError_Error (e : option (TimeoutKind * Z * Z * Z)) : string :=
  on_pointer e (fun '(k, command, sequence, after) =>
    "smpp " +:+ TimeoutKind_String k +:+ " timeout: command=0x" +:+ fmt_hex08 command +:+
    " sequence=" +:+ fmt_d sequence +:+ " after=" +:+ Duration_String after).
Definition StateError_Error (e : option (SessionState * Z * Role)) : string :=
  on_pointer e (fun '(state, command, role) =>
    "smpp session: command 0x" +:+ fmt_hex08 command +:+ " is invalid in state " +:+ SessionState_String state +:+
    " for role " +:+ Role_String role).
Definition ResponseError_Error (e : option (Z * Z * Z)) : string :=
  on_pointer e (fun '(command, st, sequence) =>
    "smpp response error: command=0x" +:+ fmt_hex08 command +:+ " status=0x" +:+ fmt_hex08 st +:+
    " sequence=" +:+ fmt_d sequence).
Definition LossError_Error (cause : option string) : string :=
  match cause with None => "smpp session lost" | Some text => "smpp session lost: " +:+ text end.

Fixpoint Error (e : error) : string :=
  match e with
  | Sentinel s => sentinel_text s
  | SemanticError st command sequence reason _ => SemanticError_Error (Some (st, command, sequence, reason))
  | FatalErr f reason _ => FatalError_Error (Some (f, reason))
  | PanicError source text _ => PanicError_Error (Some (source, text))
  | TimeoutErr k command sequence after => TimeoutError_Error (Some (k, command, sequence, after))
  | StateErr state command role => StateError_Error (Some (state, command, role))
  | ResponseError command st sequence => ResponseError_Error (Some (command, st, sequence))
  | LossError None => LossError_Error None
  | LossError (Some cause) => LossError_Error (Some (Error cause))
  | Wrapped inner rest => Error inner +:+ rest
  | Foreign _ text _ => text
  end.

(** The methods [Unwrap], on a pointer that may be nil, as the cause it holds. *)
Definition SemanticError_Unwrap (e : option (option error)) : option error :=
  match e with None => None | Some cause => cause end.
Definition FatalError_Unwrap (e : option (option error)) : option error :=
  match e with None => None | Some cause => cause end.
Definition LossError_Unwrap (e : option (option error)) : option error :=
  match e with None => None | Some cause => cause end.
(** The value of a panic, if it is an error. *)
Definition PanicError_Unwrap (e : option (option error)) : option error :=
  match e with None => None | Some value => value end.
Definition Unwrap (e : error) : option error :=
  match e with
  | SemanticError _ _ _ _ cause => SemanticError_Unwrap (Some cause)
  | FatalErr _ _ cause => FatalError_Unwrap (Some cause)
  | PanicError _ _ value => PanicError_Unwrap (Some value)
  | LossError cause => LossError_Unwrap (Some cause)
  | Foreign _ _ cause => cause
  | Wrapped inner _ => Some inner
  | Sentinel _ | TimeoutErr _ _ _ _ | StateErr _ _ _ | ResponseError _ _ _ => None
  end.
Definition Fatal (f : FatalError) : bool := true.
Definition Timeout (k : TimeoutKind) (command sequence after : Z) : bool := true.

(** ** errors.Is and errors.As *)

(** The error and everything [Unwrap] gives in turn. *)
Fixpoint chain (e : error) : list error :=
  e :: match e with
       | SemanticError _ _ _ _ (Some c) | FatalErr _ _ (Some c) | PanicError _ _ (Some c)
       | LossError (Some c) | Foreign _ _ (Some c) | Wrapped c _ => chain c
       | _ => []
       end.
Lemma chain_unwrap e : chain e = e :: match Unwrap e with Some c => chain c | None => [] end.
Proof. destruct e as [|? ? ? ? []|? ? []|? ? []| | | |[]| |? ? []]; reflexivity. Qed.

(** [errors.Is(e, s)], and [errors.As] for the types the code asks for. *)
Definition errors_Is (s : sentinel) (e : error) : bool :=
  existsb (fun x => match x with Sentinel s' => bool_decide (s = s') | _ => false end) (chain e).
Definition errors_As {A} (select : error -> option A) (e : error) : option A := head (omap select (chain e)).
Definition a_fatal (e : error) : option FatalError := match e with FatalErr f _ _ => Some f | _ => None end.
Definition a_semantic (e : error) : option Z := match e with SemanticError st _ _ _ _ => Some st | _ => None end.
Definition a_panic (e : error) : option string := match e with PanicError source _ _ => Some source | _ => None end.

(** The client's error: [Is] is a method of its own. *)
Definition ErrUnavailable_text : string := "smpp client: no active session".
Definition UnavailableError_Error (cause : option error) : string :=
  match cause with None => ErrUnavailable_text | Some c => ErrUnavailable_text +:+ ": " +:+ Error c end.
Definition UnavailableError_Unwrap (cause : option error) : option error := cause.
(** [errors.Is] of an [*UnavailableError] for [ErrUnavailable] ([None]) or a sentinel. *)
Definition UnavailableError_Is (cause : option error) (target : option sentinel) : bool :=
  match target with
  | None => true
  | Some s => match UnavailableError_Unwrap cause with Some c => errors_Is s c | None => false end
  end.

(** ** session.go: logFatal *)

(** The attributes, in order; [local] and [remote] are the addresses, if any. *)
Definition logFatal (state : SessionState) (role : Role) (f : FatalError) (Reason : string)
    (local remote : option string) : list (string * string) :=
  [("event", "smpp_protocol_fatal"); ("reason", FatalErrorKind_String (fe_Kind f));
   ("state", SessionState_String state); ("role", Role_String role);
   ("declared_length", fmt_d (fe_DeclaredLength f)); ("command_id", "0x" +:+ fmt_hex08 (fe_Command f));
   ("sequence_number", fmt_d (fe_Sequence f)); ("action", "connection_closed")] ++
  match local with Some a => [("local", a)] | None => [] end ++
  match remote with Some a => [("remote", a)] | None => [] end ++
  (if decide (Reason = "") then [] else [("detail", Reason)]).

(** ** What the rest of the development sees *)

Fixpoint erase (e : error) : GoError :=
  match e with
  | Sentinel s => ESentinel s
  | SemanticError st command sequence _ cause =>
      ESemantic st command sequence (match cause with Some c => Some (erase c) | None => None end)
  | FatalErr f _ _ => EFatal f
  | PanicError source _ _ => EPanic source
  | TimeoutErr k command sequence after => TimeoutError k command sequence after
  | StateErr _ _ _ => EOther 3 None
  | ResponseError command st sequence => EResponse command st sequence
  | LossError (Some cause) => ELoss (erase cause)
  | LossError None => EOther 4 None
  | Wrapped inner _ => erase inner
  | Foreign id _ inner => EOther id (match inner with Some c => Some (erase c) | None => None end)
  end.

(** Nothing is behind a fatal error, which the code always makes without a cause, or
    behind a panic, whose value is not an error. *)
Definition plain (e : error) : bool :=
  forallb (fun x => match x with FatalErr _ _ (Some _) | PanicError _ _ (Some _) => false | _ => true end) (chain e).

Lemma errors_As_step {A} (select : error -> option A) e :
  errors_As select e = match select e with
                       | Some a => Some a
                       | None => match Unwrap e with Some c => errors_As select c | None => None end
                       end.
Proof. unfold errors_As. rewrite chain_unwrap. cbn. destruct (select e); [done|]. by destruct (Unwrap e). Qed.
Lemma errors_Is_step s e :
  errors_Is s e = match e with Sentinel s' => bool_decide (s = s') | _ => false end ||
                  match Unwrap e with Some c => errors_Is s c | None => false end.
Proof. unfold errors_Is. rewrite chain_unwrap. cbn [existsb]. f_equal. by destruct (Unwrap e). Qed.
Lemma plain_step e : plain e = true ->
  match e with FatalErr _ _ (Some _) | PanicError _ _ (Some _) => False | _ => True end /\
  forall c, Unwrap e = Some c -> plain c = true.
Proof.
  unfold plain. rewrite chain_unwrap. cbn [forallb]. intros [H1 H2]%andb_prop. split.
  - by destruct e as [|? ? ? ? []|? ? []|? ? []| | | |[]| |? ? []].
  - intros c Hc. by rewrite Hc in H2.
Qed.

(** The predicates on [GoError] are [errors.Is] and [errors.As] on the whole chain: what
    the other files know of an error is what the code can find out. *)
Theorem erase_sound : forall e, plain e = true ->
  errors_As a_fatal e = as_fatal (erase e) /\ errors_As a_semantic e = as_semantic (erase e) /\
  errors_As a_panic e = as_panic (erase e) /\ forall s, errors_Is s e = is_sentinel s (erase e).
Proof.
  fix IH 1. intros e Hp. destruct (plain_step e Hp) as [Hc Hnext]. rewrite !errors_As_step.
  setoid_rewrite errors_Is_step.
  destruct e as [s|st command sequence reason [c|]|f reason [c|]|source text [c|]| | | |[c|]|c rest|id text [c|]];
    try done;
    cbn [Unwrap SemanticError_Unwrap FatalError_Unwrap PanicError_Unwrap LossError_Unwrap a_fatal a_semantic a_panic
      erase as_fatal as_semantic as_panic is_sentinel orb];
    try (destruct (IH c (Hnext c eq_refl)) as (-> & H2 & H3 & H4)); split_and!; try done.
  intros s'. by rewrite orb_false_r.
Qed.

Definition lost_to_panic : error :=
  LossError (Some (SemanticError 8 4 1 "command decoder panicked" (Some (PanicError "codec.CommandDecoder" "boom" None)))).
Lemma erase_sound_witness : errors_As a_panic lost_to_panic = Some "codec.CommandDecoder".
Proof. destruct (erase_sound lost_to_panic eq_refl) as (_ & _ & -> & _). reflexivity. Defined.

(** ** What a text tells *)

#[local] Arguments String.append !s1 s2 / : simpl nomatch.

Definition u32_range (n : Z) : bool := (0 <=? n) && (n <? 4294967296).
Fixpoint string_all (P : ascii -> bool) (s : string) : bool :=
  match s with "" => true | String c s => P c && string_all P s end.
Definition is_digit (c : ascii) : bool := (48 <=? nat_of_ascii c)%nat && (nat_of_ascii c <=? 57)%nat.
(** The text stops a number: it is empty or does not begin with a digit. *)
Definition stops (s : string) : bool := match s with "" => true | String c _ => negb (is_digit c) end.

Lemma append_length_inj s1 : forall s2 r1 r2, String.length s1 = String.length s2 ->
  s1 +:+ r1 = s2 +:+ r2 -> s1 = s2 /\ r1 = r2.
Proof.
  induction s1 as [|c s1 IH]; intros [|c' s2] r1 r2 Hl H; try done. cbn in Hl, H. injection H as -> H.
  injection Hl as Hl. by destruct (IH s2 r1 r2 Hl H) as [-> ->].
Qed.
Lemma digits_inj s1 : forall s2 r1 r2, string_all is_digit s1 = true -> string_all is_digit s2 = true ->
  stops r1 = true -> stops r2 = true -> s1 +:+ r1 = s2 +:+ r2 -> s1 = s2 /\ r1 = r2.
Proof.
  induction s1 as [|c s1 IH]; intros [|c' s2] r1 r2 H1 H2 S1 S2 H; cbn in H; cbn [string_all] in H1, H2; subst; try done.
  - cbn [stops] in S1. by destruct (is_digit c').
  - cbn [stops] in S2. by destruct (is_digit c).
  - injection H as -> H. apply andb_prop in H1 as [_ H1], H2 as [_ H2].
    by destruct (IH s2 r1 r2 H1 H2 S1 S2 H) as [-> ->].
Qed.

Lemma hexN_length k : forall n, String.length (hexN k n) = k.
Proof.
  induction k as [|k IH]; intros n; [done|]. cbn [hexN].
  assert (Ha : forall a b, String.length (a +:+ b) = (String.length a + String.length b)%nat).
  { induction a as [|c a IHa]; intros b; [done|]. cbn. by rewrite IHa. }
  rewrite Ha, IH. cbn. lia.
Qed.
Lemma hex_digit_inj a b : 0 <= a < 16 -> 0 <= b < 16 -> hex_digit a = hex_digit b -> a = b.
Proof.
  intros Ha Hb. assert (Hn : forall x, 0 <= x < 16 -> x ∈ map Z.of_nat (seq 0 16)).
  { intros x Hx. apply list_elem_of_fmap. exists (Z.to_nat x). split; [lia|]. apply elem_of_seq. lia. }
  apply Hn in Ha, Hb. revert Ha Hb. rewrite !list_elem_of_In. cbn [seq map In].
  intros Ha Hb. repeat (destruct Ha as [<- |Ha]; [repeat (destruct Hb as [<- |Hb]; [done|]); done|]). done.
Qed.
Lemma hexN_inj k : forall a b, 0 <= a < 16 ^ Z.of_nat k -> 0 <= b < 16 ^ Z.of_nat k -> hexN k a = hexN k b -> a = b.
Proof.
  induction k as [|k IH]; intros a b Ha Hb H; [cbn in *; lia|]. cbn [hexN] in H.
  rewrite Nat2Z.inj_succ, Z.pow_succ_r in Ha, Hb by lia.
  apply append_length_inj in H as [H1 H2]; [|by rewrite !hexN_length].
  apply IH in H1; [|split; [apply Z.div_pos|apply Z.div_lt_upper_bound]; lia..].
  injection H2 as H2. apply hex_digit_inj in H2; [|apply Z.mod_pos_bound; lia..].
  rewrite (Z.div_mod a 16), (Z.div_mod b 16) by lia. lia.
Qed.
Lemma fmt_hex08_inj a b r1 r2 : u32_range a = true -> u32_range b = true ->
  fmt_hex08 a +:+ r1 = fmt_hex08 b +:+ r2 -> a = b /\ r1 = r2.
Proof.
  unfold u32_range, fmt_hex08. intros Ha Hb H. apply append_length_inj in H as [H ->]; [|by rewrite !hexN_length].
  split; [|done]. apply (hexN_inj 8); [cbn; lia..|done].
Qed.

Lemma fmt_d_digits n : string_all is_digit (fmt_d n) = true.
Proof.
  unfold fmt_d. assert (Hd : forall d, string_all is_digit (NilEmpty.string_of_uint d) = true) by (by induction d).
  destruct (N.to_uint (Z.to_N n)); try exact (Hd _). done.
Qed.
Lemma fmt_d_inj a b r1 r2 : u32_range a = true -> u32_range b = true -> stops r1 = true -> stops r2 = true ->
  fmt_d a +:+ r1 = fmt_d b +:+ r2 -> a = b /\ r1 = r2.
Proof.
  intros Ha Hb S1 S2 H. apply digits_inj in H as [H ->]; [|apply fmt_d_digits..|done|done]. split; [|done].
  unfold fmt_d in H. apply (f_equal NilZero.uint_of_string) in H.
  assert (Hu : forall n, N.to_uint n <> Decimal.Nil) by (by intros [|p]; [|apply DecimalPos.Unsigned.to_uint_nonnil]).
  rewrite !NilZero.usu in H by apply Hu. injection H as H. apply (f_equal N.of_uint) in H.
  rewrite !DecimalN.Unsigned.of_to in H. unfold u32_range in *. lia.
Qed.

(** The numbers of an error fit their fields, here and in the cause of a loss. *)
Fixpoint structured (e : error) : bool :=
  match e with
  | Sentinel _ | LossError None => true
  | SemanticError st command sequence _ _ => u32_range st && u32_range command && u32_range sequence
  | FatalErr f _ _ => u32_range (fe_DeclaredLength f) && u32_range (fe_Command f) && u32_range (fe_Sequence f)
  | TimeoutErr _ command sequence _ => u32_range command && u32_range sequence
  | StateErr _ command _ => u32_range command
  | ResponseError command st sequence => u32_range command && u32_range st && u32_range sequence
  | LossError (Some cause) => structured cause
  | PanicError _ _ _ | Wrapped _ _ | Foreign _ _ _ => false
  end.
(** The same error, except for what the text leaves out: the cause of a semantic or fatal
    error, and how a timeout was written down. *)
Fixpoint same_facts (e1 e2 : error) : Prop :=
  match e1, e2 with
  | Sentinel s1, Sentinel s2 => s1 = s2
  | SemanticError st1 c1 q1 r1 _, SemanticError st2 c2 q2 r2 _ => st1 = st2 /\ c1 = c2 /\ q1 = q2 /\ r1 = r2
  | FatalErr f1 r1 _, FatalErr f2 r2 _ => f1 = f2 /\ r1 = r2
  | TimeoutErr k1 c1 q1 a1, TimeoutErr k2 c2 q2 a2 =>
      k1 = k2 /\ c1 = c2 /\ q1 = q2 /\ Duration_String a1 = Duration_String a2
  | StateErr s1 c1 r1, StateErr s2 c2 r2 => s1 = s2 /\ c1 = c2 /\ r1 = r2
  | ResponseError c1 st1 q1, ResponseError c2 st2 q2 => c1 = c2 /\ st1 = st2 /\ q1 = q2
  | LossError None, LossError None => True
  | LossError (Some e1), LossError (Some e2) => same_facts e1 e2
  | _, _ => False
  end.

Lemma sentinel_text_inj s1 s2 : sentinel_text s1 = sentinel_text s2 -> s1 = s2.
Proof. destruct s1; abstract (destruct s2; (reflexivity || discriminate)). Qed.
Lemma reason_inj r1 r2 :
  (if decide (r1 = "") then "" else " reason=" +:+ r1) = (if decide (r2 = "") then "" else " reason=" +:+ r2) ->
  r1 = r2.
Proof. destruct (decide (r1 = "")), (decide (r2 = "")); intros H; try congruence; cbn in H; congruence. Qed.
Lemma reason_stops r : stops (if decide (r = "") then "" else " reason=" +:+ r) = true.
Proof. by destruct (decide (r = "")). Qed.

(** Strip what two texts have in common: a literal; a literal and a number. *)
Ltac ranges := repeat match goal with E : _ && _ = true |- _ => apply andb_prop in E as [? ?] end.
Ltac strip H := apply (base.inj (String.append _)) in H.
Ltac strip_hex H :=
  strip H; let E := fresh in apply fmt_hex08_inj in H; [|assumption..]; destruct H as [E H]; subst.
Ltac strip_dec H :=
  strip H; let E := fresh in apply fmt_d_inj in H; [|assumption|assumption|apply reason_stops || reflexivity..];
  destruct H as [E H]; subst.

Lemma semantic_text_inj st1 c1 q1 r1 st2 c2 q2 r2 :
  u32_range st1 && u32_range c1 && u32_range q1 = true -> u32_range st2 && u32_range c2 && u32_range q2 = true ->
  SemanticError_Error (Some (st1, c1, q1, r1)) = SemanticError_Error (Some (st2, c2, q2, r2)) ->
  st1 = st2 /\ c1 = c2 /\ q1 = q2 /\ r1 = r2.
Proof.
  intros Hr1 Hr2 H. ranges. cbn [SemanticError_Error on_pointer] in H.
  strip_hex H. strip_hex H. strip_dec H.
  by apply reason_inj in H as ->.
Qed.
Lemma fatal_text_inj f1 r1 f2 r2 :
  u32_range (fe_DeclaredLength f1) && u32_range (fe_Command f1) && u32_range (fe_Sequence f1) = true ->
  u32_range (fe_DeclaredLength f2) && u32_range (fe_Command f2) && u32_range (fe_Sequence f2) = true ->
  FatalError_Error (Some (f1, r1)) = FatalError_Error (Some (f2, r2)) -> f1 = f2 /\ r1 = r2.
Proof.
  destruct f1 as [k1 d1 c1 q1], f2 as [k2 d2 c2 q2]. cbn [fe_Kind fe_DeclaredLength fe_Command fe_Sequence].
  intros Hr1 Hr2 H. ranges. unfold FatalError_Error, on_pointer in H.
  cbn [fe_Kind fe_DeclaredLength fe_Command fe_Sequence] in H. strip H.
  assert (k1 = k2) as -> by (destruct k1, k2; (reflexivity || discriminate H)).
  strip H. strip_dec H. strip_hex H. strip_dec H.
  by apply reason_inj in H as ->.
Qed.
Lemma timeout_text_inj k1 c1 q1 a1 k2 c2 q2 a2 :
  u32_range c1 && u32_range q1 = true -> u32_range c2 && u32_range q2 = true ->
  TimeoutError_Error (Some (k1, c1, q1, a1)) = TimeoutError_Error (Some (k2, c2, q2, a2)) ->
  k1 = k2 /\ c1 = c2 /\ q1 = q2 /\ Duration_String a1 = Duration_String a2.
Proof.
  intros Hr1 Hr2 H. ranges. unfold TimeoutError_Error, on_pointer in H. strip H.
  assert (k1 = k2) as -> by (destruct k1, k2; (reflexivity || discriminate H)).
  strip H. strip_hex H. strip_dec H. by strip H.
Qed.
Lemma state_text_inj s1 c1 r1 s2 c2 r2 : u32_range c1 = true -> u32_range c2 = true ->
  StateError_Error (Some (s1, c1, r1)) = StateError_Error (Some (s2, c2, r2)) -> s1 = s2 /\ c1 = c2 /\ r1 = r2.
Proof.
  intros Hr1 Hr2 H. unfold StateError_Error, on_pointer in H. strip_hex H. strip H.
  assert (s1 = s2) as -> by (destruct s1, s2; (reflexivity || discriminate H)). strip H. strip H.
  by assert (r1 = r2) as -> by (destruct r1, r2; (reflexivity || discriminate H)).
Qed.
Lemma response_text_inj c1 st1 q1 c2 st2 q2 :
  u32_range c1 && u32_range st1 && u32_range q1 = true -> u32_range c2 && u32_range st2 && u32_range q2 = true ->
  ResponseError_Error (Some (c1, st1, q1)) = ResponseError_Error (Some (c2, st2, q2)) ->
  c1 = c2 /\ st1 = st2 /\ q1 = q2.
Proof.
  intros Hr1 Hr2 H. ranges. unfold ResponseError_Error, on_pointer in H. strip_hex H. strip_hex H. strip H.
  assert (Hn : forall n, fmt_d n +:+ "" = fmt_d n).
  { intros n. generalize (fmt_d n). induction s as [|c s IH]; [done|]. cbn. by rewrite IH. }
  rewrite <- (Hn q1), <- (Hn q2) in H. by apply fmt_d_inj in H as [-> _].
Qed.

(** The text of an error tells which error it is.  Sentinels, semantic, fatal, timeout,
    state and response errors, and lost sessions with any of these as their cause, have
    the same text only if they are the same error: of the same kind, with the same
    numbers, the same reason and the same cause of the loss. *)
Theorem error_texts_identify : forall e1 e2,
  structured e1 = true -> structured e2 = true -> Error e1 = Error e2 -> same_facts e1 e2.
Proof.
  fix IH 1. intros e1 e2 H1 H2 H.
  destruct e1 as [s1|st1 c1 q1 r1 ca1|f1 r1 ca1| |k1 c1 q1 a1|s1 c1 r1|c1 st1 q1|[ca1|]| |]; try discriminate H1;
  destruct e2 as [s2|st2 c2 q2 r2 ca2|f2 r2 ca2| |k2 c2 q2 a2|s2 c2 r2|c2 st2 q2|[ca2|]| |]; try discriminate H2;
  cbn [same_facts Error] in *.
  all: try (by apply sentinel_text_inj); try (by apply semantic_text_inj); try (by apply fatal_text_inj);
    try (by apply timeout_text_inj); try (by apply state_text_inj); try (by apply response_text_inj).
  all: try (unfold LossError_Error in H; strip H; by apply IH).
  all: try exact I.
  all: exfalso; unfold SemanticError_Error, FatalError_Error, TimeoutError_Error, StateError_Error,
    ResponseError_Error, LossError_Error, on_pointer in H.
  all: repeat match goal with s : sentinel |- _ => destruct s | k : TimeoutKind |- _ => destruct k end.
  all: discriminate H.
Qed.

Lemma error_texts_identify_witness :
  let short reason cause := LossError (Some (FatalErr (MkFatalError FatalTruncatedFrame 20 4 7) reason cause)) in
  Error (short "cut" None) = Error (short "cut" (Some (Sentinel ErrShortBuffer))) /\
  same_facts (short "cut" None) (short "cut" (Some (Sentinel ErrShortBuffer))).
Proof. cbv zeta. split; [reflexivity|]. apply error_texts_identify; reflexivity. Defined.
