(* ===== verification/Programs.v ===== *)
(** * The programs built on the library (src/cmd/smpp-sim/main.go,
    src/examples/smsc/main.go, src/examples/esme/main.go)

    Each program is the library with a configuration and handlers of its own.  The
    counters its handlers keep are atomics that all sessions share: a call of a handler
    adds to them in one step.  What is printed, the flags and the signals are arguments
    and results. *)

From Stdlib Require Import Floats.SpecFloat.
From stdpp Require Import pretty.
From S2P Require Import Prelude Protocol Bodies Fields BodySpec Registry Pdu StateMachine Pending Receive Requests Metrics Events Framer Client Host Throttle Dispatch Backoff WriteTimeout.

Definition octets_of_string (s : string) : bytes := map (fun c => Z.of_N (Ascii.N_of_ascii c)) (String.list_ascii_of_string s).
(** [[]byte(fmt.Sprintf("%d", n))] for an unsigned number. *)
Definition decimal (n : Z) : bytes := octets_of_string (pretty (Z.to_N n)).

(** ** cmd/smpp-sim *)

Record sim_flags := MkFlags {
  fl_systemID : string; fl_maxSessions : Z; fl_window : Z; fl_txQueue : Z; fl_readBuffer : Z; fl_maxPDU : Z;
  fl_statsInterval : Z; fl_tlsCert : string; fl_tlsKey : string
}.
Definition default_flags : sim_flags :=
  MkFlags "go-smpp-sim" 0 4096 4096 (256 * 1024) (1024 * 1024) second "" "".

Definition sim_config (fl : sim_flags) : Requests.Config :=
  MkConfig RoleNone SMPP34Profile None (u32 (fl_maxPDU fl)) (fl_window fl) 0 (fl_window fl)
    (30 * second) (30 * second) (-1) (-1) (-1) 0 (fl_txQueue fl) 0 0 (fl_readBuffer fl).

(** [acceptedSubmits] is the world of the handlers. *)
Definition sim_authenticator (fl : sim_flags) : Authenticator Z := fun submits _ _ =>
  (submits, Returned (MkBindResult StatusOK (octets_of_string (fl_systemID fl)) [], None)).
Definition sim_submit : SubmitHandler Z := fun submits _ =>
  (u64 (submits + 1), Returned (MkSubmitResult StatusOK (octets_of_string "sim"), None)).
Definition sim_handler (fl : sim_flags) : option (dispatchHandler Z) :=
  session_Handler (Some (AuthenticatorFunc (Some (sim_authenticator fl)))) (Some (SubmitHandlerFunc (Some sim_submit)))
    None None.

(** One tick of [reportStats]: the sums over the sessions and the submits per second;
    [elapsed] is [now.Sub(previousAt).Seconds()]. *)
Definition f_div : float64 -> float64 -> float64 := SFdiv 53 1024.
Definition report_sums (metrics : list snapshot) : Z * Z * Z :=
  foldl (fun '(requests, responses, failures) m =>
    (u64 (requests + RequestsReceived m), u64 (responses + ResponsesSent m), u64 (failures + DecodeFailures m)))
    (0, 0, 0) metrics.
Definition report_rate (total previous : Z) (elapsed : float64) : float64 := f_div (f_of_int (u64 (total - previous))) elapsed.

(** [d.Seconds()]. *)
Definition f_add : float64 -> float64 -> float64 := SFadd 53 1024.
Definition Seconds (d : Z) : float64 :=
  f_add (f_of_int (Z.quot d second)) (f_div (f_of_int (Z.rem d second)) (f_of_int 1000000000)).

(** What the [select] of [reportStats] takes: a tick, with the counters of the sessions and
    the submits as they are read then, or the end of the context. *)
Inductive stats_event : Type := Tick (now : Z) (metrics : list snapshot) (submits : Z) | CtxDone.
Record stats_line := MkStats {
  st_sessions : Z; st_requests : Z; st_responses : Z; st_submits : Z; st_failures : Z; st_rate : float64
}.
(** The lines it logs, and whether it returned, closing [done]. *)
Fixpoint reportStats (previousRequests previousAt : Z) (events : list stats_event) : list stats_line * bool :=
  match events with
  | [] => ([], false)
  | CtxDone :: _ => ([], true)
  | Tick now metrics totalSubmits :: events =>
      let '(requests, responses, failures) := report_sums metrics in
      let elapsed := Seconds (Sub now previousAt) in
      let line := MkStats (zlen metrics) requests responses totalSubmits failures
                    (report_rate totalSubmits previousRequests elapsed) in
      let '(lines, closed) := reportStats totalSubmits now events in (line :: lines, closed)
  end.

(** [main]: the exit status, [None] when it waits for ever.  [load] is the error of
    [tls.LoadX509KeyPair], [listen] and [serve] those of the server; [events] is what
    happens to [reportStats], which starts at [now]. *)
Definition sim_main (fl : sim_flags) (load : string -> string -> option GoError) (listen serve : option GoError)
    (now : Z) (events : list stats_event) : option Z :=
  if negb (eqb (bool_decide (fl_tlsCert fl = "")) (bool_decide (fl_tlsKey fl = ""))) then Some 2
  else if negb (bool_decide (fl_tlsCert fl = "")) &&
          match load (fl_tlsCert fl) (fl_tlsKey fl) with Some _ => true | None => false end then Some 2
  else match listen with
       | Some _ => Some 1
       | None =>
           let statsDone := if 0 <? fl_statsInterval fl then (reportStats 0 now events).2 else true in
           match serve with
           | Some _ => Some 1
           | None => if statsDone then Some 0 else None
           end
       end.

(** ** examples/smsc *)

Definition smsc_config : Requests.Config :=
  MkConfig RoleNone SMPP34Profile None 0 0 0 0 (10 * second) (15 * second) (30 * second) 0 (120 * second) 0 0 0 0 0.
(** [ids] is the world of the handlers. *)
Definition smsc_authenticator : Authenticator Z := fun ids _ req =>
  (ids, Returned
    (if negb (bool_decide (brq_SystemID req = octets_of_string "esme")) ||
        negb (bool_decide (brq_Password req = octets_of_string "secret"))
     then MkBindResult StatusBindFailed [] []
     else MkBindResult StatusOK (octets_of_string "go-smpp-smsc") [], None)).
Definition smsc_submit : SubmitHandler Z := fun ids _ =>
  let id := u64 (ids + 1) in (id, Returned (MkSubmitResult StatusOK (decimal id), None)).
Definition smsc_handler : option (dispatchHandler Z) :=
  session_Handler (Some (AuthenticatorFunc (Some smsc_authenticator))) (Some (SubmitHandlerFunc (Some smsc_submit)))
    None None.

(** [main]: the exit status, with what [ListenAndServe] returned. *)
Definition smsc_main (served : option GoError) : Z := match served with Some _ => 1 | None => 0 end.

(** ** examples/esme *)

Definition esme_session_config : Requests.Config :=
  MkConfig RoleNone SMPP34Profile None 0 0 0 0 (10 * second) (15 * second) (30 * second) (10 * second)
    (120 * second) 0 0 0 0 0.
Definition esme_policy : ReconnectPolicy :=
  MkReconnectPolicy true (250 * millisecond) (5000 * millisecond) f_zero 0 f_zero false.
Definition esme_bind : BindRequest :=
  MkBindRequest (octets_of_string "esme") (octets_of_string "secret") [] InterfaceVersion34 0 0 [].
Definition esme_submit : SubmitSM :=
  MkSubmitSM [] 1 1 (octets_of_string "12025550100") 1 1 (octets_of_string "12025550101") 0 0 0 [] [] 0 0 0 0
    (octets_of_string "hello from go-smpp") [].

(** [main]: the exit status and what is printed; [dial], [bind] and [submit] are the results
    of the calls of the client. *)
Definition esme_main (dial : option GoError) (bind : option GoError) (submit : GoError + SubmitSMResp) : Z * bytes :=
  match dial, bind, submit with
  | Some _, _, _ | None, Some _, _ | None, None, inl _ => (1, [])
  | None, None, inr resp => (0, octets_of_string "message_id=" ++ ssr_MessageID resp ++ [10])
  end.

(** ** Requests that reach a program *)

(** The handler of the sessions works off requests, from any of them and in any order;
    nobody limits the binds. *)
Fixpoint handle_all (h : dispatchHandler Z) (w : Z) (g : bindGuard Z) (pdus : list DecodedPDU)
    : Z * list (called (Response * option GoError)) :=
  match pdus with
  | [] => (w, [])
  | pdu :: pdus =>
      let '(w, g, r) := Handle (fun _ w => w) h None w g pdu in
      let '(w, rs) := handle_all h w g pdus in (w, r :: rs)
  end.

Definition is_submit (pdu : DecodedPDU) : bool :=
  (CommandID (pdu_Header pdu) =? CommandSubmitSM) && match pdu_Body pdu with AVal (VSubmitSM _) => true | _ => false end.
Definition is_bind (pdu : DecodedPDU) : option BindRequest :=
  if isBindRequest (CommandID (pdu_Header pdu))
  then match pdu_Body pdu with AVal (VBindRequest q) => Some q | _ => None end else None.
(** The message_id of an accepted submit. *)
Definition message_id (r : called (Response * option GoError)) : option bytes :=
  match r with
  | Returned (response, None) =>
      match rsp_Body response with
      | AVal (VSubmitSMResp v) => if OK (rsp_Status response) then Some (ssr_MessageID v) else None
      | _ => None
      end
  | _ => None
  end.
Definition no_limiter : bindGuard Z := MkGuard None 0 0 0 0.

(** ** What the example SMSC does *)

Definition accepted (r : called (Response * option GoError)) : bool :=
  match r with Returned (response, None) => OK (rsp_Status response) | _ => false end.

Lemma decimal_inj a b : 0 <= a -> 0 <= b -> decimal a = decimal b -> a = b.
Proof.
  intros Ha Hb He. unfold decimal, octets_of_string in He.
  assert (Hinj : forall l1 l2, map (fun c => Z.of_N (Ascii.N_of_ascii c)) l1 = map (fun c => Z.of_N (Ascii.N_of_ascii c)) l2 -> l1 = l2).
  { induction l1 as [|x l1 IH]; intros [|y l2] H; try done. cbn in H. injection H as Hx Hl.
    apply N2Z.inj in Hx. apply (f_equal Ascii.ascii_of_N) in Hx. rewrite !Ascii.ascii_N_embedding in Hx.
    f_equal; auto. }
  apply Hinj in He. apply (f_equal String.string_of_list_ascii) in He.
  rewrite !String.string_of_list_ascii_of_string in He. apply (base.inj pretty) in He. lia.
Qed.

Definition smsc_dispatch : dispatchHandler Z :=
  MkDispatch (Some (AuthenticatorFunc (Some smsc_authenticator))) (Some (SubmitHandlerFunc (Some smsc_submit))) None.

Lemma submit_command c : (c =? CommandSubmitSM) = true -> isBindRequest c = false.
Proof. by intros ->%Z.eqb_eq. Qed.

(** One request: the guard keeps its limiter, the counter moves for a submit. *)
Lemma smsc_step w g pdu : limiter g = None -> delay g = 0 ->
  exists g' r, Handle (fun _ w => w) smsc_dispatch None w g pdu =
      (if is_submit pdu then u64 (w + 1) else w, g', r) /\
    limiter g' = None /\ delay g' = 0 /\
    message_id r = (if is_submit pdu then Some (decimal (u64 (w + 1))) else None) /\
    accepted r = is_submit pdu ||
      match is_bind pdu with
      | Some q => bool_decide (brq_SystemID q = octets_of_string "esme") &&
                  bool_decide (brq_Password q = octets_of_string "secret")
      | None => false
      end.
Proof.
  destruct g as [lim dl a f t]. cbn [limiter delay]. intros -> ->. set (g := MkGuard None 0 a f t).
  unfold Handle, is_submit, is_bind. fold (isBindRequest (CommandID (pdu_Header pdu))).
  destruct (isBindRequest (CommandID (pdu_Header pdu))) eqn:Hb.
  - destruct (CommandID (pdu_Header pdu) =? CommandSubmitSM) eqn:Hs; [by rewrite (submit_command _ Hs) in Hb|].
    cbn [andb orb]. unfold handle_bind. destruct (pdu_Body pdu) as [|[]|v|k]; try (by exists g, (Returned (refuse StatusSystemError, None))).
    cbn [smsc_dispatch authenticator]. unfold bind_enter, authenticate, bind_exit, AuthenticatorFunc, smsc_authenticator, wait.
    cbn [add_attempt limiter delay g].
    destruct (bool_decide (brq_SystemID _ = _)), (bool_decide (brq_Password _ = _)); by eexists _, _.
  - cbn [orb]. destruct (CommandID (pdu_Header pdu) =? CommandSubmitSM) eqn:Hs; cbn [andb orb].
    + unfold handle_submit. destruct (pdu_Body pdu) as [|[]|v|k]; try (by exists g, (Returned (refuse StatusSystemError, None))).
      cbn. by eexists _, _.
    + unfold or_fallback. cbn. by eexists _, _.
Qed.

Lemma smsc_run pdus : forall w g, limiter g = None -> delay g = 0 -> 0 <= w ->
  w + zlen pdus < 2 ^ 64 ->
  let '(w', rs) := handle_all smsc_dispatch w g pdus in
  exists n : nat, w' = w + Z.of_nat n /\ omap message_id rs = map (fun i => decimal (w + Z.of_nat i)) (seq 1 n) /\
    Forall2 (fun pdu r => accepted r = is_submit pdu ||
      match is_bind pdu with
      | Some q => bool_decide (brq_SystemID q = octets_of_string "esme") &&
                  bool_decide (brq_Password q = octets_of_string "secret")
      | None => false
      end /\ (is_Some (message_id r) <-> is_submit pdu = true)) pdus rs.
Proof.
  induction pdus as [|pdu pdus IH]; intros w g Hl Hd Hw Hlt; cbn [handle_all].
  - exists 0%nat. split_and!; [lia|done|constructor].
  - destruct (smsc_step w g pdu Hl Hd) as (g' & r & -> & Hl' & Hd' & Hid & Hacc). cbn [length] in Hlt.
    assert (Hu : u64 (w + 1) = w + 1) by (unfold u64; rewrite Z.mod_small; lia). rewrite Hu in *.
    specialize (IH (if is_submit pdu then w + 1 else w) g' Hl' Hd').
    destruct (handle_all _ _ g' pdus) as [w' rs]. destruct IH as (n & -> & Hids & Hall); [destruct (is_submit pdu); lia..|].
    destruct (is_submit pdu) eqn:Hs.
    + exists (S n). split_and!; [lia| |].
      * cbn [omap list_omap seq map]. rewrite Hid. change (Z.of_nat 1) with 1. f_equal.
        rewrite Hids, <- (seq_shift n 1), map_map. apply map_ext. intros i. f_equal. lia.
      * constructor; [|done]. split; [by rewrite Hs|]. rewrite Hid, Hs. split; eauto.
    + exists n. split_and!; [done| |].
      * cbn [omap list_omap]. rewrite Hid. exact Hids.
      * constructor; [|done]. split; [by rewrite Hs|]. rewrite Hid, Hs. by split; [intros []|].
Qed.

(** The example SMSC.  Whatever requests its sessions hand it, in any order and from
    any session: it accepts a bind exactly when the system_id is "esme" and the password
    "secret", accepts every submit_sm and refuses everything else; and as long as there
    are fewer than 2^64 requests, no two accepted messages get the same message_id. *)
Theorem smsc_answers pdus : zlen pdus < 2 ^ 64 ->
  exists h, smsc_handler = Some h /\
  let '(_, rs) := handle_all h 0 no_limiter pdus in
  NoDup (omap message_id rs) /\
  Forall2 (fun pdu r => accepted r = is_submit pdu ||
    match is_bind pdu with
    | Some q => bool_decide (brq_SystemID q = octets_of_string "esme") &&
                bool_decide (brq_Password q = octets_of_string "secret")
    | None => false
    end /\ (is_Some (message_id r) <-> is_submit pdu = true)) pdus rs.
Proof.
  intros Hl. exists smsc_dispatch. split; [done|].
  pose proof (smsc_run pdus 0 no_limiter eq_refl eq_refl ltac:(lia) Hl) as H.
  destruct (handle_all smsc_dispatch 0 no_limiter pdus) as [w rs]. destruct H as (n & _ & -> & Hall). split; [|done].
  apply NoDup_fmap_2_strong; [|apply NoDup_seq]. intros i j _ _ He. apply decimal_inj in He; lia.
Qed.

Definition esme_requests : list DecodedPDU :=
  [MkDecodedPDU (MkHeader 0 CommandBindTransceiver 0 1) (AVal (VBindRequest esme_bind));
   MkDecodedPDU (MkHeader 0 CommandSubmitSM 0 2) (AVal (VSubmitSM esme_submit));
   MkDecodedPDU (MkHeader 0 CommandSubmitSM 0 3) (AVal (VSubmitSM esme_submit))].

(** The example ESME is served by the example SMSC: it prints message_id=1. *)
Lemma smsc_answers_witness :
  omap message_id (handle_all smsc_dispatch 0 no_limiter esme_requests).2 = [[49]; [50]] /\
  NoDup (omap message_id (handle_all smsc_dispatch 0 no_limiter esme_requests).2).
Proof.
  split; [vm_compute; reflexivity|].
  destruct (smsc_answers esme_requests) as (h & Hh & H); [vm_compute; reflexivity|].
  injection Hh as <-. fold smsc_dispatch in H.
  destruct (handle_all smsc_dispatch 0 no_limiter esme_requests) as [w rs]. apply H.
Defined.

(** The simulator accepts every bind and every submit_sm, and counts the submits. *)
Lemma simulator_accepts fl w g pdu : limiter g = None ->
  exists h g' r, sim_handler fl = Some h /\
    Handle (fun _ w => w) h None w g pdu = (if is_submit pdu then u64 (w + 1) else w, g', r) /\
    accepted r = is_submit pdu || match is_bind pdu with Some _ => true | None => false end.
Proof.
  destruct g as [lim dl a f t]. cbn [limiter]. intros ->. set (g := MkGuard None dl a f t).
  eexists. unfold Handle, is_submit, is_bind. fold (isBindRequest (CommandID (pdu_Header pdu))).
  destruct (isBindRequest (CommandID (pdu_Header pdu))) eqn:Hb.
  - destruct (CommandID (pdu_Header pdu) =? CommandSubmitSM) eqn:Hs; [by rewrite (submit_command _ Hs) in Hb|].
    cbn [andb orb]. unfold handle_bind.
    destruct (pdu_Body pdu) as [|[]|v|k]; try (by exists g, (Returned (refuse StatusSystemError, None))).
    by eexists _, _.
  - cbn [orb]. destruct (CommandID (pdu_Header pdu) =? CommandSubmitSM) eqn:Hs; cbn [andb orb].
    + unfold handle_submit. destruct (pdu_Body pdu) as [|[]|v|k]; try (by exists g, (Returned (refuse StatusSystemError, None))).
      by eexists _, _.
    + by eexists _, _.
Qed.

(** [NewWithConfig] makes the sessions of a server SMSC sessions. *)
Definition smsc_role (c : Requests.Config) : Requests.Config :=
  MkConfig RoleSMSC (cf_Profile c) (cf_Registry c) (cf_MaxPDUSize c) (cf_MaxPending c)
    (cf_MaxDeferredResponses c) (cf_WindowSize c) (cf_ResponseTimeout c)
    (cf_SessionInitTimeout c) (cf_EnquireLinkInterval c) (cf_EnquireLinkTimeout c)
    (cf_InactivityTimeout c) (cf_WriteTimeout c) (cf_TXQueueSize c)
    (cf_TXBatchItems c) (cf_TXBatchBytes c) (cf_ReadBufferSize c).

(** The session of a valid configuration. *)
Lemma New_valid c now :
  Role_valid (cf_Role c) = true -> cf_Profile c = SMPP34Profile -> cf_MaxPDUSize c = 0 \/ 16 <= cf_MaxPDUSize c ->
  exists cfg f s, New c now = Ok (cfg, f, s) /\ normalized c cfg /\ started cfg now f s /\
    cf_Role cfg = cf_Role c.
Proof.
  intros Hr Hp Hm. pose proof (New_started c now) as H. unfold started_or_refused in H.
  destruct (New c now) as [[[cfg f] s]|e|]; [|exfalso|done].
  - destruct H as (? & ? & ?). by exists cfg, f, s.
  - destruct H as [[H _]|[(_ & H & _)|(? & ? & _)]]; [congruence|by rewrite Hp in H|lia].
Qed.

(** The configurations of the programs make sessions; those of the simulator have the
    checks of a silent link switched off, and a window of the size it was told. *)
Lemma programs_start now fl :
  fl_maxPDU fl = 0 \/ 16 <= fl_maxPDU fl < 4294967296 -> 0 < fl_window fl ->
  (exists cfg f s, New (smsc_role (sim_config fl)) now = Ok (cfg, f, s) /\
     cf_WindowSize cfg = fl_window fl /\ cf_MaxPending cfg = fl_window fl /\
     cf_InactivityTimeout cfg = 0 /\ cf_EnquireLinkInterval cfg = 0) /\
  (exists cfg f s, New (smsc_role smsc_config) now = Ok (cfg, f, s) /\
     cf_EnquireLinkTimeout cfg = 10 * second /\ cf_InactivityTimeout cfg = 120 * second) /\
  (exists cfg f s, New (Client.esme_config esme_session_config) now = Ok (cfg, f, s) /\
     cf_EnquireLinkTimeout cfg = 10 * second).
Proof.
  intros Hm Hw. split_and!.
  - destruct (New_valid (smsc_role (sim_config fl)) now) as (cfg & f & s & He & Hn & _ & _); [done|done| |].
    { change (u32 (fl_maxPDU fl) = 0 \/ 16 <= u32 (fl_maxPDU fl)). unfold u32. rewrite Z.mod_small by lia. lia. }
    exists cfg, f, s. split; [done|].
    destruct (nz_window _ _ Hn) as (_ & Hw' & _), (nz_pending _ _ Hn) as [_ Hp],
      (nz_inactivity _ _ Hn) as (_ & _ & _ & Hi), (nz_enquire _ _ Hn) as (_ & _ & _ & Hq).
    specialize (Hw' Hw). split_and!; [done| |by apply Hi|by apply Hq].
    rewrite Hw' in Hp. apply Hp. done.
  - destruct (New_valid (smsc_role smsc_config) now) as (cfg & f & s & He & Hn & _ & _); [done|done|by left|].
    exists cfg, f, s. split; [done|].
    destruct (nz_inactivity _ _ Hn) as (_ & Hi & _), (nz_enquire_timeout _ _ Hn) as (_ & _ & Hq & _).
    split; [by apply Hq|by apply Hi].
  - destruct (New_valid (Client.esme_config esme_session_config) now) as (cfg & f & s & He & Hn & _ & _);
      [done|done|by left|].
    exists cfg, f, s. split; [done|]. destruct (nz_enquire_timeout _ _ Hn) as (_ & Hq & _). by apply Hq.
Qed.

(** ** The report of the simulator *)

(** The totals a run of ticks reads, and its times, in order. *)
Definition totals (events : list stats_event) : list Z :=
  omap (fun e => match e with Tick _ _ n => Some n | CtxDone => None end) events.
Definition tick_times (events : list stats_event) : list Z :=
  omap (fun e => match e with Tick t _ _ => Some t | CtxDone => None end) events.
Definition ticks (events : list stats_event) : Prop := Forall (fun e => e <> CtxDone) events.

(** Between ticks every submit is counted in one line: each line has the totals of its
    own tick, and the rate is the submits since the line before over the time since
    then.  With the end of the context the loop returns, and so does [main]. *)
Lemma report_lines events : ticks events -> forall previous at',
  (reportStats previous at' (events ++ [CtxDone])).2 = true /\
  map st_submits (reportStats previous at' (events ++ [CtxDone])).1 = totals events /\
  forall rest now metrics n line, events = rest ++ [Tick now metrics n] ->
    last (reportStats previous at' (events ++ [CtxDone])).1 = Some line ->
    st_rate line = report_rate n (default previous (last (totals rest)))
      (Seconds (Sub now (default at' (last (tick_times rest))))).
Proof.
  induction 1 as [|e events He _ IH]; intros previous at'.
  { split_and!; [done..|]. intros rest now metrics n line H. by destruct rest. }
  destruct e as [t m n|]; [|done]. cbn [app reportStats]. destruct (report_sums m) as [[rq rs] fl].
  specialize (IH n t). destruct (reportStats n t (events ++ [CtxDone])) as [lines closed]. cbn [fst snd] in *.
  destruct IH as (-> & Hl & Hrate). split_and!; [done|cbn; by rewrite Hl|].
  intros rest now metrics n' line Hev Hlast. destruct rest as [|x rest].
  - injection Hev as -> -> -> ->. cbn in Hl. apply map_eq_nil in Hl as ->. by injection Hlast as <-.
  - injection Hev as <- ->.
    assert (Hne : lines <> []).
    { intros ->. cbn in Hl. unfold totals in Hl. rewrite omap_app in Hl. by apply app_cons_not_nil in Hl. }
    destruct lines as [|l lines]; [done|]. rewrite (Hrate rest now metrics n' line eq_refl Hlast).
    change (tick_times (Tick t m n :: rest)) with (t :: tick_times rest).
    change (totals (Tick t m n :: rest)) with (n :: totals rest). rewrite !last_cons.
    by destruct (last (totals rest)), (last (tick_times rest)).
Qed.

Lemma sim_exits fl load now events : fl_tlsCert fl = "" -> fl_tlsKey fl = "" -> ticks events ->
  sim_main fl load None None now (events ++ [CtxDone]) = Some 0.
Proof.
  intros Hc Hk Ht. unfold sim_main. rewrite Hc, Hk. cbn. destruct (0 <? _); [|done].
  destruct (report_lines events Ht 0 now) as (-> & _). done.
Qed.
